(** * CacheSC: the Prime+Probe data structure, embedded and verified

    A shallow embedding of the C sources of the CacheSC library
    (cache_types.h, cache.h, cache.c, addr_translation.c, util.c and
    device_conf.h) together with the properties their specification states.

    Conventions of the embedding.
    - A pointer is its address, a [Z]; [NULL] is [0].
    - The memory that holds [cacheline] records is a finite map from
      addresses to records; dereferencing an address that holds no record
      is undefined behaviour in C and is the outcome [Fault] here.
    - Unsigned machine integers are [Z] with the wrap-around written out
      ([u16], [u32], [u64]).
    - A failed [assert] is the outcome [AssertFail].
    - Loops whose termination depends on the data ([do ... while] over a
      linked ring) take a step budget and end in [OutOfFuel] when it is
      used up.
    - What the hardware or the operating system decides ([rand()], the
      cycle counter, the page-frame map, [pread]) is an explicit oracle.
    - A [double] is a binary64 float of the kernel; every operation rounds
      to nearest, as the code compiled without contraction does. *)

From Stdlib Require Import ZArith List Lia.
From Stdlib Require Floats Uint63.
From stdpp Require Import base tactics option list gmap.

Local Open Scope Z_scope.

(** ** Outcomes of a C computation *)

Inductive result (A : Type) : Type :=
| Ret (a : A)
| AssertFail
| Fault
| OutOfFuel.

Arguments Ret {A} a.
Arguments AssertFail {A}.
Arguments Fault {A}.
Arguments OutOfFuel {A}.

#[global] Instance result_ret : MRet result := @Ret.
#[global] Instance result_bind : MBind result := λ A B f r,
  match r with
  | Ret a => f a
  | AssertFail => AssertFail
  | Fault => Fault
  | OutOfFuel => OutOfFuel
  end.

(** [assert(b)] *)
Definition c_assert (b : bool) : result unit :=
  if b then Ret tt else AssertFail.

(** ** Machine integers *)

Definition u16 (x : Z) : Z := x mod 2 ^ 16.
Definition u32 (x : Z) : Z := x mod 2 ^ 32.
Definition u64 (x : Z) : Z := x mod 2 ^ 64.

Definition UINT32_MAX : Z := 2 ^ 32 - 1.
Definition NULL : Z := 0.

(** ** device_conf.h *)

Definition PAGE_SIZE : Z := 4096.
Definition CACHELINE_SIZE : Z := 64.
Definition CACHE_GROUP_SIZE : Z := PAGE_SIZE / CACHELINE_SIZE.

Definition L1_ADDRESSING : Z := 0.
Definition L1_SETS : Z := 64.
Definition L1_ASSOCIATIVITY : Z := 8.
Definition L1_ACCESS_TIME : Z := 4.

Definition L2_ADDRESSING : Z := 1.
Definition L2_SETS : Z := 512.
Definition L2_ASSOCIATIVITY : Z := 8.
Definition L2_ACCESS_TIME : Z := 12.

Definition L3_ACCESS_TIME : Z := 30.

(** cache.h *)
Definition COLLISION_REP : Z := 100.

(** ** cache_types.h: the data model *)

(** [enum cache_level {L1, L2}]: a C enumeration is an integer type, so a
    caller can pass any integer; the enumerators are [0] and [1]. *)
Definition L1 : Z := 0.
Definition L2 : Z := 1.

(** [enum addressing_type {VIRTUAL, PHYSICAL}] *)
Definition VIRTUAL : Z := 0.
Definition PHYSICAL : Z := 1.

Record cache_ctx : Type := {
  cache_level : Z;
  addressing : Z;
  sets : Z;
  associativity : Z;
  access_time : Z;
  nr_of_cachelines : Z;
  set_size : Z;
  cache_size : Z
}.

Record cacheline : Type := {
  next : Z;
  prev : Z;
  cache_set : Z;
  flags : Z;
  time_msrmt : Z
}.

Definition set_next (c : cacheline) (v : Z) : cacheline :=
  {| next := v; prev := prev c; cache_set := cache_set c;
     flags := flags c; time_msrmt := time_msrmt c |}.
Definition set_prev (c : cacheline) (v : Z) : cacheline :=
  {| next := next c; prev := v; cache_set := cache_set c;
     flags := flags c; time_msrmt := time_msrmt c |}.
Definition set_cache_set (c : cacheline) (v : Z) : cacheline :=
  {| next := next c; prev := prev c; cache_set := v;
     flags := flags c; time_msrmt := time_msrmt c |}.
Definition set_flags (c : cacheline) (v : Z) : cacheline :=
  {| next := next c; prev := prev c; cache_set := cache_set c;
     flags := v; time_msrmt := time_msrmt c |}.
Definition set_time_msrmt (c : cacheline) (v : Z) : cacheline :=
  {| next := next c; prev := prev c; cache_set := cache_set c;
     flags := flags c; time_msrmt := v |}.

(** The memory holding cacheline records. *)
Abbreviation heap := (gmap Z cacheline).

(** [*p] for a [cacheline *p] *)
Definition load (h : heap) (p : Z) : result cacheline :=
  match h !! p with
  | Some c => Ret c
  | None => Fault
  end.

(** [p->next = v], [p->prev = v], ... *)
Definition store_next (h : heap) (p v : Z) : result heap :=
  c ← load h p; Ret (<[p := set_next c v]> h).
Definition store_prev (h : heap) (p v : Z) : result heap :=
  c ← load h p; Ret (<[p := set_prev c v]> h).
Definition store_cache_set (h : heap) (p v : Z) : result heap :=
  c ← load h p; Ret (<[p := set_cache_set c v]> h).
Definition store_flags (h : heap) (p v : Z) : result heap :=
  c ← load h p; Ret (<[p := set_flags c v]> h).
Definition store_time_msrmt (h : heap) (p v : Z) : result heap :=
  c ← load h p; Ret (<[p := set_time_msrmt c v]> h).

(** ** cache_types.h: list operations *)

(** [cl_replace(new_cl, old_cl)]: four assignments, each reading
    [old_cl]'s fields from the memory as the previous ones left it. *)
Definition cl_replace (new_cl old_cl : Z) (h : heap) : result heap :=
  o ← load h old_cl;
  h1 ← store_prev h (next o) new_cl;
  o ← load h1 old_cl;
  h2 ← store_next h1 (prev o) new_cl;
  o ← load h2 old_cl;
  h3 ← store_next h2 new_cl (next o);
  o ← load h3 old_cl;
  store_prev h3 new_cl (prev o).

(** [cl_insert(last_cl, new_cl)] *)
Definition cl_insert (last_cl new_cl : Z) (h : heap) : result heap :=
  if decide (last_cl = NULL) then
    h1 ← store_next h new_cl new_cl;
    store_prev h1 new_cl new_cl
  else
    l ← load h last_cl;
    h1 ← store_next h new_cl (next l);
    h2 ← store_prev h1 new_cl last_cl;
    l ← load h2 last_cl;
    h3 ← store_prev h2 (next l) new_cl;
    store_next h3 last_cl new_cl.

(** [cl_remove(cl)] *)
Definition cl_remove (cl : Z) (h : heap) : result heap :=
  c ← load h cl;
  h1 ← (if decide (prev c ≠ NULL) then store_next h (prev c) (next c) else Ret h);
  c ← load h1 cl;
  if decide (next c ≠ NULL) then store_prev h1 (next c) (prev c) else Ret h1.

(** Example memories used to run the code. *)
Definition mk_line (n p s : Z) : cacheline :=
  {| next := n; prev := p; cache_set := s; flags := 0; time_msrmt := 0 |}.

(** A ring of three lines 4096 -> 4160 -> 4224 -> 4096 and a loose line at 256. *)
Definition heap3 : heap :=
  list_to_map [(4096, mk_line 4160 4224 0); (4160, mk_line 4224 4096 1);
               (4224, mk_line 4096 4160 2); (4288, mk_line 0 0 0)].

(** A singleton ring at 4096 and a loose line at 4288. *)
Definition heap1 : heap :=
  list_to_map [(4096, mk_line 4096 4096 0); (4288, mk_line 0 0 0)].


(** [p->next] and [p->prev] as partial functions of the memory. *)
Definition next_of (h : heap) (p : Z) : option Z := next <$> h !! p.
Definition prev_of (h : heap) (p : Z) : option Z := prev <$> h !! p.


(** ** Control structures *)

(** [do { s = body(s); } while (cond(s));] with a step budget. *)
Fixpoint do_while {St : Type} (fuel : nat) (body : St → result St)
    (cond : St → bool) (s : St) : result St :=
  match fuel with
  | O => OutOfFuel
  | S fuel' =>
      s' ← body s;
      if cond s' then do_while fuel' body cond s' else Ret s'
  end.

(** The body of a loop run over the successive values of its counter. *)
Fixpoint foldM {A St : Type} (body : A → St → result St) (l : list A)
    (s : St) : result St :=
  match l with
  | [] => Ret s
  | x :: l' => s' ← body x s; foldM body l' s'
  end.

(** [for (uint32_t i = 0; i < hi; ++i) s = body(i, s);] where [hi] is a
    [uint32_t] too: the counter reaches [hi] before it can wrap, so the
    loop runs its body for [i = 0, ..., hi - 1]. *)
Definition for_range {St : Type} (hi : Z) (body : Z → St → result St)
    (s : St) : result St :=
  foldM body (seqZ 0 hi) s.

(** [for (uint16_t i = 0; i < hi; ++i) s = body(i, s);] where [hi] is a
    [uint32_t]: the 16-bit counter wraps to [0] after [65535], so the loop
    does not end when [hi > 65535]. *)
Fixpoint for_u16 {St : Type} (fuel : nat) (i hi : Z)
    (body : Z → St → result St) (s : St) : result St :=
  match fuel with
  | O => OutOfFuel
  | S fuel' =>
      if decide (i < hi) then
        s' ← body i s; for_u16 fuel' (u16 (i + 1)) hi body s'
      else Ret s
  end.

(** [for (uint32_t i = start; i > 0; --i) s = body(i, s);] *)
Fixpoint for_down {St : Type} (i : nat) (body : Z → St → result St)
    (s : St) : result St :=
  match i with
  | O => Ret s
  | S i' => s' ← body (Z.of_nat i) s; for_down i' body s'
  end.

(** ** Arrays *)

(** [arr[i]] and [arr[i] = x] on an array of [length arr] elements; an
    access outside the array is undefined behaviour. *)
Definition arr_get {A : Type} (arr : list A) (i : Z) : result A :=
  if decide (0 ≤ i) then
    match arr !! Z.to_nat i with
    | Some x => Ret x
    | None => Fault
    end
  else Fault.

Definition arr_set {A : Type} (arr : list A) (i : Z) (x : A) : result (list A) :=
  if decide (0 ≤ i < Z.of_nat (length arr)) then Ret (<[Z.to_nat i := x]> arr)
  else Fault.

(** An array cell that [malloc] returned and nobody wrote yet holds no
    value; reading it is undefined behaviour. *)
Definition arr_get_init {A : Type} (arr : list (option A)) (i : Z) : result A :=
  o ← arr_get arr i;
  match o with
  | Some x => Ret x
  | None => Fault
  end.

(** ** cache_types.h: context *)

(** [get_cache_ctx(cache_level)].  [malloc_ok] tells whether [malloc]
    returned a block; the returned pointer is [Some ctx], or [None] for
    [NULL]. *)
Definition get_cache_ctx (malloc_ok : bool) (cache_level : Z)
    : result (option cache_ctx) :=
  _ ← c_assert malloc_ok;
  let fill (a s w t : Z) :=
    let nr := u32 (s * w) in
    let ss := u32 (CACHELINE_SIZE * w) in
    {| cache_level := cache_level; addressing := a; sets := s;
       associativity := w; access_time := t;
       nr_of_cachelines := nr; set_size := ss;
       cache_size := u32 (s * ss) |} in
  if decide (cache_level = L1) then
    Ret (Some (fill L1_ADDRESSING L1_SETS L1_ASSOCIATIVITY L1_ACCESS_TIME))
  else if decide (cache_level = L2) then
    Ret (Some (fill L2_ADDRESSING L2_SETS L2_ASSOCIATIVITY L2_ACCESS_TIME))
  else
    Ret None.

(** [SET_MASK(SETS)], on [uintptr_t] *)
Definition SET_MASK (SETS : Z) : Z :=
  Z.lxor (u64 (u64 (SETS * CACHELINE_SIZE) - 1)) (CACHELINE_SIZE - 1).

(** [remove_cache_set(ctx, ptr)] and [remove_cache_group_set(ptr)]:
    [ptr & ~SET_MASK(...)] on 64-bit addresses. *)
Definition remove_cache_set (ctx : cache_ctx) (ptr : Z) : Z :=
  Z.land ptr (u64 (Z.lnot (SET_MASK (sets ctx)))).
Definition remove_cache_group_set (ptr : Z) : Z :=
  Z.land ptr (u64 (Z.lnot (SET_MASK CACHE_GROUP_SIZE))).

(** [get_cache_set_helper(sets, ptr)] and [get_virt_cache_set(ctx, ptr)] *)
Definition get_cache_set_helper (sets ptr : Z) : Z :=
  u16 (Z.land ptr (SET_MASK sets) / CACHELINE_SIZE).
Definition get_virt_cache_set (ctx : cache_ctx) (ptr : Z) : Z :=
  get_cache_set_helper (sets ctx) ptr.

(** [get_cache_ds_len(cache_ds)]: the state is the counter, the current
    line and whether the loop was left by [break]. *)
Definition get_cache_ds_len (fuel : nat) (h : heap) (cache_ds : Z) : result Z :=
  '(cnt, _, _) ← do_while fuel
    (λ '(cnt, curr_cl, _),
       if decide (curr_cl = NULL) then Ret (cnt, curr_cl, true)
       else c ← load h curr_cl; Ret (u32 (cnt + 1), prev c, false))
    (λ '(_, curr_cl, brk), negb brk && bool_decide (curr_cl ≠ cache_ds))
    (0, cache_ds, false);
  Ret cnt.

(** ** cache.h: priming *)

(** [prime(head)]; [cpuid] and [mfence] only order the accesses. *)
Definition prime (fuel : nat) (h : heap) (head : Z) : result Z :=
  curr_cl ← do_while fuel
    (λ curr_cl, c ← load h curr_cl; Ret (next c))
    (λ curr_cl, bool_decide (curr_cl ≠ head))
    head;
  c ← load h curr_cl;
  Ret (prev c).

(** [prime_rev(head)] *)
Definition prime_rev (fuel : nat) (h : heap) (head : Z) : result Z :=
  curr_cl ← do_while fuel
    (λ curr_cl, c ← load h curr_cl; Ret (prev c))
    (λ curr_cl, bool_decide (curr_cl ≠ head))
    head;
  c ← load h curr_cl;
  Ret (prev c).

(** ** Rings *)

(** [chain f l z]: [f] maps each element of [l] to the element after it and
    the last one to [z]. *)
Fixpoint chain (f : Z → option Z) (l : list Z) (z : Z) : Prop :=
  match l with
  | [] => True
  | p :: l' => f p = Some (hd z l') ∧ chain f l' z
  end.

(** [ring h l]: the lines [l], all different, form a doubly linked ring in
    the order of the list: following [next] from the first line runs
    through [l] and back to the first line, and following [prev] runs
    through [l] backwards. *)
Definition ring (h : heap) (l : list Z) : Prop :=
  l ≠ [] ∧ NoDup l ∧
  chain (next_of h) l (hd 0 l) ∧
  chain (prev_of h) (reverse l) (hd 0 (reverse l)).

(** One step of a walk along the links [f]: [curr = curr->link]. *)
Definition walk_body (f : Z → option Z) (curr : Z) : result Z :=
  match f curr with
  | Some q => Ret q
  | None => Fault
  end.


(** ** The allocator *)

(** The memory of the process: the cacheline records it holds and the
    blocks the allocator handed out (base address and size in bytes). *)
Record mem : Type := {
  cells : heap;
  blocks : gmap Z Z
}.

(** [free(p)]: [free(NULL)] does nothing; freeing an address that is not
    the base of a live block is undefined behaviour; the records of a freed
    block are gone. *)
Definition free (p : Z) (m : mem) : result mem :=
  if decide (p = NULL) then Ret m
  else
    match blocks m !! p with
    | None => Fault
    | Some sz =>
        Ret {| cells := filter (λ kv, ¬ (p ≤ kv.1 < p + sz)) (cells m);
               blocks := delete p (blocks m) |}
    end.

(** ** cache.c: release *)

(** [release_cache_ds(ctx, cache_ds)].  [malloc_ok] tells whether the
    [malloc] of [ptrs_to_free] returned a block. *)
Definition release_cache_ds (fuel : nat) (malloc_ok : bool) (ctx : cache_ctx)
    (cache_ds : Z) (m : mem) : result mem :=
  if decide (cache_ds = NULL) then Ret m
  else if decide (addressing ctx = VIRTUAL) then
    free (remove_cache_set ctx cache_ds) m
  else
    let ptrs_to_free : list (option Z) :=
      replicate (Z.to_nat (cache_size ctx / PAGE_SIZE)) None in
    _ ← c_assert malloc_ok;
    '(_, ptrs_to_free, ptrs_to_free_idx) ← do_while fuel
      (λ '(curr_cl, ptrs_to_free, ptrs_to_free_idx),
         c ← load (cells m) curr_cl;
         let next_cl := next c in
         let cl_base := remove_cache_group_set curr_cl in
         add_ptr ← for_range ptrs_to_free_idx
           (λ i add_ptr,
              p ← arr_get_init ptrs_to_free i;
              Ret (add_ptr && bool_decide (cl_base ≠ p)))
           true;
         if add_ptr : bool then
           ptrs_to_free ← arr_set ptrs_to_free ptrs_to_free_idx (Some cl_base);
           Ret (next_cl, ptrs_to_free, u32 (ptrs_to_free_idx + 1))
         else Ret (next_cl, ptrs_to_free, ptrs_to_free_idx))
      (λ '(next_cl, _, _), bool_decide (next_cl ≠ cache_ds))
      (cache_ds, ptrs_to_free, 0);
    for_range ptrs_to_free_idx
      (λ i m, p ← arr_get_init ptrs_to_free i; free p m)
      m.

(** [release_cache_set_ds(ctx, cache_set_ds)] *)
Definition release_cache_set_ds (fuel : nat) (malloc_ok : bool)
    (ctx : cache_ctx) (cache_set_ds : Z) (m : mem) : result mem :=
  if decide (addressing ctx = VIRTUAL) then
    free (remove_cache_set ctx cache_set_ds) m
  else release_cache_ds fuel malloc_ok ctx cache_set_ds m.

(** A memory with the three-line ring and the loose line in one page-sized
    block at address 4096. *)
Definition mem3 : mem :=
  {| cells := heap3; blocks := {[ 4096 := 4096 ]} |}.

Definition ctx_L2 : cache_ctx :=
  {| cache_level := L2; addressing := L2_ADDRESSING; sets := L2_SETS;
     associativity := L2_ASSOCIATIVITY; access_time := L2_ACCESS_TIME;
     nr_of_cachelines := 4096; set_size := 512; cache_size := 262144 |}.

Definition ctx_L1 : cache_ctx :=
  {| cache_level := L1; addressing := L1_ADDRESSING; sets := L1_SETS;
     associativity := L1_ASSOCIATIVITY; access_time := L1_ACCESS_TIME;
     nr_of_cachelines := 512; set_size := 512; cache_size := 32768 |}.

(** ** addr_translation.c *)

Record PagemapEntry : Type := {
  pfn : Z;
  soft_dirty : Z;
  file_page : Z;
  swapped : Z;
  present : Z
}.

(** What the operating system answers: the page size
    [sysconf(_SC_PAGE_SIZE)], whether [open] of [/proc/PID/pagemap] gave a
    descriptor, and [pread(fd, &data, count, offset)], which from the
    number of bytes asked for, the offset and the present content of the
    buffer [data] yields its return value and the new content of [data]. *)
Record os : Type := {
  page_size : Z;
  open_pagemap : bool;
  pread : Z → Z → Z → Z * Z
}.

(** The [while (nread < sizeof(data))] loop of [pagemap_get_entry]; [None]
    is [return 1], [Some data] the buffer when the loop is left.  Every
    turn that does not return adds at least one to [nread], so eight turns
    are always enough. *)
Fixpoint pagemap_read_loop (n : nat) (e : os) (vpn nread data : Z)
    : result (option Z) :=
  if decide (nread < 8) then
    match n with
    | O => OutOfFuel
    | S n' =>
        let '(ret, data) := pread e (u64 (8 - nread)) (u64 (vpn * 8 + nread)) data in
        let nread := u64 (nread + ret) in
        if decide (ret ≤ 0) then Ret None
        else pagemap_read_loop n' e vpn nread data
    end
  else Ret (Some data).

(** [pagemap_get_entry(entry, pagemap_fd, vaddr)]: [None] is the return
    value 1, [Some entry] the return value 0 with [*entry] filled.  [data0]
    is what the uninitialised buffer holds. *)
Definition pagemap_get_entry (e : os) (data0 vaddr : Z)
    : result (option PagemapEntry) :=
  let vpn := vaddr / page_size e in
  r ← pagemap_read_loop 8 e vpn 0 data0;
  match r with
  | None => Ret None
  | Some data =>
      Ret (Some {| pfn := Z.land data (Z.shiftl 1 54 - 1);
                   soft_dirty := Z.land (Z.shiftr data 54) 1;
                   file_page := Z.land (Z.shiftr data 61) 1;
                   swapped := Z.land (Z.shiftr data 62) 1;
                   present := Z.land (Z.shiftr data 63) 1 |})
  end.

(** [get_phys_addr(paddr, vaddr)]: the result is the return value and the
    content of [*paddr] afterwards; [paddr] is its content before. *)
Definition get_phys_addr (e : os) (data0 paddr vaddr : Z) : result (Z * Z) :=
  if negb (open_pagemap e) then Ret (1, paddr)
  else
    r ← pagemap_get_entry e data0 vaddr;
    match r with
    | None => Ret (1, paddr)
    | Some entry =>
        if decide (pfn entry = 0) then Ret (1, paddr)
        else Ret (0, u64 (pfn entry * page_size e + vaddr mod page_size e))
    end.

(** A page-frame map all of whose entries read [data] in one piece. *)
Definition os_const (data : Z) : os :=
  {| page_size := 4096; open_pagemap := true;
     pread := λ count _ _, (count, data) |}.

(** ** util.c *)

Definition RAND_MAX : Z := 2147483647.

(** [rand()]: the source of randomness is a sequence [rnd] of integers and
    the number [k] of values drawn so far; the [k]-th value is folded into
    [0 .. RAND_MAX]. *)
Definition rand (rnd : nat → Z) (k : nat) : Z * nat :=
  (rnd k mod (RAND_MAX + 1), S k).

(** [swap(arr + e1, arr + e2)] *)
Definition swap (arr : list Z) (e1 e2 : Z) : result (list Z) :=
  tmp ← arr_get arr e1;
  v2 ← arr_get arr e2;
  arr ← arr_set arr e1 v2;
  arr_set arr e2 tmp.

(** [random_perm(arr, arr_len)]: the counter starts at the [uint32_t]
    value [arr_len - 1]. *)
Definition random_perm (rnd : nat → Z) (arr : list Z) (arr_len : Z) (k : nat)
    : result (list Z * nat) :=
  for_down (Z.to_nat (u32 (arr_len - 1)))
    (λ i '(arr, k),
       let '(r, k) := rand rnd k in
       let swap_idx := u32 r mod i in
       arr ← swap arr i swap_idx;
       Ret (arr, k))
    (arr, k).

(** [gen_random_indices(arr, arr_len)] *)
Definition gen_random_indices (rnd : nat → Z) (arr : list Z) (arr_len : Z)
    (k : nat) : result (list Z * nat) :=
  arr ← for_range arr_len (λ i arr, arr_set arr i i) arr;
  random_perm rnd arr arr_len k.

(** [is_in_arr(elem, arr, arr_len)]: the loop over the indices [idxs] still
    to visit; it returns at the first match. *)
Fixpoint is_in_arr_from (elem : Z) (arr : list Z) (idxs : list Z)
    : result bool :=
  match idxs with
  | [] => Ret false
  | i :: idxs' =>
      a ← arr_get arr i;
      if decide (a = elem) then Ret true else is_in_arr_from elem arr idxs'
  end.

Definition is_in_arr (elem : Z) (arr : list Z) (arr_len : Z) : result bool :=
  is_in_arr_from elem arr (seqZ 0 arr_len).

(** [get_max(arr, arr_len)] and [get_min(arr, arr_len)] *)
Definition get_max (arr : list Z) (arr_len : Z) : result Z :=
  for_range arr_len
    (λ i max, a ← arr_get arr i; Ret (if decide (a > max) then a else max))
    0.

Definition get_min (arr : list Z) (arr_len : Z) : result Z :=
  for_range arr_len
    (λ i min, a ← arr_get arr i; Ret (if decide (a < min) then a else min))
    UINT32_MAX.

(** The shuffle as the specification words it: for [i] from [arr_len - 1]
    down to [1], exchange the entries at [i] and at [r mod i], [r] being
    the next random value. *)
Definition exchange (l : list Z) (i j : nat) : list Z :=
  match l !! i, l !! j with
  | Some xi, Some xj => <[j := xi]> (<[i := xj]> l)
  | _, _ => l
  end.

Fixpoint shuffle_spec (rnd : nat → Z) (i : nat) (k : nat) (l : list Z) : list Z :=
  match i with
  | O => l
  | S i' =>
      let r := rnd k mod (RAND_MAX + 1) in
      shuffle_spec rnd i' (S k) (exchange l i (Z.to_nat (r mod Z.of_nat i)))
  end.

(** [while (cond(s)) s = body(s);] with a step budget. *)
Fixpoint while_loop {St : Type} (fuel : nat) (cond : St → bool)
    (body : St → result St) (s : St) : result St :=
  if cond s then
    match fuel with
    | O => OutOfFuel
    | S fuel' => s' ← body s; while_loop fuel' cond body s'
    end
  else Ret s.

(** The first [n] turns of [while (cond(s)) s = body(s);], or all of them
    when the loop ends before. *)
Fixpoint while_steps {St : Type} (n : nat) (cond : St → bool)
    (body : St → result St) (s : St) : result St :=
  match n with
  | O => Ret s
  | S n' => if cond s then s' ← body s; while_steps n' cond body s' else Ret s
  end.

(** ** cache_types.h: flags *)

Definition SET_BIT (b i : Z) : Z := Z.lor b (Z.shiftl 1 i).
Definition GET_BIT (b i : Z) : Z :=
  Z.land (Z.shiftr (Z.land b (Z.shiftl 1 i)) i) 1.
Definition DEFAULT_FLAGS : Z := 0.
Definition SET_FIRST (flags : Z) : Z := SET_BIT flags 0.
Definition SET_LAST (flags : Z) : Z := SET_BIT flags 1.
Definition SET_CACHE_GROUP_INIT (flags : Z) : Z := SET_BIT flags 2.
Definition IS_FIRST (flags : Z) : Z := GET_BIT flags 0.
Definition IS_LAST (flags : Z) : Z := GET_BIT flags 1.
Definition IS_CACHE_GROUP_INIT (flags : Z) : Z := GET_BIT flags 2.

(** ** cache_types.h: physical sets *)

(** [get_phys_cache_set(ctx, ptr)]; [junk] is what the uninitialised
    locals hold. *)
Definition get_phys_cache_set (e : os) (junk : Z) (ctx : cache_ctx) (ptr : Z)
    : result Z :=
  '(ret, paddr) ← get_phys_addr e junk junk ptr;
  _ ← c_assert (bool_decide (ret = 0));
  if decide (paddr = 0) then AssertFail
  else Ret (get_cache_set_helper (sets ctx) paddr).

(** ** cache.c: the privileged builder for physical addressing *)

(** The variables of [allocate_cache_ds_phys_priv]. *)
Record builder : Type := {
  b_cells : heap;
  cl_ptr_arr : list (option Z);
  cl_ptr_idx : Z;
  cnt_lines_per_set : list Z;
  cls_to_del : Z
}.

(** [memset(cl_candidates, 0, PAGE_SIZE)] on a fresh page: its
    [CACHE_GROUP_SIZE] lines are all zero. *)
Definition memset_page (page : Z) (h : heap) : heap :=
  foldr (λ i h, <[page + i * CACHELINE_SIZE := mk_line 0 0 0]> h) h
        (seqZ 0 CACHE_GROUP_SIZE).

(** One turn of the [while] loop of [allocate_cache_ds_phys_priv], for the
    page [cl_candidates] that [aligned_alloc] returned. *)
Definition priv_page (e : os) (junk : Z) (ctx : cache_ctx) (cl_candidates : Z)
    (st : builder) : result builder :=
  _ ← c_assert (bool_decide (cl_candidates ≠ NULL));
  let h := memset_page cl_candidates (b_cells st) in
  s0 ← get_phys_cache_set e junk ctx cl_candidates;
  cnt0 ← arr_get (cnt_lines_per_set st) s0;
  if decide (cnt0 < associativity ctx) then
    for_range CACHE_GROUP_SIZE
      (λ i st,
         let cl := cl_candidates + i * CACHELINE_SIZE in
         s ← get_phys_cache_set e junk ctx cl;
         h ← store_cache_set (b_cells st) cl s;
         arr ← arr_set (cl_ptr_arr st) (cl_ptr_idx st) (Some cl);
         c ← load h cl;
         v ← arr_get (cnt_lines_per_set st) (cache_set c);
         cnt ← arr_set (cnt_lines_per_set st) (cache_set c) (u32 (v + 1));
         Ret {| b_cells := h; cl_ptr_arr := arr;
                cl_ptr_idx := u32 (cl_ptr_idx st + 1);
                cnt_lines_per_set := cnt; cls_to_del := cls_to_del st |})
      {| b_cells := h; cl_ptr_arr := cl_ptr_arr st;
         cl_ptr_idx := cl_ptr_idx st;
         cnt_lines_per_set := cnt_lines_per_set st;
         cls_to_del := cls_to_del st |}
  else
    h ← store_prev h cl_candidates (cls_to_del st);
    Ret {| b_cells := h; cl_ptr_arr := cl_ptr_arr st;
           cl_ptr_idx := cl_ptr_idx st;
           cnt_lines_per_set := cnt_lines_per_set st;
           cls_to_del := cl_candidates |}.

(** The state in which [allocate_cache_ds_phys_priv] enters its loop. *)
Definition priv_init (ctx : cache_ctx) (h : heap) (arr : list (option Z))
    (del : Z) : builder :=
  {| b_cells := h; cl_ptr_arr := arr; cl_ptr_idx := 0;
     cnt_lines_per_set := replicate (Z.to_nat (sets ctx)) 0;
     cls_to_del := del |}.

(** The condition and the body of the [while] loop of
    [allocate_cache_ds_phys_priv]: [aligned_alloc n] is the page the
    [n]-th call of [aligned_alloc(PAGE_SIZE, PAGE_SIZE)] returns ([NULL]
    when it fails); the state carries the number of calls made. *)
Definition priv_cond (ctx : cache_ctx) : builder * nat → bool :=
  λ '(st, _), bool_decide (cl_ptr_idx st < nr_of_cachelines ctx).

Definition priv_turn (e : os) (junk : Z) (aligned_alloc : nat → Z)
    (ctx : cache_ctx) : builder * nat → result (builder * nat) :=
  λ '(st, n), st ← priv_page e junk ctx (aligned_alloc n) st; Ret (st, S n).

(** [allocate_cache_ds_phys_priv(ctx, cl_ptr_arr, cls_to_del)]. *)
Definition allocate_cache_ds_phys_priv (fuel : nat) (e : os) (junk : Z)
    (aligned_alloc : nat → Z) (ctx : cache_ctx) (h : heap)
    (cl_ptr_arr0 : list (option Z)) (cls_to_del0 : Z) : result (builder * nat) :=
  while_loop fuel (priv_cond ctx) (priv_turn e junk aligned_alloc ctx)
    (priv_init ctx h cl_ptr_arr0 cls_to_del0, O).

(** The variables of [allocate_cache_ds_phys_priv] after the first [n]
    turns of its loop (after the last one when it ends before), with the
    number of pages asked for. *)
Definition priv_turns (n : nat) (e : os) (junk : Z)
    (aligned_alloc : nat → Z) (ctx : cache_ctx) (h : heap)
    (cl_ptr_arr0 : list (option Z)) (cls_to_del0 : Z) : result (builder * nat) :=
  while_steps n (priv_cond ctx) (priv_turn e junk aligned_alloc ctx)
    (priv_init ctx h cl_ptr_arr0 cls_to_del0, O).

(** An allocator that hands out the pages from 8192 on, one after the
    other. *)
Definition aligned_alloc_example (n : nat) : Z := 8192 + PAGE_SIZE * Z.of_nat n.

(** The states the loop of the privileged builder can be in: the initial
    one (with an array of [nr_of_cachelines] pointers), and the one after a
    turn taken from such a state while lines are still missing, for any
    page-aligned candidate and any answer of an operating system whose
    page size is [PAGE_SIZE]. *)
Inductive priv_reachable (ctx : cache_ctx) : builder → Prop :=
| priv_reachable_init h arr del :
    Z.of_nat (length arr) = nr_of_cachelines ctx →
    priv_reachable ctx (priv_init ctx h arr del)
| priv_reachable_step e junk page st st' :
    priv_reachable ctx st →
    cl_ptr_idx st < nr_of_cachelines ctx →
    0 ≤ page → page mod PAGE_SIZE = 0 →
    page_size e = PAGE_SIZE →
    priv_page e junk ctx page st = Ret st' →
    priv_reachable ctx st'.

(** A geometry of a physically indexed cache: the number of sets is a power
    of two between [CACHE_GROUP_SIZE] and [2 ^ 16], and the derived number
    of lines is [sets * associativity] (as [get_cache_ctx] fills it). *)
Definition phys_geometry (ctx : cache_ctx) (m : Z) : Prop :=
  sets ctx = 2 ^ m ∧ 6 ≤ m ≤ 16 ∧
  0 ≤ associativity ctx ∧
  nr_of_cachelines ctx = sets ctx * associativity ctx ∧
  nr_of_cachelines ctx < 2 ^ 32.

(** The physical set of the [i]-th line slot of a page in frame [frame]. *)
Definition slot_set (ctx : cache_ctx) (frame i : Z) : Z :=
  get_cache_set_helper (sets ctx) (frame * PAGE_SIZE + i * CACHELINE_SIZE).

(** ** cache.h / cache.c: collision detection *)

(** [probe_full_ds(head)]: the walk is what the code does; the number of
    cycles [stop_timer] stores is what the hardware reports, [tsc t] for the
    [t]-th measurement of the run. *)
Definition probe_full_ds (fuel : nat) (tsc : nat → Z) (h : heap) (head : Z)
    (t : nat) : result (Z * nat) :=
  _ ← do_while fuel
    (λ curr_cl, c ← load h curr_cl; Ret (prev c))
    (λ curr_cl, bool_decide (curr_cl ≠ head))
    head;
  Ret (u32 (tsc t), S t).

(** The conversion of a [uint32_t] to [double]; it is exact, every
    32-bit integer is a [double]. *)
Definition double_of_u32 (x : Z) : PrimFloat.float :=
  PrimFloat.of_uint63 (Uint63.of_Z x).

(** [get_avg(arr, arr_len)]: the running average
    [avg = ((i * avg) + arr[i]) / (i + 1)] in [double]; the product, the
    sum and the quotient are each rounded. *)
Definition get_avg (arr : list Z) (arr_len : Z) : result PrimFloat.float :=
  for_range arr_len
    (λ i avg,
       a ← arr_get arr i;
       Ret (PrimFloat.div
              (PrimFloat.add (PrimFloat.mul (double_of_u32 i) avg)
                             (double_of_u32 a))
              (double_of_u32 (u32 (i + 1)))))
    (double_of_u32 0).

(** The loop [for (i = 0; i < COLLISION_REP; ++i) { ...; time[i] =
    probe_full_ds(head); }] of [has_collision]; [touch] is the candidate
    that [readq] loads first in the baseline loop, [None] in the test
    loop. *)
Definition measure (fuel : nat) (tsc : nat → Z) (h : heap) (touch : option Z)
    (head : Z) (time : list Z) (t : nat) : result (list Z * nat) :=
  for_range COLLISION_REP
    (λ i '(time, t),
       _ ← match touch with
           | Some cl_candidate => _ ← load h cl_candidate; Ret tt
           | None => Ret tt
           end;
       _ ← prime_rev fuel h head;
       '(v, t) ← probe_full_ds fuel tsc h head t;
       time ← arr_set time i v;
       Ret (time, t))
    (time, t).

(** [has_collision(ctx, cl_candidate, cache_set_ds, cache_set_ds_len)].
    The state is the memory and the number of measurements made; the array
    [time] is written in full before it is read, so what it holds at first
    does not matter.  The comparison is made in [double], with the
    [uint32_t] sum on its right converted. *)
Definition has_collision (fuel : nat) (tsc : nat → Z) (ctx : cache_ctx)
    (cl_candidate cache_set_ds cache_set_ds_len : Z) (st : heap * nat)
    : result (bool * (heap * nat)) :=
  let time0 := replicate (Z.to_nat COLLISION_REP) 0 in
  '(_, collisions_overall, _, h, t) ← do_while fuel
    (λ '(cl_head, collisions_overall, time, h, t),
       '(time, t) ← measure fuel tsc h (Some cl_candidate) cl_head time t;
       baseline_time ← get_min time COLLISION_REP;
       h ← cl_replace cl_candidate cl_head h;
       '(time, t) ← measure fuel tsc h None cl_candidate time t;
       avg ← get_avg time COLLISION_REP;
       let collisions_overall :=
         if PrimFloat.leb
              (double_of_u32 (u32 (u32 (baseline_time + L3_ACCESS_TIME)
                                   - L2_ACCESS_TIME)))
              avg
         then u32 (collisions_overall + 1) else collisions_overall in
       h ← cl_replace cl_head cl_candidate h;
       c ← load h cl_head;
       Ret (next c, collisions_overall, time, h, t))
    (λ '(cl_head, _, _, _, _), bool_decide (cl_head ≠ cache_set_ds))
    (cache_set_ds, 0 : Z, time0, st.1, st.2);
  Ret (bool_decide
         (u32 (cache_set_ds_len - associativity ctx) ≤ collisions_overall),
       (h, t)).

(** ** cache.c: the sanity check *)

(** The final loop of [cache_ds_sanity_check]: [return 1] at the first set
    with a wrong number of lines, [return 0] after the last set. *)
Fixpoint check_line_cnt (idxs : list Z) (line_cnt_arr : list Z) (assoc : Z)
    : result Z :=
  match idxs with
  | [] => Ret 0
  | i :: idxs' =>
      v ← arr_get line_cnt_arr i;
      if decide (v ≠ assoc) then Ret 1
      else check_line_cnt idxs' line_cnt_arr assoc
  end.

(** [cache_ds_sanity_check(ctx, head)] *)
Definition cache_ds_sanity_check (fuel : nat) (ctx : cache_ctx) (h : heap)
    (head : Z) : result Z :=
  let line_cnt_arr := replicate (Z.to_nat (sets ctx)) 0 in
  '(_, line_cnt_arr) ← do_while fuel
    (λ '(curr_cl, line_cnt_arr),
       c ← load h curr_cl;
       let curr_cl := next c in
       c ← load h curr_cl;
       v ← arr_get line_cnt_arr (cache_set c);
       line_cnt_arr ← arr_set line_cnt_arr (cache_set c) (u32 (v + 1));
       Ret (curr_cl, line_cnt_arr))
    (λ '(curr_cl, _), bool_decide (curr_cl ≠ head))
    (head, line_cnt_arr);
  check_line_cnt (seqZ 0 (sets ctx)) line_cnt_arr (associativity ctx).

(** ** cache.c: building the ring *)

(** [build_randomized_list_for_cache_set(ctx, cacheline_ptr_arr)] where
    [cacheline_ptr_arr] is [cl_ptr_arr_sorted + off].  The state is the
    memory and the number of random values drawn. *)
Definition build_randomized_list_for_cache_set (fuel : nat) (rnd : nat → Z)
    (ctx : cache_ctx) (cl_ptr_arr_sorted : list (option Z)) (off : Z)
    (st : heap * nat) : result (heap * nat) :=
  let len := associativity ctx in
  let cacheline_ptr_arr (j : Z) := arr_get_init cl_ptr_arr_sorted (off + j) in
  '(idx_map, k) ←
    gen_random_indices rnd (replicate (Z.to_nat len) 0) len st.2;
  h ← for_u16 fuel 0 len
    (λ i h,
       j ← arr_get idx_map i;
       curr_cl ← cacheline_ptr_arr j;
       j ← arr_get idx_map ((i + 1) mod len);
       n ← cacheline_ptr_arr j;
       h ← store_next h curr_cl n;
       j ← arr_get idx_map (u32 (len - 1 + i) mod len);
       p ← cacheline_ptr_arr j;
       h ← store_prev h curr_cl p;
       h ← store_time_msrmt h curr_cl 0;
       first ← cacheline_ptr_arr 0;
       if decide (curr_cl = first) then
         h ← store_flags h curr_cl (SET_FIRST DEFAULT_FLAGS);
         c ← load h curr_cl;
         store_flags h (prev c) (SET_LAST DEFAULT_FLAGS)
       else
         c ← load h curr_cl;
         store_flags h curr_cl (Z.lor (flags c) DEFAULT_FLAGS))
    st.1;
  Ret (h, k).

(** [build_cache_ds(ctx, cl_ptr_arr)]: [cl_ptr_arr_sorted] comes from
    [malloc] and holds nothing at first. *)
Definition build_cache_ds (fuel : nat) (rnd : nat → Z) (ctx : cache_ctx)
    (cl_ptr_arr : list Z) (st : heap * nat) : result (Z * (heap * nat)) :=
  let set_len := associativity ctx in
  let cl_ptr_arr_sorted0 : list (option Z) :=
    replicate (Z.to_nat (nr_of_cachelines ctx)) None in
  let idx_per_set0 := replicate (Z.to_nat (sets ctx)) 0 in
  (* Build ptr list sorted by sets *)
  '(cl_ptr_arr_sorted, _) ← for_range (nr_of_cachelines ctx)
    (λ i '(cl_ptr_arr_sorted, idx_per_set),
       p ← arr_get cl_ptr_arr i;
       c ← load st.1 p;
       let set_offset := u32 (cache_set c * set_len) in
       idx_curr_set ← arr_get idx_per_set (cache_set c);
       cl_ptr_arr_sorted ←
         arr_set cl_ptr_arr_sorted (u32 (set_offset + idx_curr_set)) (Some p);
       idx_per_set ←
         arr_set idx_per_set (cache_set c) (u32 (idx_curr_set + 1));
       Ret (cl_ptr_arr_sorted, idx_per_set))
    (cl_ptr_arr_sorted0, idx_per_set0);
  (* Build doubly linked list for every set *)
  st ← for_range (sets ctx)
    (λ set st,
       let set_offset := u32 (set * set_len) in
       build_randomized_list_for_cache_set fuel rnd ctx cl_ptr_arr_sorted
         set_offset st)
    st;
  (* Relink the sets among each other *)
  '(idx_map, k) ←
    gen_random_indices rnd (replicate (Z.to_nat (sets ctx)) 0) (sets ctx) st.2;
  let first_of (j : Z) := arr_get_init cl_ptr_arr_sorted (u32 (j * set_len)) in
  j0 ← arr_get idx_map 0;
  f0 ← first_of j0;
  c ← load st.1 f0;
  '(h, _) ← for_u16 fuel 0 (sets ctx)
    (λ i '(h, curr_cl),
       j ← arr_get idx_map ((i + 1) mod sets ctx);
       n ← first_of j;
       h ← store_next h curr_cl n;
       c ← load h curr_cl;
       cn ← load h (next c);
       let next_cl := prev cn in
       c ← load h curr_cl;
       h ← store_prev h (next c) curr_cl;
       Ret (h, next_cl))
    (st.1, prev c);
  j0 ← arr_get idx_map 0;
  cache_ds ← first_of j0;
  Ret (cache_ds, (h, k)).

(** [prepare_cache_ds(ctx)].  [allocate_cache_ds] takes its memory from
    the allocator and, for physical addressing, tags the lines by what the
    page-frame map or the cycle counter tell; what it leaves, the memory
    and the array [cacheline_ptr_arr], is the argument [allocated]. *)
Definition prepare_cache_ds (fuel : nat) (rnd : nat → Z) (ctx : cache_ctx)
    (allocated : heap * list Z) (k : nat) : result (Z * (heap * nat)) :=
  let '(h, cacheline_ptr_arr) := allocated in
  '(cache_ds, st) ← build_cache_ds fuel rnd ctx cacheline_ptr_arr (h, k);
  r ← cache_ds_sanity_check fuel ctx st.1 cache_ds;
  _ ← c_assert (bool_decide (r = 0));
  Ret (cache_ds, st).

(** The virtually indexed branch of [allocate_cache_ds]: [cl_arr] is the
    block [aligned_alloc(PAGE_SIZE, ctx->cache_size)] returned and [h]
    the memory with the (uninitialised) lines of that block. *)
Definition allocate_cache_ds_virtual (ctx : cache_ctx) (cl_arr : Z) (h : heap)
    : result (heap * list Z) :=
  _ ← c_assert (bool_decide (cl_arr ≠ NULL));
  for_range (nr_of_cachelines ctx)
    (λ i '(h, cl_ptr_arr),
       let cl := cl_arr + i * CACHELINE_SIZE in
       h ← store_cache_set h cl (get_virt_cache_set ctx cl);
       Ret (h, cl_ptr_arr ++ [cl]))
    (h, []).

(** A small geometry to run the builder on: 4 sets of 2 lines. *)
Definition ctx_small : cache_ctx :=
  {| cache_level := L1; addressing := VIRTUAL; sets := 4; associativity := 2;
     access_time := 4; nr_of_cachelines := 8; set_size := 128;
     cache_size := 512 |}.

(** A block of 8 lines at address 4096, with arbitrary content. *)
Definition heap_block8 : heap :=
  list_to_map ((λ i, (4096 + i * 64, mk_line 7 9 99)) <$> seqZ 0 8).

Definition rnd_example (k : nat) : Z := Z.of_nat k * 7 + 3.

(** ** The vocabulary of the collision test *)

(** The [COLLISION_REP] cycle counts measured from the [t]-th measurement
    of the run on. *)
Definition samples (tsc : nat → Z) (t : nat) : list Z :=
  (λ i, u32 (tsc (t + i)%nat)) <$> seq 0 (Z.to_nat COLLISION_REP).

(** The minimum of a list of [uint32_t] values. *)
Definition minimum (l : list Z) : Z := foldr Z.min UINT32_MAX l.

(** A loop that reads an array from its first to its last element. *)
Fixpoint scan {St : Type} (g : Z → Z → St → St) (i : Z) (s : St) (l : list Z)
    : St :=
  match l with
  | [] => s
  | a :: l' => scan g (i + 1) (g i a s) l'
  end.

(** The running average of a list as [get_avg] computes it: element after
    element, in [double], every operation rounded.  It is the mean of the
    list up to these roundings. *)
Definition running_avg (l : list Z) : PrimFloat.float :=
  scan (λ i a avg,
          PrimFloat.div
            (PrimFloat.add (PrimFloat.mul (double_of_u32 i) avg)
                           (double_of_u32 a))
            (double_of_u32 (u32 (i + 1))))
       0 (double_of_u32 0) l.

(** The rotation whose first measurement is the [t]-th one votes
    collision: the running average of its [COLLISION_REP] test
    measurements is, in [double], at least the minimum of its
    [COLLISION_REP] baseline measurements plus
    [L3_ACCESS_TIME - L2_ACCESS_TIME] (a sum in [uint32_t]). *)
Definition rotation_votes (tsc : nat → Z) (t : nat) : bool :=
  PrimFloat.leb
    (double_of_u32 (u32 (u32 (minimum (samples tsc t) + L3_ACCESS_TIME)
                         - L2_ACCESS_TIME)))
    (running_avg (samples tsc (t + Z.to_nat COLLISION_REP))).

(** The number of rotations among the first [n] that vote collision, when
    the first rotation starts with measurement [t]; each rotation makes
    [2 * COLLISION_REP] measurements. *)
Definition votes (tsc : nat → Z) (t n : nat) : Z :=
  Z.of_nat (length (filter
    (λ k, rotation_votes tsc (t + 2 * Z.to_nat COLLISION_REP * k) = true)
    (seq 0 n))).

(** A cycle counter on which exactly the first rotation sees a slow test:
    measurements 100 to 199 take 1000 cycles, all others 100. *)
Definition tsc_example (t : nat) : Z :=
  if decide (100 ≤ t < 200)%nat then 1000 else 100.

(** A cycle counter on which the test of the first rotation takes 136
    cycles fifty times and then 100 cycles fifty times, and every other
    measurement 100 cycles: the mean of that test is exactly 118, the
    baseline plus [L3_ACCESS_TIME - L2_ACCESS_TIME]. *)
Definition tsc_rounding (t : nat) : Z :=
  if decide (100 ≤ t < 150)%nat then 136 else 100.

(** The per-set counter [cnt_lines_per_set[s]] of a builder state. *)
Definition counter (st : builder) (s : Z) : Z :=
  default 0 (cnt_lines_per_set st !! Z.to_nat s).

(** What holds of every state of the privileged builder: the arrays have
    their sizes, whole pages have been accepted, no counter exceeds the
    associativity and the counters of the sets of one cache group agree. *)
Definition priv_inv (ctx : cache_ctx) (st : builder) : Prop :=
  Z.of_nat (length (cl_ptr_arr st)) = nr_of_cachelines ctx ∧
  Z.of_nat (length (cnt_lines_per_set st)) = sets ctx ∧
  0 ≤ cl_ptr_idx st ∧ cl_ptr_idx st mod 64 = 0 ∧
  ∀ s, 0 ≤ s < sets ctx →
    0 ≤ counter st s ≤ associativity ctx ∧
    counter st s = counter st (64 * (s / 64)).

(** ** The vocabulary of the builder *)

(** [p->cache_set] as a partial function of the memory. *)
Definition tag_of (h : heap) (p : Z) : option Z := cache_set <$> h !! p.

(** The lines of [l] that are tagged with the set [s]. *)
Definition lines_of_set (h : heap) (s : Z) (l : list Z) : list Z :=
  filter (λ p, tag_of h p = Some s) l.

(** A geometry whose loops end: the 16-bit counters of the builder reach
    [sets] and [associativity], and the number of lines is their product. *)
Definition geometry_ok (ctx : cache_ctx) : Prop :=
  1 ≤ sets ctx ≤ 65535 ∧ 1 ≤ associativity ctx ≤ 65535 ∧
  nr_of_cachelines ctx = sets ctx * associativity ctx.

(** What [allocate_cache_ds] is to leave: [nr_of_cachelines] different
    lines, each tagged with a set of the cache, [associativity] of them
    per set. *)
Definition alloc_ok (ctx : cache_ctx) (h : heap) (arr : list Z) : Prop :=
  Z.of_nat (length arr) = nr_of_cachelines ctx ∧ NoDup arr ∧
  (∀ p, p ∈ arr → ∃ s, 0 ≤ s < sets ctx ∧ tag_of h p = Some s) ∧
  ∀ s, 0 ≤ s < sets ctx →
    Z.of_nat (length (lines_of_set h s arr)) = associativity ctx.

(** The lines of the block that [allocate_cache_ds] takes for a virtually
    indexed cache. *)
Definition block_lines (ctx : cache_ctx) (cl_arr : Z) : list Z :=
  (λ i, cl_arr + i * CACHELINE_SIZE) <$> seqZ 0 (nr_of_cachelines ctx).

(** The block of 8 lines at address 4096 as the virtually indexed branch of
    [allocate_cache_ds] leaves it for [ctx_small]: line [i] is tagged with
    set [i mod 4]. *)
Definition heap_tagged8 : heap :=
  list_to_map ((λ i, (4096 + i * 64, mk_line 7 9 (i mod 4))) <$> seqZ 0 8).

(** ** cache_types.h: further helpers *)

(** [get_cache_set(ctx, ptr)] *)
Definition get_cache_set (e : os) (junk : Z) (ctx : cache_ctx) (ptr : Z)
    : result Z :=
  if decide (addressing ctx = VIRTUAL) then Ret (get_virt_cache_set ctx ptr)
  else get_phys_cache_set e junk ctx ptr.

(** [get_spanned_cache_lines(ctx, size)]: [size] is a [uint64_t], the sum
    and the difference are taken in [uint64_t], and the quotient is stored
    in a [uint32_t]. *)
Definition get_spanned_cache_lines (ctx : cache_ctx) (size : Z) : Z :=
  let spanned_cache_lines :=
    u32 (u64 (u64 (size + CACHELINE_SIZE) - 1) / CACHELINE_SIZE) in
  if decide (spanned_cache_lines > nr_of_cachelines ctx) then
    nr_of_cachelines ctx
  else spanned_cache_lines.

(** ** util.c: random bytes *)

(** [gen_rand_bytes(arr, arr_len)] on an array of [unsigned char]. *)
Definition gen_rand_bytes (rnd : nat → Z) (arr : list Z) (arr_len : Z)
    (k : nat) : result (list Z * nat) :=
  for_range arr_len
    (λ i '(arr, k),
       let '(r, k) := rand rnd k in
       arr ← arr_set arr i (r mod 256);
       Ret (arr, k))
    (arr, k).

(** ** cache.h: measuring single lines *)

(** [p->time_msrmt] and [p->flags] as partial functions of the memory. *)
Definition time_of (h : heap) (p : Z) : option Z := time_msrmt <$> h !! p.
Definition flags_of (h : heap) (p : Z) : option Z := flags <$> h !! p.

(** [probe_all_cachelines(head)]: [accesstime(curr_cl)] loads the line and
    returns what the hardware reports, [tsc t] for the [t]-th measurement
    of the run, as a [uint32_t]. *)
Definition probe_all_cachelines (fuel : nat) (tsc : nat → Z) (h : heap)
    (head : Z) (t : nat) : result (Z * (heap * nat)) :=
  '(curr_cl, (h, t)) ← do_while fuel
    (λ '(curr_cl, (h, t)),
       h ← store_time_msrmt h curr_cl (u32 (tsc t));
       c ← load h curr_cl;
       Ret (prev c, (h, S t)))
    (λ '(curr_cl, _), bool_decide (curr_cl ≠ head))
    (head, (h, t));
  c ← load h curr_cl;
  Ret (next c, (h, t)).

(** [get_per_set_sum_of_msrmts(head, res)] *)
Definition get_per_set_sum_of_msrmts (fuel : nat) (h : heap) (head : Z)
    (res : list Z) : result (list Z) :=
  '(_, res) ← do_while fuel
    (λ '(curr_cl, res),
       c ← load h curr_cl;
       v ← arr_get res (cache_set c);
       res ← arr_set res (cache_set c) (u32 (v + time_msrmt c));
       Ret (next c, res))
    (λ '(curr_cl, _), bool_decide (curr_cl ≠ head))
    (head, res);
  Ret res.

(** [get_all_msrmts_in_order(head, res)] *)
Definition get_all_msrmts_in_order (fuel : nat) (h : heap) (head : Z)
    (res : list Z) : result (list Z) :=
  '(_, res, _) ← do_while fuel
    (λ '(curr_cl, res, idx),
       c ← load h curr_cl;
       res ← arr_set res idx (time_msrmt c);
       Ret (prev c, res, u32 (idx + 1)))
    (λ '(curr_cl, _, _), bool_decide (curr_cl ≠ head))
    (head, res, 0);
  Ret res.

(** [get_msrmts_for_all_set(head, res)] *)
Definition get_msrmts_for_all_set (fuel : nat) (h : heap) (head : Z)
    (res : list Z) : result (list Z) :=
  '(_, res) ← do_while fuel
    (λ '(curr_cl, res),
       c ← load h curr_cl;
       res ← (if decide (IS_FIRST (flags c) ≠ 0) then
                arr_set res (cache_set c) (time_msrmt c)
              else Ret res);
       Ret (prev c, res))
    (λ '(curr_cl, _), bool_decide (curr_cl ≠ head))
    (head, res);
  Ret res.

(** The sum of the measurements stored in the lines of [l] that are tagged
    with the set [s]. *)
Definition set_time_sum (h : heap) (s : Z) (l : list Z) : Z :=
  foldr Z.add 0 ((λ p, default 0 (time_of h p)) <$> lines_of_set h s l).

(** A line whose flags carry the mark of the first line of a set. *)
Definition first_flagged (h : heap) (p : Z) : Prop :=
  ∃ f, flags_of h p = Some f ∧ IS_FIRST f ≠ 0.

(** [get_msrmt_for_set(head, res)]; [res] is what [*res] holds. *)
Definition get_msrmt_for_set (fuel : nat) (h : heap) (head : Z) (res : Z)
    : result Z :=
  '(_, res) ← do_while fuel
    (λ '(curr_cl, res),
       c ← load h curr_cl;
       hd ← load h head;
       let res :=
         if decide (cache_set c = cache_set hd ∧ IS_FIRST (flags c) ≠ 0)
         then time_msrmt c else res in
       Ret (prev c, res))
    (λ '(curr_cl, _), bool_decide (curr_cl ≠ head))
    (head, res);
  Ret res.

(** A ring of two sets with two lines each, flagged as [build_cache_ds]
    leaves them, with measurements 11 to 14. *)
Definition heap_flagged4 : heap :=
  list_to_map
    [(4096, {| next := 4160; prev := 4288; cache_set := 0; flags := 1;
               time_msrmt := 11 |});
     (4160, {| next := 4224; prev := 4096; cache_set := 0; flags := 2;
               time_msrmt := 12 |});
     (4224, {| next := 4288; prev := 4160; cache_set := 1; flags := 1;
               time_msrmt := 13 |});
     (4288, {| next := 4096; prev := 4224; cache_set := 1; flags := 2;
               time_msrmt := 14 |})].

(** ** cache.c: the data structure of chosen sets *)

(** A line whose flags carry the mark of the last line of a set. *)
Definition last_flagged (h : heap) (p : Z) : Prop :=
  ∃ f, flags_of h p = Some f ∧ IS_LAST f ≠ 0.

(** The loop of [prepare_cache_set_ds] that collects the cache groups of
    the chosen sets, each once. *)
Definition collect_cache_groups (sets_arr : list Z) (sets_len : Z)
    (cache_groups : list Z) : result (list Z * Z) :=
  for_range sets_len
    (λ i '(cache_groups, cache_groups_len),
       s ← arr_get sets_arr i;
       b ← is_in_arr (s / CACHE_GROUP_SIZE) cache_groups cache_groups_len;
       if b : bool then Ret (cache_groups, cache_groups_len)
       else
         s ← arr_get sets_arr i;
         cache_groups ← arr_set cache_groups cache_groups_len
                          (s / CACHE_GROUP_SIZE);
         Ret (cache_groups, u32 (cache_groups_len + 1)))
    (cache_groups, 0).

(** The walk of [prepare_cache_set_ds] over the ring: it notes the first
    and the last line of every set and, for physical addressing, moves the
    lines of the cache groups that are not used to the list [to_del_cls]. *)
Definition extract_sets (fuel : nat) (ctx : cache_ctx) (cache_groups : list Z)
    (cache_groups_len : Z) (cache_ds : Z) (h : heap)
    (first_cl_in_sets last_cl_in_sets : list Z)
    : result (Z * heap * list Z * list Z * Z) :=
  do_while fuel
    (λ '(curr_cl, h, first_cl_in_sets, last_cl_in_sets, to_del_cls),
       c ← load h curr_cl;
       let next_cl := next c in
       first_cl_in_sets ←
         (if decide (IS_FIRST (flags c) ≠ 0)
          then arr_set first_cl_in_sets (cache_set c) curr_cl
          else Ret first_cl_in_sets);
       last_cl_in_sets ←
         (if decide (IS_LAST (flags c) ≠ 0)
          then arr_set last_cl_in_sets (cache_set c) curr_cl
          else Ret last_cl_in_sets);
       '(h, to_del_cls) ←
         (if decide (addressing ctx = PHYSICAL) then
            b ← is_in_arr (cache_set c / CACHE_GROUP_SIZE) cache_groups
                  cache_groups_len;
            if b : bool then Ret (h, to_del_cls)
            else h ← cl_insert to_del_cls curr_cl h; Ret (h, curr_cl)
          else Ret (h, to_del_cls));
       Ret (next_cl, h, first_cl_in_sets, last_cl_in_sets, to_del_cls))
    (λ '(curr_cl, _, _, _, _), bool_decide (curr_cl ≠ cache_ds))
    (cache_ds, h, first_cl_in_sets, last_cl_in_sets, NULL).

(** The loop of [prepare_cache_set_ds] that links the last line of every
    chosen set to the first line of the next chosen set. *)
Definition fix_partial_ds (sets_arr : list Z) (sets_len : Z)
    (first_cl_in_sets last_cl_in_sets : list Z) (h : heap) : result heap :=
  for_range sets_len
    (λ i h,
       s ← arr_get sets_arr i;
       l ← arr_get last_cl_in_sets s;
       s' ← arr_get sets_arr (u32 (i + 1) mod sets_len);
       f ← arr_get first_cl_in_sets s';
       h ← store_next h l f;
       store_prev h f l)
    h.

(** [prepare_cache_set_ds(ctx, sets, sets_len)].  As for
    [prepare_cache_ds], [allocated] is what [allocate_cache_ds] leaves, and
    [B] are the blocks it took from the allocator.  [first_ok], [last_ok]
    and [groups_ok] tell whether the allocator granted the three arrays,
    [groups0] is what the uninitialised block of [cache_groups] holds, and
    [malloc_ok] is passed on to [release_cache_ds]. *)
Definition prepare_cache_set_ds (fuel : nat) (rnd : nat → Z)
    (first_ok last_ok groups_ok malloc_ok : bool) (groups0 : list Z)
    (ctx : cache_ctx) (allocated : heap * list Z) (B : gmap Z Z)
    (sets_arr : list Z) (sets_len : Z) (k : nat)
    : result (Z * (mem * nat)) :=
  '(cache_ds, (h, k)) ← prepare_cache_ds fuel rnd ctx allocated k;
  let first_cl_in_sets := replicate (Z.to_nat (sets ctx)) NULL in
  let last_cl_in_sets := replicate (Z.to_nat (sets ctx)) NULL in
  _ ← c_assert first_ok;
  _ ← c_assert last_ok;
  _ ← c_assert groups_ok;
  '(cache_groups, cache_groups_len) ←
    collect_cache_groups sets_arr sets_len groups0;
  '(_, h, first_cl_in_sets, last_cl_in_sets, to_del_cls) ←
    extract_sets fuel ctx cache_groups cache_groups_len cache_ds h
      first_cl_in_sets last_cl_in_sets;
  h ← fix_partial_ds sets_arr sets_len first_cl_in_sets last_cl_in_sets h;
  s0 ← arr_get sets_arr 0;
  cache_set_ds ← arr_get first_cl_in_sets s0;
  m ← (if decide (addressing ctx = PHYSICAL)
       then release_cache_ds fuel malloc_ok ctx to_del_cls
              {| cells := h; blocks := B |}
       else Ret {| cells := h; blocks := B |});
  Ret (cache_set_ds, (m, k)).

(** [segment h l]: the lines [l], all different, follow each other along
    [next] and, backwards, along [prev]; where the ends point is open. *)
Definition segment (h : heap) (l : list Z) : Prop :=
  l ≠ [] ∧ NoDup l ∧ (∃ z, chain (next_of h) l z) ∧
  ∃ z, chain (prev_of h) (reverse l) z.

(** A geometry with as many sets as a page has lines: 64 sets of 2 lines. *)
Definition ctx_sets64 : cache_ctx :=
  {| cache_level := L1; addressing := VIRTUAL; sets := 64; associativity := 2;
     access_time := 4; nr_of_cachelines := 128; set_size := 128;
     cache_size := 8192 |}.

(** A block of 128 lines at address 4096, with arbitrary links and tags and
    no flag set, and the same block tagged as [allocate_cache_ds] tags
    it. *)
Definition heap_block128 : heap :=
  list_to_map ((λ i, (4096 + i * 64, mk_line 7 9 99)) <$> seqZ 0 128).

Definition heap_tagged128 : heap :=
  list_to_map ((λ i, (4096 + i * 64, mk_line 7 9 (i mod 64))) <$> seqZ 0 128).

(** ** victim.c *)

(** [prepare_victim(ctx, target_set)]: the parameters are those of
    [prepare_cache_set_ds], which is called with the one-element array
    [&target_set]. *)
Definition prepare_victim (fuel : nat) (rnd : nat → Z)
    (first_ok last_ok groups_ok malloc_ok : bool) (groups0 : list Z)
    (ctx : cache_ctx) (allocated : heap * list Z) (B : gmap Z Z)
    (target_set : Z) (k : nat) : result (Z * (mem * nat)) :=
  '(victim_set_ds, (m, k)) ←
    prepare_cache_set_ds fuel rnd first_ok last_ok groups_ok malloc_ok
      groups0 ctx allocated B [target_set] 1 k;
  let victim_cl := victim_set_ds in
  m ← (if decide (addressing ctx = PHYSICAL) then
         c ← load (cells m) victim_cl;
         '(_, m) ← do_while fuel
           (λ '(curr_cl, m),
              c ← load (cells m) curr_cl;
              let next_cl := next c in
              m ← free (remove_cache_group_set curr_cl) m;
              Ret (next_cl, m))
           (λ '(curr_cl, _), bool_decide (curr_cl ≠ victim_cl))
           (next c, m);
         Ret m
       else Ret m);
  Ret (victim_cl, (m, k)).

(** [release_victim(ctx, victim_cl)] *)
Definition release_victim (ctx : cache_ctx) (victim_cl : Z) (m : mem)
    : result mem :=
  if decide (addressing ctx = VIRTUAL) then
    free (remove_cache_set ctx victim_cl) m
  else free (remove_cache_group_set victim_cl) m.

(** A direct-mapped geometry: 64 sets of one line. *)
Definition ctx_direct64 : cache_ctx :=
  {| cache_level := L1; addressing := VIRTUAL; sets := 64; associativity := 1;
     access_time := 4; nr_of_cachelines := 64; set_size := 64;
     cache_size := 4096 |}.
(** * Properties *)

(** ** Memory access *)

Lemma load_Ret (h : heap) p c : h !! p = Some c → load h p = Ret c.
Proof. unfold load. by intros ->. Qed.

Lemma load_inv (h : heap) p c : load h p = Ret c → h !! p = Some c.
Proof. unfold load. destruct (h !! p); by inversion 1. Qed.

Lemma bind_Ret_inv {A B} (r : result A) (f : A → result B) b :
  r ≫= f = Ret b → ∃ a, r = Ret a ∧ f a = Ret b.
Proof. destruct r; simpl; try done. eauto. Qed.

Lemma bind_Ret {A B} (a : A) (f : A → result B) : Ret a ≫= f = f a.
Proof. reflexivity. Qed.

(** Rewriting with [bind_Ret] instead of reducing keeps the checking of
    long computations cheap. *)
Ltac ret_step := rewrite bind_Ret; cbv beta iota.

Ltac heap_step :=
  match goal with
  | |- context [load ?h ?p] =>
      first [ rewrite (load_Ret h p _ ltac:(eassumption))
            | unfold load ]
  | |- context [(<[?p := _]> _) !! ?p] => rewrite lookup_insert_eq
  | |- context [(<[?p := _]> _) !! ?q] =>
      rewrite (lookup_insert_ne _ p q) by congruence
  | H : ?h !! ?p = Some _ |- context [?h !! ?p] => rewrite H
  end.

Ltac heap_run :=
  unfold store_next, store_prev, store_cache_set, store_flags, store_time_msrmt;
  repeat (heap_step; simpl).

(** ** cl_insert *)

(** C7. [cl_insert(anchor, new)]: with a null anchor, [new] becomes a
    singleton ring ([new.next = new.prev = new]); otherwise [new] is spliced
    between the anchor and the anchor's former successor [n]: afterwards
    [anchor.next = new], [new.prev = anchor], [new.next = n] and
    [n.prev = new].  [new] is a line that is neither the anchor nor already
    its successor; every other line and every other field is untouched. *)
Theorem cl_insert_spec (h : heap) (anchor new : Z) (cn : cacheline) :
  h !! new = Some cn →
  (anchor = NULL →
     ∃ h', cl_insert anchor new h = Ret h' ∧
           next_of h' new = Some new ∧ prev_of h' new = Some new ∧
           (∀ p, p ≠ new → h' !! p = h !! p)) ∧
  (∀ ca cs,
     anchor ≠ NULL → h !! anchor = Some ca → h !! next ca = Some cs →
     new ≠ anchor → new ≠ next ca →
     ∃ h', cl_insert anchor new h = Ret h' ∧
           next_of h' anchor = Some new ∧
           prev_of h' new = Some anchor ∧
           next_of h' new = Some (next ca) ∧
           prev_of h' (next ca) = Some new ∧
           (∀ p, p ≠ new → p ≠ anchor → p ≠ next ca → h' !! p = h !! p)).
Proof.
  intros Hnew. split.
  - intros ->. unfold cl_insert, next_of, prev_of.
    rewrite decide_True by done.
    eexists. split; [heap_run; reflexivity|].
    repeat split; intros; by heap_run.
  - intros ca cs Hnn Ha Hs Hna Hns. unfold cl_insert, next_of, prev_of.
    rewrite decide_False by done.
    destruct (decide (next ca = anchor)) as [Heq|Hne].
    + assert (cs = ca) as -> by congruence.
      eexists. split; [heap_run; rewrite Heq; heap_run; reflexivity|].
      rewrite Heq. repeat split; intros; by heap_run.
    + eexists. split; [heap_run; reflexivity|].
      repeat split; intros; by heap_run.
Qed.

(** The theorem at work: the loose line 4288 becomes a ring of its own, and
    is spliced after line 4096 of the three-line ring. *)
Lemma cl_insert_spec_witness :
  (∃ h', cl_insert NULL 4288 heap3 = Ret h' ∧
         next_of h' 4288 = Some 4288 ∧ prev_of h' 4288 = Some 4288 ∧
         (∀ p, p ≠ 4288 → h' !! p = heap3 !! p)) ∧
  (∃ h', cl_insert 4096 4288 heap3 = Ret h' ∧
         next_of h' 4096 = Some 4288 ∧ prev_of h' 4288 = Some 4096 ∧
         next_of h' 4288 = Some 4160 ∧ prev_of h' 4160 = Some 4288 ∧
         (∀ p, p ≠ 4288 → p ≠ 4096 → p ≠ 4160 → h' !! p = heap3 !! p)).
Proof.
  split.
  - apply (cl_insert_spec heap3 NULL 4288 (mk_line 0 0 0)); reflexivity.
  - apply (proj2 (cl_insert_spec heap3 4096 4288 (mk_line 0 0 0) eq_refl)
             (mk_line 4160 4224 0) (mk_line 4224 4096 1));
      first [ reflexivity | discriminate ].
Defined.

(** ** cl_replace *)

(** What [cl_replace(new, old)] does when [old] has two neighbours other
    than itself and [new] is none of the three lines. *)
Lemma cl_replace_effect (h : heap) (new old : Z) (o cn cs cp : cacheline) :
  h !! old = Some o → h !! new = Some cn →
  h !! next o = Some cs → h !! prev o = Some cp →
  next o ≠ old → prev o ≠ old →
  new ≠ old → new ≠ next o → new ≠ prev o →
  ∃ h',
    cl_replace new old h = Ret h' ∧
    (∀ q, next_of h' q =
            if decide (q = new) then Some (next o)
            else if decide (q = prev o) then Some new
            else next_of h q) ∧
    (∀ q, prev_of h' q =
            if decide (q = new) then Some (prev o)
            else if decide (q = next o) then Some new
            else prev_of h q) ∧
    h' !! old = Some o ∧
    h' !! new = Some (set_prev (set_next cn (next o)) (prev o)) ∧
    (∀ q, q ≠ new → q ≠ next o → q ≠ prev o → h' !! q = h !! q) ∧
    (∀ q, cache_set <$> h' !! q = cache_set <$> h !! q).
Proof.
  intros Ho Hn Hs Hp Hso Hpo Hno Hns Hnp.
  unfold cl_replace, next_of, prev_of.
  destruct (decide (prev o = next o)) as [Heq|Hne].
  - assert (cp = cs) as -> by congruence.
    eexists. split; [heap_run; rewrite Heq; heap_run; reflexivity|].
    rewrite Heq.
    repeat split; try (intros; by heap_run); intros q;
      (destruct (decide (q = new)) as [->|?];
       [repeat case_decide; try done; by heap_run|]);
      (destruct (decide (q = next o)) as [->|?];
       [repeat case_decide; try done; by heap_run|]);
      repeat case_decide; try done; by heap_run.
  - eexists. split; [heap_run; reflexivity|].
    repeat split; try (intros; by heap_run); intros q;
      (destruct (decide (q = new)) as [->|?];
       [repeat case_decide; try done; by heap_run|]);
      (destruct (decide (q = next o)) as [->|?];
       [repeat case_decide; try done; by heap_run|]);
      (destruct (decide (q = prev o)) as [->|?];
       [repeat case_decide; try done; by heap_run|]);
      repeat case_decide; try done; by heap_run.
Qed.

(** Replacing back: the neighbours of [old] point to [old] again. *)
Lemma cl_replace_back (h : heap) (new old : Z) (o cn cs cp : cacheline) h' :
  h !! old = Some o → h !! new = Some cn →
  h !! next o = Some cs → h !! prev o = Some cp →
  prev cs = old → next cp = old →
  next o ≠ old → prev o ≠ old →
  new ≠ old → new ≠ next o → new ≠ prev o →
  cl_replace new old h = Ret h' →
  cl_replace old new h' =
    Ret (<[new := set_prev (set_next cn (next o)) (prev o)]> h).
Proof.
  intros Ho Hn Hs Hp Hback Hfwd Hso Hpo Hno Hns Hnp.
  unfold cl_replace.
  destruct (decide (prev o = next o)) as [Heq|Hne].
  - assert (cp = cs) as -> by congruence.
    heap_run. rewrite Heq. heap_run. intros [= <-].
    heap_run. rewrite Heq. heap_run. f_equal. apply map_eq. intros q.
    destruct (decide (q = old)) as [->|?];
      [heap_run; f_equal; destruct o; unfold set_prev, set_next;
       simpl in *; congruence|].
    destruct (decide (q = next o)) as [->|?];
      [heap_run; f_equal; destruct cs; unfold set_prev, set_next;
       simpl in *; congruence|].
    destruct (decide (q = new)) as [->|?]; by heap_run.
  - heap_run. intros [= <-].
    heap_run. f_equal. apply map_eq. intros q.
    destruct (decide (q = old)) as [->|?];
      [heap_run; f_equal; by destruct o|].
    destruct (decide (q = prev o)) as [->|?];
      [heap_run; f_equal; destruct cp; unfold set_prev, set_next;
       simpl in *; congruence|].
    destruct (decide (q = next o)) as [->|?];
      [heap_run; f_equal; destruct cs; unfold set_prev, set_next;
       simpl in *; congruence|].
    destruct (decide (q = new)) as [->|?]; by heap_run.
Qed.

(** C8.  When [old] is linked between two neighbours other than itself
    (its ring has at least two lines) and [new] is a line other than [old]
    and its two neighbours, [cl_replace(new, old)] makes
    [old]'s neighbours point to [new], copies [old]'s links into [new],
    leaves [old]'s record (and every line but [new] and the neighbours) as
    it was, and a following [cl_replace(old, new)] gives back the original
    memory except for the two link fields of [new]. *)
Theorem cl_replace_spec (h : heap) (new old : Z) (o cn cs cp : cacheline) :
  h !! old = Some o → h !! new = Some cn →
  h !! next o = Some cs → h !! prev o = Some cp →
  prev cs = old → next cp = old →
  next o ≠ old → prev o ≠ old →
  new ≠ old → new ≠ next o → new ≠ prev o →
  ∃ h',
    cl_replace new old h = Ret h' ∧
    next_of h' (prev o) = Some new ∧
    prev_of h' (next o) = Some new ∧
    next_of h' new = Some (next o) ∧
    prev_of h' new = Some (prev o) ∧
    h' !! old = Some o ∧
    (∀ p, p ≠ new → p ≠ next o → p ≠ prev o → h' !! p = h !! p) ∧
    cl_replace old new h' =
      Ret (<[new := set_prev (set_next cn (next o)) (prev o)]> h).
Proof.
  intros Ho Hn Hs Hp Hback Hfwd Hso Hpo Hno Hns Hnp.
  destruct (cl_replace_effect h new old o cn cs cp)
    as (h' & Hrun & Hnext & Hprev & Hold & _ & Hframe & _); try done.
  exists h'. split; [done|].
  split. { rewrite Hnext. rewrite decide_False by done.
           by rewrite decide_True. }
  split. { rewrite Hprev. rewrite decide_False by done.
           by rewrite decide_True. }
  split. { rewrite Hnext. by rewrite decide_True. }
  split. { rewrite Hprev. by rewrite decide_True. }
  split; [done|]. split; [done|].
  by eapply cl_replace_back.
Qed.

(** The theorem at work: line 4288 replaces line 4096 of the three-line ring
    and is replaced back. *)
Lemma cl_replace_spec_witness :
  ∃ h',
    cl_replace 4288 4096 heap3 = Ret h' ∧
    next_of h' 4224 = Some 4288 ∧
    prev_of h' 4160 = Some 4288 ∧
    next_of h' 4288 = Some 4160 ∧
    prev_of h' 4288 = Some 4224 ∧
    h' !! 4096 = Some (mk_line 4160 4224 0) ∧
    (∀ p, p ≠ 4288 → p ≠ 4160 → p ≠ 4224 → h' !! p = heap3 !! p) ∧
    cl_replace 4096 4288 h' = Ret (<[4288 := mk_line 4160 4224 0]> heap3).
Proof.
  apply (cl_replace_spec heap3 4288 4096 (mk_line 4160 4224 0) (mk_line 0 0 0)
           (mk_line 4224 4096 1) (mk_line 4096 4160 2));
    first [ reflexivity | discriminate ].
Defined.

(** Why the theorem asks for neighbours other than [old]: the four
    assignments are unguarded, and on a singleton ring, where [old] is its
    own neighbour, the first one, [old->next->prev = new], overwrites
    [old.prev].  The callers, [has_collision] and [identify_cache_sets],
    replace a line of a longer ring by a candidate off that ring. *)
Lemma cl_replace_singleton :
  heap1 !! 4096 = Some (mk_line 4096 4096 0) ∧
  ∃ h',
    cl_replace 4288 4096 heap1 = Ret h' ∧
    h' !! 4096 = Some (mk_line 4096 4288 0) ∧
    h' !! 4096 ≠ heap1 !! 4096 ∧
    h' !! 4288 = Some (mk_line 4096 4288 0) ∧
    ∃ h'',
      cl_replace 4096 4288 h' = Ret h'' ∧
      h'' !! 4096 = Some (mk_line 4096 4288 0) ∧
      h'' !! 4096 ≠ heap1 !! 4096.
Proof.
  split; [reflexivity|].
  eexists. split; [vm_compute; reflexivity|].
  split; [reflexivity|]. split; [discriminate|]. split; [reflexivity|].
  eexists. split; [vm_compute; reflexivity|].
  split; [reflexivity|discriminate].
Qed.

(** ** Chains and rings *)

Lemma chain_app f l1 l2 z :
  chain f (l1 ++ l2) z ↔ chain f l1 (hd z l2) ∧ chain f l2 z.
Proof.
  induction l1 as [|p l1 IH]; simpl; [tauto|].
  rewrite IH. destruct l1; simpl; tauto.
Qed.

Lemma hd_indep (l : list Z) z z' : l ≠ [] → hd z l = hd z' l.
Proof. by destruct l. Qed.

Lemma chain_ext f g l z :
  (∀ p, p ∈ l → f p = g p) → chain f l z → chain g l z.
Proof.
  induction l as [|p l IH]; simpl; [done|].
  intros Hfg [Hp Hl]. split.
  - rewrite <- Hfg; [done|]. apply list_elem_of_here.
  - apply IH; [|done]. intros q Hq. apply Hfg. by apply list_elem_of_further.
Qed.

(** A cycle can be entered at any of its points. *)
Lemma cycle_rotate f l1 l2 :
  chain f (l1 ++ l2) (hd 0 (l1 ++ l2)) → chain f (l2 ++ l1) (hd 0 (l2 ++ l1)).
Proof.
  destruct l1 as [|a l1]; [by rewrite app_nil_r|].
  destruct l2 as [|b l2]; [by rewrite app_nil_r|].
  rewrite !chain_app. simpl. tauto.
Qed.

Lemma ring_next_cycle h entry rest :
  ring h (entry :: rest) → chain (next_of h) (entry :: rest) entry.
Proof. by intros (_ & _ & H & _). Qed.

Lemma ring_prev_cycle h entry rest :
  ring h (entry :: rest) → chain (prev_of h) (entry :: reverse rest) entry.
Proof.
  intros (_ & _ & _ & H). rewrite reverse_cons in H.
  apply cycle_rotate in H. exact H.
Qed.

Lemma ring_prev_of_head h entry rest :
  ring h (entry :: rest) → prev_of h entry = last (entry :: rest).
Proof.
  intros H. apply ring_prev_cycle in H. destruct H as [H _].
  rewrite H.
  destruct rest as [|q rest _] using rev_ind; [done|].
  rewrite reverse_app. simpl.
  change (entry :: rest ++ [q]) with ((entry :: rest) ++ [q]).
  by rewrite last_snoc.
Qed.

(** ** Walking along a chain *)

Lemma walk_body_next h curr :
  (c ← load h curr; Ret (next c)) = walk_body (next_of h) curr.
Proof. unfold walk_body, next_of, load. by destruct (h !! curr). Qed.

Lemma walk_body_prev h curr :
  (c ← load h curr; Ret (prev c)) = walk_body (prev_of h) curr.
Proof. unfold walk_body, prev_of, load. by destruct (h !! curr). Qed.

Lemma do_while_ext {St} fuel (b1 b2 : St → result St) c1 c2 s :
  (∀ x, b1 x = b2 x) → (∀ x, c1 x = c2 x) →
  do_while fuel b1 c1 s = do_while fuel b2 c2 s.
Proof.
  intros Hb Hc. revert s. induction fuel as [|n IH]; intros s; simpl; [done|].
  rewrite Hb. destruct (b2 s) as [s'| | |]; simpl; try done.
  rewrite Hc. destruct (c2 s'); [apply IH|done].
Qed.

(** Following [f] from [p] along a chain that ends in [head] and does not
    pass through it earlier takes exactly as many steps as the chain is
    long. *)
Lemma walk_chain f head l p fuel :
  chain f (p :: l) head → head ∉ l →
  do_while fuel (walk_body f) (λ c, bool_decide (c ≠ head)) p =
    if decide (length l < fuel)%nat then Ret head else OutOfFuel.
Proof.
  revert p fuel. induction l as [|q l IH]; intros p fuel [Hp Hl] Hnot.
  - destruct fuel as [|n]; [done|].
    cbn [do_while].
    assert (walk_body f p = Ret head) as -> by (unfold walk_body; by rewrite Hp).
    cbn [mbind result_bind].
    rewrite bool_decide_eq_false_2 by (intros ?; congruence).
    done.
  - destruct fuel as [|n]; [done|].
    cbn [do_while].
    assert (walk_body f p = Ret q) as -> by (unfold walk_body; by rewrite Hp).
    cbn [mbind result_bind].
    rewrite bool_decide_eq_true_2.
    2:{ intros ->. apply Hnot. apply list_elem_of_here. }
    rewrite IH; [|done|].
    2:{ intros ?. apply Hnot. by apply list_elem_of_further. }
    cbn [length]. repeat case_decide; first [done | lia].
Qed.

(** ** prime and prime_rev *)

(** C1, as the code has it.  On a ring with entry line [entry], [prime]
    follows [next] and [prime_rev] follows [prev] until the walk is back at
    [entry], which takes as many steps as the ring has lines; both then
    return [entry.prev]. *)
Theorem prime_prime_rev_return_prev (h : heap) (entry : Z) (rest : list Z) :
  ring h (entry :: rest) →
  ∃ r, prev_of h entry = Some r ∧
       ∀ fuel,
         prime fuel h entry =
           (if decide (length rest < fuel)%nat then Ret r else OutOfFuel) ∧
         prime_rev fuel h entry =
           (if decide (length rest < fuel)%nat then Ret r else OutOfFuel).
Proof.
  intros Hring.
  pose proof (ring_prev_of_head _ _ _ Hring) as Hprev.
  pose proof (ring_next_cycle _ _ _ Hring) as Hn.
  pose proof (ring_prev_cycle _ _ _ Hring) as Hp.
  destruct Hring as (_ & Hnd & _ & _).
  apply NoDup_cons in Hnd as [Hnot _].
  destruct (last_is_Some (entry :: rest)) as [_ [r Hr]]; [done|].
  rewrite Hr in Hprev.
  exists r. split; [exact Hprev|]. intros fuel.
  assert (Hld : load h entry ≫= (λ c, Ret (prev c)) = Ret r).
  { rewrite walk_body_prev. unfold walk_body. by rewrite Hprev. }
  unfold prime, prime_rev. split.
  - rewrite (do_while_ext _ _ (walk_body (next_of h)) _
               (λ c, bool_decide (c ≠ entry)) _ (walk_body_next h))
      by done.
    rewrite (walk_chain _ _ _ _ _ Hn Hnot).
    case_decide; simpl; [exact Hld|done].
  - rewrite (do_while_ext _ _ (walk_body (prev_of h)) _
               (λ c, bool_decide (c ≠ entry)) _ (walk_body_prev h))
      by done.
    rewrite (walk_chain _ _ _ _ _ Hp).
    2:{ rewrite elem_of_reverse. exact Hnot. }
    rewrite length_reverse.
    case_decide; simpl; [exact Hld|done].
Qed.

Lemma ring_heap3 : ring heap3 [4096; 4160; 4224].
Proof.
  split; [done|]. split; [|by vm_compute].
  apply (bool_decide_unpack _). by vm_compute.
Qed.

(** The theorem at work on the three-line ring 4096 -> 4160 -> 4224 -> 64. *)
Lemma prime_prime_rev_return_prev_witness :
  ∃ r, prev_of heap3 4096 = Some r ∧
       ∀ fuel,
         prime fuel heap3 4096 =
           (if decide (2 < fuel)%nat then Ret r else OutOfFuel) ∧
         prime_rev fuel heap3 4096 =
           (if decide (2 < fuel)%nat then Ret r else OutOfFuel).
Proof.
  apply (prime_prime_rev_return_prev heap3 4096 [4160; 4224]).
  exact ring_heap3.
Defined.

(** C1 as it is worded fails for [prime_rev]: on the three-line ring with
    entry 4096 ([next] 4160, [prev] 4224), [prime_rev] walks 4096, 4224, 4160, 4096
    and returns [entry.prev = 4224], not [entry.next = 4160]. *)
Lemma prime_rev_returns_next_counterexample :
  ring heap3 [4096; 4160; 4224] ∧
  next_of heap3 4096 = Some 4160 ∧
  prev_of heap3 4096 = Some 4224 ∧
  prime_rev 3 heap3 4096 = Ret 4224 ∧
  prime_rev 3 heap3 4096 ≠ Ret 128.
Proof.
  split; [exact ring_heap3|].
  split; [reflexivity|]. split; [reflexivity|].
  split; [by vm_compute|]. by vm_compute.
Qed.

(** ** get_cache_ctx *)

(** C9, as the code has it.  For a cache level other than [L1] and [L2],
    [get_cache_ctx] returns [NULL]; it does not abort.  For [L1] and [L2]
    it returns a context with the configured geometry and the derived
    fields [nr_of_cachelines = sets * associativity],
    [set_size = CACHELINE_SIZE * associativity] and
    [cache_size = sets * set_size].  (The only abort is the assertion on
    the result of [malloc].) *)
Theorem get_cache_ctx_spec (level : Z) :
  (level ≠ L1 → level ≠ L2 → get_cache_ctx true level = Ret None) ∧
  (level = L1 ∨ level = L2 →
     ∃ ctx, get_cache_ctx true level = Ret (Some ctx) ∧
            ctx = (if decide (level = L1) then ctx_L1 else ctx_L2) ∧
            cache_level ctx = level ∧
            nr_of_cachelines ctx = sets ctx * associativity ctx ∧
            set_size ctx = CACHELINE_SIZE * associativity ctx ∧
            cache_size ctx = sets ctx * set_size ctx) ∧
  get_cache_ctx false level = AssertFail.
Proof.
  split; [|split; [|done]].
  - intros H1 H2. unfold get_cache_ctx. simpl.
    rewrite decide_False by done. by rewrite decide_False by done.
  - intros [->| ->]; eexists; (split; [reflexivity|]); by vm_compute.
Qed.

Lemma get_cache_ctx_spec_witness :
  get_cache_ctx true 7 = Ret None ∧
  (∃ ctx, get_cache_ctx true L2 = Ret (Some ctx) ∧
          ctx = ctx_L2 ∧
          cache_level ctx = L2 ∧
          nr_of_cachelines ctx = sets ctx * associativity ctx ∧
          set_size ctx = CACHELINE_SIZE * associativity ctx ∧
          cache_size ctx = sets ctx * set_size ctx).
Proof.
  split.
  - apply (get_cache_ctx_spec 7); discriminate.
  - apply (get_cache_ctx_spec L2). by right.
Defined.

(** C9 as it is worded fails: with the cache level 2, which is neither
    [L1 = 0] nor [L2 = 1], the constructor returns [NULL] and no assertion
    fails. *)
Lemma get_cache_ctx_unknown_level_counterexample :
  2 ≠ L1 ∧ 2 ≠ L2 ∧
  get_cache_ctx true 2 = Ret None ∧
  get_cache_ctx true 2 ≠ AssertFail.
Proof. by vm_compute. Qed.

(** ** release_cache_ds *)

(** C10. [release_cache_ds(ctx, NULL)] returns at once: for every
    context and every memory, nothing is freed and the memory is as it
    was. *)
Theorem release_cache_ds_null (fuel : nat) (malloc_ok : bool)
    (ctx : cache_ctx) (m : mem) :
  release_cache_ds fuel malloc_ok ctx NULL m = Ret m.
Proof. unfold release_cache_ds. by rewrite decide_True. Qed.

(** ** get_phys_addr *)

Lemma land_shiftr_1 a n :
  0 ≤ n → Z.land (Z.shiftr a n) 1 = Z.b2z (Z.testbit a n).
Proof.
  intros Hn. change 1 with (Z.ones 1) at 1.
  rewrite Z.land_ones, Z.shiftr_div_pow2, Z.testbit_spec' by lia. done.
Qed.

Lemma pagemap_read_full e vpn data0 data :
  pread e 8 (u64 (8 * vpn)) data0 = (8, data) →
  pagemap_read_loop 8 e vpn 0 data0 = Ret (Some data).
Proof.
  intros H. cbn [pagemap_read_loop]. rewrite decide_True by lia.
  replace (u64 (8 - 0)) with 8 by done.
  replace (vpn * 8 + 0) with (8 * vpn) by lia. rewrite H.
  replace (u64 (0 + 8)) with 8 by done.
  rewrite decide_False by lia. by rewrite decide_False by lia.
Qed.

Lemma pagemap_read_fail e vpn data0 ret data :
  pread e 8 (u64 (8 * vpn)) data0 = (ret, data) → ret ≤ 0 →
  pagemap_read_loop 8 e vpn 0 data0 = Ret None.
Proof.
  intros H Hret. cbn [pagemap_read_loop]. rewrite decide_True by lia.
  replace (u64 (8 - 0)) with 8 by done.
  replace (vpn * 8 + 0) with (8 * vpn) by lia. rewrite H.
  by rewrite decide_True by lia.
Qed.

(** C5, as the code has it.  [get_phys_addr] reads the entry at byte
    offset [8 * (vaddr / page_size)] of the page-frame map.  It fails
    (returns 1 and leaves [*paddr] as it was) when the map cannot be opened
    or read or when the 54-bit frame number of the entry is zero; otherwise
    it stores [pfn * page_size + vaddr mod page_size] in [*paddr] and
    returns 0.  The outcome is a function of the low 54 bits of the entry:
    the present bit, bit 63, is extracted by [pagemap_get_entry] but it is
    not looked at. *)
Theorem get_phys_addr_spec (e : os) (data0 paddr vaddr : Z) :
  0 < page_size e →
  (open_pagemap e = false →
     get_phys_addr e data0 paddr vaddr = Ret (1, paddr)) ∧
  (∀ ret data,
     open_pagemap e = true →
     pread e 8 (u64 (8 * (vaddr / page_size e))) data0 = (ret, data) →
     (ret ≤ 0 → get_phys_addr e data0 paddr vaddr = Ret (1, paddr)) ∧
     (ret = 8 →
        pagemap_get_entry e data0 vaddr =
          Ret (Some {| pfn := data mod 2 ^ 54;
                       soft_dirty := Z.b2z (Z.testbit data 54);
                       file_page := Z.b2z (Z.testbit data 61);
                       swapped := Z.b2z (Z.testbit data 62);
                       present := Z.b2z (Z.testbit data 63) |}) ∧
        get_phys_addr e data0 paddr vaddr =
          if decide (data mod 2 ^ 54 = 0) then Ret (1, paddr)
          else Ret (0, u64 (data mod 2 ^ 54 * page_size e
                            + vaddr mod page_size e)))).
Proof.
  intros Hps. split.
  - intros Ho. unfold get_phys_addr. by rewrite Ho.
  - intros ret data Ho Hread. split.
    + intros Hret. unfold get_phys_addr, pagemap_get_entry. rewrite Ho.
      cbn [negb]. by rewrite (pagemap_read_fail _ _ _ _ _ Hread Hret).
    + intros ->.
      assert (Hentry : pagemap_get_entry e data0 vaddr =
          Ret (Some {| pfn := data mod 2 ^ 54;
                       soft_dirty := Z.b2z (Z.testbit data 54);
                       file_page := Z.b2z (Z.testbit data 61);
                       swapped := Z.b2z (Z.testbit data 62);
                       present := Z.b2z (Z.testbit data 63) |})).
      { unfold pagemap_get_entry.
        rewrite (pagemap_read_full _ _ _ _ Hread). cbn [mbind result_bind].
        do 2 f_equal.
        change (Z.shiftl 1 54 - 1) with (Z.ones 54).
        rewrite Z.land_ones by lia.
        by rewrite !land_shiftr_1 by lia. }
      split; [exact Hentry|].
      unfold get_phys_addr. rewrite Ho, Hentry. done.
Qed.

Lemma get_phys_addr_spec_witness :
  (get_phys_addr (os_const (2 ^ 63 + 5)) 0 0 4660 = Ret (0, 21044)) ∧
  (get_phys_addr (os_const (2 ^ 63)) 0 77 4660 = Ret (1, 77)).
Proof.
  split.
  - destruct (get_phys_addr_spec (os_const (2 ^ 63 + 5)) 0 0 4660 eq_refl)
      as [_ H].
    destruct (H 8 (2 ^ 63 + 5) eq_refl eq_refl) as [_ H8].
    destruct (H8 eq_refl) as [_ Hres]. exact Hres.
  - destruct (get_phys_addr_spec (os_const (2 ^ 63)) 0 77 4660 eq_refl)
      as [_ H].
    destruct (H 8 (2 ^ 63) eq_refl eq_refl) as [_ H8].
    destruct (H8 eq_refl) as [_ Hres]. exact Hres.
Defined.

(** C5 as it is worded fails: an entry whose present bit (bit 63) is clear
    and whose frame number is 5 is translated like the same entry with the
    present bit set; nothing is validated. *)
Lemma get_phys_addr_present_bit_counterexample :
  Z.testbit 5 63 = false ∧
  (∃ entry, pagemap_get_entry (os_const 5) 0 4660 = Ret (Some entry) ∧
            present entry = 0) ∧
  get_phys_addr (os_const 5) 0 0 4660 = Ret (0, 5 * 4096 + 564) ∧
  get_phys_addr (os_const (2 ^ 63 + 5)) 0 0 4660 = Ret (0, 5 * 4096 + 564).
Proof.
  split; [reflexivity|]. split; [eexists; split; reflexivity|].
  split; reflexivity.
Qed.

(** ** Arrays *)

Lemma arr_get_Ret {A} (arr : list A) (i : Z) x :
  0 ≤ i → arr !! Z.to_nat i = Some x → arr_get arr i = Ret x.
Proof. intros Hi Hx. unfold arr_get. rewrite decide_True by done. by rewrite Hx. Qed.

Lemma arr_get_inv {A} (arr : list A) (i : Z) x :
  arr_get arr i = Ret x → 0 ≤ i ∧ arr !! Z.to_nat i = Some x.
Proof.
  unfold arr_get. case_decide; [|done].
  destruct (arr !! Z.to_nat i); [|done]. intros [= ->]. done.
Qed.

Lemma arr_set_Ret {A} (arr : list A) (i : Z) x :
  0 ≤ i < Z.of_nat (length arr) →
  arr_set arr i x = Ret (<[Z.to_nat i := x]> arr).
Proof. intros Hi. unfold arr_set. by rewrite decide_True. Qed.

Lemma arr_set_inv {A} (arr arr' : list A) (i : Z) x :
  arr_set arr i x = Ret arr' →
  0 ≤ i < Z.of_nat (length arr) ∧ arr' = <[Z.to_nat i := x]> arr.
Proof. unfold arr_set. case_decide; [|done]. by intros [= <-]. Qed.

(** ** random_perm and gen_random_indices *)

Lemma exchange_length l i j : length (exchange l i j) = length l.
Proof.
  unfold exchange. destruct (l !! i), (l !! j); try done.
  by rewrite !length_insert.
Qed.

Lemma exchange_Permutation l i j : exchange l i j ≡ₚ l.
Proof.
  unfold exchange.
  destruct (l !! i) as [xi|] eqn:Hi, (l !! j) as [xj|] eqn:Hj; try done.
  by apply Permutation_insert_swap.
Qed.

Lemma swap_exchange (arr : list Z) (i j : Z) :
  0 ≤ i < Z.of_nat (length arr) → 0 ≤ j < Z.of_nat (length arr) →
  swap arr i j = Ret (exchange arr (Z.to_nat i) (Z.to_nat j)).
Proof.
  intros Hi Hj.
  destruct (lookup_lt_is_Some_2 arr (Z.to_nat i)) as [xi Hxi]; [lia|].
  destruct (lookup_lt_is_Some_2 arr (Z.to_nat j)) as [xj Hxj]; [lia|].
  unfold swap, exchange.
  rewrite (arr_get_Ret _ _ _ (proj1 Hi) Hxi). cbn [mbind result_bind].
  rewrite (arr_get_Ret _ _ _ (proj1 Hj) Hxj). cbn [mbind result_bind].
  rewrite (arr_set_Ret arr i xj Hi). cbn [mbind result_bind].
  rewrite arr_set_Ret by (by rewrite length_insert).
  by rewrite Hxi, Hxj.
Qed.

Lemma rand_range rnd k : 0 ≤ (rand rnd k).1 ≤ RAND_MAX.
Proof.
  unfold rand. cbn [fst].
  pose proof (Z.mod_pos_bound (rnd k) (RAND_MAX + 1) eq_refl). lia.
Qed.

(** The loop of [random_perm], started at counter value [i] on an array
    with more than [i] elements, performs the swaps of the specification
    and draws [i] random values. *)
Lemma random_perm_loop rnd (i : nat) (arr : list Z) (k : nat) :
  (i < length arr)%nat →
  for_down i
    (λ i '(arr, k),
       let '(r, k) := rand rnd k in
       let swap_idx := u32 r mod i in
       arr ← swap arr i swap_idx;
       Ret (arr, k))
    (arr, k) = Ret (shuffle_spec rnd i k arr, (k + i)%nat).
Proof.
  revert arr k. induction i as [|i IH]; intros arr k Hlen.
  - cbn. do 2 f_equal. lia.
  - cbn [for_down shuffle_spec].
    pose proof (rand_range rnd k) as Hr. unfold rand in *. cbn [fst] in Hr.
    set (r := rnd k mod (RAND_MAX + 1)) in *.
    assert (Hu : u32 r = r).
    { unfold u32. apply Z.mod_small. unfold RAND_MAX in Hr. lia. }
    rewrite Hu.
    pose proof (Z.mod_pos_bound r (Z.of_nat (S i)) ltac:(lia)) as Hm.
    rewrite swap_exchange by lia.
    cbn [mbind result_bind]. rewrite Nat2Z.id.
    rewrite IH by (rewrite exchange_length; lia).
    do 2 f_equal. lia.
Qed.

Lemma shuffle_spec_Permutation rnd i k l : shuffle_spec rnd i k l ≡ₚ l.
Proof.
  revert k l. induction i as [|i IH]; intros k l; cbn [shuffle_spec]; [done|].
  rewrite IH. apply exchange_Permutation.
Qed.

Lemma shuffle_spec_length rnd i k l : length (shuffle_spec rnd i k l) = length l.
Proof. apply Permutation_length, shuffle_spec_Permutation. Qed.

(** The first loop of [gen_random_indices] writes [0, 1, ...] over the
    array. *)
Lemma fill_indices (pre rest : list Z) :
  foldM (λ i arr, arr_set arr i i)
        (seqZ (Z.of_nat (length pre)) (Z.of_nat (length rest)))
        (pre ++ rest) =
    Ret (pre ++ seqZ (Z.of_nat (length pre)) (Z.of_nat (length rest))).
Proof.
  revert pre. induction rest as [|x rest IH]; intros pre.
  - by cbn.
  - rewrite seqZ_cons by (cbn [length]; lia). cbn [foldM].
    rewrite arr_set_Ret by (rewrite length_app; cbn [length]; lia).
    cbn [mbind result_bind].
    rewrite Nat2Z.id, insert_app_r_alt, Nat.sub_diag by lia.
    cbn [insert list_insert].
    specialize (IH (pre ++ [Z.of_nat (length pre)])).
    rewrite length_app in IH. cbn [length] in IH.
    replace (Z.succ (Z.of_nat (length pre)))
      with (Z.of_nat (length pre + 1)) by lia.
    replace (Z.pred (Z.of_nat (length (x :: rest))))
      with (Z.of_nat (length rest)) by (cbn [length]; lia).
    rewrite <- !(assoc_L (++)) in IH. exact IH.
Qed.

Lemma random_perm_run rnd (arr : list Z) (arr_len : Z) (k : nat) :
  1 ≤ arr_len < 2 ^ 32 → Z.of_nat (length arr) = arr_len →
  random_perm rnd arr arr_len k =
    Ret (shuffle_spec rnd (Z.to_nat (arr_len - 1)) k arr,
         (k + Z.to_nat (arr_len - 1))%nat).
Proof.
  intros Hlen Harr. unfold random_perm.
  assert (Hu : u32 (arr_len - 1) = arr_len - 1)
    by (unfold u32; apply Z.mod_small; lia).
  rewrite Hu. apply random_perm_loop. lia.
Qed.

(** C6. [random_perm] performs, for [i] from [arr_len - 1] down to [1],
    the exchange of the entries [i] and [rand() % i]; the swap index lies
    in [0 .. i - 1] and is never [i]; on an array of [arr_len >= 1]
    elements the result is a rearrangement of the input, and so
    [gen_random_indices] yields a permutation of [0, ..., arr_len - 1]. *)
Theorem random_perm_spec rnd (arr : list Z) (arr_len : Z) (k : nat) :
  1 ≤ arr_len < 2 ^ 32 → Z.of_nat (length arr) = arr_len →
  let n := Z.to_nat (arr_len - 1) in
  random_perm rnd arr arr_len k = Ret (shuffle_spec rnd n k arr, (k + n)%nat) ∧
  shuffle_spec rnd n k arr ≡ₚ arr ∧
  (∀ i k', 1 ≤ i →
     let swap_idx := u32 (rand rnd k').1 mod i in
     0 ≤ swap_idx ≤ i - 1 ∧ swap_idx ≠ i) ∧
  ∃ idx, gen_random_indices rnd arr arr_len k = Ret (idx, (k + n)%nat) ∧
         idx ≡ₚ seqZ 0 arr_len.
Proof.
  intros Hlen Harr n.
  split; [by apply random_perm_run|].
  split; [apply shuffle_spec_Permutation|].
  split.
  { intros i k' Hi swap_idx.
    pose proof (Z.mod_pos_bound (u32 (rand rnd k').1) i ltac:(lia)).
    unfold swap_idx. lia. }
  exists (shuffle_spec rnd n k (seqZ 0 arr_len)).
  split; [|apply shuffle_spec_Permutation].
  unfold gen_random_indices, for_range.
  pose proof (fill_indices [] arr) as Hfill.
  cbn [length app] in Hfill. rewrite Harr in Hfill.
  change (Z.of_nat 0) with 0 in Hfill. rewrite Hfill.
  cbn [mbind result_bind].
  apply random_perm_run; [done|].
  rewrite length_seqZ. lia.
Qed.

Lemma random_perm_spec_witness :
  random_perm (λ k, Z.of_nat k * 7 + 3) [10; 11; 12; 13] 4 0 =
    Ret ([11; 12; 13; 10], 3%nat) ∧
  [11; 12; 13; 10] ≡ₚ [10; 11; 12; 13] ∧
  ∃ idx, gen_random_indices (λ k, Z.of_nat k * 7 + 3) [10; 11; 12; 13] 4 0 =
           Ret (idx, 3%nat) ∧
         idx ≡ₚ [0; 1; 2; 3].
Proof.
  destruct (random_perm_spec (λ k, Z.of_nat k * 7 + 3) [10; 11; 12; 13] 4 0)
    as (H1 & H2 & _ & H3); [lia|reflexivity|].
  split; [exact H1|]. split; [exact H2|exact H3].
Defined.

(** ** More on rings *)

Lemma ring_cons_iff h e rest :
  ring h (e :: rest) ↔
  NoDup (e :: rest) ∧ chain (next_of h) (e :: rest) e ∧
  chain (prev_of h) (e :: reverse rest) e.
Proof.
  split.
  - intros H. split; [apply H|]. split; [by apply ring_next_cycle|].
    by apply ring_prev_cycle.
  - intros (Hnd & Hn & Hp). split; [done|]. split; [done|]. split; [done|].
    rewrite reverse_cons.
    apply (cycle_rotate _ [e] (reverse rest)). exact Hp.
Qed.

Lemma ring_rotate h l1 l2 : ring h (l1 ++ l2) → ring h (l2 ++ l1).
Proof.
  intros (Hne & Hnd & Hn & Hp). split; [|split; [|split]].
  - intros Heq. apply Hne. apply app_eq_nil in Heq as [-> ->]. done.
  - by rewrite (comm (++)).
  - by apply cycle_rotate.
  - rewrite reverse_app. apply cycle_rotate. by rewrite <- reverse_app.
Qed.

Lemma ring_ext h h' l :
  (∀ q, q ∈ l → h' !! q = h !! q) → ring h l → ring h' l.
Proof.
  intros Heq (Hne & Hnd & Hn & Hp). split; [done|]. split; [done|]. split.
  - eapply chain_ext; [|exact Hn]. intros q Hq. unfold next_of.
    by rewrite Heq.
  - eapply chain_ext; [|exact Hp]. intros q Hq. unfold prev_of.
    rewrite Heq; [done|]. by apply elem_of_reverse.
Qed.

Lemma chain_last f l z q : chain f l z → last l = Some q → f q = Some z.
Proof.
  induction l as [|p l IH]; [done|]. intros [Hp Hl] Hlast.
  destruct l as [|r l].
  - by injection Hlast as ->.
  - apply IH; [done|]. by rewrite last_cons_cons in Hlast.
Qed.

Lemma chain_is_Some f l z q : chain f l z → q ∈ l → is_Some (f q).
Proof.
  induction l as [|p l IH]; intros Hc Hq; [by apply elem_of_nil in Hq|].
  destruct Hc as [Hp Hl]. apply elem_of_cons in Hq as [->|Hq]; [eauto|].
  by apply IH.
Qed.

(** Redirecting the last link of a chain. *)
Lemma chain_redirect f f' l z z' :
  NoDup l → chain f l z →
  (∀ q, q ∈ l → last l ≠ Some q → f' q = f q) →
  (∀ q, last l = Some q → f' q = Some z') →
  chain f' l z'.
Proof.
  induction l as [|p l IH]; [done|].
  intros Hnd [Hp Hl] Hsame Hlast.
  apply NoDup_cons in Hnd as [Hpl Hnd].
  destruct l as [|r l].
  - split; [|done]. by apply Hlast.
  - split.
    + rewrite Hsame; [done|apply list_elem_of_here|].
      rewrite last_cons_cons. intros Hl'.
      apply Hpl. by apply last_Some_elem_of.
    + apply IH; [done|done| |].
      * intros q Hq Hne. apply Hsame; [by apply list_elem_of_further|].
        by rewrite last_cons_cons.
      * intros q Hq. apply Hlast. by rewrite last_cons_cons.
Qed.

Lemma next_of_Some h p q :
  next_of h p = Some q → ∃ c, h !! p = Some c ∧ next c = q.
Proof.
  unfold next_of. destruct (h !! p) as [c|]; [|done].
  intros [= <-]. eauto.
Qed.

Lemma prev_of_Some h p q :
  prev_of h p = Some q → ∃ c, h !! p = Some c ∧ prev c = q.
Proof.
  unfold prev_of. destruct (h !! p) as [c|]; [|done].
  intros [= <-]. eauto.
Qed.

Lemma ring_lookup h l q : ring h l → q ∈ l → is_Some (h !! q).
Proof.
  intros (_ & _ & Hn & _) Hq.
  destruct (chain_is_Some _ _ _ _ Hn Hq) as [x Hx].
  apply next_of_Some in Hx as (c & Hc & _). eauto.
Qed.

(** In a ring of at least two lines, the line [new] takes the place of
    [old], and [old] can be put back. *)
Lemma cl_replace_ring h new old rest cn :
  ring h (old :: rest) → rest ≠ [] → new ∉ old :: rest →
  h !! new = Some cn →
  ∃ h' o,
    h !! old = Some o ∧
    cl_replace new old h = Ret h' ∧
    ring h' (new :: rest) ∧
    cl_replace old new h' =
      Ret (<[new := set_prev (set_next cn (next o)) (prev o)]> h).
Proof.
  intros Hring Hne Hnew Hcn.
  pose proof Hring as (Hnd & Hn & Hp)%ring_cons_iff.
  apply NoDup_cons in Hnd as [Hold Hnd].
  destruct Hn as [Hno Hn]. destruct Hp as [Hpo Hp].
  apply next_of_Some in Hno as (o & Ho & Hnext).
  apply prev_of_Some in Hpo as (o' & Ho' & Hprev).
  assert (o' = o) as -> by congruence. clear Ho'.
  destruct rest as [|n rest]; [done|]. clear Hne. cbn [hd] in Hnext.
  assert (Hlast_r : last (reverse (n :: rest)) = Some n).
  { rewrite reverse_cons. apply last_snoc. }
  destruct (last_is_Some (n :: rest)) as [_ [p Hlast]]; [done|].
  assert (Hhd_r : hd old (reverse (n :: rest)) = p).
  { rewrite <- (reverse_involutive (n :: rest)) in Hlast.
    destruct (reverse (n :: rest)) as [|x l']; [done|].
    rewrite reverse_cons, last_snoc in Hlast. by injection Hlast as ->. }
  rewrite Hhd_r in Hprev.
  assert (Hn_in : n ∈ n :: rest) by apply list_elem_of_here.
  assert (Hp_in : p ∈ n :: rest) by by apply last_Some_elem_of.
  destruct (ring_lookup _ _ n Hring) as [cs Hcs];
    [by apply list_elem_of_further|].
  destruct (ring_lookup _ _ p Hring) as [cp Hcp];
    [by apply list_elem_of_further|].
  pose proof (chain_last _ _ _ _ Hn Hlast) as Hp_next.
  pose proof (chain_last _ _ _ _ Hp Hlast_r) as Hn_prev.
  unfold next_of in Hp_next. rewrite Hcp in Hp_next.
  unfold prev_of in Hn_prev. rewrite Hcs in Hn_prev.
  injection Hp_next as Hp_next. injection Hn_prev as Hn_prev.
  assert (Hnew_old : new ≠ old).
  { intros ->. apply Hnew, list_elem_of_here. }
  assert (Hnew_n : new ≠ n).
  { intros ->. apply Hnew. by apply list_elem_of_further. }
  assert (Hnew_p : new ≠ p).
  { intros ->. apply Hnew. by apply list_elem_of_further. }
  assert (Hn_old : n ≠ old) by (intros ->; done).
  assert (Hp_old : p ≠ old) by (intros ->; done).
  destruct (cl_replace_effect h new old o cn cs cp)
    as (h' & Hrun & Hnext' & Hprev' & Hold' & _ & _ & _);
    try done; try congruence.
  exists h', o. split; [done|]. split; [done|]. split.
  - apply ring_cons_iff. split; [|split].
    + apply NoDup_cons. split; [|done].
      intros Hin. apply Hnew. by apply list_elem_of_further.
    + split.
      * rewrite Hnext'. rewrite decide_True by done. by rewrite Hnext.
      * eapply chain_redirect; [done|exact Hn| |].
        -- intros q Hq Hql. rewrite Hnext'.
           rewrite decide_False.
           2:{ intros ->. apply Hnew. by apply list_elem_of_further. }
           rewrite decide_False; [done|]. rewrite Hprev. congruence.
        -- intros q Hq. assert (q = p) as -> by congruence.
           rewrite Hnext'. rewrite decide_False by done.
           rewrite decide_True by done. done.
    + split.
      * rewrite Hprev'. rewrite decide_True by done.
        rewrite Hprev. f_equal.
        destruct (reverse (n :: rest)); [done|]. done.
      * eapply chain_redirect; [by rewrite reverse_Permutation|exact Hp| |].
        -- intros q Hq Hql. rewrite Hprev'.
           rewrite decide_False.
           2:{ intros ->. apply Hnew. apply list_elem_of_further.
               by apply elem_of_reverse. }
           rewrite decide_False; [done|]. rewrite Hnext. congruence.
        -- intros q Hq. assert (q = n) as -> by congruence.
           rewrite Hprev'. rewrite decide_False by done.
           rewrite decide_True by done. done.
  - eapply (cl_replace_back h new old o cn cs cp); try done; congruence.
Qed.

(** Walking a ring. *)
Lemma walk_ring_next h e rest fuel :
  ring h (e :: rest) → (length rest < fuel)%nat →
  do_while fuel (λ curr_cl, c ← load h curr_cl; Ret (next c))
    (λ curr_cl, bool_decide (curr_cl ≠ e)) e = Ret e.
Proof.
  intros (Hnd & Hn & _)%ring_cons_iff Hfuel.
  apply NoDup_cons in Hnd as [Hnot _].
  rewrite (do_while_ext _ _ (walk_body (next_of h)) _
             (λ c, bool_decide (c ≠ e)) _ (walk_body_next h)) by done.
  rewrite (walk_chain _ _ _ _ _ Hn Hnot). by rewrite decide_True.
Qed.

Lemma walk_ring_prev h e rest fuel :
  ring h (e :: rest) → (length rest < fuel)%nat →
  do_while fuel (λ curr_cl, c ← load h curr_cl; Ret (prev c))
    (λ curr_cl, bool_decide (curr_cl ≠ e)) e = Ret e.
Proof.
  intros (Hnd & _ & Hp)%ring_cons_iff Hfuel.
  apply NoDup_cons in Hnd as [Hnot _].
  rewrite (do_while_ext _ _ (walk_body (prev_of h)) _
             (λ c, bool_decide (c ≠ e)) _ (walk_body_prev h)) by done.
  rewrite (walk_chain _ _ _ _ _ Hp).
  2:{ by rewrite elem_of_reverse. }
  rewrite length_reverse. by rewrite decide_True.
Qed.

Lemma prime_rev_ring h e rest fuel :
  ring h (e :: rest) → (length rest < fuel)%nat →
  ∃ r, prime_rev fuel h e = Ret r.
Proof.
  intros Hring Hfuel. unfold prime_rev.
  rewrite (walk_ring_prev _ _ _ _ Hring Hfuel). cbn [mbind result_bind].
  destruct (ring_lookup _ _ e Hring) as [c Hc]; [apply list_elem_of_here|].
  rewrite (load_Ret _ _ _ Hc). cbn. eauto.
Qed.

Lemma probe_full_ds_ring tsc h e rest fuel t :
  ring h (e :: rest) → (length rest < fuel)%nat →
  probe_full_ds fuel tsc h e t = Ret (u32 (tsc t), S t).
Proof.
  intros Hring Hfuel. unfold probe_full_ds.
  by rewrite (walk_ring_prev _ _ _ _ Hring Hfuel).
Qed.

(** ** Loops *)

Lemma for_range_scan {St} (g : Z → Z → St → St) (arr : list Z) (s0 : St) :
  for_range (Z.of_nat (length arr))
    (λ i s, a ← arr_get arr i; Ret (g i a s)) s0 = Ret (scan g 0 s0 arr).
Proof.
  unfold for_range.
  enough (Hgen : ∀ rest pre s,
    foldM (λ i s, a ← arr_get (pre ++ rest) i; Ret (g i a s))
      (seqZ (Z.of_nat (length pre)) (Z.of_nat (length rest))) s =
    Ret (scan g (Z.of_nat (length pre)) s rest)).
  { apply (Hgen arr [] s0). }
  induction rest as [|a rest IH]; intros pre s; [done|].
  rewrite seqZ_cons by (cbn [length]; lia). cbn [foldM scan].
  rewrite (arr_get_Ret _ _ a) by
    (try lia; rewrite Nat2Z.id; by rewrite list_lookup_middle).
  cbn [mbind result_bind].
  specialize (IH (pre ++ [a]) (g (Z.of_nat (length pre)) a s)).
  rewrite length_app in IH. cbn [length] in IH.
  rewrite <- (assoc_L (++)) in IH. cbn [app] in IH.
  replace (Z.succ (Z.of_nat (length pre)))
    with (Z.of_nat (length pre + 1)) by lia.
  replace (Z.pred (Z.of_nat (length (a :: rest))))
    with (Z.of_nat (length rest)) by (cbn [length]; lia).
  rewrite IH. f_equal. f_equal. lia.
Qed.

Lemma do_while_along {St} (body : St → result St) (cond : St → bool)
    (I : nat → St → Prop) (n fuel : nat) (s0 : St) :
  (0 < n)%nat → (n ≤ fuel)%nat → I O s0 →
  (∀ k s, (k < n)%nat → I k s →
     ∃ s', body s = Ret s' ∧ I (S k) s' ∧ cond s' = bool_decide (S k ≠ n)) →
  ∃ s', do_while fuel body cond s0 = Ret s' ∧ I n s'.
Proof.
  intros Hn Hfuel H0 Hstep.
  enough (Hgen : ∀ m k s fuel,
    (k < n)%nat → (n - k = m)%nat → (m ≤ fuel)%nat → I k s →
    ∃ s', do_while fuel body cond s = Ret s' ∧ I n s').
  { apply (Hgen n O s0 fuel); [done|lia|done|done]. }
  induction m as [|m IH]; intros k s fuel' Hk Hm Hf Hs; [lia|].
  destruct fuel' as [|fuel']; [lia|].
  destruct (Hstep k s Hk Hs) as (s' & Hbody & HI & Hcond).
  cbn [do_while]. rewrite Hbody. cbn [mbind result_bind]. rewrite Hcond.
  case_bool_decide as Hlast.
  - apply (IH (S k)); [lia|lia|lia|done].
  - assert (S k = n) as <- by lia. eauto.
Qed.

(** ** get_min and get_avg *)

Lemma foldr_min_acc a m l :
  foldr Z.min (if decide (a < m) then a else m) l = Z.min a (foldr Z.min m l).
Proof.
  induction l as [|x l IH]; cbn [foldr].
  - case_decide; lia.
  - rewrite IH. lia.
Qed.

Lemma get_min_run (l : list Z) :
  get_min l (Z.of_nat (length l)) = Ret (minimum l).
Proof.
  unfold get_min.
  rewrite (for_range_scan (λ _ a min, if decide (a < min) then a else min)).
  f_equal. unfold minimum. generalize UINT32_MAX, 0.
  induction l as [|a l IH]; intros m i; cbn [scan foldr]; [done|].
  rewrite IH. apply foldr_min_acc.
Qed.

Lemma get_avg_run (l : list Z) :
  get_avg l (Z.of_nat (length l)) = Ret (running_avg l).
Proof.
  unfold get_avg, running_avg.
  by rewrite (for_range_scan
    (λ i a avg,
       PrimFloat.div
         (PrimFloat.add (PrimFloat.mul (double_of_u32 i) avg)
                        (double_of_u32 a))
         (double_of_u32 (u32 (i + 1))))).
Qed.

(** ** The measurement loops of has_collision *)

Lemma measure_run fuel tsc h touch head (time : list Z) (t : nat) :
  length time = Z.to_nat COLLISION_REP →
  match touch with Some c => is_Some (h !! c) | None => True end →
  (∃ r, prime_rev fuel h head = Ret r) →
  (∀ t', probe_full_ds fuel tsc h head t' = Ret (u32 (tsc t'), S t')) →
  measure fuel tsc h touch head time t =
    Ret (samples tsc t, (t + Z.to_nat COLLISION_REP)%nat).
Proof.
  intros Hlen Htouch [r Hprime] Hprobe. unfold measure, for_range, samples.
  set (body := λ (i : Z) '(time, t), _).
  enough (Hgen : ∀ rest pre t,
    foldM body (seqZ (Z.of_nat (length pre)) (Z.of_nat (length rest)))
      (pre ++ rest, t) =
    Ret (pre ++ ((λ i, u32 (tsc (t + i)%nat)) <$> seq 0 (length rest)),
         (t + length rest)%nat)).
  { specialize (Hgen time [] t). cbn [length app] in Hgen.
    rewrite Hlen in Hgen. rewrite Z2Nat.id in Hgen by done. exact Hgen. }
  clear Hlen time t.
  induction rest as [|a rest IH]; intros pre t.
  - cbn. rewrite app_nil_r. do 2 f_equal. lia.
  - rewrite seqZ_cons by (cbn [length]; lia). cbn [foldM].
    assert (Hbody : body (Z.of_nat (length pre)) (pre ++ a :: rest, t) =
                    Ret (pre ++ u32 (tsc t) :: rest, S t)).
    { unfold body.
      assert (Ht : match touch with
                   | Some cl_candidate => _ ← load h cl_candidate; Ret tt
                   | None => Ret tt
                   end = Ret tt).
      { destruct touch as [c|]; [|done]. destruct Htouch as [x Hx].
        by rewrite (load_Ret _ _ _ Hx). }
      rewrite Ht. cbn [mbind result_bind]. rewrite Hprime.
      cbn [mbind result_bind]. rewrite Hprobe. cbn [mbind result_bind].
      rewrite arr_set_Ret by (rewrite length_app; cbn [length]; lia).
      cbn [mbind result_bind].
      rewrite Nat2Z.id, insert_app_r_alt, Nat.sub_diag by lia. done. }
    rewrite Hbody. cbn [mbind result_bind].
    specialize (IH (pre ++ [u32 (tsc t)]) (S t)).
    rewrite length_app in IH. cbn [length] in IH.
    rewrite <- (assoc_L (++)) in IH. cbn [app] in IH.
    replace (Z.succ (Z.of_nat (length pre)))
      with (Z.of_nat (length pre + 1)) by lia.
    replace (Z.pred (Z.of_nat (length (a :: rest))))
      with (Z.of_nat (length rest)) by (cbn [length]; lia).
    rewrite IH. cbn [length seq fmap list_fmap].
    rewrite <- fmap_S_seq, <- list_fmap_compose.
    rewrite <- (assoc_L (++)). cbn [app].
    rewrite Nat.add_0_r, Nat.add_succ_r. do 4 f_equal.
    apply list_fmap_ext. intros _ i _. cbn. do 2 f_equal. lia.
Qed.

Lemma samples_length tsc t : length (samples tsc t) = Z.to_nat COLLISION_REP.
Proof. unfold samples. by rewrite length_fmap, length_seq. Qed.

Lemma votes_S tsc t k :
  votes tsc t (S k) =
    votes tsc t k +
    (if rotation_votes tsc (t + 2 * Z.to_nat COLLISION_REP * k) then 1 else 0).
Proof.
  unfold votes. rewrite seq_S, filter_app, length_app. cbn [plus].
  rewrite filter_cons, filter_nil.
  destruct (rotation_votes tsc _); case_decide; cbn [length]; try done; lia.
Qed.

Lemma votes_bound tsc t k : 0 ≤ votes tsc t k ≤ Z.of_nat k.
Proof.
  unfold votes. split; [lia|].
  pose proof (length_filter
    (λ k, rotation_votes tsc (t + 2 * Z.to_nat COLLISION_REP * k) = true)
    (seq 0 k)) as H.
  rewrite length_seq in H. lia.
Qed.

(** ** has_collision *)

Lemma get_min_samples tsc t :
  get_min (samples tsc t) COLLISION_REP = Ret (minimum (samples tsc t)).
Proof.
  pose proof (get_min_run (samples tsc t)) as H.
  by rewrite samples_length in H.
Qed.

Lemma get_avg_samples tsc t :
  get_avg (samples tsc t) COLLISION_REP = Ret (running_avg (samples tsc t)).
Proof.
  pose proof (get_avg_run (samples tsc t)) as H.
  by rewrite samples_length in H.
Qed.

Lemma rot_step (l : list Z) k x :
  l !! k = Some x →
  drop k l ++ take k l = x :: (drop (S k) l ++ take k l) ∧
  drop (S k) l ++ take (S k) l = (drop (S k) l ++ take k l) ++ [x].
Proof.
  intros Hx. split.
  - by rewrite (drop_S _ _ _ Hx).
  - rewrite (take_S_r _ _ _ Hx). by rewrite (assoc_L (++)).
Qed.

(** One rotation of [has_collision] on a ring [x :: r] of at least two
    lines: 200 measurements, a vote, and the ring as before. *)
Lemma has_collision_rotation fuel tsc (cand x : Z) (r : list Z) (h : heap)
    (coll : Z) (time : list Z) (t : nat) :
  ring h (x :: r) → r ≠ [] → cand ∉ x :: r → is_Some (h !! cand) →
  (length r < fuel)%nat → length time = Z.to_nat COLLISION_REP →
  0 ≤ coll < 2 ^ 32 - 1 →
  ∃ h' time',
    ('(time, t) ← measure fuel tsc h (Some cand) x time t;
     baseline_time ← get_min time COLLISION_REP;
     h ← cl_replace cand x h;
     '(time, t) ← measure fuel tsc h None cand time t;
     avg ← get_avg time COLLISION_REP;
     let collisions_overall :=
       if PrimFloat.leb
            (double_of_u32 (u32 (u32 (baseline_time + L3_ACCESS_TIME)
                                 - L2_ACCESS_TIME)))
            avg
       then u32 (coll + 1) else coll in
     h ← cl_replace x cand h;
     c ← load h x;
     Ret (next c, collisions_overall, time, h, t)) =
    Ret (hd x r,
         coll + (if rotation_votes tsc t then 1 else 0),
         time', h',
         (t + 2 * Z.to_nat COLLISION_REP)%nat) ∧
    length time' = Z.to_nat COLLISION_REP ∧
    is_Some (h' !! cand) ∧
    (∀ q, q ≠ cand → h' !! q = h !! q).
Proof.
  intros Hring Hr Hcand [cn Hcn] Hfuel Htime Hcoll.
  destruct (cl_replace_ring h cand x r cn Hring Hr Hcand Hcn)
    as (h' & o & Ho & Hrep & Hring' & Hback).
  rewrite (measure_run fuel tsc h (Some cand) x time t Htime);
    [|by eauto|by eapply prime_rev_ring
     |intros; by eapply probe_full_ds_ring].
  ret_step.
  rewrite get_min_samples. ret_step.
  rewrite Hrep. ret_step.
  rewrite (measure_run fuel tsc h' None cand (samples tsc t));
    [|apply samples_length|done|by eapply prime_rev_ring
     |intros; by eapply probe_full_ds_ring].
  ret_step.
  rewrite get_avg_samples. ret_step.
  rewrite Hback. ret_step.
  assert (Hx : x ≠ cand).
  { intros ->. apply Hcand, list_elem_of_here. }
  rewrite (load_Ret _ x o) by (by rewrite lookup_insert_ne).
  ret_step.
  exists (<[cand := set_prev (set_next cn (next o)) (prev o)]> h),
         (samples tsc (t + Z.to_nat COLLISION_REP)).
  split; [|split; [apply samples_length|split]].
  - f_equal. f_equal; [|lia]. f_equal. f_equal. f_equal.
    + apply ring_next_cycle in Hring as [Hn _].
      unfold next_of in Hn. rewrite Ho in Hn. by injection Hn.
    + unfold rotation_votes.
      destruct (PrimFloat.leb _ _); [|lia].
      unfold u32. rewrite Z.mod_small; lia.
  - rewrite lookup_insert_eq. eauto.
  - intros q' Hq'. by rewrite lookup_insert_ne.
Qed.

(** C3, as the code has it.  On a ring [head :: rest] of at least two
    lines and a candidate outside it, [has_collision] makes one rotation
    per line of the ring; each rotation takes the minimum of
    [COLLISION_REP] full-probe times as baseline and the running average
    of [COLLISION_REP] full-probe times, taken with the candidate in the
    place of the rotation's head and computed in [double] as [get_avg]
    does, as test value, and votes collision when, in [double],
    [avg >= baseline + L3_ACCESS_TIME - L2_ACCESS_TIME] (a [uint32_t]
    sum); the function returns true exactly when at least
    [len - associativity] rotations vote collision ([votes] counts them).
    The ring is as before afterwards. *)
Theorem has_collision_spec fuel tsc ctx (cand head : Z) (rest : list Z)
    (len : Z) (h : heap) (t : nat) :
  ring h (head :: rest) → rest ≠ [] → cand ∉ head :: rest →
  is_Some (h !! cand) →
  Z.of_nat (length (head :: rest)) < 2 ^ 32 - 1 →
  (length rest < fuel)%nat →
  let n := length (head :: rest) in
  ∃ h',
    has_collision fuel tsc ctx cand head len (h, t) =
      Ret (bool_decide (u32 (len - associativity ctx) ≤ votes tsc t n),
           (h', (t + 2 * Z.to_nat COLLISION_REP * n)%nat)) ∧
    ring h' (head :: rest) ∧
    (∀ q, q ≠ cand → h' !! q = h !! q).
Proof.
  intros Hring Hrest Hcand Hcn Hlen Hfuel n.
  set (l := head :: rest) in *.
  set (I := λ (k : nat) (s : Z * Z * list Z * heap * nat),
    let '(cl_head, coll, time, hk, tk) := s in
    cl_head = hd 0 (drop k l ++ take k l) ∧
    coll = votes tsc t k ∧
    length time = Z.to_nat COLLISION_REP ∧
    tk = (t + 2 * Z.to_nat COLLISION_REP * k)%nat ∧
    is_Some (hk !! cand) ∧
    (∀ q, q ≠ cand → hk !! q = h !! q)).
  unfold has_collision. cbn [fst snd].
  match goal with
  | |- context [do_while fuel ?body ?cond ?s0] =>
      destruct (do_while_along body cond I n fuel s0)
        as ([[[[cl_head coll] time] hn] tn] & Hrun & HI)
  end.
  - unfold n, l. cbn [length]. lia.
  - unfold n, l in *. cbn [length] in *. lia.
  - unfold I. cbn [drop take app hd].
    repeat split; first [done | by rewrite length_replicate | lia].
  - intros k [[[[cl_head coll] time] hk] tk] Hk
      (-> & -> & Htime & -> & Hcn_k & Hsame).
    destruct (lookup_lt_is_Some_2 l k Hk) as [x Hx].
    destruct (rot_step l k x Hx) as [Hrot Hrot'].
    set (r := drop (S k) l ++ take k l) in *.
    rewrite Hrot. cbn [hd].
    assert (Hring_k : ring hk (x :: r)).
    { rewrite <- Hrot. apply ring_rotate. rewrite take_drop.
      eapply ring_ext; [|exact Hring]. intros q Hq. apply Hsame.
      intros ->. done. }
    assert (Hr_len : length r = length rest).
    { apply (f_equal length) in Hrot. rewrite length_app in Hrot.
      rewrite length_drop, length_take in Hrot. cbn [length] in Hrot.
      unfold n, l in Hk. cbn [length] in Hk. unfold l in Hrot.
      cbn [length] in Hrot. lia. }
    assert (Hr : r ≠ []).
    { intros Hnil. rewrite Hnil in Hr_len. destruct rest; done. }
    assert (Hcand_k : cand ∉ x :: r).
    { rewrite <- Hrot. by rewrite (comm (++)), take_drop. }
    pose proof (votes_bound tsc t k) as Hvb.
    assert (Hkb : Z.of_nat k < 2 ^ 32 - 1 - 1).
    { clear -Hk Hlen. unfold n, l in *. cbn [length] in *. lia. }
    destruct (has_collision_rotation fuel tsc cand x r hk (votes tsc t k)
                time (t + 2 * Z.to_nat COLLISION_REP * k) Hring_k Hr Hcand_k
                Hcn_k) as (h' & time' & Hbody & Htime' & Hcn' & Hsame');
      [lia|done|lia|].
    eexists. split; [exact Hbody|]. split.
    + unfold I. rewrite Hrot'. split.
      { destruct r; [done|]. done. }
      split; [by rewrite votes_S|]. split; [done|]. split; [lia|].
      split; [done|]. intros q Hq. rewrite Hsame' by done. by apply Hsame.
    + pose proof Hring as (_ & Hnd & _).
      destruct (decide (S k = n)) as [Hlast|Hnot].
      * rewrite (bool_decide_eq_false_2 (S k ≠ n)) by (intros ?; done).
        apply bool_decide_eq_false_2. intros Hne. apply Hne.
        assert (Hrl : r ++ [x] = l).
        { rewrite <- Hrot'. rewrite Hlast. unfold n.
          rewrite drop_all, take_ge by done. done. }
        destruct r as [|y r']; [done|]. cbn [hd].
        rewrite <- app_comm_cons in Hrl. unfold l in Hrl. congruence.
      * rewrite (bool_decide_eq_true_2 (S k ≠ n)) by done.
        apply bool_decide_eq_true_2. intros Heq.
        destruct (lookup_lt_is_Some_2 l (S k)) as [y Hy]; [lia|].
        assert (hd x r = y).
        { destruct (rot_step l (S k) y Hy) as [Hrot2 _].
          rewrite Hrot' in Hrot2. destruct r; [done|].
          cbn [hd]. rewrite <- app_comm_cons in Hrot2. congruence. }
        assert (l !! O = Some head) by done.
        assert (S k = O); [|done].
        eapply NoDup_lookup; [exact Hnd|exact Hy|congruence].
  - destruct HI as (-> & -> & Htime & -> & Hcn_n & Hsame).
    exists hn. rewrite Hrun. ret_step. split; [done|].
    split; [|done].
    eapply ring_ext; [|exact Hring]. intros q Hq. apply Hsame.
    intros ->. done.
Qed.

Lemma not_in_heap3_ring : 4288 ∉ [4096; 4160; 4224].
Proof.
  intros H. repeat (apply elem_of_cons in H as [H|H]; [done|]).
  by apply elem_of_nil in H.
Qed.

(** The theorem at work: the three-line ring, the loose line 4288 as
    candidate, a geometry with two ways. *)
Lemma has_collision_spec_witness :
  ∃ h',
    has_collision 3 tsc_example ctx_small 4288 4096 3 (heap3, O) =
      Ret (bool_decide (u32 (3 - associativity ctx_small)
                        ≤ votes tsc_example 0 3),
           (h', (0 + 2 * Z.to_nat COLLISION_REP * 3)%nat)) ∧
    ring h' [4096; 4160; 4224] ∧
    (∀ q, q ≠ 4288 → h' !! q = heap3 !! q).
Proof.
  apply (has_collision_spec 3 tsc_example ctx_small 4288 4096 [4160; 4224]
           3 heap3 O).
  - exact ring_heap3.
  - discriminate.
  - exact not_in_heap3_ring.
  - eexists. reflexivity.
  - reflexivity.
  - cbn [length]. lia.
Defined.

(** C3 as it is worded fails on the threshold: with a ring of [len = 3]
    lines, associativity 2 and exactly one rotation voting collision,
    [has_collision] returns true, since [1 >= len - associativity]; the
    claim asks for [len - associativity + 1 = 2] votes. *)
Lemma has_collision_threshold_counterexample :
  ring heap3 [4096; 4160; 4224] ∧
  votes tsc_example 0 3 = 1 ∧
  (∃ st, has_collision 3 tsc_example ctx_small 4288 4096 3 (heap3, O) =
           Ret (true, st)) ∧
  ¬ (3 - associativity ctx_small + 1 ≤ votes tsc_example 0 3).
Proof.
  split; [exact ring_heap3|].
  assert (Hv : votes tsc_example 0 3 = 1) by (by vm_compute).
  split; [exact Hv|]. split.
  - eexists. vm_compute. reflexivity.
  - rewrite Hv. unfold ctx_small. cbn [associativity]. lia.
Qed.

(** The running average is the mean only up to rounding.  With fifty test
    measurements of 136 cycles followed by fifty of 100 the sum is exactly
    118 times [COLLISION_REP] and the baseline plus
    [L3_ACCESS_TIME - L2_ACCESS_TIME] is 118, yet [get_avg] returns a
    [double] below 118: the rotation does not vote and [has_collision]
    answers false. *)
Lemma has_collision_rounding :
  foldr Z.add 0 (samples tsc_rounding 100) = 118 * COLLISION_REP ∧
  u32 (u32 (minimum (samples tsc_rounding 0) + L3_ACCESS_TIME)
       - L2_ACCESS_TIME) = 118 ∧
  PrimFloat.ltb (running_avg (samples tsc_rounding 100))
                (double_of_u32 118) = true ∧
  votes tsc_rounding 0 3 = 0 ∧
  (∃ st, has_collision 3 tsc_rounding ctx_small 4288 4096 3 (heap3, O) =
           Ret (false, st)).
Proof.
  split; [by vm_compute|]. split; [by vm_compute|].
  split; [by vm_compute|]. split; [by vm_compute|].
  eexists. vm_compute. reflexivity.
Qed.

(** ** Set indices *)

(** For a number of sets that is a power of two, the set index of an
    address is the line number modulo the number of sets; only address
    bits below bit 22 matter. *)
Lemma get_cache_set_helper_pow2 (m x : Z) :
  0 ≤ m ≤ 16 → 0 ≤ x →
  get_cache_set_helper (2 ^ m) (u64 x) = (x / 64) mod 2 ^ m.
Proof.
  intros Hm Hx. unfold get_cache_set_helper, SET_MASK, CACHELINE_SIZE.
  assert (Hpow : 2 ^ m * 64 = 2 ^ (m + 6)).
  { rewrite Z.pow_add_r by lia. done. }
  assert (Hlt : 0 < 2 ^ (m + 6) < 2 ^ 64).
  { split; [apply Z.pow_pos_nonneg; lia|].
    apply Z.pow_lt_mono_r; lia. }
  rewrite Hpow.
  assert (Hmask : u64 (u64 (2 ^ (m + 6)) - 1) = Z.ones (m + 6)).
  { unfold u64. rewrite (Z.mod_small (2 ^ (m + 6))) by lia.
    rewrite Z.mod_small by lia. rewrite Z.ones_equiv. lia. }
  rewrite Hmask.
  assert (Hbits : Z.land (u64 x) (Z.lxor (Z.ones (m + 6)) (64 - 1)) / 64 =
                  (x / 64) mod 2 ^ m).
  { change (64 - 1) with (Z.ones 6). change 64 with (2 ^ 6).
    rewrite <- !Z.shiftr_div_pow2 by lia.
    rewrite <- Z.land_ones by lia.
    apply Z.bits_inj'. intros n Hn.
    rewrite Z.shiftr_spec, !Z.land_spec, Z.lxor_spec, Z.shiftr_spec by lia.
    rewrite !Z.testbit_ones_nonneg by lia.
    destruct (decide (n < m)) as [Hnm|Hnm].
    - unfold u64. rewrite Z.mod_pow2_bits_low by lia.
      f_equal.
      rewrite (proj2 (Z.ltb_lt _ _)) by lia.
      rewrite (proj2 (Z.ltb_ge _ _)) by lia.
      by rewrite (proj2 (Z.ltb_lt _ _)) by lia.
    - rewrite (proj2 (Z.ltb_ge (n + 6) (m + 6))) by lia.
      rewrite (proj2 (Z.ltb_ge (n + 6) 6)) by lia.
      rewrite (proj2 (Z.ltb_ge n m)) by lia.
      by rewrite !andb_false_r. }
  rewrite Hbits. unfold u16. apply Z.mod_small.
  pose proof (Z.mod_pos_bound (x / 64) (2 ^ m) ltac:(lia)).
  assert (2 ^ m ≤ 2 ^ 16) by (apply Z.pow_le_mono_r; lia). lia.
Qed.

(** The lines of a page lie in consecutive sets from a multiple of
    [CACHE_GROUP_SIZE] on. *)
Lemma slot_set_group (m f i : Z) :
  6 ≤ m ≤ 16 → 0 ≤ f → 0 ≤ i < 64 →
  ((f * 4096 + i * 64) / 64) mod 2 ^ m = 64 * (f mod 2 ^ (m - 6)) + i.
Proof.
  intros Hm Hf Hi.
  replace (f * 4096 + i * 64) with ((f * 64 + i) * 64) by lia.
  rewrite Z.div_mul by done.
  assert (Hpow : 2 ^ m = 64 * 2 ^ (m - 6)).
  { replace m with (6 + (m - 6)) at 1 by lia.
    rewrite Z.pow_add_r by lia. done. }
  assert (HG : 0 < 2 ^ (m - 6)) by (apply Z.pow_pos_nonneg; lia).
  pose proof (Z.mod_pos_bound f (2 ^ (m - 6)) HG) as Hb.
  symmetry. apply (Z.mod_unique_pos _ _ (f / 2 ^ (m - 6))); [lia|].
  rewrite Hpow.
  pose proof (Z.div_mod f (2 ^ (m - 6)) ltac:(lia)). nia.
Qed.

Lemma foldM_inv {A St} (body : A → St → result St) (l : list A)
    (I : nat → St → Prop) (s : St) :
  I O s →
  (∀ i x s, l !! i = Some x → I i s → ∃ s', body x s = Ret s' ∧ I (S i) s') →
  ∃ s', foldM body l s = Ret s' ∧ I (length l) s'.
Proof.
  intros H0 Hstep.
  enough (Hgen : ∀ l' k s,
    (∀ i x, l' !! i = Some x → l !! (k + i)%nat = Some x) →
    (k + length l' = length l)%nat → I k s →
    ∃ s', foldM body l' s = Ret s' ∧ I (length l) s').
  { apply (Hgen l O s); [done|done|done]. }
  induction l' as [|x l' IH]; intros k s0 Hl' Hlen Hk.
  - cbn [length] in Hlen. rewrite Nat.add_0_r in Hlen. subst k.
    exists s0. done.
  - destruct (Hstep k x s0) as (s1 & Hbody & H1); [|done|].
    { specialize (Hl' O x eq_refl). by rewrite Nat.add_0_r in Hl'. }
    cbn [foldM]. rewrite Hbody. rewrite bind_Ret.
    apply (IH (S k)); [|cbn [length] in Hlen; lia|done].
    intros i y Hy. specialize (Hl' (S i) y Hy).
    by replace (S k + i)%nat with (k + S i)%nat by lia.
Qed.

(** ** The privileged builder *)

Lemma memset_page_lookup page h k :
  0 ≤ k < CACHE_GROUP_SIZE →
  memset_page page h !! (page + k * CACHELINE_SIZE) = Some (mk_line 0 0 0).
Proof.
  intros Hk. unfold memset_page.
  assert (Hin : k ∈ seqZ 0 CACHE_GROUP_SIZE) by (apply elem_of_seqZ; lia).
  induction (seqZ 0 CACHE_GROUP_SIZE) as [|i l IH];
    [by apply elem_of_nil in Hin|].
  cbn [foldr]. apply elem_of_cons in Hin as [->|Hin].
  - by rewrite lookup_insert_eq.
  - destruct (decide (i = k)) as [->|Hne]; [by rewrite lookup_insert_eq|].
    rewrite lookup_insert_ne; [by apply IH|].
    unfold CACHELINE_SIZE. lia.
Qed.

(** The translation of the lines of one page: when the translation of the
    page's first line succeeds, its [CACHE_GROUP_SIZE] lines lie in the
    consecutive sets [base, ..., base + CACHE_GROUP_SIZE - 1] of one cache
    group. *)
Lemma get_phys_cache_set_page e junk ctx page m s0 :
  sets ctx = 2 ^ m → 6 ≤ m ≤ 16 →
  0 ≤ page → page mod PAGE_SIZE = 0 → page_size e = PAGE_SIZE →
  get_phys_cache_set e junk ctx page = Ret s0 →
  ∃ f, 0 ≤ f ∧
    (∀ data, pagemap_read_loop 8 e (page / PAGE_SIZE) 0 junk = Ret (Some data) →
             f = data mod 2 ^ 54) ∧
    ∀ i, 0 ≤ i < CACHE_GROUP_SIZE →
      get_phys_cache_set e junk ctx (page + i * CACHELINE_SIZE) =
        Ret (64 * (f mod 2 ^ (m - 6)) + i).
Proof.
  intros Hsets Hm Hpage Halign Hps Hret.
  unfold get_phys_cache_set in Hret.
  apply bind_Ret_inv in Hret as ([ret paddr] & Hpa & Hret).
  apply bind_Ret_inv in Hret as ([] & Hassert & Hret).
  unfold c_assert in Hassert. case_bool_decide as Hr0; [subst ret|done].
  case_decide as Hpaddr; [done|]. clear Hret Hassert.
  unfold get_phys_addr in Hpa.
  destruct (open_pagemap e) eqn:Hopen; cbn [negb] in Hpa; [|done].
  apply bind_Ret_inv in Hpa as (r & Hentry & Hpa).
  destruct r as [entry|]; [|done].
  case_decide as Hpfn; [done|]. injection Hpa as Hpa.
  unfold pagemap_get_entry in Hentry.
  apply bind_Ret_inv in Hentry as (rr & Hloop & Hentry).
  destruct rr as [data|]; [|done]. injection Hentry as <-.
  cbn [pfn] in *. rewrite Hps in *.
  change (Z.shiftl 1 54 - 1) with (Z.ones 54) in *.
  rewrite Z.land_ones in * by lia.
  set (f := data mod 2 ^ 54) in *.
  assert (Hf : 0 < f).
  { pose proof (Z.mod_pos_bound data (2 ^ 54) ltac:(lia)). unfold f in *. lia. }
  exists f. split; [lia|]. split.
  { intros data' Hd. rewrite Hd in Hloop. by injection Hloop as ->. }
  intros i Hi. unfold CACHE_GROUP_SIZE, PAGE_SIZE, CACHELINE_SIZE in *.
  change (4096 / 64) with 64 in Hi.
  assert (Hvpn : (page + i * 64) / 4096 = page / 4096).
  { pose proof (Z.div_mod page 4096 ltac:(lia)).
    symmetry. apply (Z.div_unique_pos _ _ _ (i * 64)); lia. }
  assert (Hoff : (page + i * 64) mod 4096 = i * 64).
  { pose proof (Z.div_mod page 4096 ltac:(lia)).
    symmetry. apply (Z.mod_unique_pos _ _ (page / 4096)); lia. }
  assert (Hnz : u64 (f * 4096 + i * 64) ≠ 0).
  { destruct (decide (i = 0)) as [->|Hi0].
    - rewrite Halign in Hpa. replace (0 * 64) with 0 by lia. congruence.
    - unfold u64. intros Hz.
      apply Z.mod_divide in Hz; [|lia]. destruct Hz as [q Hq].
      assert (Hmod : (f * 4096 + i * 64) mod 4096 = i * 64).
      { symmetry. apply (Z.mod_unique_pos _ _ f); lia. }
      rewrite Hq in Hmod.
      replace (q * 2 ^ 64) with (q * 2 ^ 52 * 4096) in Hmod by lia.
      rewrite Z.mod_mul in Hmod by lia. lia. }
  unfold get_phys_cache_set, get_phys_addr, pagemap_get_entry.
  rewrite Hopen, Hps. cbn [negb]. rewrite Hvpn, Hloop.
  rewrite !bind_Ret. cbn [pfn].
  change (Z.shiftl 1 54 - 1) with (Z.ones 54).
  rewrite Z.land_ones by lia. fold f.
  rewrite decide_False by done. rewrite bind_Ret.
  rewrite bool_decide_eq_true_2 by done. cbn [c_assert]. rewrite bind_Ret.
  rewrite Hoff. rewrite decide_False by done.
  rewrite Hsets, get_cache_set_helper_pow2 by lia.
  by rewrite slot_set_group by lia.
Qed.

Lemma counter_lookup st s v :
  0 ≤ s → cnt_lines_per_set st !! Z.to_nat s = Some v → counter st s = v.
Proof. intros _ H. unfold counter. by rewrite H. Qed.

Lemma counter_get st s :
  0 ≤ s < Z.of_nat (length (cnt_lines_per_set st)) →
  arr_get (cnt_lines_per_set st) s = Ret (counter st s).
Proof.
  intros Hs.
  destruct (lookup_lt_is_Some_2 (cnt_lines_per_set st) (Z.to_nat s))
    as [v Hv]; [lia|].
  rewrite (arr_get_Ret _ _ v) by (done || lia).
  unfold counter. by rewrite Hv.
Qed.

(** One turn of the privileged builder on a page whose lines lie in the
    sets [base, ..., base + 63]: the page is accepted when the counter of
    its first set is below the associativity and rejected otherwise. *)
Lemma priv_page_run e junk ctx page base st :
  page ≠ NULL →
  get_phys_cache_set e junk ctx page = Ret base →
  (∀ i, 0 ≤ i < 64 →
     get_phys_cache_set e junk ctx (page + i * CACHELINE_SIZE) = Ret (base + i)) →
  0 ≤ cl_ptr_idx st →
  cl_ptr_idx st + 64 ≤ Z.of_nat (length (cl_ptr_arr st)) →
  Z.of_nat (length (cl_ptr_arr st)) < 2 ^ 32 →
  0 ≤ base → base + 64 ≤ Z.of_nat (length (cnt_lines_per_set st)) →
  associativity ctx < 2 ^ 32 →
  (∀ i, 0 ≤ i < 64 → 0 ≤ counter st (base + i)) →
  (counter st base < associativity ctx →
   ∀ i, 0 ≤ i < 64 → counter st (base + i) < associativity ctx) →
  ∃ st',
    priv_page e junk ctx page st = Ret st' ∧
    length (cl_ptr_arr st') = length (cl_ptr_arr st) ∧
    length (cnt_lines_per_set st') = length (cnt_lines_per_set st) ∧
    if decide (counter st base < associativity ctx) then
      cl_ptr_idx st' = cl_ptr_idx st + 64 ∧
      (∀ i, 0 ≤ i < 64 →
         cl_ptr_arr st' !! Z.to_nat (cl_ptr_idx st + i) =
           Some (Some (page + i * CACHELINE_SIZE)) ∧
         cache_set <$> b_cells st' !! (page + i * CACHELINE_SIZE) =
           Some (base + i)) ∧
      (∀ s, 0 ≤ s →
         counter st' s =
           counter st s + (if bool_decide (base ≤ s < base + 64) then 1 else 0)) ∧
      cls_to_del st' = cls_to_del st
    else
      cl_ptr_idx st' = cl_ptr_idx st ∧
      cl_ptr_arr st' = cl_ptr_arr st ∧
      cnt_lines_per_set st' = cnt_lines_per_set st ∧
      cls_to_del st' = page ∧
      prev_of (b_cells st') page = Some (cls_to_del st).
Proof.
  intros Hnull Hslot0 Hslots Hidx Hroom Harr Hbase Hcnt Hassoc Hnonneg Hbelow.
  unfold priv_page.
  rewrite bool_decide_eq_true_2 by done. cbn [c_assert]. rewrite bind_Ret.
  rewrite Hslot0, bind_Ret.
  rewrite counter_get by lia. rewrite bind_Ret.
  case_decide as Hfull.
  - (* the page is accepted *)
    specialize (Hbelow Hfull).
    set (I := λ (j : nat) (s : builder),
      cl_ptr_idx s = cl_ptr_idx st + Z.of_nat j ∧
      length (cl_ptr_arr s) = length (cl_ptr_arr st) ∧
      length (cnt_lines_per_set s) = length (cnt_lines_per_set st) ∧
      (∀ i, 0 ≤ i < Z.of_nat j →
         cl_ptr_arr s !! Z.to_nat (cl_ptr_idx st + i) =
           Some (Some (page + i * CACHELINE_SIZE)) ∧
         cache_set <$> b_cells s !! (page + i * CACHELINE_SIZE) =
           Some (base + i)) ∧
      (∀ x, 0 ≤ x →
         counter s x =
           counter st x +
           (if bool_decide (base ≤ x < base + Z.of_nat j) then 1 else 0)) ∧
      cls_to_del s = cls_to_del st ∧
      (∀ i, 0 ≤ i < 64 →
         is_Some (b_cells s !! (page + i * CACHELINE_SIZE)))).
    unfold for_range.
    match goal with
    | |- context [foldM ?body ?l ?s0] =>
        destruct (foldM_inv body l I s0) as (st' & Hrun & HI)
    end.
    + unfold I. cbn [cl_ptr_idx cl_ptr_arr cnt_lines_per_set cls_to_del b_cells].
      split; [lia|]. split; [done|]. split; [done|].
      split; [intros; lia|]. split.
      { intros x Hx. rewrite bool_decide_eq_false_2 by lia.
        unfold counter. cbn [cnt_lines_per_set]. lia. }
      split; [done|].
      intros i Hi. rewrite memset_page_lookup; [eauto|done].
    + intros j x s Hx (Hi_idx & Hi_len & Hi_clen & Hi_arr & Hi_cnt & Hi_del & Hi_some).
      apply lookup_seqZ in Hx as [Hxeq Hj]. rewrite Z.add_0_l in Hxeq. subst x.
      change CACHE_GROUP_SIZE with 64 in Hj.
      rewrite Hslots by lia. rewrite bind_Ret.
      destruct (Hi_some (Z.of_nat j)) as [c0 Hc0]; [lia|].
      unfold store_cache_set. rewrite (load_Ret _ _ _ Hc0), !bind_Ret.
      rewrite arr_set_Ret by lia. rewrite bind_Ret.
      rewrite (load_Ret _ _ (set_cache_set c0 (base + Z.of_nat j)))
        by (by rewrite lookup_insert_eq).
      rewrite bind_Ret. cbn [cache_set set_cache_set].
      rewrite counter_get by lia. rewrite bind_Ret.
      rewrite arr_set_Ret by lia. rewrite bind_Ret.
      eexists. split; [reflexivity|].
      unfold I. cbn [cl_ptr_idx cl_ptr_arr cnt_lines_per_set cls_to_del b_cells].
      assert (Hcj : counter s (base + Z.of_nat j) =
                    counter st (base + Z.of_nat j)).
      { rewrite Hi_cnt by lia. rewrite bool_decide_eq_false_2 by lia. lia. }
      split. { unfold u32. rewrite Z.mod_small; lia. }
      split. { by rewrite length_insert. }
      split. { by rewrite length_insert. }
      split.
      { intros i Hi. destruct (decide (i = Z.of_nat j)) as [->|Hne].
        - rewrite Hi_idx. rewrite list_lookup_insert_eq by lia.
          by rewrite lookup_insert_eq.
        - rewrite list_lookup_insert_ne by lia.
          rewrite lookup_insert_ne by (unfold CACHELINE_SIZE; lia).
          apply Hi_arr. lia. }
      split.
      { intros x Hx. unfold counter at 1. cbn [cnt_lines_per_set].
        destruct (decide (x = base + Z.of_nat j)) as [->|Hne].
        - rewrite list_lookup_insert_eq by lia. cbn [default].
          rewrite bool_decide_eq_true_2 by lia. cbv iota.
          rewrite Hcj. unfold u32, id. rewrite Z.mod_small; [lia|].
          specialize (Hbelow (Z.of_nat j) ltac:(lia)).
          specialize (Hnonneg (Z.of_nat j) ltac:(lia)). lia.
        - rewrite list_lookup_insert_ne by lia.
          fold (counter s x). rewrite Hi_cnt by done.
          repeat case_bool_decide; lia. }
      split; [done|].
      intros i Hi. destruct (decide (i = Z.of_nat j)) as [->|Hne].
      * rewrite lookup_insert_eq. eauto.
      * rewrite lookup_insert_ne by (unfold CACHELINE_SIZE; lia).
        by apply Hi_some.
    + rewrite length_seqZ in HI. change (Z.to_nat CACHE_GROUP_SIZE) with 64%nat in HI.
      destruct HI as (H1 & H2 & H3 & H4 & H5 & H6 & _).
      exists st'. split; [exact Hrun|]. split; [done|]. split; [done|].
      split; [lia|]. split; [intros; apply H4; lia|]. split; [|done].
      intros s Hs. rewrite H5 by done. done.
  - (* the page is rejected *)
    assert (Hpage : memset_page page (b_cells st) !! page =
                    Some (mk_line 0 0 0)).
    { pose proof (memset_page_lookup page (b_cells st) 0 ltac:(done)) as H.
      by rewrite Z.add_0_r in H. }
    unfold store_prev. rewrite (load_Ret _ _ _ Hpage), !bind_Ret.
    eexists. split; [reflexivity|].
    cbn [cl_ptr_idx cl_ptr_arr cnt_lines_per_set cls_to_del b_cells].
    repeat split. unfold prev_of. by rewrite lookup_insert_eq.
Qed.

Lemma step_64 a b : a mod 64 = 0 → b mod 64 = 0 → a < b → a + 64 ≤ b.
Proof.
  intros Ha Hb Hab.
  pose proof (Z.div_mod a 64 ltac:(lia)).
  pose proof (Z.div_mod b 64 ltac:(lia)). lia.
Qed.

Lemma phys_geometry_groups ctx m :
  phys_geometry ctx m →
  sets ctx = 64 * 2 ^ (m - 6) ∧ 0 < 2 ^ (m - 6) ∧
  nr_of_cachelines ctx mod 64 = 0.
Proof.
  intros (Hsets & Hm & Hassoc & Hnr & _).
  assert (Hpow : 2 ^ m = 64 * 2 ^ (m - 6)).
  { replace m with (6 + (m - 6)) at 1 by lia.
    rewrite Z.pow_add_r by lia. done. }
  split; [congruence|]. split; [apply Z.pow_pos_nonneg; lia|].
  rewrite Hnr, Hsets, Hpow.
  replace (64 * 2 ^ (m - 6) * associativity ctx)
    with (2 ^ (m - 6) * associativity ctx * 64) by lia.
  apply Z.mod_mul. lia.
Qed.

(** The sets of one page, seen from the invariant. *)
Lemma priv_inv_group ctx m st b :
  phys_geometry ctx m → priv_inv ctx st →
  0 ≤ b < 2 ^ (m - 6) →
  ∀ i, 0 ≤ i < 64 →
    0 ≤ counter st (64 * b + i) ≤ associativity ctx ∧
    counter st (64 * b + i) = counter st (64 * b).
Proof.
  intros Hgeo (_ & _ & _ & _ & Hcnt) Hb i Hi.
  destruct (phys_geometry_groups _ _ Hgeo) as (Hsets & HG & _).
  destruct (Hcnt (64 * b + i)) as [Hrange Huni]; [lia|].
  split; [done|]. rewrite Huni. do 2 f_equal.
  symmetry. apply (Z.div_unique_pos _ _ _ i); lia.
Qed.

Lemma counter_init ctx h arr del s : counter (priv_init ctx h arr del) s = 0.
Proof.
  unfold counter, priv_init. cbn [cnt_lines_per_set].
  destruct (replicate _ _ !! _) as [v|] eqn:Hv; [|done].
  apply lookup_replicate in Hv as [-> _]. done.
Qed.

(** Every turn of the privileged builder keeps the invariant. *)
Lemma priv_page_inv ctx m e junk page st st' :
  phys_geometry ctx m → associativity ctx < 2 ^ 32 →
  priv_inv ctx st → cl_ptr_idx st < nr_of_cachelines ctx →
  0 ≤ page → page mod PAGE_SIZE = 0 → page_size e = PAGE_SIZE →
  priv_page e junk ctx page st = Ret st' →
  priv_inv ctx st' ∧
  ∃ f, 0 ≤ f ∧
    (∀ data, pagemap_read_loop 8 e (page / PAGE_SIZE) 0 junk = Ret (Some data) →
             f = data mod 2 ^ 54) ∧
    let base := 64 * (f mod 2 ^ (m - 6)) in
    length (cl_ptr_arr st') = length (cl_ptr_arr st) ∧
    if decide (counter st base < associativity ctx) then
      cl_ptr_idx st' = cl_ptr_idx st + 64 ∧
      (∀ i, 0 ≤ i < 64 →
         cl_ptr_arr st' !! Z.to_nat (cl_ptr_idx st + i) =
           Some (Some (page + i * CACHELINE_SIZE)) ∧
         cache_set <$> b_cells st' !! (page + i * CACHELINE_SIZE) =
           Some (base + i)) ∧
      (∀ s, 0 ≤ s →
         counter st' s =
           counter st s + (if bool_decide (base ≤ s < base + 64) then 1 else 0)) ∧
      cls_to_del st' = cls_to_del st
    else
      cl_ptr_idx st' = cl_ptr_idx st ∧
      cl_ptr_arr st' = cl_ptr_arr st ∧
      cnt_lines_per_set st' = cnt_lines_per_set st ∧
      cls_to_del st' = page ∧
      prev_of (b_cells st') page = Some (cls_to_del st).
Proof.
  intros Hgeo Hassoc Hinv Hidx Hpage Halign Hps Hrun.
  pose proof Hgeo as (Hsets & Hm & Hassoc0 & Hnr & Hnr32).
  destruct (phys_geometry_groups _ _ Hgeo) as (Hsets64 & HG & Hnr64).
  pose proof Hinv as (Harr & Hcnt_len & Hidx0 & Hidx64 & Hcnt).
  assert (Hnull : page ≠ NULL).
  { unfold priv_page in Hrun.
    apply bind_Ret_inv in Hrun as ([] & Hassert & _).
    unfold c_assert in Hassert. by case_bool_decide. }
  assert (Hs0 : ∃ s0, get_phys_cache_set e junk ctx page = Ret s0).
  { unfold priv_page in Hrun.
    apply bind_Ret_inv in Hrun as ([] & _ & Hrun).
    apply bind_Ret_inv in Hrun as (s0 & Hs0 & _). eauto. }
  destruct Hs0 as [s0 Hs0].
  destruct (get_phys_cache_set_page e junk ctx page m s0)
    as (f & Hf & Hdata & Hslots); try done.
  set (b := f mod 2 ^ (m - 6)) in *.
  pose proof (Z.mod_pos_bound f (2 ^ (m - 6)) HG) as Hb. fold b in Hb.
  assert (Hslot0 : get_phys_cache_set e junk ctx page = Ret (64 * b)).
  { specialize (Hslots 0 ltac:(done)).
    by rewrite Z.add_0_r, Z.add_0_r in Hslots. }
  pose proof (priv_inv_group ctx m st b Hgeo Hinv Hb) as Hgroup.
  destruct (priv_page_run e junk ctx page (64 * b) st)
    as (st'' & Hrun' & Hlen_arr & Hlen_cnt & Hcases); try done; try lia.
  { rewrite Harr. apply step_64; [done|done|lia]. }
  { intros i Hi. by apply Hgroup. }
  { intros Hlt i Hi. destruct (Hgroup i Hi) as [_ ->]. done. }
  assert (st'' = st') as -> by congruence.
  split.
  - (* the invariant *)
    unfold priv_inv. rewrite Hlen_arr, Hlen_cnt.
    split; [done|]. split; [done|].
    case_decide as Hfull.
    + destruct Hcases as (Hidx' & _ & Hcnt' & _).
      split; [lia|]. split.
      { rewrite Hidx'. rewrite <- Zplus_mod_idemp_l, Hidx64. done. }
      intros s Hs. destruct (Hcnt s Hs) as [Hrange Huni].
      assert (Hdiv : 0 ≤ s / 64) by (apply Z.div_pos; lia).
      rewrite !Hcnt' by lia.
      assert (Hgrp : bool_decide (64 * b ≤ 64 * (s / 64) < 64 * b + 64) =
                     bool_decide (64 * b ≤ s < 64 * b + 64)).
      { pose proof (Z.div_mod s 64 ltac:(lia)).
        pose proof (Z.mod_pos_bound s 64 ltac:(lia)).
        apply bool_decide_ext. lia. }
      rewrite Hgrp. clear Hgrp. split; [|congruence].
      case_bool_decide as Hin; cbv iota; [|lia].
      assert (Hs_eq : s = 64 * b + (s - 64 * b)) by lia.
      destruct (Hgroup (s - 64 * b) ltac:(lia)) as [_ Hsame].
      rewrite <- Hs_eq in Hsame. lia.
    + destruct Hcases as (Hidx' & _ & Hcnt' & _).
      rewrite Hidx'. split; [done|]. split; [done|].
      intros s Hs. unfold counter. rewrite Hcnt'. by apply Hcnt.
  - exists f. split; [done|]. split; [done|].
    cbv zeta. fold b. split; [done|]. exact Hcases.
Qed.

Lemma priv_reachable_inv ctx m st :
  phys_geometry ctx m → associativity ctx < 2 ^ 32 →
  priv_reachable ctx st → priv_inv ctx st.
Proof.
  intros Hgeo Hassoc Hreach. induction Hreach as [h arr del Harr|].
  - pose proof Hgeo as (Hsets & Hm & Hassoc0 & _).
    unfold priv_inv. cbn [priv_init cl_ptr_arr cnt_lines_per_set cl_ptr_idx].
    split; [done|]. split.
    { rewrite length_replicate. rewrite Z2Nat.id; [done|].
      rewrite Hsets. apply Z.pow_nonneg. lia. }
    split; [done|]. split; [done|].
    intros s Hs. rewrite !counter_init. lia.
  - by eapply priv_page_inv.
Qed.

Lemma slot_set_eq ctx m frame i :
  phys_geometry ctx m → 0 ≤ frame < 2 ^ 52 → 0 ≤ i < 64 →
  slot_set ctx frame i = 64 * (frame mod 2 ^ (m - 6)) + i.
Proof.
  intros (Hsets & Hm & _) Hf Hi. unfold slot_set, PAGE_SIZE, CACHELINE_SIZE.
  rewrite Hsets.
  rewrite <- (Z.mod_small (frame * 4096 + i * 64) (2 ^ 64)) by lia.
  fold (u64 (frame * 4096 + i * 64)).
  rewrite get_cache_set_helper_pow2 by lia.
  by rewrite slot_set_group by lia.
Qed.

Lemma get_phys_cache_set_full e junk ctx page data :
  0 ≤ page → page mod PAGE_SIZE = 0 →
  page_size e = PAGE_SIZE → open_pagemap e = true →
  pread e 8 (u64 (8 * (page / PAGE_SIZE))) junk = (8, data) →
  0 < data mod 2 ^ 54 < 2 ^ 52 →
  pagemap_read_loop 8 e (page / PAGE_SIZE) 0 junk = Ret (Some data) ∧
  ∃ s0, get_phys_cache_set e junk ctx page = Ret s0.
Proof.
  intros Hpage Halign Hps Hopen Hread Hframe.
  pose proof (pagemap_read_full _ _ _ _ Hread) as Hloop.
  split; [done|].
  unfold get_phys_cache_set, get_phys_addr, pagemap_get_entry.
  rewrite Hopen, Hps, Hloop. cbn [negb]. rewrite !bind_Ret. cbn [pfn].
  change (Z.shiftl 1 54 - 1) with (Z.ones 54).
  rewrite Z.land_ones by lia.
  rewrite decide_False by lia. rewrite bind_Ret.
  rewrite bool_decide_eq_true_2 by done. cbn [c_assert]. rewrite bind_Ret.
  rewrite Halign, Z.add_0_r.
  rewrite decide_False; [eauto|].
  unfold u64, PAGE_SIZE. rewrite Z.mod_small; lia.
Qed.

(** One turn of the loop, from a state the loop can reach and for a
    page-aligned candidate page whose translation succeeds: if one of its
    [CACHE_GROUP_SIZE] line slots maps to a set whose counter has reached
    the associativity, the page is rejected (queued on [cls_to_del]) and no
    counter, pointer or index changes; otherwise all [CACHE_GROUP_SIZE]
    lines are accepted, each tagged with its physical set, and the counter
    of each of these sets, and of no other, goes up by one. *)
Lemma priv_page_turn ctx m e junk page st data :
  phys_geometry ctx m → associativity ctx < 2 ^ 32 →
  priv_reachable ctx st → cl_ptr_idx st < nr_of_cachelines ctx →
  0 < page → page mod PAGE_SIZE = 0 →
  page_size e = PAGE_SIZE → open_pagemap e = true →
  pread e 8 (u64 (8 * (page / PAGE_SIZE))) junk = (8, data) →
  0 < data mod 2 ^ 54 < 2 ^ 52 →
  let frame := data mod 2 ^ 54 in
  ∃ st',
    priv_page e junk ctx page st = Ret st' ∧
    ((∃ i, 0 ≤ i < CACHE_GROUP_SIZE ∧
           associativity ctx ≤ counter st (slot_set ctx frame i)) →
     cls_to_del st' = page ∧
     prev_of (b_cells st') page = Some (cls_to_del st) ∧
     cnt_lines_per_set st' = cnt_lines_per_set st ∧
     cl_ptr_arr st' = cl_ptr_arr st ∧
     cl_ptr_idx st' = cl_ptr_idx st) ∧
    ((∀ i, 0 ≤ i < CACHE_GROUP_SIZE →
           counter st (slot_set ctx frame i) < associativity ctx) →
     cl_ptr_idx st' = cl_ptr_idx st + CACHE_GROUP_SIZE ∧
     (∀ i, 0 ≤ i < CACHE_GROUP_SIZE →
        cl_ptr_arr st' !! Z.to_nat (cl_ptr_idx st + i) =
          Some (Some (page + i * CACHELINE_SIZE)) ∧
        cache_set <$> b_cells st' !! (page + i * CACHELINE_SIZE) =
          Some (slot_set ctx frame i) ∧
        counter st' (slot_set ctx frame i) =
          counter st (slot_set ctx frame i) + 1) ∧
     (∀ s, 0 ≤ s →
        (∀ i, 0 ≤ i < CACHE_GROUP_SIZE → s ≠ slot_set ctx frame i) →
        counter st' s = counter st s) ∧
     cls_to_del st' = cls_to_del st).
Proof.
  intros Hgeo Hassoc Hreach Hidx Hpage Halign Hps Hopen Hread Hframe frame.
  pose proof (priv_reachable_inv _ _ _ Hgeo Hassoc Hreach) as Hinv.
  pose proof Hgeo as (Hsets & Hm & Hassoc0 & Hnr & Hnr32).
  destruct (phys_geometry_groups _ _ Hgeo) as (Hsets64 & HG & Hnr64).
  pose proof Hinv as (Harr & Hcnt_len & Hidx0 & Hidx64 & Hcnt).
  destruct (get_phys_cache_set_full e junk ctx page data)
    as (Hloop & s0 & Hs0); try done; try lia.
  destruct (get_phys_cache_set_page e junk ctx page m s0)
    as (f & Hf & Hdata & Hslots); try done; try lia.
  assert (f = frame) as -> by (by apply Hdata).
  set (b := frame mod 2 ^ (m - 6)) in *.
  pose proof (Z.mod_pos_bound frame (2 ^ (m - 6)) HG) as Hb. fold b in Hb.
  assert (Hslot0 : get_phys_cache_set e junk ctx page = Ret (64 * b)).
  { specialize (Hslots 0 ltac:(done)).
    by rewrite Z.add_0_r, Z.add_0_r in Hslots. }
  pose proof (priv_inv_group ctx m st b Hgeo Hinv Hb) as Hgroup.
  assert (Hslot : ∀ i, 0 ≤ i < 64 → slot_set ctx frame i = 64 * b + i).
  { intros i Hi. apply (slot_set_eq ctx m); [done|unfold frame; lia|done]. }
  assert (Hnull : page ≠ NULL) by (unfold NULL; lia).
  destruct (priv_page_run e junk ctx page (64 * b) st)
    as (st' & Hrun & Hlen_arr & Hlen_cnt & Hcases); try done; try lia.
  { rewrite Harr. apply step_64; [done|done|lia]. }
  { intros i Hi. by apply Hgroup. }
  { intros Hlt i Hi. destruct (Hgroup i Hi) as [_ ->]. done. }
  change CACHE_GROUP_SIZE with 64.
  exists st'. split; [exact Hrun|]. split.
  - intros (i & Hi & Hfull). rewrite Hslot in Hfull by done.
    destruct (Hgroup i Hi) as [_ Hsame]. rewrite Hsame in Hfull.
    rewrite decide_False in Hcases by lia.
    destruct Hcases as (? & ? & ? & ? & ?). done.
  - intros Hroom.
    pose proof (Hroom 0 ltac:(lia)) as Hroom0.
    rewrite Hslot, Z.add_0_r in Hroom0 by lia.
    rewrite decide_True in Hcases by done.
    destruct Hcases as (Hidx' & Hlines & Hcnt' & Hdel).
    split; [done|]. split; [|split; [|done]].
    + intros i Hi. destruct (Hlines i Hi) as [Hptr Htag].
      rewrite Hslot by done. split; [done|]. split; [done|].
      rewrite Hcnt' by lia. by rewrite bool_decide_eq_true_2 by lia.
    + intros s Hs Hother. rewrite Hcnt' by done.
      rewrite bool_decide_eq_false_2; [lia|].
      intros Hin. apply (Hother (s - 64 * b)); [lia|].
      rewrite Hslot by lia. lia.
Qed.

(** ** The loop of the privileged builder *)

Lemma while_steps_loop {St} n (cond : St → bool) body (s s' : St) :
  while_steps n cond body s = Ret s' →
  ∀ fuel, while_loop (n + fuel) cond body s = while_loop fuel cond body s'.
Proof.
  revert s. induction n as [|n IH]; intros s Hrun fuel.
  - cbn in Hrun. by injection Hrun as ->.
  - cbn [while_steps] in Hrun. cbn [Nat.add while_loop].
    destruct (cond s) eqn:Hc.
    + destruct (body s) as [s1| | |]; try done.
      rewrite bind_Ret in Hrun |- *. by apply IH.
    + injection Hrun as <-. destruct fuel; cbn [while_loop]; by rewrite Hc.
Qed.

Lemma while_steps_snoc {St} n (cond : St → bool) body (s s' : St) :
  while_steps n cond body s = Ret s' →
  while_steps (S n) cond body s = if cond s' then body s' else Ret s'.
Proof.
  revert s. induction n as [|n IH]; intros s Hrun.
  - cbn in Hrun. injection Hrun as ->. cbn [while_steps].
    destruct (cond s'); [|done]. by destruct (body s').
  - cbn [while_steps] in Hrun. change (while_steps (S (S n)) cond body s)
      with (if cond s then s1 ← body s; while_steps (S n) cond body s1
            else Ret s).
    destruct (cond s) eqn:Hc.
    + destruct (body s) as [s1| | |]; try done.
      rewrite bind_Ret in Hrun |- *. by apply IH.
    + injection Hrun as <-. by rewrite Hc.
Qed.

(** The pages are asked for one after the other. *)
Lemma priv_turns_count n e junk aligned_alloc ctx st j st' k :
  while_steps n (priv_cond ctx) (priv_turn e junk aligned_alloc ctx) (st, j)
    = Ret (st', k) →
  (j ≤ k)%nat.
Proof.
  revert st j. induction n as [|n IH]; intros st j Hrun.
  - cbn in Hrun. injection Hrun as _ ->. done.
  - cbn [while_steps] in Hrun. destruct (priv_cond ctx (st, j)).
    + cbn [priv_turn] in Hrun.
      destruct (priv_page e junk ctx (aligned_alloc j) st) as [st1| | |];
        try done.
      rewrite !bind_Ret in Hrun. apply IH in Hrun. lia.
    + injection Hrun as _ ->. done.
Qed.

(** The states of the loop are those of [priv_reachable]. *)
Lemma priv_turns_reachable n e junk aligned_alloc ctx st j st' k :
  page_size e = PAGE_SIZE →
  priv_reachable ctx st →
  while_steps n (priv_cond ctx) (priv_turn e junk aligned_alloc ctx) (st, j)
    = Ret (st', k) →
  (∀ i, (j ≤ i < k)%nat →
     0 < aligned_alloc i ∧ aligned_alloc i mod PAGE_SIZE = 0) →
  priv_reachable ctx st'.
Proof.
  intros Hps. revert st j. induction n as [|n IH]; intros st j Hreach Hrun Hpages.
  - cbn in Hrun. by injection Hrun as <- _.
  - cbn [while_steps] in Hrun. destruct (priv_cond ctx (st, j)) eqn:Hc.
    + cbn [priv_turn] in Hrun.
      destruct (priv_page e junk ctx (aligned_alloc j) st) as [st1| | |] eqn:Hpage;
        try done.
      rewrite !bind_Ret in Hrun.
      pose proof (priv_turns_count _ _ _ _ _ _ _ _ _ Hrun) as Hjk.
      apply (IH st1 (S j)); [|done|intros i Hi; apply Hpages; lia].
      destruct (Hpages j ltac:(lia)) as [Hpos Halign].
      apply (priv_reachable_step ctx e junk (aligned_alloc j) st st1);
        try done; [|lia].
      cbn [priv_cond] in Hc. by apply bool_decide_eq_true_1 in Hc.
    + by injection Hrun as <- _.
Qed.

(** C4. In the loop of [allocate_cache_ds_phys_priv], for a geometry of a
    physically indexed cache, whatever turns were taken before, the next
    turn, on a page-aligned candidate page whose translation succeeds,
    returns; the call, given fuel, goes on from the state of that turn; and
    if one of the page's [CACHE_GROUP_SIZE] line slots maps to a set whose
    counter has reached the associativity, the page is rejected (queued on
    [cls_to_del]) and no counter, pointer or index changes; otherwise all
    [CACHE_GROUP_SIZE] lines are accepted, each tagged with its physical
    set, and the counter of each of these sets, and of no other, goes up by
    one. *)
Theorem priv_page_spec ctx m e junk aligned_alloc h arr del n st k data :
  phys_geometry ctx m → associativity ctx < 2 ^ 32 →
  Z.of_nat (length arr) = nr_of_cachelines ctx →
  page_size e = PAGE_SIZE → open_pagemap e = true →
  (∀ i, (i ≤ k)%nat →
     0 < aligned_alloc i ∧ aligned_alloc i mod PAGE_SIZE = 0) →
  priv_turns n e junk aligned_alloc ctx h arr del = Ret (st, k) →
  cl_ptr_idx st < nr_of_cachelines ctx →
  pread e 8 (u64 (8 * (aligned_alloc k / PAGE_SIZE))) junk = (8, data) →
  0 < data mod 2 ^ 54 < 2 ^ 52 →
  let page := aligned_alloc k in
  let frame := data mod 2 ^ 54 in
  ∃ st',
    priv_page e junk ctx page st = Ret st' ∧
    priv_turns (S n) e junk aligned_alloc ctx h arr del = Ret (st', S k) ∧
    (∀ fuel,
       allocate_cache_ds_phys_priv (S n + fuel) e junk aligned_alloc ctx
         h arr del =
       while_loop fuel (priv_cond ctx) (priv_turn e junk aligned_alloc ctx)
         (st', S k)) ∧
    ((∃ i, 0 ≤ i < CACHE_GROUP_SIZE ∧
           associativity ctx ≤ counter st (slot_set ctx frame i)) →
     cls_to_del st' = page ∧
     prev_of (b_cells st') page = Some (cls_to_del st) ∧
     cnt_lines_per_set st' = cnt_lines_per_set st ∧
     cl_ptr_arr st' = cl_ptr_arr st ∧
     cl_ptr_idx st' = cl_ptr_idx st) ∧
    ((∀ i, 0 ≤ i < CACHE_GROUP_SIZE →
           counter st (slot_set ctx frame i) < associativity ctx) →
     cl_ptr_idx st' = cl_ptr_idx st + CACHE_GROUP_SIZE ∧
     (∀ i, 0 ≤ i < CACHE_GROUP_SIZE →
        cl_ptr_arr st' !! Z.to_nat (cl_ptr_idx st + i) =
          Some (Some (page + i * CACHELINE_SIZE)) ∧
        cache_set <$> b_cells st' !! (page + i * CACHELINE_SIZE) =
          Some (slot_set ctx frame i) ∧
        counter st' (slot_set ctx frame i) =
          counter st (slot_set ctx frame i) + 1) ∧
     (∀ s, 0 ≤ s →
        (∀ i, 0 ≤ i < CACHE_GROUP_SIZE → s ≠ slot_set ctx frame i) →
        counter st' s = counter st s) ∧
     cls_to_del st' = cls_to_del st).
Proof.
  intros Hgeo Hassoc Harr Hps Hopen Hpages Hturns Hidx Hread Hframe page frame.
  assert (Hreach : priv_reachable ctx st).
  { apply (priv_turns_reachable n e junk aligned_alloc ctx
             (priv_init ctx h arr del) O st k); [done| |done|].
    - by apply priv_reachable_init.
    - intros i Hi. apply Hpages. lia. }
  destruct (Hpages k ltac:(lia)) as [Hpos Halign].
  destruct (priv_page_turn ctx m e junk page st data)
    as (st' & Hrun & Hrej & Hacc); try done.
  assert (Hnext : priv_turns (S n) e junk aligned_alloc ctx h arr del
                  = Ret (st', S k)).
  { unfold priv_turns in *. rewrite (while_steps_snoc _ _ _ _ _ Hturns).
    cbn [priv_cond priv_turn]. rewrite bool_decide_eq_true_2 by done.
    fold page. by rewrite Hrun, bind_Ret. }
  exists st'. split; [done|]. split; [done|]. split; [|done].
  intros fuel. unfold allocate_cache_ds_phys_priv.
  by apply while_steps_loop.
Qed.

(** ** The loop at work *)

Lemma aligned_alloc_example_ok (i : nat) :
  0 < aligned_alloc_example i ∧ aligned_alloc_example i mod PAGE_SIZE = 0.
Proof.
  unfold aligned_alloc_example, PAGE_SIZE. split; [lia|].
  replace (8192 + 4096 * Z.of_nat i) with ((2 + Z.of_nat i) * 4096) by lia.
  apply Z.mod_mul. lia.
Qed.

Lemma phys_geometry_L2 : phys_geometry ctx_L2 9.
Proof. repeat split; try reflexivity; discriminate. Qed.

(** The sets of a page in frame 5 of the L2 geometry. *)
Lemma slot_set_L2_frame5 i : 0 ≤ i < 64 → slot_set ctx_L2 5 i = 320 + i.
Proof.
  intros Hi. rewrite (slot_set_eq ctx_L2 9 5 i phys_geometry_L2); [|lia|done].
  reflexivity.
Qed.

(** Eight pages of frame 5 fill the sets 320 to 383. *)
Lemma priv_turns_L2_eight :
  ∃ st8,
    priv_turns 8 (os_const (2 ^ 63 + 5)) 0 aligned_alloc_example ctx_L2 ∅
      (replicate 4096 None) 0 = Ret (st8, 8%nat) ∧
    cl_ptr_idx st8 = 512 ∧
    counter st8 (slot_set ctx_L2 5 0) = associativity ctx_L2 ∧
    cls_to_del st8 = 0.
Proof. eexists. split; [vm_compute; reflexivity|]. by vm_compute. Qed.

(** The theorem at work on the L2 geometry, with every page in frame 5:
    the first turn accepts its page, and the ninth, taken when the sets of
    the page already hold eight lines each, rejects it. *)
Lemma priv_page_spec_witness :
  let e := os_const (2 ^ 63 + 5) in
  (∃ st1,
     priv_turns 1 e 0 aligned_alloc_example ctx_L2 ∅ (replicate 4096 None) 0
       = Ret (st1, 1%nat) ∧
     cl_ptr_idx st1 = 64 ∧
     cl_ptr_arr st1 !! 63%nat = Some (Some (8192 + 63 * 64)) ∧
     cache_set <$> b_cells st1 !! (8192 + 63 * 64) = Some 383 ∧
     counter st1 383 = 1 ∧ counter st1 0 = 0 ∧
     cls_to_del st1 = 0) ∧
  (∃ st8 st9,
     priv_turns 8 e 0 aligned_alloc_example ctx_L2 ∅ (replicate 4096 None) 0
       = Ret (st8, 8%nat) ∧
     cl_ptr_idx st8 = 512 ∧
     counter st8 (slot_set ctx_L2 5 0) = associativity ctx_L2 ∧
     priv_turns 9 e 0 aligned_alloc_example ctx_L2 ∅ (replicate 4096 None) 0
       = Ret (st9, 9%nat) ∧
     cls_to_del st9 = aligned_alloc_example 8 ∧
     prev_of (b_cells st9) (aligned_alloc_example 8) = Some 0 ∧
     cnt_lines_per_set st9 = cnt_lines_per_set st8 ∧
     cl_ptr_arr st9 = cl_ptr_arr st8 ∧
     cl_ptr_idx st9 = 512 ∧
     ∀ fuel,
       allocate_cache_ds_phys_priv (9 + fuel) e 0 aligned_alloc_example ctx_L2
         ∅ (replicate 4096 None) 0 =
       while_loop fuel (priv_cond ctx_L2)
         (priv_turn e 0 aligned_alloc_example ctx_L2) (st9, 9%nat)).
Proof.
  intros e.
  assert (Hf : (2 ^ 63 + 5) mod 2 ^ 54 = 5) by reflexivity.
  split.
  - destruct (priv_page_spec ctx_L2 9 e 0 aligned_alloc_example ∅
                (replicate 4096 None) 0 0
                (priv_init ctx_L2 ∅ (replicate 4096 None) 0) 0 (2 ^ 63 + 5))
      as (st1 & _ & Hturn & _ & _ & Hacc);
      [exact phys_geometry_L2|reflexivity|reflexivity|reflexivity|reflexivity
      |intros i _; apply aligned_alloc_example_ok|reflexivity|reflexivity
      |reflexivity|split; reflexivity|].
    rewrite Hf in Hacc.
    assert (Hroom : ∀ i, 0 ≤ i < CACHE_GROUP_SIZE →
              counter (priv_init ctx_L2 ∅ (replicate 4096 None) 0)
                      (slot_set ctx_L2 5 i) < associativity ctx_L2).
    { intros i Hi. rewrite counter_init. reflexivity. }
    destruct (Hacc Hroom) as (Hidx & Hlines & Hother & Hdel).
    destruct (Hlines 63) as (Hptr & Htag & Hcnt); [split; [discriminate|reflexivity]|].
    rewrite counter_init in Hcnt.
    rewrite (slot_set_L2_frame5 63) in Htag, Hcnt by lia.
    exists st1. split; [exact Hturn|]. split; [exact Hidx|].
    split; [exact Hptr|]. split; [exact Htag|]. split; [exact Hcnt|].
    split; [|exact Hdel].
    rewrite Hother; [apply counter_init|lia|].
    intros i Hi. change CACHE_GROUP_SIZE with 64 in Hi. rewrite slot_set_L2_frame5 by lia. lia.
  - destruct priv_turns_L2_eight as (st8 & Hst8 & Hidx8 & Hcnt8 & Hdel8).
    fold e in Hst8.
    destruct (priv_page_spec ctx_L2 9 e 0 aligned_alloc_example ∅
                (replicate 4096 None) 0 8 st8 8 (2 ^ 63 + 5))
      as (st9 & _ & Hturn & Hloop & Hrej & _);
      [exact phys_geometry_L2|reflexivity|reflexivity|reflexivity|reflexivity
      |intros i _; apply aligned_alloc_example_ok|exact Hst8|rewrite Hidx8; reflexivity
      |reflexivity|split; reflexivity|].
    rewrite Hf in Hrej.
    assert (Hfull : ∃ i, 0 ≤ i < CACHE_GROUP_SIZE ∧
              associativity ctx_L2 ≤ counter st8 (slot_set ctx_L2 5 i)).
    { exists 0. split; [split; [discriminate|reflexivity]|]. rewrite Hcnt8. reflexivity. }
    destruct (Hrej Hfull) as (Hdel & Hprev & Hcnt & Harr & Hidx).
    exists st8, st9. split; [exact Hst8|]. split; [exact Hidx8|].
    split; [exact Hcnt8|]. split; [exact Hturn|]. split; [exact Hdel|].
    split; [rewrite Hprev, Hdel8; reflexivity|]. split; [exact Hcnt|]. split; [exact Harr|].
    split; [rewrite Hidx; exact Hidx8|]. exact Hloop.
Defined.

(** ** Loops with a 16-bit counter *)

Lemma for_u16_foldM {St} (body : Z → St → result St) hi fuel s :
  0 ≤ hi ≤ 65535 → (Z.to_nat hi < fuel)%nat →
  for_u16 fuel 0 hi body s = foldM body (seqZ 0 hi) s.
Proof.
  intros Hhi Hfuel.
  enough (Hgen : ∀ (n : nat) i fuel s,
    0 ≤ i → i + Z.of_nat n = hi → (n < fuel)%nat →
    for_u16 fuel i hi body s = foldM body (seqZ i (Z.of_nat n)) s).
  { rewrite <- (Z2Nat.id hi) at 2 by lia. apply Hgen; lia. }
  clear s fuel Hfuel.
  induction n as [|n IH]; intros i fuel s Hi Hn Hfuel;
    (destruct fuel as [|fuel]; [lia|]); cbn [for_u16].
  - rewrite decide_False by lia. done.
  - rewrite decide_True by lia. rewrite seqZ_cons by lia. cbn [foldM].
    destruct (body i s) as [s'| | |]; [|done..].
    rewrite !bind_Ret.
    replace (Z.pred (Z.of_nat (S n))) with (Z.of_nat n) by lia.
    replace (u16 (i + 1)) with (Z.succ i)
      by (unfold u16; rewrite Z.mod_small; lia).
    apply IH; lia.
Qed.

(** ** What a store changes *)

Lemma tag_of_is_Some (h : heap) p : is_Some (tag_of h p) ↔ is_Some (h !! p).
Proof. unfold tag_of. apply fmap_is_Some. Qed.

Lemma store_next_run (h : heap) p v :
  is_Some (tag_of h p) →
  ∃ h', store_next h p v = Ret h' ∧
    (∀ q, next_of h' q = if decide (q = p) then Some v else next_of h q) ∧
    (∀ q, prev_of h' q = prev_of h q) ∧
    (∀ q, tag_of h' q = tag_of h q) ∧
    (∀ q, flags_of h' q = flags_of h q) ∧
    (∀ q, time_of h' q = time_of h q).
Proof.
  intros [c Hc]%tag_of_is_Some. eexists. unfold store_next.
  rewrite (load_Ret _ _ _ Hc), bind_Ret. split; [done|].
  unfold next_of, prev_of, tag_of, flags_of, time_of.
  split; [|split; [|split; [|split]]]; intros q; destruct (decide (q = p)) as [->|Hq];
    rewrite ?lookup_insert_eq, ?Hc; rewrite ?lookup_insert_ne by done; done.
Qed.

Lemma store_prev_run (h : heap) p v :
  is_Some (tag_of h p) →
  ∃ h', store_prev h p v = Ret h' ∧
    (∀ q, next_of h' q = next_of h q) ∧
    (∀ q, prev_of h' q = if decide (q = p) then Some v else prev_of h q) ∧
    (∀ q, tag_of h' q = tag_of h q) ∧
    (∀ q, flags_of h' q = flags_of h q) ∧
    (∀ q, time_of h' q = time_of h q).
Proof.
  intros [c Hc]%tag_of_is_Some. eexists. unfold store_prev.
  rewrite (load_Ret _ _ _ Hc), bind_Ret. split; [done|].
  unfold next_of, prev_of, tag_of, flags_of, time_of.
  split; [|split; [|split; [|split]]]; intros q; destruct (decide (q = p)) as [->|Hq];
    rewrite ?lookup_insert_eq, ?Hc; rewrite ?lookup_insert_ne by done; done.
Qed.

Lemma store_flags_run (h : heap) p v :
  is_Some (tag_of h p) →
  ∃ h', store_flags h p v = Ret h' ∧
    (∀ q, next_of h' q = next_of h q) ∧
    (∀ q, prev_of h' q = prev_of h q) ∧
    (∀ q, tag_of h' q = tag_of h q) ∧
    (∀ q, flags_of h' q = if decide (q = p) then Some v else flags_of h q) ∧
    (∀ q, time_of h' q = time_of h q).
Proof.
  intros [c Hc]%tag_of_is_Some. eexists. unfold store_flags.
  rewrite (load_Ret _ _ _ Hc), bind_Ret. split; [done|].
  unfold next_of, prev_of, tag_of, flags_of, time_of.
  split; [|split; [|split; [|split]]]; intros q; destruct (decide (q = p)) as [->|Hq];
    rewrite ?lookup_insert_eq, ?Hc; rewrite ?lookup_insert_ne by done; done.
Qed.

Lemma store_time_msrmt_run (h : heap) p v :
  is_Some (tag_of h p) →
  ∃ h', store_time_msrmt h p v = Ret h' ∧
    (∀ q, next_of h' q = next_of h q) ∧
    (∀ q, prev_of h' q = prev_of h q) ∧
    (∀ q, tag_of h' q = tag_of h q) ∧
    (∀ q, flags_of h' q = flags_of h q) ∧
    (∀ q, time_of h' q = if decide (q = p) then Some v else time_of h q).
Proof.
  intros [c Hc]%tag_of_is_Some. eexists. unfold store_time_msrmt.
  rewrite (load_Ret _ _ _ Hc), bind_Ret. split; [done|].
  unfold next_of, prev_of, tag_of, flags_of, time_of.
  split; [|split; [|split; [|split]]]; intros q; destruct (decide (q = p)) as [->|Hq];
    rewrite ?lookup_insert_eq, ?Hc; rewrite ?lookup_insert_ne by done; done.
Qed.

(** ** Chains by position *)

Lemma chain_lookup f l z :
  chain f l z ↔ ∀ i p, l !! i = Some p → f p = Some (default z (l !! S i)).
Proof.
  induction l as [|x l IH]; cbn [chain].
  - split; [|done]. intros _ i p. by rewrite lookup_nil.
  - rewrite IH. split.
    + intros [Hx Hl] [|i] p; cbn; [|by apply Hl].
      intros [= <-]. rewrite Hx. by destruct l.
    + intros H. split.
      * rewrite (H O x eq_refl). by destruct l.
      * intros i p Hi. by apply (H (S i)).
Qed.

(** ** Random index maps *)

Lemma gen_random_indices_run rnd (arr : list Z) n k :
  1 ≤ n < 2 ^ 32 → Z.of_nat (length arr) = n →
  ∃ idx, gen_random_indices rnd arr n k = Ret (idx, (k + Z.to_nat (n - 1))%nat) ∧
         idx ≡ₚ seqZ 0 n.
Proof.
  intros Hn Harr.
  exists (shuffle_spec rnd (Z.to_nat (n - 1)) k (seqZ 0 n)).
  split; [|apply shuffle_spec_Permutation].
  unfold gen_random_indices, for_range.
  pose proof (fill_indices [] arr) as Hfill.
  cbn [length app] in Hfill. rewrite Harr in Hfill.
  change (Z.of_nat 0) with 0 in Hfill. rewrite Hfill, bind_Ret.
  apply random_perm_run; [done|].
  rewrite length_seqZ. lia.
Qed.

(** ** Sorting the lines by set *)

Lemma length_filter_take {A} (P : A → Prop) `{!∀ x, Decision (P x)} k
    (l : list A) :
  (length (filter P (take k l)) ≤ length (filter P l))%nat.
Proof.
  rewrite <- (take_drop k l) at 2. rewrite filter_app, length_app. lia.
Qed.

Lemma lines_of_set_snoc_eq h s l p :
  tag_of h p = Some s → lines_of_set h s (l ++ [p]) = lines_of_set h s l ++ [p].
Proof.
  intros Hp. unfold lines_of_set. rewrite filter_app. f_equal.
  by rewrite filter_cons_True.
Qed.

Lemma lines_of_set_snoc_ne h s l p :
  tag_of h p ≠ Some s → lines_of_set h s (l ++ [p]) = lines_of_set h s l.
Proof.
  intros Hp. unfold lines_of_set. rewrite filter_app.
  rewrite filter_cons_False by done. by rewrite filter_nil, app_nil_r.
Qed.

Lemma slot_inj (n s t j c : nat) :
  (j < n)%nat → (c < n)%nat → (s * n + j = t * n + c)%nat → s = t ∧ j = c.
Proof. intros Hj Hc Heq. apply Nat.mul_split_l in Heq; [done|lia..]. Qed.

Lemma sort_by_set_run ctx (h : heap) arr :
  geometry_ok ctx → alloc_ok ctx h arr →
  ∃ sorted idx,
    for_range (nr_of_cachelines ctx)
      (λ i '(cl_ptr_arr_sorted, idx_per_set),
         p ← arr_get arr i;
         c ← load h p;
         let set_offset := u32 (cache_set c * associativity ctx) in
         idx_curr_set ← arr_get idx_per_set (cache_set c);
         cl_ptr_arr_sorted ←
           arr_set cl_ptr_arr_sorted (u32 (set_offset + idx_curr_set)) (Some p);
         idx_per_set ←
           arr_set idx_per_set (cache_set c) (u32 (idx_curr_set + 1));
         Ret (cl_ptr_arr_sorted, idx_per_set))
      (replicate (Z.to_nat (nr_of_cachelines ctx)) None,
       replicate (Z.to_nat (sets ctx)) 0) = Ret (sorted, idx) ∧
    ∀ s j p, 0 ≤ s < sets ctx → lines_of_set h s arr !! j = Some p →
      arr_get_init sorted (s * associativity ctx + Z.of_nat j) = Ret p.
Proof.
  intros (Hsets & Hassoc & Hnr) (Hlen & Hnd & Htags & Hcnt).
  set (n := Z.to_nat (associativity ctx)).
  unfold for_range.
  match goal with |- context [foldM ?body ?l ?s0] =>
    destruct (foldM_inv body l
      (λ i '(sorted, idx),
         length sorted = Z.to_nat (nr_of_cachelines ctx) ∧
         length idx = Z.to_nat (sets ctx) ∧
         (∀ s, 0 ≤ s < sets ctx →
            idx !! Z.to_nat s =
              Some (Z.of_nat (length (lines_of_set h s (take i arr))))) ∧
         (∀ s j p, 0 ≤ s < sets ctx →
            lines_of_set h s (take i arr) !! j = Some p →
            sorted !! (Z.to_nat s * n + j)%nat = Some (Some p))) s0)
      as ([sorted idx] & Hrun & HI)
  end.
  - rewrite !length_replicate. split; [done|]. split; [done|]. split.
    + intros s Hs. rewrite take_0. cbn. apply lookup_replicate_2. lia.
    + intros s j p _. rewrite take_0. by cbn.
  - intros i x [sorted idx] Hx (HlenS & HlenI & Hidx & Hslots).
    apply lookup_seqZ in Hx as [-> Hi]. rewrite Z.add_0_l.
    destruct (lookup_lt_is_Some_2 arr i) as [p Hp]; [lia|].
    destruct (Htags p) as (t & Ht & Htag); [by eapply list_elem_of_lookup_2|].
    assert (∃ c, h !! p = Some c ∧ cache_set c = t) as (c & Hc & Hct).
    { unfold tag_of in Htag. destruct (h !! p) as [c|]; [|done].
      exists c. split; [done|]. by injection Htag. }
    pose proof (length_filter_take (λ q, tag_of h q = Some t) (S i) arr) as Hle.
    rewrite (take_S_r _ _ _ Hp) in Hle.
    fold (lines_of_set h t (take i arr ++ [p])) in Hle.
    fold (lines_of_set h t arr) in Hle.
    rewrite (lines_of_set_snoc_eq _ _ _ _ Htag), length_app in Hle.
    cbn [length] in Hle. specialize (Hcnt t Ht) as Hcnt_t.
    set (c_t := length (lines_of_set h t (take i arr))) in *.
    assert (Hct_lt : (c_t < n)%nat) by lia.
    assert (Hoff : u32 (t * associativity ctx) = t * associativity ctx).
    { unfold u32. apply Z.mod_small. nia. }
    assert (Hslot : u32 (t * associativity ctx + Z.of_nat c_t)
                    = t * associativity ctx + Z.of_nat c_t).
    { unfold u32. apply Z.mod_small. nia. }
    assert (Hslot_nat : Z.to_nat (t * associativity ctx + Z.of_nat c_t)
                        = (Z.to_nat t * n + c_t)%nat) by nia.
    eexists. split.
    { rewrite (arr_get_Ret arr _ p) by (rewrite ?Nat2Z.id; first [lia | done]).
      ret_step. rewrite (load_Ret _ _ _ Hc). ret_step. cbv zeta. rewrite Hct.
      rewrite (arr_get_Ret idx t (Z.of_nat c_t)) by (first [lia | by apply Hidx]).
      ret_step. rewrite Hoff, Hslot, (arr_set_Ret sorted) by nia. ret_step.
      rewrite (arr_set_Ret idx) by lia. ret_step. reflexivity. }
    cbv beta iota. rewrite !length_insert. split; [done|]. split; [done|]. split.
    + intros s Hs. rewrite (take_S_r _ _ _ Hp).
      destruct (decide (s = t)) as [->|Hst].
      * rewrite list_lookup_insert_eq by lia.
        rewrite (lines_of_set_snoc_eq _ _ _ _ Htag), length_app. cbn [length].
        f_equal. unfold u32. rewrite Z.mod_small; lia.
      * rewrite list_lookup_insert_ne by lia.
        rewrite lines_of_set_snoc_ne by congruence. by apply Hidx.
    + intros s j q Hs. rewrite (take_S_r _ _ _ Hp), Hslot_nat.
      destruct (decide (s = t)) as [->|Hst].
      * rewrite (lines_of_set_snoc_eq _ _ _ _ Htag).
        intros [Hq|[Hj [= <-]]]%lookup_snoc_Some.
        -- destruct Hq as [Hjlt Hq]. rewrite list_lookup_insert_ne by (fold c_t in Hjlt; lia).
           by apply Hslots.
        -- fold c_t in Hj. subst j. rewrite list_lookup_insert_eq; [done|]. nia.
      * rewrite lines_of_set_snoc_ne by congruence. intros Hq.
        pose proof (lookup_lt_Some _ _ _ Hq) as Hjlt.
        pose proof (length_filter_take (λ q, tag_of h q = Some s) i arr) as Hle'.
        fold (lines_of_set h s (take i arr)) in Hle'.
        fold (lines_of_set h s arr) in Hle'.
        specialize (Hcnt s Hs).
        rewrite list_lookup_insert_ne; [by apply Hslots|].
        intros Heq. apply slot_inj in Heq as [Heq _]; lia.
  - exists sorted, idx. split; [exact Hrun|].
    destruct HI as (HlenS & HlenI & Hidx & Hslots).
    rewrite length_seqZ in Hslots. rewrite take_ge in Hslots by lia.
    intros s j p Hs Hp. specialize (Hslots s j p Hs Hp).
    unfold arr_get_init.
    rewrite (arr_get_Ret sorted _ (Some p)), bind_Ret; [done|nia|].
    replace (Z.to_nat (s * associativity ctx + Z.of_nat j))
      with (Z.to_nat s * n + j)%nat by nia. done.
Qed.

(** ** Linking the lines of one set *)

(** One round of the loop of [build_randomized_list_for_cache_set]: the
    line [curr] gets its two links, and nothing else changes in the links
    and the tags. *)
Lemma link_line_run (h : heap) (idx_map : list Z) (sorted : list (option Z))
    off len i ji jn jp curr n_ p_ first :
  arr_get idx_map i = Ret ji → arr_get_init sorted (off + ji) = Ret curr →
  arr_get idx_map ((i + 1) mod len) = Ret jn →
  arr_get_init sorted (off + jn) = Ret n_ →
  arr_get idx_map (u32 (len - 1 + i) mod len) = Ret jp →
  arr_get_init sorted (off + jp) = Ret p_ →
  arr_get_init sorted (off + 0) = Ret first →
  is_Some (tag_of h curr) → is_Some (tag_of h p_) →
  ∃ h',
    (j ← arr_get idx_map i;
     curr_cl ← arr_get_init sorted (off + j);
     j ← arr_get idx_map ((i + 1) mod len);
     n ← arr_get_init sorted (off + j);
     h ← store_next h curr_cl n;
     j ← arr_get idx_map (u32 (len - 1 + i) mod len);
     p ← arr_get_init sorted (off + j);
     h ← store_prev h curr_cl p;
     h ← store_time_msrmt h curr_cl 0;
     first ← arr_get_init sorted (off + 0);
     if decide (curr_cl = first) then
       h ← store_flags h curr_cl (SET_FIRST DEFAULT_FLAGS);
       c ← load h curr_cl;
       store_flags h (prev c) (SET_LAST DEFAULT_FLAGS)
     else
       c ← load h curr_cl;
       store_flags h curr_cl (Z.lor (flags c) DEFAULT_FLAGS)) = Ret h' ∧
    (∀ q, next_of h' q = if decide (q = curr) then Some n_ else next_of h q) ∧
    (∀ q, prev_of h' q = if decide (q = curr) then Some p_ else prev_of h q) ∧
    (∀ q, tag_of h' q = tag_of h q) ∧
    (∀ q, flags_of h' q =
       if decide (curr = first) then
         if decide (q = p_) then Some (SET_LAST DEFAULT_FLAGS)
         else if decide (q = curr) then Some (SET_FIRST DEFAULT_FLAGS)
         else flags_of h q
       else flags_of h q) ∧
    (∀ q, time_of h' q = if decide (q = curr) then Some 0 else time_of h q).
Proof.
  intros Hji Hcu Hjn Hn Hjp Hp Hfirst Hcurr Hprev.
  rewrite Hji. ret_step. rewrite Hcu. ret_step.
  rewrite Hjn. ret_step. rewrite Hn. ret_step.
  destruct (store_next_run h curr n_ Hcurr)
    as (h1 & -> & Hn1 & Hp1 & Ht1 & Hf1 & Hm1).
  ret_step. rewrite Hjp. ret_step. rewrite Hp. ret_step.
  destruct (store_prev_run h1 curr p_)
    as (h2 & -> & Hn2 & Hp2 & Ht2 & Hf2 & Hm2); [by rewrite Ht1|].
  ret_step.
  destruct (store_time_msrmt_run h2 curr 0)
    as (h3 & -> & Hn3 & Hp3 & Ht3 & Hf3 & Hm3); [by rewrite Ht2, Ht1|].
  ret_step. rewrite Hfirst. ret_step.
  assert (Hviews : ∀ q,
    (next_of h3 q = if decide (q = curr) then Some n_ else next_of h q) ∧
    (prev_of h3 q = if decide (q = curr) then Some p_ else prev_of h q) ∧
    tag_of h3 q = tag_of h q ∧ flags_of h3 q = flags_of h q ∧
    time_of h3 q = if decide (q = curr) then Some 0 else time_of h q).
  { intros q.
    by rewrite Hn3, Hn2, Hn1, Hp3, Hp2, Hp1, Ht3, Ht2, Ht1, Hf3, Hf2, Hf1,
      Hm3, Hm2, Hm1. }
  destruct (decide (curr = first)) as [Hfst|Hfst].
  - destruct (store_flags_run h3 curr (SET_FIRST DEFAULT_FLAGS))
      as (h4 & -> & Hn4 & Hp4 & Ht4 & Hf4 & Hm4); [by rewrite Ht3, Ht2, Ht1|].
    ret_step.
    assert (Hpc : prev_of h4 curr = Some p_).
    { rewrite Hp4. destruct (Hviews curr) as (_ & -> & _). by rewrite decide_True. }
    apply prev_of_Some in Hpc as (c & Hc & Hpc).
    rewrite (load_Ret _ _ _ Hc). ret_step. rewrite Hpc.
    destruct (store_flags_run h4 p_ (SET_LAST DEFAULT_FLAGS))
      as (h5 & -> & Hn5 & Hp5 & Ht5 & Hf5 & Hm5); [by rewrite Ht4, Ht3, Ht2, Ht1|].
    exists h5. split; [done|].
    split; [|split; [|split; [|split]]]; intros q;
      destruct (Hviews q) as (Hvn & Hvp & Hvt & Hvf & Hvm).
    + by rewrite Hn5, Hn4.
    + by rewrite Hp5, Hp4.
    + by rewrite Ht5, Ht4.
    + by rewrite Hf5, Hf4, Hvf.
    + by rewrite Hm5, Hm4.
  - assert (Hc : is_Some (h3 !! curr)).
    { apply tag_of_is_Some. by rewrite Ht3, Ht2, Ht1. }
    destruct Hc as [c Hc]. rewrite (load_Ret _ _ _ Hc). ret_step.
    destruct (store_flags_run h3 curr (Z.lor (flags c) DEFAULT_FLAGS))
      as (h4 & -> & Hn4 & Hp4 & Ht4 & Hf4 & Hm4); [by rewrite Ht3, Ht2, Ht1|].
    exists h4. split; [done|].
    split; [|split; [|split; [|split]]]; intros q;
      destruct (Hviews q) as (Hvn & Hvp & Hvt & Hvf & Hvm).
    + by rewrite Hn4.
    + by rewrite Hp4.
    + by rewrite Ht4.
    + rewrite Hf4, <- Hvf. destruct (decide (q = curr)) as [->|]; [|done].
      unfold flags_of. rewrite Hc. cbn. by rewrite Z.lor_0_r.
    + by rewrite Hm4.
Qed.

Lemma fmap_lookup_seqZ (b : list Z) :
  (λ j, default 0 (b !! Z.to_nat j)) <$> seqZ 0 (Z.of_nat (length b)) = b.
Proof.
  apply list_eq. intros i. rewrite list_lookup_fmap.
  destruct (decide (i < length b)%nat) as [Hi|Hi].
  - rewrite lookup_seqZ_lt by lia. rewrite Z.add_0_l. cbn [fmap option_fmap option_map]. rewrite Nat2Z.id.
    destruct (lookup_lt_is_Some_2 b i Hi) as [x Hx]. by rewrite Hx.
  - rewrite lookup_seqZ_ge by lia. cbn. symmetry. apply lookup_ge_None. lia.
Qed.

Lemma hd_default (l : list Z) z : hd z l = default z (head l).
Proof. by destruct l. Qed.

(** Lines whose links follow the positions of a list cyclically form a
    ring. *)
Lemma ring_of_positions (h : heap) (C : list Z) (len : Z) :
  Z.of_nat (length C) = len → 1 ≤ len → NoDup C →
  (∀ i p, C !! i = Some p →
     next_of h p = Some (default 0 (C !! Z.to_nat ((Z.of_nat i + 1) mod len))) ∧
     prev_of h p =
       Some (default 0 (C !! Z.to_nat ((len - 1 + Z.of_nat i) mod len)))) →
  ring h C.
Proof.
  intros Hlen Hpos Hnd Hlinks.
  split; [intros ->; cbn in Hlen; lia|]. split; [done|]. split.
  - apply chain_lookup. intros i p Hi. destruct (Hlinks i p Hi) as [-> _].
    f_equal. pose proof (lookup_lt_Some _ _ _ Hi) as Hlt.
    destruct (decide (S i < length C)%nat) as [Hlt'|Hge].
    + rewrite Z.mod_small by lia.
      replace (Z.to_nat (Z.of_nat i + 1)) with (S i) by lia.
      destruct (lookup_lt_is_Some_2 C (S i) Hlt') as [x Hx]. by rewrite Hx.
    + replace (Z.of_nat i + 1) with len by lia. rewrite Z_mod_same_full.
      change (Z.to_nat 0) with O.
      rewrite (lookup_ge_None_2 C (S i)) by lia. cbn [default].
      by rewrite hd_default, head_lookup.
  - apply chain_lookup. intros i p Hi.
    apply reverse_lookup_Some in Hi as [Hi Hlt].
    destruct (Hlinks _ p Hi) as [_ ->]. f_equal.
    destruct (decide (S i < length C)%nat) as [Hlt'|Hge].
    + rewrite reverse_lookup by done.
      replace (len - 1 + Z.of_nat (length C - S i))
        with ((len - 2 - Z.of_nat i) + 1 * len) by lia.
      rewrite Z_mod_plus_full, Z.mod_small by lia.
      replace (Z.to_nat (len - 2 - Z.of_nat i))
        with (length C - S (S i))%nat by lia.
      destruct (lookup_lt_is_Some_2 C (length C - S (S i))) as [x Hx]; [lia|].
      by rewrite Hx.
    + rewrite (lookup_ge_None_2 (reverse C) (S i))
        by (rewrite length_reverse; lia).
      cbn [default]. rewrite hd_default, head_reverse, last_lookup.
      replace (len - 1 + Z.of_nat (length C - S i)) with (len - 1) by lia.
      rewrite Z.mod_small by lia.
      by replace (Z.to_nat (len - 1)) with (pred (length C)) by lia.
Qed.

(** [build_randomized_list_for_cache_set] on the lines [b] of one set:
    they end up as a ring whose first line is the first line of [b]; the
    links of all other lines and all tags stay as they were. *)
Lemma build_list_run fuel rnd ctx (sorted : list (option Z)) off (b : list Z)
    (h : heap) k :
  1 ≤ associativity ctx ≤ 65535 →
  (Z.to_nat (associativity ctx) < fuel)%nat →
  Z.of_nat (length b) = associativity ctx → NoDup b →
  (∀ j p, b !! j = Some p → arr_get_init sorted (off + Z.of_nat j) = Ret p) →
  (∀ p, p ∈ b → is_Some (tag_of h p)) →
  ∃ h' R,
    build_randomized_list_for_cache_set fuel rnd ctx sorted off (h, k) =
      Ret (h', (k + Z.to_nat (associativity ctx - 1))%nat) ∧
    ring h' R ∧ R ≡ₚ b ∧ head R = head b ∧
    (∀ q, q ∉ b → next_of h' q = next_of h q ∧ prev_of h' q = prev_of h q) ∧
    (∀ q, tag_of h' q = tag_of h q) ∧
    (∀ q, flags_of h' q =
       if decide (last R = Some q) then Some (SET_LAST DEFAULT_FLAGS)
       else if decide (head R = Some q) then Some (SET_FIRST DEFAULT_FLAGS)
       else flags_of h q) ∧
    (∀ q, time_of h' q = if decide (q ∈ b) then Some 0 else time_of h q).
Proof.
  intros Hassoc Hfuel Hlen Hnd Hsorted Hdom.
  destruct (gen_random_indices_run rnd
              (replicate (Z.to_nat (associativity ctx)) 0) (associativity ctx) k)
    as (π & Hgen & Hπ); [lia|rewrite length_replicate; lia|].
  set (C := (λ j : Z, default 0 (b !! Z.to_nat j)) <$> π).
  assert (HCb : C ≡ₚ b).
  { unfold C. rewrite Hπ, <- Hlen. by rewrite fmap_lookup_seqZ. }
  assert (HCnd : NoDup C) by (by rewrite HCb).
  assert (HClen : Z.of_nat (length C) = associativity ctx) by (by rewrite HCb).
  assert (Hat : ∀ m, 0 ≤ m < associativity ctx →
    ∃ j q, arr_get π m = Ret j ∧ arr_get_init sorted (off + j) = Ret q ∧
           C !! Z.to_nat m = Some q ∧ q ∈ b).
  { intros m Hm.
    destruct (lookup_lt_is_Some_2 π (Z.to_nat m)) as [j Hj].
    { rewrite Hπ, length_seqZ. lia. }
    assert (Hjr : 0 ≤ j < associativity ctx).
    { apply list_elem_of_lookup_2 in Hj. rewrite Hπ in Hj.
      apply elem_of_seqZ in Hj. lia. }
    destruct (lookup_lt_is_Some_2 b (Z.to_nat j)) as [q Hq]; [lia|].
    exists j, q. split; [apply arr_get_Ret; [lia|done]|]. split.
    { specialize (Hsorted _ _ Hq). by rewrite Z2Nat.id in Hsorted by lia. }
    split; [|by eapply list_elem_of_lookup_2].
    unfold C. rewrite list_lookup_fmap, Hj. cbn [fmap option_fmap option_map].
    by rewrite Hq. }
  destruct (head b) as [first|] eqn:Hfirst;
    [|destruct b; cbn in Hlen, Hfirst; [lia|done]].
  assert (Hfirst_get : arr_get_init sorted (off + 0) = Ret first).
  { apply (Hsorted O). by rewrite <- head_lookup. }
  assert (HfC : first ∈ C).
  { rewrite HCb. by apply head_Some_elem_of. }
  pose proof HfC as [i0 Hi0]%list_elem_of_lookup_1.
  set (pl := default 0
    (C !! Z.to_nat ((associativity ctx - 1 + Z.of_nat i0)
                      mod associativity ctx))).
  unfold build_randomized_list_for_cache_set. cbv zeta. cbn [fst snd].
  rewrite Hgen. ret_step. rewrite for_u16_foldM by lia.
  match goal with |- context [foldM ?body ?l ?s0] =>
    destruct (foldM_inv body l
      (λ i hi,
         (∀ i' p, (i' < i)%nat → C !! i' = Some p →
            next_of hi p =
              Some (default 0
                (C !! Z.to_nat ((Z.of_nat i' + 1) mod associativity ctx))) ∧
            prev_of hi p =
              Some (default 0
                (C !! Z.to_nat
                   ((associativity ctx - 1 + Z.of_nat i')
                      mod associativity ctx)))) ∧
         (∀ q, q ∉ C → next_of hi q = next_of h q ∧ prev_of hi q = prev_of h q) ∧
         (∀ q, tag_of hi q = tag_of h q) ∧
         (∀ q, flags_of hi q =
            if decide (i0 < i)%nat then
              if decide (q = pl) then Some (SET_LAST DEFAULT_FLAGS)
              else if decide (q = first) then Some (SET_FIRST DEFAULT_FLAGS)
              else flags_of h q
            else flags_of h q) ∧
         (∀ q, time_of hi q =
            if decide (q ∈ take i C) then Some 0 else time_of h q)) s0)
      as (h' & Hrun & HI)
  end.
  - split; [intros; lia|]. split; [done|]. split; [done|]. split.
    + intros q. by rewrite decide_False by lia.
    + intros q. rewrite take_0. by rewrite decide_False by apply not_elem_of_nil.
  - intros i x hi Hx (Hdone & Hframe & Htag & Hflag & Htime).
    apply lookup_seqZ in Hx as [-> Hi]. rewrite Z.add_0_l.
    destruct (Hat (Z.of_nat i)) as (ji & curr & Hji & Hcurr & HCi & Hcb); [lia|].
    destruct (Hat ((Z.of_nat i + 1) mod associativity ctx))
      as (jn & n_ & Hjn & Hn & HCn & _); [apply Z.mod_pos_bound; lia|].
    assert (Hu : u32 (associativity ctx - 1 + Z.of_nat i)
                 = associativity ctx - 1 + Z.of_nat i)
      by (unfold u32; apply Z.mod_small; lia).
    destruct (Hat ((associativity ctx - 1 + Z.of_nat i) mod associativity ctx))
      as (jp & p_ & Hjp & Hp & HCp & Hpb); [apply Z.mod_pos_bound; lia|].
    destruct (link_line_run hi π sorted off (associativity ctx) (Z.of_nat i)
                ji jn jp curr n_ p_ first)
      as (h1 & Hbody & Hn1 & Hp1 & Ht1 & Hf1 & Hm1); try done.
    { by rewrite Hu. }
    { rewrite Htag. by apply Hdom. }
    { rewrite Htag. by apply Hdom. }
    exists h1. split; [exact Hbody|]. rewrite Nat2Z.id in HCi.
    split; [|split; [|split; [|split]]].
    + intros i' p Hi' Hp'. rewrite Hn1, Hp1.
      destruct (decide (i' = i)) as [->|Hne].
      * assert (p = curr) as -> by congruence. rewrite !decide_True by done.
        by rewrite HCn, HCp.
      * assert (p ≠ curr).
        { intros ->. apply Hne. by eapply NoDup_lookup. }
        rewrite !decide_False by done. apply Hdone; [lia|done].
    + intros q Hq. rewrite Hn1, Hp1.
      assert (q ≠ curr).
      { intros ->. apply Hq. by eapply list_elem_of_lookup_2. }
      rewrite !decide_False by done. by apply Hframe.
    + intros q. by rewrite Ht1.
    + intros q. rewrite Hf1, Hflag.
      destruct (decide (curr = first)) as [->|Hne].
      * assert (i = i0) as -> by (by eapply NoDup_lookup).
        assert (pl = p_) as ->.
        { unfold pl. by rewrite HCp. }
        rewrite (decide_False (P := (i0 < i0)%nat)) by lia.
        by rewrite (decide_True (P := (i0 < S i0)%nat)) by lia.
      * assert (i ≠ i0) by (intros ->; congruence).
        destruct (decide (i0 < i)%nat).
        -- by rewrite (decide_True (P := (i0 < S i)%nat)) by lia.
        -- by rewrite (decide_False (P := (i0 < S i)%nat)) by lia.
    + intros q. rewrite Hm1, Htime, (take_S_r _ _ _ HCi).
      destruct (decide (q = curr)) as [->|Hne].
      * rewrite decide_True; [done|]. apply elem_of_app. right. left.
      * destruct (decide (q ∈ take i C)) as [Hin|Hin].
        -- rewrite decide_True; [done|]. apply elem_of_app. by left.
        -- rewrite decide_False; [done|].
           intros [?|?%list_elem_of_singleton]%elem_of_app; done.
  - destruct HI as (Hlinks & Hframe & Htag & Hflag & Htime).
    assert (Hring : ring h' C).
    { apply (ring_of_positions h' C (associativity ctx)); try done; [lia|].
      intros i p Hi. apply Hlinks; [|done]. rewrite length_seqZ.
      apply lookup_lt_Some in Hi. lia. }
    apply list_elem_of_split in HfC as (C1 & C2 & HC).
    exists h', (first :: C2 ++ C1). split; [by rewrite Hrun|].
    split.
    { change (first :: C2 ++ C1) with ((first :: C2) ++ C1).
      apply ring_rotate. by rewrite <- HC. }
    split.
    { rewrite <- HCb, HC.
      change (first :: C2 ++ C1) with ((first :: C2) ++ C1).
      by rewrite (comm (++)). }
    split; [done|]. split; [intros q Hq; apply Hframe; by rewrite HCb|].
    split; [done|].
    assert (Hrot : ring h' (first :: C2 ++ C1)).
    { change (first :: C2 ++ C1) with ((first :: C2) ++ C1).
      apply ring_rotate. by rewrite <- HC. }
    assert (Hlast : last (first :: C2 ++ C1) = Some pl).
    { rewrite <- (ring_prev_of_head _ _ _ Hrot).
      destruct (Hlinks i0 first) as [_ ->]; [|done|done].
      rewrite length_seqZ. apply lookup_lt_Some in Hi0. lia. }
    split.
    + intros q. rewrite Hflag, Hlast. cbn [head].
      rewrite decide_True
        by (rewrite length_seqZ; apply lookup_lt_Some in Hi0; lia).
      destruct (decide (q = pl)) as [->|Hne].
      * by rewrite decide_True.
      * rewrite (decide_False (P := Some pl = Some q))
          by (intros [= Heq]; by apply Hne).
        destruct (decide (q = first)) as [->|Hne'].
        -- by rewrite decide_True.
        -- by rewrite (decide_False (P := Some first = Some q))
             by (intros [= Heq]; by apply Hne').
    + intros q. rewrite Htime, length_seqZ.
      rewrite firstn_all2 by lia.
      destruct (decide (q ∈ b)) as [Hin|Hin].
      * rewrite decide_True; [done|]. by rewrite HCb.
      * rewrite decide_False; [done|]. by rewrite HCb.
Qed.

(** ** The rings of all sets *)

Lemma ring_ext_links (h h' : heap) l :
  (∀ q, q ∈ l → next_of h' q = next_of h q ∧ prev_of h' q = prev_of h q) →
  ring h l → ring h' l.
Proof.
  intros Heq (Hne & Hnd & Hn & Hp). repeat split; [done|done| |].
  - eapply chain_ext; [|exact Hn]. intros q Hq. symmetry. by apply Heq.
  - eapply chain_ext; [|exact Hp]. intros q Hq. symmetry. apply Heq.
    by apply elem_of_reverse.
Qed.

Lemma lines_of_set_elem h s l p :
  p ∈ lines_of_set h s l ↔ tag_of h p = Some s ∧ p ∈ l.
Proof. unfold lines_of_set. by rewrite list_elem_of_filter. Qed.

Lemma lines_of_set_disjoint h s1 s2 l p :
  p ∈ lines_of_set h s1 l → p ∈ lines_of_set h s2 l → s1 = s2.
Proof.
  intros [H1 _]%lines_of_set_elem [H2 _]%lines_of_set_elem. congruence.
Qed.

(** The loop of [build_cache_ds] over the sets turns the lines of every
    set into a ring of their own, flags the line its array segment starts
    with as the first and the line before it as the last of the set, and
    resets the measurements. *)
Lemma build_sets_run fuel rnd ctx (sorted : list (option Z)) (h : heap) arr k :
  geometry_ok ctx → alloc_ok ctx h arr →
  (Z.to_nat (associativity ctx) < fuel)%nat →
  (∀ s j p, 0 ≤ s < sets ctx → lines_of_set h s arr !! j = Some p →
     arr_get_init sorted (s * associativity ctx + Z.of_nat j) = Ret p) →
  ∃ h2 k2 Rs,
    for_range (sets ctx)
      (λ set st,
         let set_offset := u32 (set * associativity ctx) in
         build_randomized_list_for_cache_set fuel rnd ctx sorted set_offset st)
      (h, k) = Ret (h2, k2) ∧
    length Rs = Z.to_nat (sets ctx) ∧
    (∀ s R, Rs !! s = Some R →
       ring h2 R ∧ R ≡ₚ lines_of_set h (Z.of_nat s) arr ∧
       head R = head (lines_of_set h (Z.of_nat s) arr) ∧
       ∀ q, q ∈ R → flags_of h2 q =
         if decide (last R = Some q) then Some (SET_LAST DEFAULT_FLAGS)
         else if decide (head R = Some q) then Some (SET_FIRST DEFAULT_FLAGS)
         else flags_of h q) ∧
    (∀ q, tag_of h2 q = tag_of h q) ∧
    (∀ q, q ∈ arr → time_of h2 q = Some 0) ∧
    (∀ q, q ∉ arr → flags_of h2 q = flags_of h q ∧ time_of h2 q = time_of h q).
Proof.
  intros (Hsets & Hassoc & Hnr) (Hlen & Hnd & Htags & Hcnt) Hfuel Hsorted.
  unfold for_range.
  match goal with |- context [foldM ?body ?l ?s0] =>
    destruct (foldM_inv body l
      (λ s '(hs, ks), ∃ Rs : list (list Z),
         length Rs = s ∧
         (∀ s' R, Rs !! s' = Some R →
            ring hs R ∧ R ≡ₚ lines_of_set h (Z.of_nat s') arr ∧
            head R = head (lines_of_set h (Z.of_nat s') arr) ∧
            ∀ q, q ∈ R → flags_of hs q =
              if decide (last R = Some q) then Some (SET_LAST DEFAULT_FLAGS)
              else if decide (head R = Some q)
                   then Some (SET_FIRST DEFAULT_FLAGS)
              else flags_of h q) ∧
         (∀ q, tag_of hs q = tag_of h q) ∧
         (∀ q, (∀ s', (s' < s)%nat → q ∉ lines_of_set h (Z.of_nat s') arr) →
            flags_of hs q = flags_of h q ∧ time_of hs q = time_of h q) ∧
         (∀ q s', (s' < s)%nat → q ∈ lines_of_set h (Z.of_nat s') arr →
            time_of hs q = Some 0)) s0)
      as ([h2 k2] & Hrun & Rs & HRs & Hrings & Htag & Hfr & Hzero)
  end.
  - exists []. split; [done|]. split; [intros s' R; by rewrite lookup_nil|].
    split; [done|]. split; [done|]. intros; lia.
  - intros s x [hs ks] Hx (Rs & HRs & Hrings & Htag & Hfr & Hzero).
    apply lookup_seqZ in Hx as [-> Hs]. rewrite Z.add_0_l. cbv zeta.
    assert (Hoff : u32 (Z.of_nat s * associativity ctx)
                   = Z.of_nat s * associativity ctx)
      by (unfold u32; apply Z.mod_small; nia).
    rewrite Hoff.
    destruct (build_list_run fuel rnd ctx sorted
                (Z.of_nat s * associativity ctx)
                (lines_of_set h (Z.of_nat s) arr) hs ks)
      as (h' & R & Hbuild & Hring & Hperm & Hhead & Hframe & Htag' & Hfl' & Htm');
      [done|done|apply Hcnt; lia|by apply NoDup_filter| |..].
    { intros j p Hp. apply Hsorted; [lia|done]. }
    { intros p [_ Hp]%lines_of_set_elem. rewrite Htag.
      destruct (Htags p Hp) as (t & _ & ->). done. }
    assert (Hout : ∀ q, q ∉ lines_of_set h (Z.of_nat s) arr →
      flags_of h' q = flags_of hs q ∧ time_of h' q = time_of hs q).
    { intros q Hq. rewrite Hfl', Htm'. rewrite (decide_False (P := q ∈ _)) by done.
      rewrite !decide_False; [done| |].
      - intros Hh. apply Hq. rewrite <- Hperm. by apply head_Some_elem_of.
      - intros Hl. apply Hq. rewrite <- Hperm. by apply last_Some_elem_of. }
    exists (h', (ks + Z.to_nat (associativity ctx - 1))%nat).
    split; [exact Hbuild|]. exists (Rs ++ [R]).
    split; [rewrite length_app; cbn [length]; lia|].
    split; [|split; [|split]].
    + intros s' R' [[Hlt HR']|[Hs' [= <-]]]%lookup_snoc_Some.
      * destruct (Hrings s' R' HR') as (Hring' & Hperm' & Hhead' & Hflags').
        assert (Hother : ∀ q, q ∈ R' → q ∉ lines_of_set h (Z.of_nat s) arr).
        { intros q Hq Hq'. rewrite Hperm' in Hq.
          pose proof (lines_of_set_disjoint _ _ _ _ _ Hq Hq'). lia. }
        split; [|split; [done|split; [done|]]].
        -- apply (ring_ext_links hs); [|done].
           intros q Hq. apply Hframe. by apply Hother.
        -- intros q Hq. destruct (Hout q (Hother q Hq)) as [-> _].
           by apply Hflags'.
      * subst s'. rewrite HRs. split; [done|]. split; [done|]. split; [done|].
        intros q Hq. rewrite Hfl'. destruct (Hfr q) as [-> _]; [|done].
        intros s' Hlt Hq'. rewrite Hperm in Hq.
        pose proof (lines_of_set_disjoint _ _ _ _ _ Hq Hq'). lia.
    + intros q. by rewrite Htag'.
    + intros q Hq. destruct (Hout q) as [-> ->]; [apply Hq; lia|].
      apply Hfr. intros s' Hlt. apply Hq. lia.
    + intros q s' Hlt Hq. destruct (decide (s' = s)) as [->|Hne].
      * rewrite Htm'. by rewrite decide_True.
      * destruct (Hout q) as [_ ->].
        -- intros Hq'. pose proof (lines_of_set_disjoint _ _ _ _ _ Hq Hq'). lia.
        -- apply (Hzero q s'); [lia|done].
  - exists h2, k2, Rs. rewrite length_seqZ in HRs, Hfr, Hzero.
    split; [done|]. split; [done|]. split; [done|]. split; [done|]. split.
    + intros q Hq. destruct (Htags q Hq) as (t & Ht & Htq).
      apply (Hzero q (Z.to_nat t)); [lia|]. rewrite Z2Nat.id by lia.
      by apply lines_of_set_elem.
    + intros q Hq. apply Hfr. intros s' _ [_ ?]%lines_of_set_elem. done.
Qed.

(** ** Joining the rings of the sets *)

(** A line of a list of blocks without repetition lies in one block only. *)
Lemma join_disjoint (T : list (list Z)) i1 i2 R1 R2 q :
  NoDup (mjoin T) → T !! i1 = Some R1 → T !! i2 = Some R2 →
  q ∈ R1 → q ∈ R2 → i1 = i2.
Proof.
  revert i1 i2. induction T as [|R T IH]; intros i1 i2 Hnd H1 H2 Hq1 Hq2.
  - by rewrite lookup_nil in H1.
  - cbn [mjoin list_join] in Hnd. apply NoDup_app in Hnd as (_ & Hdis & Hnd).
    destruct i1 as [|i1], i2 as [|i2]; cbn in H1, H2; [done| | |].
    + injection H1 as <-. exfalso. apply (Hdis q Hq1).
      apply list_elem_of_join. exists R2. split; [done|].
      by eapply list_elem_of_lookup_2.
    + injection H2 as <-. exfalso. apply (Hdis q Hq2).
      apply list_elem_of_join. exists R1. split; [done|].
      by eapply list_elem_of_lookup_2.
    + f_equal. by apply IH.
Qed.

(** Chains of blocks whose ends point to the next block join to a chain. *)
Lemma chain_join f (T : list (list Z)) z :
  (∀ R, R ∈ T → R ≠ []) →
  (∀ i R, T !! i = Some R →
     chain f R (match T !! S i with Some R' => hd 0 R' | None => z end)) →
  chain f (mjoin T) z.
Proof.
  induction T as [|R T IH]; intros Hne Hch; [done|].
  cbn [mjoin list_join]. apply chain_app. split.
  - specialize (Hch O R eq_refl). cbn in Hch.
    destruct T as [|R' T]; [done|]. cbn [mjoin list_join].
    assert (R' ≠ []) by (apply Hne; right; left).
    destruct R' as [|x R']; [done|]. done.
  - apply IH.
    + intros R' HR'. apply Hne. by right.
    + intros i R' Hi. apply (Hch (S i) R' Hi).
Qed.

Lemma chain_join_rev f (T : list (list Z)) z :
  (∀ R, R ∈ T → R ≠ []) →
  (∀ i R, T !! i = Some R →
     chain f (reverse R)
       (match i with
        | O => z
        | S i' => default 0 (last (default [] (T !! i')))
        end)) →
  chain f (reverse (mjoin T)) z.
Proof.
  revert z. induction T as [|R T IH]; intros z Hne Hch; [done|].
  cbn [mjoin list_join]. rewrite reverse_app. apply chain_app. split.
  - assert (HR : R ≠ []) by (apply Hne; left).
    rewrite (hd_default (reverse R)), head_reverse.
    apply IH.
    + intros R' HR'. apply Hne. by right.
    + intros i R' Hi. specialize (Hch (S i) R' Hi).
      destruct i as [|i]; [|exact Hch]. cbn in Hch.
      destruct (last R) as [x|] eqn:Hx; [done|].
      apply last_None in Hx. done.
  - apply (Hch O R eq_refl).
Qed.

(** One round of the relinking loop of [build_cache_ds]. *)
Lemma relink_step (h : heap) (idx_map : list Z) (sorted : list (option Z))
    len m i j curr n_ pl :
  arr_get idx_map ((i + 1) mod m) = Ret j →
  arr_get_init sorted (u32 (j * len)) = Ret n_ →
  is_Some (tag_of h curr) → prev_of h n_ = Some pl →
  ∃ h',
    (j ← arr_get idx_map ((i + 1) mod m);
     n ← arr_get_init sorted (u32 (j * len));
     h ← store_next h curr n;
     c ← load h curr;
     cn ← load h (next c);
     let next_cl := prev cn in
     c ← load h curr;
     h ← store_prev h (next c) curr;
     Ret (h, next_cl)) = Ret (h', pl) ∧
    (∀ q, next_of h' q = if decide (q = curr) then Some n_ else next_of h q) ∧
    (∀ q, prev_of h' q = if decide (q = n_) then Some curr else prev_of h q) ∧
    (∀ q, tag_of h' q = tag_of h q) ∧
    (∀ q, flags_of h' q = flags_of h q) ∧
    (∀ q, time_of h' q = time_of h q).
Proof.
  intros Hj Hn Hcurr Hpl. rewrite Hj. ret_step. rewrite Hn. ret_step.
  destruct (store_next_run h curr n_ Hcurr) as (h1 & -> & Hn1 & Hp1 & Ht1 & Hf1 & Hm1).
  ret_step.
  assert (Hnc : next_of h1 curr = Some n_) by (by rewrite Hn1, decide_True).
  apply next_of_Some in Hnc as (c & Hc & Hnc).
  rewrite (load_Ret _ _ _ Hc). ret_step. rewrite Hnc.
  assert (Hpn : prev_of h1 n_ = Some pl) by (by rewrite Hp1).
  apply prev_of_Some in Hpn as (cn & Hcn & Hpn).
  rewrite (load_Ret _ _ _ Hcn). ret_step. cbv zeta.
  ret_step. rewrite Hnc, Hpn.
  destruct (store_prev_run h1 n_ curr) as (h2 & -> & Hn2 & Hp2 & Ht2 & Hf2 & Hm2).
  { apply tag_of_is_Some. by exists cn. }
  ret_step. exists h2. split; [done|].
  split; [|split; [|split; [|split]]]; intros q.
  - by rewrite Hn2, Hn1.
  - by rewrite Hp2, Hp1.
  - by rewrite Ht2, Ht1.
  - by rewrite Hf2, Hf1.
  - by rewrite Hm2, Hm1.
Qed.

Lemma last_join (T : list (list Z)) R :
  (∀ R, R ∈ T → R ≠ []) → last T = Some R → last (mjoin T) = last R.
Proof.
  induction T as [|R0 T IH]; intros Hne Hlast; [done|].
  destruct T as [|R1 T].
  - injection Hlast as ->. cbn [mjoin list_join]. by rewrite app_nil_r.
  - rewrite last_cons_cons in Hlast.
    change (mjoin (R0 :: R1 :: T)) with (R0 ++ mjoin (R1 :: T)).
    rewrite last_app, IH; [| |done].
    + destruct (last R) as [x|] eqn:Hx; [done|].
      apply last_None in Hx. exfalso. apply (Hne R); [|done].
      right. by apply last_Some_elem_of.
    + intros R' HR'. apply Hne. by right.
Qed.

(** Rings of their own, relinked so that the last line of each block and
    the first line of the next block point to each other, cyclically,
    form one ring. *)
Lemma ring_join (h2 h3 : heap) (T : list (list Z)) :
  T ≠ [] → NoDup (mjoin T) → (∀ i R, T !! i = Some R → ring h2 R) →
  (∀ i R q, T !! i = Some R → q ∈ R → last R ≠ Some q →
     next_of h3 q = next_of h2 q) →
  (∀ i R q, T !! i = Some R → q ∈ R → head R ≠ Some q →
     prev_of h3 q = prev_of h2 q) →
  (∀ i R R' l f, T !! i = Some R → T !! S i = Some R' →
     last R = Some l → head R' = Some f →
     next_of h3 l = Some f ∧ prev_of h3 f = Some l) →
  (∀ R R' l f, last T = Some R → head T = Some R' →
     last R = Some l → head R' = Some f →
     next_of h3 l = Some f ∧ prev_of h3 f = Some l) →
  ring h3 (mjoin T).
Proof.
  intros HT Hnd Hrings Hnext Hprev Hmid Hwrap.
  assert (Hne : ∀ R, R ∈ T → R ≠ []).
  { intros R [i Hi]%list_elem_of_lookup_1. apply (Hrings i R Hi). }
  destruct T as [|R0 T'] eqn:HTeq; [done|]. rewrite <- HTeq in *.
  assert (HR0 : T !! O = Some R0) by (by rewrite HTeq).
  assert (HR0ne : R0 ≠ []) by (apply Hne; rewrite HTeq; left).
  destruct R0 as [|f0 R0']; [done|].
  assert (Hhd : ∀ z, hd z (mjoin T) = f0) by (by rewrite HTeq).
  assert (HlastT : is_Some (last T)) by (by apply last_is_Some).
  destruct HlastT as [Rl HRl].
  assert (HRlne : Rl ≠ []) by (by apply Hne, last_Some_elem_of).
  apply last_is_Some in HRlne as [ll Hll].
  assert (Hlastj : last (mjoin T) = Some ll) by (by rewrite (last_join T Rl)).
  destruct (Hwrap Rl (f0 :: R0') ll f0) as [Hw1 Hw2];
    [done|by rewrite HTeq|done|done|].
  split; [|split; [done|split]].
  - rewrite HTeq. done.
  - rewrite Hhd. apply chain_join; [done|]. intros i R Hi.
    destruct (Hrings i R Hi) as (HRne & HRnd & HRn & _).
    eapply chain_redirect; [exact HRnd|exact HRn| |].
    + intros q Hq Hlast. by apply (Hnext i R q).
    + intros q Hlast. destruct (T !! S i) as [R'|] eqn:HSi.
      * assert (R' ≠ []) by (apply Hne; by eapply list_elem_of_lookup_2).
        destruct R' as [|f R']; [done|].
        by apply (Hmid i R (f :: R') q f).
      * apply lookup_ge_None in HSi. apply lookup_lt_Some in Hi as Hlt.
        assert (Rl = R) as ->.
        { rewrite last_lookup in HRl.
          replace (pred (length T)) with i in HRl by lia. congruence. }
        by assert (q = ll) as -> by congruence.
  - rewrite hd_default, head_reverse, Hlastj. cbn [default].
    apply chain_join_rev; [done|]. intros i R Hi.
    destruct (Hrings i R Hi) as (HRne & HRnd & _ & HRp).
    eapply chain_redirect; [|exact HRp| |].
    + by rewrite reverse_Permutation.
    + intros q Hq Hlast. rewrite last_reverse in Hlast.
      rewrite elem_of_reverse in Hq. by apply (Hprev i R q).
    + intros q Hlast. rewrite last_reverse in Hlast. destruct i as [|i'].
      * assert (R = f0 :: R0') as -> by congruence.
        by assert (q = f0) as -> by (by injection Hlast).
      * assert (Hi' : is_Some (T !! i')).
        { apply lookup_lt_is_Some. apply lookup_lt_Some in Hi. lia. }
        destruct Hi' as [Rp HRp']. rewrite HRp'.
        change (default [] (Some Rp)) with Rp.
        assert (Rp ≠ []) by (apply Hne; by eapply list_elem_of_lookup_2).
        destruct (last Rp) as [l|] eqn:Hl; [|by apply last_None in Hl].
        by apply (Hmid i' Rp R l q).
Qed.

(** The relinking loop of [build_cache_ds] on the rings [T] of the sets,
    in the order in which the loop visits them, started at the last line
    of the first ring: the rings become one ring. *)
Lemma relink_run fuel (h2 : heap) (idx_map : list Z)
    (sorted : list (option Z)) len m (T : list (list Z)) :
  1 ≤ m ≤ 65535 → Z.of_nat (length T) = m → (Z.to_nat m < fuel)%nat →
  NoDup (mjoin T) → (∀ i R, T !! i = Some R → ring h2 R) →
  (∀ i R, T !! i = Some R →
     ∃ j, arr_get idx_map (Z.of_nat i) = Ret j ∧
          arr_get_init sorted (u32 (j * len)) = Ret (hd 0 R)) →
  ∃ h3 c3,
    for_u16 fuel 0 m
      (λ i '(h, curr_cl),
         j ← arr_get idx_map ((i + 1) mod m);
         n ← arr_get_init sorted (u32 (j * len));
         h ← store_next h curr_cl n;
         c ← load h curr_cl;
         cn ← load h (next c);
         let next_cl := prev cn in
         c ← load h curr_cl;
         h ← store_prev h (next c) curr_cl;
         Ret (h, next_cl))
      (h2, default 0 (last (default [] (T !! O)))) = Ret (h3, c3) ∧
    ring h3 (mjoin T) ∧ (∀ q, tag_of h3 q = tag_of h2 q) ∧
    (∀ q, flags_of h3 q = flags_of h2 q) ∧ (∀ q, time_of h3 q = time_of h2 q).
Proof.
  intros Hm HlenT Hfuel Hnd Hrings Harr.
  set (Fi := λ i : nat, hd 0 (default [] (T !! i))).
  set (Li := λ i : nat, default 0 (last (default [] (T !! i)))).
  set (nxt := λ i : nat, Z.to_nat ((Z.of_nat i + 1) mod m)).
  assert (HFi : ∀ i R f, T !! i = Some R → head R = Some f → Fi i = f).
  { intros i R f Hi Hf. unfold Fi. rewrite Hi.
    change (default [] (Some R)) with R. by rewrite hd_default, Hf. }
  assert (HLi : ∀ i R l, T !! i = Some R → last R = Some l → Li i = l).
  { intros i R l Hi Hl. unfold Li. rewrite Hi.
    change (default [] (Some R)) with R. by rewrite Hl. }
  assert (Hblk : ∀ i, (i < length T)%nat →
    ∃ R, T !! i = Some R ∧ head R = Some (Fi i) ∧ last R = Some (Li i) ∧
         prev_of h2 (Fi i) = Some (Li i)).
  { intros i Hi. destruct (lookup_lt_is_Some_2 T i Hi) as [R HR].
    exists R. split; [done|]. pose proof (Hrings i R HR) as Hring.
    destruct R as [|e rest]; [by destruct Hring|].
    assert (is_Some (last (e :: rest))) as [l Hl] by (by apply last_is_Some).
    rewrite (HFi i _ e HR eq_refl), (HLi i _ l HR Hl).
    split; [done|]. split; [done|].
    by rewrite (ring_prev_of_head _ _ _ Hring). }
  assert (HinjF : ∀ i1 i2, (i1 < length T)%nat → (i2 < length T)%nat →
    Fi i1 = Fi i2 → i1 = i2).
  { intros i1 i2 H1 H2 Heq.
    destruct (Hblk i1 H1) as (R1 & HR1 & Hh1 & _).
    destruct (Hblk i2 H2) as (R2 & HR2 & Hh2 & _).
    apply (join_disjoint T i1 i2 R1 R2 (Fi i1) Hnd HR1 HR2).
    - by apply head_Some_elem_of.
    - rewrite Heq. by apply head_Some_elem_of. }
  assert (HinjL : ∀ i1 i2, (i1 < length T)%nat → (i2 < length T)%nat →
    Li i1 = Li i2 → i1 = i2).
  { intros i1 i2 H1 H2 Heq.
    destruct (Hblk i1 H1) as (R1 & HR1 & _ & Hl1 & _).
    destruct (Hblk i2 H2) as (R2 & HR2 & _ & Hl2 & _).
    apply (join_disjoint T i1 i2 R1 R2 (Li i1) Hnd HR1 HR2).
    - by apply last_Some_elem_of.
    - rewrite Heq. by apply last_Some_elem_of. }
  assert (Hnxt : ∀ i, (i < length T)%nat →
    (S i < length T ∧ nxt i = S i)%nat ∨ (S i = length T ∧ nxt i = O)).
  { intros i Hi. unfold nxt. destruct (decide (S i < length T)%nat).
    - left. rewrite Z.mod_small by lia. lia.
    - right. replace (Z.of_nat i + 1) with m by lia.
      rewrite Z_mod_same_full. lia. }
  rewrite for_u16_foldM by lia.
  match goal with |- context [foldM ?body ?l ?s0] =>
    destruct (foldM_inv body l
      (λ i '(hi, curr),
         curr = Li (Z.to_nat (Z.of_nat i mod m)) ∧
         (∀ i', (i' < i)%nat →
            next_of hi (Li i') = Some (Fi (nxt i')) ∧
            prev_of hi (Fi (nxt i')) = Some (Li i')) ∧
         (∀ q, (∀ i', (i' < i)%nat → q ≠ Li i') →
            next_of hi q = next_of h2 q) ∧
         (∀ q, (∀ i', (i' < i)%nat → q ≠ Fi (nxt i')) →
            prev_of hi q = prev_of h2 q) ∧
         (∀ q, tag_of hi q = tag_of h2 q) ∧
         (∀ q, flags_of hi q = flags_of h2 q) ∧
         (∀ q, time_of hi q = time_of h2 q)) s0)
      as ([h3 c3] & Hrun & HI)
  end.
  - split; [by rewrite Z.mod_0_l by lia|]. split; [intros; lia|]. done.
  - intros i x [hi curr] Hx (Hcurr & Hdone & Hn & Hp & Htag & Hfl & Htm).
    apply lookup_seqZ in Hx as [-> Hi]. rewrite Z.add_0_l.
    rewrite Z.mod_small, Nat2Z.id in Hcurr by lia. subst curr.
    assert (Hi' : (i < length T)%nat) by lia.
    assert (Hni : (nxt i < length T)%nat) by (destruct (Hnxt i Hi'); lia).
    destruct (Hblk (nxt i) Hni) as (R' & HR' & Hh' & Hl' & Hpr').
    destruct (Harr _ _ HR') as (j & Hj & Hfirst).
    rewrite (hd_default R'), Hh' in Hfirst. cbn [default] in Hfirst.
    assert (Hidx : Z.of_nat (nxt i) = (Z.of_nat i + 1) mod m).
    { unfold nxt. rewrite Z2Nat.id; [done|]. apply Z.mod_pos_bound. lia. }
    rewrite Hidx in Hj.
    assert (HneF : ∀ i', (i' < i)%nat → Fi (nxt i) ≠ Fi (nxt i')).
    { intros i' Hlt Heq. apply HinjF in Heq; [| done |].
      - destruct (Hnxt i Hi'), (Hnxt i'); lia.
      - destruct (Hnxt i'); lia. }
    assert (HneL : ∀ i', (i' < i)%nat → Li i ≠ Li i').
    { intros i' Hlt Heq. apply HinjL in Heq; lia. }
    destruct (Hblk i Hi') as (R & HR & _ & Hl & _).
    destruct (relink_step hi idx_map sorted len m (Z.of_nat i) j
                (Li i) (Fi (nxt i)) (Li (nxt i)))
      as (h' & Hbody & Hn' & Hp' & Ht' & Hf' & Hm'); [done|done| | |].
    { rewrite Htag. apply tag_of_is_Some.
      apply (ring_lookup h2 R); [by eapply Hrings|].
      by apply last_Some_elem_of. }
    { by rewrite Hp. }
    exists (h', Li (nxt i)). split; [exact Hbody|].
    split; [|split; [|split; [|split; [|split; [|split]]]]].
    + unfold nxt. by rewrite Nat2Z.inj_succ, <- Z.add_1_r.
    + intros i' Hlt. rewrite Hn', Hp'.
      destruct (decide (i' = i)) as [->|Hne].
      * by rewrite !decide_True.
      * rewrite !decide_False; [apply Hdone; lia| |].
        -- intros Heq. symmetry in Heq. revert Heq. apply HneF. lia.
        -- intros Heq. symmetry in Heq. revert Heq. apply HneL. lia.
    + intros q Hq. rewrite Hn'.
      rewrite decide_False by (apply Hq; lia). apply Hn.
      intros i' Hlt. apply Hq. lia.
    + intros q Hq. rewrite Hp'.
      rewrite decide_False by (apply Hq; lia). apply Hp.
      intros i' Hlt. apply Hq. lia.
    + intros q. by rewrite Ht'.
    + intros q. by rewrite Hf'.
    + intros q. by rewrite Hm'.
  - destruct HI as (_ & Hdone & Hn & Hp & Htag & Hfl & Htm).
    rewrite length_seqZ in Hdone, Hn, Hp.
    exists h3, c3. split; [exact Hrun|]. split; [|done].
    apply (ring_join h2 h3 T).
    + intros ->. cbn in HlenT. lia.
    + done.
    + done.
    + intros i R q Hi Hq Hlast. apply Hn. intros i' Hlt ->.
      destruct (Hblk i') as (R1 & HR1 & _ & Hl1 & _); [lia|].
      assert (i' = i) as ->.
      { apply (join_disjoint T i' i R1 R (Li i') Hnd HR1 Hi); [|done].
        by apply last_Some_elem_of. }
      congruence.
    + intros i R q Hi Hq Hhead. apply Hp. intros i' Hlt ->.
      assert (Hni : (nxt i' < length T)%nat) by (destruct (Hnxt i'); lia).
      destruct (Hblk (nxt i') Hni) as (R1 & HR1 & Hh1 & _).
      assert (nxt i' = i) as Heq.
      { apply (join_disjoint T (nxt i') i R1 R (Fi (nxt i')) Hnd HR1 Hi);
          [|done].
        by apply head_Some_elem_of. }
      rewrite Heq in *. congruence.
    + intros i R R' l f Hi HSi Hl Hf.
      apply lookup_lt_Some in HSi as Hlt.
      destruct (Hdone i) as [Hd1 Hd2]; [lia|].
      destruct (Hnxt i) as [[_ Hnx]|[? _]]; [lia| |lia].
      rewrite Hnx in Hd1, Hd2.
      by rewrite (HFi _ _ _ HSi Hf), (HLi _ _ _ Hi Hl) in Hd1, Hd2.
    + intros R R' l f HlastT HheadT Hl Hf.
      rewrite last_lookup in HlastT. rewrite head_lookup in HheadT.
      destruct (Hdone (pred (length T))) as [Hd1 Hd2]; [lia|].
      destruct (Hnxt (pred (length T))) as [[? _]|[_ Hnx]]; [lia|lia|].
      rewrite Hnx in Hd1, Hd2.
      by rewrite (HFi _ _ _ HheadT Hf), (HLi _ _ _ HlastT Hl) in Hd1, Hd2.
Qed.

(** ** build_cache_ds *)

Lemma join_Permutation_pointwise (T T' : list (list Z)) :
  Forall2 (≡ₚ) T T' → mjoin T ≡ₚ mjoin T'.
Proof.
  induction 1 as [|R R' T T' HR _ IH]; [done|].
  cbn [mjoin list_join]. by rewrite HR, IH.
Qed.

(** The lines of the sets [ss], set by set, are all the lines when every
    line is tagged with one of these sets. *)
Lemma lines_of_set_partition (h : heap) (ss : list Z) (arr : list Z) :
  NoDup ss → (∀ p, p ∈ arr → ∃ s, s ∈ ss ∧ tag_of h p = Some s) →
  mjoin ((λ s, lines_of_set h s arr) <$> ss) ≡ₚ arr.
Proof.
  revert arr. induction ss as [|s ss IH]; intros arr Hnd Htags.
  - destruct arr as [|p arr]; [done|].
    destruct (Htags p) as (s & Hs & _); [left|]. by apply elem_of_nil in Hs.
  - apply NoDup_cons in Hnd as [Hs Hnd]. cbn [fmap list_fmap mjoin list_join].
    etrans; [|apply (filter_app_complement (λ p, tag_of h p = Some s) arr)].
    apply Permutation_app; [done|].
    rewrite <- (IH (filter (λ p, ¬ tag_of h p = Some s) arr) Hnd).
    + apply reflexive_eq. f_equal. apply list_fmap_ext. intros i s' Hs'.
      unfold lines_of_set. symmetry. apply list_filter_filter_l.
      intros p Hp Hp'. rewrite Hp in Hp'. injection Hp' as ->.
      apply Hs. by eapply list_elem_of_lookup_2.
    + intros p [Hp Hin]%list_elem_of_filter.
      destruct (Htags p Hin) as (s' & [->|Hs']%elem_of_cons & Htag); [done|].
      by exists s'.
Qed.

Lemma head_join (T : list (list Z)) e rest :
  T !! O = Some (e :: rest) → head (mjoin T) = Some e.
Proof. destruct T as [|R T]; [done|]. by intros [= ->]. Qed.

(** [build_cache_ds] on an array of lines as [allocate_cache_ds] is to
    leave it: the lines become one ring made of one segment per set, the
    sets in the order [σ]; the tags stay, the measurements are reset, and
    in every segment the last line is flagged as last and the first line,
    unless it is the last one too, as first. *)
Lemma build_cache_ds_full fuel rnd ctx (h : heap) arr k :
  geometry_ok ctx → alloc_ok ctx h arr →
  (Z.to_nat (nr_of_cachelines ctx) < fuel)%nat →
  ∃ cache_ds h' k' (T : list (list Z)) (σ : list Z),
    build_cache_ds fuel rnd ctx arr (h, k) = Ret (cache_ds, (h', k')) ∧
    ring h' (mjoin T) ∧ head (mjoin T) = Some cache_ds ∧ mjoin T ≡ₚ arr ∧
    (∀ q, tag_of h' q = tag_of h q) ∧
    (∃ s, 0 ≤ s < sets ctx ∧ head (lines_of_set h s arr) = Some cache_ds) ∧
    σ ≡ₚ seqZ 0 (sets ctx) ∧ length T = length σ ∧
    (∀ i R, T !! i = Some R →
       ∃ s, σ !! i = Some s ∧ R ≡ₚ lines_of_set h s arr ∧
            head R = head (lines_of_set h s arr) ∧
            ∀ q, q ∈ R → flags_of h' q =
              if decide (last R = Some q) then Some (SET_LAST DEFAULT_FLAGS)
              else if decide (head R = Some q)
                   then Some (SET_FIRST DEFAULT_FLAGS)
              else flags_of h q) ∧
    (∀ q, q ∈ arr → time_of h' q = Some 0) ∧
    (∀ q, q ∉ arr → flags_of h' q = flags_of h q ∧ time_of h' q = time_of h q).
Proof.
  intros Hgeo Halloc Hfuel.
  pose proof Hgeo as (Hsets & Hassoc & Hnr).
  pose proof Halloc as (Hlen & Hnd & Htags & Hcnt).
  destruct (sort_by_set_run ctx h arr Hgeo Halloc)
    as (sorted & idx & Hrun1 & Hsorted).
  destruct (build_sets_run fuel rnd ctx sorted h arr k Hgeo Halloc)
    as (h2 & k2 & Rs & Hrun2 & HRslen & HRs & Htag2 & Hzero2 & Hout2);
    [nia|done|].
  destruct (gen_random_indices_run rnd
              (replicate (Z.to_nat (sets ctx)) 0) (sets ctx) k2)
    as (σ & Hgen & Hσ); [lia|rewrite length_replicate; lia|].
  set (T := (λ j : Z, default [] (Rs !! Z.to_nat j)) <$> σ).
  assert (HT : ∀ i R, T !! i = Some R →
    ∃ j, σ !! i = Some j ∧ 0 ≤ j < sets ctx ∧ Rs !! Z.to_nat j = Some R).
  { intros i R Hi. unfold T in Hi.
    apply list_lookup_fmap_Some in Hi as (j & -> & Hj).
    exists j. split; [done|].
    assert (0 ≤ j < sets ctx).
    { apply list_elem_of_lookup_2 in Hj. rewrite Hσ in Hj.
      apply elem_of_seqZ in Hj. lia. }
    split; [done|].
    destruct (lookup_lt_is_Some_2 Rs (Z.to_nat j)) as [R HR]; [lia|].
    by rewrite HR. }
  assert (HTlen : Z.of_nat (length T) = sets ctx).
  { unfold T. rewrite length_fmap, Hσ, length_seqZ. lia. }
  assert (HTperm : mjoin T ≡ₚ arr).
  { rewrite <- (lines_of_set_partition h (seqZ 0 (sets ctx)) arr);
      [|apply NoDup_seqZ|].
    - rewrite <- Hσ. apply join_Permutation_pointwise.
      unfold T. apply Forall2_fmap_2, Forall_Forall2_diag, Forall_forall.
      intros j Hj. rewrite Hσ in Hj. apply elem_of_seqZ in Hj.
      destruct (lookup_lt_is_Some_2 Rs (Z.to_nat j)) as [R HR]; [lia|].
      rewrite HR. destruct (HRs _ _ HR) as (_ & Hperm & _).
      by rewrite Z2Nat.id in Hperm by lia.
    - intros p Hp. destruct (Htags p Hp) as (s & Hs & Htag). exists s.
      split; [apply elem_of_seqZ; lia|done]. }
  assert (HTring : ∀ i R, T !! i = Some R → ring h2 R).
  { intros i R Hi. destruct (HT i R Hi) as (j & _ & _ & HR).
    by destruct (HRs _ _ HR). }
  assert (HTarr : ∀ i R, T !! i = Some R →
    ∃ j, arr_get σ (Z.of_nat i) = Ret j ∧
         arr_get_init sorted (u32 (j * associativity ctx)) = Ret (hd 0 R)).
  { intros i R Hi. destruct (HT i R Hi) as (j & Hj & Hjr & HR). exists j.
    split; [apply arr_get_Ret; [lia|by rewrite Nat2Z.id]|].
    destruct (HRs _ _ HR) as (Hring & Hperm & Hhead & _).
    rewrite Z2Nat.id in Hperm, Hhead by lia.
    assert (Hu : u32 (j * associativity ctx)
                 = j * associativity ctx + Z.of_nat 0).
    { assert (0 ≤ j * associativity ctx ≤ 65535 * 65535) by nia.
      unfold u32. rewrite Z.mod_small by lia. cbn. lia. }
    rewrite Hu. apply Hsorted; [done|].
    rewrite <- head_lookup, <- Hhead. destruct R; [by destruct Hring|done]. }
  destruct (lookup_lt_is_Some_2 T O) as [R0 HR0]; [lia|].
  pose proof (HTring _ _ HR0) as Hring0.
  destruct R0 as [|e rest]; [by destruct Hring0|].
  destruct (HTarr _ _ HR0) as (j0 & Hj0 & Hf0).
  change (Z.of_nat 0) with 0 in Hj0. cbn [hd] in Hf0.
  assert (is_Some (last (e :: rest))) as [l0 Hl0] by (by apply last_is_Some).
  pose proof (ring_prev_of_head _ _ _ Hring0) as Hprev0. rewrite Hl0 in Hprev0.
  apply prev_of_Some in Hprev0 as (c0 & Hc0 & Hprev0).
  destruct (relink_run fuel h2 σ sorted (associativity ctx) (sets ctx) T)
    as (h3 & c3 & Hrun3 & Hring3 & Htag3 & Hfl3 & Htm3);
    [lia|done|nia| |done|done|].
  { by rewrite HTperm. }
  rewrite HR0 in Hrun3. change (default [] (Some (e :: rest)))
    with (e :: rest) in Hrun3.
  rewrite Hl0 in Hrun3. change (default 0 (Some l0)) with l0 in Hrun3.
  cbv zeta in Hrun1, Hrun2, Hrun3.
  unfold build_cache_ds. cbv beta zeta. cbn [fst snd].
  rewrite Hrun1. ret_step. rewrite Hrun2. ret_step. cbn [fst snd].
  rewrite Hgen. ret_step. rewrite Hj0. ret_step. rewrite Hf0. ret_step.
  rewrite (load_Ret _ _ _ Hc0). ret_step. rewrite Hprev0, Hrun3. repeat ret_step. rewrite Hf0. ret_step.
  exists e, h3, (k2 + Z.to_nat (sets ctx - 1))%nat, T, σ.
  split; [done|]. split; [done|]. split; [by eapply head_join|].
  split; [done|]. split; [intros q; by rewrite Htag3, Htag2|].
  split.
  { destruct (HT _ _ HR0) as (s & _ & Hs & HRs0). exists s. split; [done|].
    destruct (HRs _ _ HRs0) as (_ & _ & Hhead & _).
    rewrite Z2Nat.id in Hhead by lia. by rewrite <- Hhead. }
  split; [done|]. split; [unfold T; by rewrite length_fmap|].
  split; [|split].
  - intros i R Hi. destruct (HT i R Hi) as (s & Hσi & Hs & HR).
    exists s. split; [done|].
    destruct (HRs _ _ HR) as (_ & Hperm & Hhead & Hflags).
    rewrite Z2Nat.id in Hperm, Hhead by lia.
    split; [done|]. split; [done|].
    intros q Hq. rewrite Hfl3. by apply Hflags.
  - intros q Hq. rewrite Htm3. by apply Hzero2.
  - intros q Hq. rewrite Hfl3, Htm3. by apply Hout2.
Qed.

Lemma build_cache_ds_run fuel rnd ctx (h : heap) arr k :
  geometry_ok ctx → alloc_ok ctx h arr →
  (Z.to_nat (nr_of_cachelines ctx) < fuel)%nat →
  ∃ cache_ds h' k' l,
    build_cache_ds fuel rnd ctx arr (h, k) = Ret (cache_ds, (h', k')) ∧
    ring h' l ∧ head l = Some cache_ds ∧ l ≡ₚ arr ∧
    (∀ q, tag_of h' q = tag_of h q) ∧
    ∃ s, 0 ≤ s < sets ctx ∧ head (lines_of_set h s arr) = Some cache_ds.
Proof.
  intros Hgeo Halloc Hfuel.
  destruct (build_cache_ds_full fuel rnd ctx h arr k Hgeo Halloc Hfuel)
    as (cache_ds & h' & k' & T & σ & Hrun & Hring & Hhead & Hperm & Htag &
        Hs & _).
  by exists cache_ds, h', k', (mjoin T).
Qed.

(** ** cache_ds_sanity_check *)

Lemma check_line_cnt_run (f : Z → Z) (cnt : list Z) assoc idxs :
  (∀ i, i ∈ idxs → arr_get cnt i = Ret (f i)) →
  check_line_cnt idxs cnt assoc =
    Ret (if decide (Forall (λ i, f i = assoc) idxs) then 0 else 1).
Proof.
  induction idxs as [|i idxs IH]; intros Hget; cbn [check_line_cnt].
  - by rewrite decide_True.
  - rewrite Hget by left. ret_step.
    destruct (decide (f i ≠ assoc)) as [Hne|Hne].
    + rewrite decide_False; [done|].
      intros [Heq _]%Forall_cons. done.
    + rewrite IH by (intros; apply Hget; by right).
      assert (f i = assoc) by lia.
      destruct (decide (Forall (λ i, f i = assoc) idxs)) as [HF|HF].
      * by rewrite decide_True by (by constructor).
      * rewrite decide_False; [done|]. by intros [_ ?]%Forall_cons.
Qed.

(** Where a walk along a cycle is after [k] steps. *)
Lemma cycle_step (e : Z) (rest : list Z) (k : nat) :
  NoDup (e :: rest) → (k < S (length rest))%nat →
  let q := default e ((e :: rest) !! S k) in
  (rest ++ [e]) !! k = Some q ∧ q ∈ e :: rest ∧
  bool_decide (q ≠ e) = bool_decide (S k ≠ S (length rest)).
Proof.
  intros [Hnot _]%NoDup_cons Hk q. unfold q.
  change ((e :: rest) !! S k) with (rest !! k).
  destruct (decide (k < length rest)%nat) as [Hlt|Hge].
  - destruct (lookup_lt_is_Some_2 rest k Hlt) as [x Hx].
    rewrite Hx. change (default e (Some x)) with x.
    split; [by rewrite lookup_app_l|].
    assert (x ∈ rest) by (by eapply list_elem_of_lookup_2).
    split; [by right|].
    rewrite !bool_decide_eq_true_2; [done|lia|]. by intros ->.
  - rewrite (lookup_ge_None_2 rest k) by lia. change (default e None) with e.
    assert (k = length rest) as -> by lia.
    split; [by rewrite list_lookup_middle|]. split; [left|].
    rewrite !bool_decide_eq_false_2; [done|lia|]. by intros ?.
Qed.

(** The walk of [cache_ds_sanity_check] over a ring counts, per set, the
    lines tagged with it. *)
Lemma sanity_walk fuel ctx (h : heap) e rest :
  ring h (e :: rest) → (length rest < fuel)%nat →
  Z.of_nat (length (e :: rest)) < 2 ^ 32 →
  (∀ p, p ∈ e :: rest → ∃ s, 0 ≤ s < sets ctx ∧ tag_of h p = Some s) →
  ∃ cnt,
    do_while fuel
      (λ '(curr_cl, line_cnt_arr),
         c ← load h curr_cl;
         let curr_cl := next c in
         c ← load h curr_cl;
         v ← arr_get line_cnt_arr (cache_set c);
         line_cnt_arr ← arr_set line_cnt_arr (cache_set c) (u32 (v + 1));
         Ret (curr_cl, line_cnt_arr))
      (λ '(curr_cl, _), bool_decide (curr_cl ≠ e))
      (e, replicate (Z.to_nat (sets ctx)) 0) = Ret (e, cnt) ∧
    ∀ s, 0 ≤ s < sets ctx →
      arr_get cnt s = Ret (Z.of_nat (length (lines_of_set h s (e :: rest)))).
Proof.
  intros Hring Hfuel Hsmall Htags.
  pose proof (ring_next_cycle _ _ _ Hring) as Hchain.
  pose proof Hring as (_ & Hnd & _).
  rewrite chain_lookup in Hchain.
  match goal with |- context [do_while fuel ?body ?cond ?s0] =>
    destruct (do_while_along body cond
      (λ k '(curr, cnt),
         curr = default e ((e :: rest) !! k) ∧
         length cnt = Z.to_nat (sets ctx) ∧
         ∀ s, 0 ≤ s < sets ctx →
           cnt !! Z.to_nat s =
             Some (Z.of_nat (length (lines_of_set h s (take k (rest ++ [e]))))))
      (S (length rest)) fuel s0)
      as ([curr cnt] & Hrun & Hcurr & Hlen & Hcnt)
  end.
  - lia.
  - lia.
  - split; [done|]. rewrite length_replicate. split; [done|].
    intros s Hs. rewrite take_0. apply lookup_replicate_2. lia.
  - intros k [curr cnt] Hk (Hcurr & Hlen & Hcnt).
    destruct (lookup_lt_is_Some_2 (e :: rest) k) as [p Hp];
      [cbn [length]; lia|].
    rewrite Hp in Hcurr. change (default e (Some p)) with p in Hcurr.
    subst curr.
    pose proof (Hchain k p Hp) as Hnext.
    destruct (cycle_step e rest k Hnd Hk) as (HV & Hin & Hcond).
    set (q := default e ((e :: rest) !! S k)) in *.
    apply next_of_Some in Hnext as (c & Hc & Hnc).
    destruct (Htags q Hin) as (t & Ht & Htag).
    assert (∃ cq, h !! q = Some cq ∧ cache_set cq = t) as (cq & Hcq & Hcqt).
    { unfold tag_of in Htag. destruct (h !! q) as [cq|]; [|done].
      exists cq. split; [done|]. by injection Htag. }
    pose proof (length_filter (λ p, tag_of h p = Some t) (take k (rest ++ [e])))
      as Hle.
    fold (lines_of_set h t (take k (rest ++ [e]))) in Hle.
    rewrite length_take in Hle.
    set (v := length (lines_of_set h t (take k (rest ++ [e])))) in *.
    cbn [length] in Hsmall.
    eexists. split.
    { rewrite (load_Ret _ _ _ Hc). ret_step. cbv zeta. rewrite Hnc.
      rewrite (load_Ret _ _ _ Hcq). ret_step. rewrite Hcqt.
      rewrite (arr_get_Ret cnt t (Z.of_nat v)) by (first [lia|by apply Hcnt]).
      ret_step. rewrite arr_set_Ret by lia. ret_step. reflexivity. }
    cbv beta iota. split; [|exact Hcond].
    split; [done|]. rewrite length_insert. split; [done|].
    intros s Hs. rewrite (take_S_r _ _ _ HV).
    destruct (decide (s = t)) as [->|Hst].
    + rewrite list_lookup_insert_eq by lia.
      rewrite (lines_of_set_snoc_eq _ _ _ _ Htag), length_app. cbn [length].
      f_equal. fold v. unfold u32. rewrite Z.mod_small; lia.
    + rewrite list_lookup_insert_ne by lia.
      rewrite lines_of_set_snoc_ne by congruence. by apply Hcnt.
  - rewrite (lookup_ge_None_2 (e :: rest)) in Hcurr by (cbn [length]; lia).
    change (default e None) with e in Hcurr. subst curr.
    exists cnt. split; [exact Hrun|]. intros s Hs.
    apply arr_get_Ret; [lia|]. rewrite (Hcnt s Hs).
    rewrite take_ge by (rewrite length_app; cbn [length]; lia).
    do 2 f_equal. unfold lines_of_set. apply Permutation_length.
    apply filter_Permutation. by rewrite (comm (++)).
Qed.

Lemma sanity_check_ring fuel ctx (h : heap) e rest :
  ring h (e :: rest) → (length rest < fuel)%nat →
  Z.of_nat (length (e :: rest)) < 2 ^ 32 →
  (∀ p, p ∈ e :: rest → ∃ s, 0 ≤ s < sets ctx ∧ tag_of h p = Some s) →
  cache_ds_sanity_check fuel ctx h e =
    Ret (if decide (Forall
           (λ s, Z.of_nat (length (lines_of_set h s (e :: rest)))
                 = associativity ctx)
           (seqZ 0 (sets ctx)))
         then 0 else 1).
Proof.
  intros Hring Hfuel Hsmall Htags.
  destruct (sanity_walk fuel ctx h e rest Hring Hfuel Hsmall Htags)
    as (cnt & Hrun & Hcnt).
  cbv zeta in Hrun. unfold cache_ds_sanity_check. cbv zeta.
  rewrite Hrun. ret_step.
  apply (check_line_cnt_run
           (λ s, Z.of_nat (length (lines_of_set h s (e :: rest))))).
  intros i Hi%elem_of_seqZ. apply Hcnt. lia.
Qed.

(** ** get_cache_ds_len *)

Lemma get_cache_ds_len_ring fuel (h : heap) e rest :
  ring h (e :: rest) → NULL ∉ e :: rest → (length rest < fuel)%nat →
  Z.of_nat (length (e :: rest)) < 2 ^ 32 →
  get_cache_ds_len fuel h e = Ret (Z.of_nat (length (e :: rest))).
Proof.
  intros Hring Hnull Hfuel Hsmall.
  pose proof (ring_prev_cycle _ _ _ Hring) as Hchain.
  rewrite chain_lookup in Hchain.
  assert (Hnd : NoDup (e :: reverse rest)).
  { destruct Hring as (_ & Hnd & _). apply NoDup_cons in Hnd as [Hnot Hnd].
    apply NoDup_cons. by rewrite elem_of_reverse, reverse_Permutation. }
  unfold get_cache_ds_len.
  match goal with |- context [do_while fuel ?body ?cond ?s0] =>
    destruct (do_while_along body cond
      (λ k '(cnt, curr, brk),
         cnt = Z.of_nat k ∧ curr = default e ((e :: reverse rest) !! k) ∧
         brk = false)
      (S (length rest)) fuel s0)
      as ([[cnt curr] brk] & Hrun & Hcnt & Hcurr & Hbrk)
  end.
  - lia.
  - lia.
  - done.
  - intros k [[cnt curr] brk] Hk (-> & Hcurr & ->).
    destruct (lookup_lt_is_Some_2 (e :: reverse rest) k) as [p Hp];
      [cbn [length]; rewrite length_reverse; lia|].
    rewrite Hp in Hcurr. change (default e (Some p)) with p in Hcurr.
    subst curr.
    pose proof (Hchain k p Hp) as Hprev.
    destruct (cycle_step e (reverse rest) k Hnd) as (_ & _ & Hcond);
      [rewrite length_reverse; lia|].
    rewrite length_reverse in Hcond.
    apply prev_of_Some in Hprev as (c & Hc & Hpc).
    assert (p ≠ NULL).
    { intros ->. apply Hnull. apply list_elem_of_lookup_2 in Hp.
      apply elem_of_cons in Hp as [->|Hp]; [left|right].
      by rewrite elem_of_reverse in Hp. }
    eexists. split.
    { rewrite decide_False by done. rewrite (load_Ret _ _ _ Hc). ret_step.
      reflexivity. }
    cbv beta iota. split; [|by rewrite Hpc, Hcond].
    split; [|done]. cbn [length] in Hsmall. unfold u32.
    rewrite Z.mod_small; lia.
  - rewrite Hrun. ret_step. rewrite Hcnt. done.
Qed.

Lemma tag_of_in_heap (h : heap) p s :
  tag_of h p = Some s → ∃ c, h !! p = Some c ∧ cache_set c = s.
Proof.
  unfold tag_of. destruct (h !! p) as [c|]; [|done]. intros [= <-]. eauto.
Qed.

(** ** prepare_cache_ds *)

Lemma lines_of_set_tags (h h' : heap) s l :
  (∀ q, q ∈ l → tag_of h' q = tag_of h q) →
  lines_of_set h' s l = lines_of_set h s l.
Proof.
  intros Htag. induction l as [|p l IH]; [done|]. unfold lines_of_set.
  rewrite !filter_cons, (Htag p) by left.
  unfold lines_of_set in IH. rewrite IH; [done|].
  intros q Hq. apply Htag. by right.
Qed.

Lemma lines_of_set_length_perm (h : heap) s l l' :
  l ≡ₚ l' → length (lines_of_set h s l) = length (lines_of_set h s l').
Proof.
  intros Hperm. unfold lines_of_set. apply Permutation_length.
  by apply filter_Permutation.
Qed.

(** [prepare_cache_ds] on what [allocate_cache_ds] is to leave: it returns,
    the sanity check passes, and the lines are one ring with
    [associativity] lines per set. *)
Lemma prepare_cache_ds_run fuel rnd ctx (h : heap) arr k :
  geometry_ok ctx → alloc_ok ctx h arr →
  (Z.to_nat (nr_of_cachelines ctx) < fuel)%nat →
  ∃ cache_ds h' k' l,
    prepare_cache_ds fuel rnd ctx (h, arr) k = Ret (cache_ds, (h', k')) ∧
    cache_ds_sanity_check fuel ctx h' cache_ds = Ret 0 ∧
    ring h' l ∧ head l = Some cache_ds ∧ l ≡ₚ arr ∧
    (∀ q, tag_of h' q = tag_of h q) ∧
    (∀ s, 0 ≤ s < sets ctx →
       Z.of_nat (length (lines_of_set h' s l)) = associativity ctx) ∧
    ∃ s, 0 ≤ s < sets ctx ∧ head (lines_of_set h s arr) = Some cache_ds.
Proof.
  intros Hgeo Halloc Hfuel.
  destruct (build_cache_ds_run fuel rnd ctx h arr k Hgeo Halloc Hfuel)
    as (cache_ds & h' & k' & l & Hbuild & Hring & Hhead & Hperm & Htag & Hfirst).
  destruct Hgeo as (Hsets & Hassoc & Hnr).
  destruct Halloc as (Hlen & Hnd & Htags & Hcnt).
  assert (Hcount : ∀ s, 0 ≤ s < sets ctx →
    Z.of_nat (length (lines_of_set h' s l)) = associativity ctx).
  { intros s Hs. rewrite (lines_of_set_tags h h') by (intros; apply Htag).
    rewrite (lines_of_set_length_perm h s l arr Hperm). by apply Hcnt. }
  apply head_Some in Hhead as [rest ->].
  assert (Hl : length (cache_ds :: rest) = length arr) by (by rewrite Hperm).
  assert (Hsanity : cache_ds_sanity_check fuel ctx h' cache_ds = Ret 0).
  { rewrite (sanity_check_ring fuel ctx h' cache_ds rest Hring).
    - rewrite decide_True; [done|]. apply Forall_forall.
      intros s Hs%elem_of_seqZ. apply Hcount. lia.
    - cbn [length] in Hl. lia.
    - rewrite Hl, Hlen, Hnr.
      assert (sets ctx * associativity ctx ≤ 65535 * 65535)
        by (apply Z.mul_le_mono_nonneg; lia).
      lia.
    - intros p Hp. rewrite Htag. apply Htags. by rewrite <- Hperm. }
  exists cache_ds, h', k', (cache_ds :: rest).
  split; [|done].
  unfold prepare_cache_ds. rewrite Hbuild. ret_step. cbn [fst snd].
  rewrite Hsanity. ret_step. done.
Qed.

(** ** allocate_cache_ds, virtual addressing *)

(** Among [m] consecutive integers exactly one has a given residue. *)
Lemma count_block (c m s b : Z) :
  0 < m → 0 ≤ s < m →
  length (filter (λ i, (c + i) mod m = s) (seqZ b m)) = 1%nat.
Proof.
  intros Hm Hs.
  set (x := b + (s - c - b) mod m).
  pose proof (Z.mod_pos_bound (s - c - b) m Hm) as Hx.
  assert (HP : (c + x) mod m = s).
  { unfold x. rewrite Z.add_assoc, Zplus_mod_idemp_r.
    replace (c + b + (s - c - b)) with s by lia. apply Z.mod_small. lia. }
  assert (Hperm : filter (λ i, (c + i) mod m = s) (seqZ b m) ≡ₚ [x]).
  { apply NoDup_Permutation.
    - apply NoDup_filter, NoDup_seqZ.
    - apply NoDup_singleton.
    - intros y. rewrite list_elem_of_filter, elem_of_seqZ, list_elem_of_singleton.
      split.
      + intros [Hy Hin].
        assert (Hd : ((c + x) - (c + y)) mod m = 0).
        { rewrite Zminus_mod, HP, Hy, Z.sub_diag. apply Z.mod_0_l. lia. }
        apply Z.mod_divide in Hd; [|lia]. destruct Hd as [q Hq].
        assert (b ≤ x < b + m) by (unfold x; lia).
        assert (q = 0) by nia. lia.
      + intros ->. split; [done|]. unfold x. lia. }
  by rewrite Hperm.
Qed.

Lemma count_residue (c m s : Z) (a : nat) :
  0 < m → 0 ≤ s < m →
  length (filter (λ i, (c + i) mod m = s) (seqZ 0 (m * Z.of_nat a))) = a.
Proof.
  intros Hm Hs. induction a as [|a IH].
  - by rewrite Z.mul_0_r.
  - replace (m * Z.of_nat (S a)) with (m * Z.of_nat a + m) by lia.
    rewrite seqZ_app by lia. rewrite filter_app, length_app, IH.
    rewrite Z.add_0_l, count_block by done. lia.
Qed.

Lemma length_filter_fmap {A B} (f : A → B) (P : B → Prop)
    `{!∀ x, Decision (P x)} (l : list A) :
  length (filter P (f <$> l)) = length (filter (λ x, P (f x)) l).
Proof.
  induction l as [|x l IH]; [done|]. cbn [fmap list_fmap].
  rewrite !filter_cons. destruct (decide (P (f x))); cbn [length]; by rewrite IH.
Qed.

Lemma store_cache_set_run (h : heap) p v :
  is_Some (h !! p) →
  ∃ h', store_cache_set h p v = Ret h' ∧
    (∀ q, tag_of h' q = if decide (q = p) then Some v else tag_of h q) ∧
    (∀ q, next_of h' q = next_of h q) ∧
    (∀ q, prev_of h' q = prev_of h q) ∧
    (∀ q, is_Some (h' !! q) ↔ is_Some (h !! q)).
Proof.
  intros [c Hc]. eexists. unfold store_cache_set.
  rewrite (load_Ret _ _ _ Hc), bind_Ret. split; [done|].
  unfold next_of, prev_of, tag_of.
  split; [|split; [|split]]; intros q; destruct (decide (q = p)) as [->|Hq];
    rewrite ?lookup_insert_eq, ?Hc; rewrite ?lookup_insert_ne by done;
    try done; eauto.
Qed.

Lemma filter_ext_in {A} (P Q : A → Prop) `{!∀ x, Decision (P x)}
    `{!∀ x, Decision (Q x)} (l : list A) :
  (∀ x, x ∈ l → P x ↔ Q x) → filter P l = filter Q l.
Proof.
  induction l as [|x l IH]; intros Hext; [done|].
  rewrite !filter_cons, IH by (intros; apply Hext; by right).
  destruct (decide (P x)) as [HP|HP].
  - by rewrite decide_True by (apply Hext; [left|done]).
  - rewrite decide_False; [done|]. intros HQ. apply HP, Hext; [left|done].
Qed.

(** The virtually indexed branch of [allocate_cache_ds] tags line [i] of
    the block with the set [(cl_arr / 64 + i) mod sets] and changes nothing
    else. *)
Lemma allocate_virtual_run ctx (m : Z) cl_arr (h : heap) :
  sets ctx = 2 ^ m → 0 ≤ m ≤ 16 → 0 ≤ nr_of_cachelines ctx →
  0 < cl_arr → cl_arr + nr_of_cachelines ctx * CACHELINE_SIZE ≤ 2 ^ 64 →
  (∀ i, 0 ≤ i < nr_of_cachelines ctx →
     is_Some (h !! (cl_arr + i * CACHELINE_SIZE))) →
  ∃ h',
    allocate_cache_ds_virtual ctx cl_arr h = Ret (h', block_lines ctx cl_arr) ∧
    (∀ i, 0 ≤ i < nr_of_cachelines ctx →
       tag_of h' (cl_arr + i * CACHELINE_SIZE) =
         Some ((cl_arr / CACHELINE_SIZE + i) mod sets ctx)) ∧
    (∀ q, q ∉ block_lines ctx cl_arr → tag_of h' q = tag_of h q) ∧
    (∀ q, next_of h' q = next_of h q) ∧
    (∀ q, prev_of h' q = prev_of h q) ∧
    (∀ q, is_Some (h' !! q) ↔ is_Some (h !! q)).
Proof.
  intros Hsets Hm Hnr Hpos Hfit Hdom.
  unfold allocate_cache_ds_virtual.
  rewrite bool_decide_eq_true_2 by (unfold NULL; lia).
  unfold c_assert. ret_step. unfold for_range.
  match goal with |- context [foldM ?body ?l ?s0] =>
    destruct (foldM_inv body l
      (λ i '(hi, arr),
         arr = (λ j, cl_arr + j * CACHELINE_SIZE) <$> seqZ 0 (Z.of_nat i) ∧
         (∀ j, 0 ≤ j < Z.of_nat i →
            tag_of hi (cl_arr + j * CACHELINE_SIZE) =
              Some ((cl_arr / CACHELINE_SIZE + j) mod sets ctx)) ∧
         (∀ q, (∀ j, 0 ≤ j < Z.of_nat i → q ≠ cl_arr + j * CACHELINE_SIZE) →
            tag_of hi q = tag_of h q) ∧
         (∀ q, next_of hi q = next_of h q) ∧
         (∀ q, prev_of hi q = prev_of h q) ∧
         (∀ q, is_Some (hi !! q) ↔ is_Some (h !! q))) s0)
      as ([h' arr] & Hrun & Harr & Htag & Hframe & Hn & Hp & Hd)
  end.
  - split; [done|]. split; [intros; lia|]. done.
  - intros i x [hi arr] Hx (Harr & Htag & Hframe & Hn & Hp & Hd).
    apply lookup_seqZ in Hx as [-> Hi]. rewrite Z.add_0_l. cbv zeta.
    destruct (store_cache_set_run hi (cl_arr + Z.of_nat i * CACHELINE_SIZE)
                (get_virt_cache_set ctx
                   (cl_arr + Z.of_nat i * CACHELINE_SIZE)))
      as (h1 & Hstore & Ht1 & Hn1 & Hp1 & Hd1).
    { apply Hd, Hdom. lia. }
    rewrite Hstore. ret_step. eexists. split; [reflexivity|].
    cbv beta iota. split; [|split; [|split; [|split; [|split]]]].
    + rewrite Nat2Z.inj_succ, <- Z.add_1_r.
      rewrite seqZ_app, fmap_app by lia. by rewrite Harr.
    + intros j Hj. rewrite Ht1. unfold CACHELINE_SIZE in *.
      destruct (decide (j = Z.of_nat i)) as [->|Hne].
      * rewrite decide_True by done. f_equal.
        unfold get_virt_cache_set. rewrite Hsets.
        rewrite <- (Z.mod_small (cl_arr + Z.of_nat i * 64) (2 ^ 64)) at 1
          by lia.
        fold (u64 (cl_arr + Z.of_nat i * 64)).
        rewrite get_cache_set_helper_pow2 by lia.
        by rewrite Z.div_add by lia.
      * rewrite decide_False by lia. apply Htag. lia.
    + intros q Hq. rewrite Ht1, decide_False by (apply Hq; lia).
      apply Hframe. intros j Hj. apply Hq. lia.
    + intros q. by rewrite Hn1.
    + intros q. by rewrite Hp1.
    + intros q. by rewrite Hd1.
  - rewrite length_seqZ, Z2Nat.id in Harr, Htag, Hframe by lia.
    exists h'. subst arr. split; [exact Hrun|]. split; [done|].
    split; [|done]. intros q Hq. apply Hframe. intros j Hj ->. apply Hq.
    unfold block_lines. apply list_elem_of_fmap. exists j.
    split; [done|]. apply elem_of_seqZ. lia.
Qed.

(** What the virtually indexed branch leaves is what [build_cache_ds]
    needs. *)
Lemma allocate_virtual_alloc_ok ctx (m : Z) cl_arr (h h' : heap) :
  geometry_ok ctx → sets ctx = 2 ^ m →
  (∀ i, 0 ≤ i < nr_of_cachelines ctx →
     tag_of h' (cl_arr + i * CACHELINE_SIZE) =
       Some ((cl_arr / CACHELINE_SIZE + i) mod sets ctx)) →
  alloc_ok ctx h' (block_lines ctx cl_arr).
Proof.
  intros (Hsets & Hassoc & Hnr) Hpow Htag. unfold block_lines.
  split; [|split; [|split]].
  - rewrite length_fmap, length_seqZ. nia.
  - apply NoDup_fmap_2_strong; [|apply NoDup_seqZ].
    unfold CACHELINE_SIZE. intros x y _ _ Heq. lia.
  - intros p (i & -> & Hi%elem_of_seqZ)%list_elem_of_fmap.
    exists ((cl_arr / CACHELINE_SIZE + i) mod sets ctx).
    split; [apply Z.mod_pos_bound; lia|]. apply Htag. lia.
  - intros s Hs. unfold lines_of_set. rewrite length_filter_fmap.
    rewrite (filter_ext_in _
               (λ i, (cl_arr / CACHELINE_SIZE + i) mod sets ctx = s)).
    + rewrite Hnr.
      rewrite <- (Z2Nat.id (associativity ctx)) at 1 by lia.
      rewrite count_residue by lia. lia.
    + intros i Hi%elem_of_seqZ. rewrite Htag by lia.
      split; [by intros [= ->]|by intros ->].
Qed.

(** ** The set bits of an address *)

Lemma SET_MASK_pow2 (m : Z) :
  0 ≤ m ≤ 16 → SET_MASK (2 ^ m) = Z.lxor (Z.ones (m + 6)) (Z.ones 6).
Proof.
  intros Hm. unfold SET_MASK, CACHELINE_SIZE.
  assert (Hpow : 2 ^ m * 64 = 2 ^ (m + 6)).
  { rewrite Z.pow_add_r by lia. done. }
  assert (Hlt : 0 < 2 ^ (m + 6) < 2 ^ 64).
  { split; [apply Z.pow_pos_nonneg; lia|].
    apply Z.pow_lt_mono_r; lia. }
  rewrite Hpow. unfold u64. rewrite (Z.mod_small (2 ^ (m + 6))) by lia.
  rewrite Z.mod_small by lia. rewrite Z.ones_equiv. f_equal; lia.
Qed.

Lemma SET_MASK_bit (m n : Z) :
  0 ≤ m ≤ 16 → 0 ≤ n →
  Z.testbit (SET_MASK (2 ^ m)) n = bool_decide (6 ≤ n < m + 6).
Proof.
  intros Hm Hn. rewrite SET_MASK_pow2 by done.
  rewrite Z.lxor_spec, !Z.testbit_ones_nonneg by lia.
  destruct (Z.ltb_spec n (m + 6)), (Z.ltb_spec n 6);
    cbn; symmetry;
    first [apply bool_decide_eq_true_2; lia | apply bool_decide_eq_false_2; lia].
Qed.

(** The bits of an address that [SET_MASK] selects are its set index,
    in units of a cacheline. *)
Lemma land_SET_MASK (m x : Z) :
  0 ≤ m ≤ 16 → 0 ≤ x →
  Z.land x (SET_MASK (2 ^ m)) = CACHELINE_SIZE * ((x / CACHELINE_SIZE) mod 2 ^ m).
Proof.
  intros Hm Hx. unfold CACHELINE_SIZE. change 64 with (2 ^ 6).
  rewrite <- Z.shiftr_div_pow2, <- Z.land_ones by lia.
  rewrite Z.mul_comm, <- Z.shiftl_mul_pow2 by lia.
  apply Z.bits_inj'. intros n Hn.
  rewrite Z.land_spec, SET_MASK_bit by lia.
  destruct (decide (n < 6)) as [Hlow|Hhigh].
  - rewrite Z.shiftl_spec_low by lia.
    rewrite bool_decide_eq_false_2 by lia. apply andb_false_r.
  - rewrite Z.shiftl_spec by lia.
    rewrite Z.land_spec, Z.shiftr_spec, Z.testbit_ones_nonneg by lia.
    replace (n - 6 + 6) with n by lia. f_equal.
    destruct (Z.ltb_spec (n - 6) m);
      [apply bool_decide_eq_true_2 | apply bool_decide_eq_false_2]; lia.
Qed.

(** Clearing the bits of a mask takes the masked bits away. *)
Lemma land_lnot_u64 (x M : Z) :
  0 ≤ x < 2 ^ 64 → Z.land x (u64 (Z.lnot M)) = x - Z.land x M.
Proof.
  intros Hx.
  assert (Hl : Z.land x (u64 (Z.lnot M)) = Z.ldiff x M).
  { rewrite Z.ldiff_land. apply Z.bits_inj'. intros n Hn.
    rewrite !Z.land_spec. unfold u64.
    destruct (decide (n < 64)) as [Hlow|Hhigh].
    - by rewrite Z.mod_pow2_bits_low by lia.
    - rewrite Z.mod_pow2_bits_high by lia.
      rewrite <- (Z.mod_small x (2 ^ 64)) by lia.
      by rewrite Z.mod_pow2_bits_high by lia. }
  rewrite Hl.
  assert (Hdis : Z.land (Z.ldiff x M) (Z.land x M) = 0).
  { rewrite (Z.land_comm x M), Z.land_assoc, Z.land_ldiff. apply Z.land_0_l. }
  pose proof (Z.lor_ldiff_and x M) as Hsum.
  rewrite <- Z.lxor_lor, <- Z.add_nocarry_lxor in Hsum by done. lia.
Qed.

Lemma remove_cache_set_pow2 ctx (m x : Z) :
  sets ctx = 2 ^ m → 0 ≤ m ≤ 16 → 0 ≤ x < 2 ^ 64 →
  remove_cache_set ctx x =
    x - CACHELINE_SIZE * ((x / CACHELINE_SIZE) mod 2 ^ m).
Proof.
  intros Hsets Hm Hx. unfold remove_cache_set.
  rewrite Hsets, land_lnot_u64, land_SET_MASK by lia. done.
Qed.

Lemma remove_cache_group_set_page (x : Z) :
  0 ≤ x < 2 ^ 64 →
  remove_cache_group_set x = PAGE_SIZE * (x / PAGE_SIZE) + x mod CACHELINE_SIZE.
Proof.
  intros Hx. unfold remove_cache_group_set.
  change CACHE_GROUP_SIZE with (2 ^ 6).
  rewrite land_lnot_u64, land_SET_MASK by lia.
  unfold PAGE_SIZE, CACHELINE_SIZE. change (2 ^ 6) with 64.
  pose proof (Z.div_mod x 64 ltac:(lia)).
  pose proof (Z.div_mod (x / 64) 64 ltac:(lia)).
  rewrite Z.div_div in * by lia. change (64 * 64) with 4096 in *. lia.
Qed.

Lemma head_filter_first {A} (P : A → Prop) `{!∀ x, Decision (P x)}
    (l1 l2 : list A) x :
  (∀ y, y ∈ l1 → ¬ P y) → P x →
  head (filter P (l1 ++ x :: l2)) = Some x.
Proof.
  intros Hl1 Hx. induction l1 as [|y l1 IH]; cbn [app].
  - by rewrite filter_cons_True.
  - rewrite filter_cons_False by (apply Hl1; left).
    apply IH. intros z Hz. apply Hl1. by right.
Qed.

(** In a block aligned to the size of one way, the first line tagged with
    set [s] is line [s]. *)
Lemma block_first_of_set ctx cl_arr (h : heap) s :
  0 < sets ctx → 0 < associativity ctx →
  nr_of_cachelines ctx = sets ctx * associativity ctx →
  0 ≤ cl_arr → cl_arr mod (sets ctx * CACHELINE_SIZE) = 0 →
  (∀ i, 0 ≤ i < nr_of_cachelines ctx →
     tag_of h (cl_arr + i * CACHELINE_SIZE) =
       Some ((cl_arr / CACHELINE_SIZE + i) mod sets ctx)) →
  0 ≤ s < sets ctx →
  head (lines_of_set h s (block_lines ctx cl_arr)) =
    Some (cl_arr + s * CACHELINE_SIZE).
Proof.
  intros Hsets Hassoc Hnr Hpos Halign Htag Hs.
  unfold CACHELINE_SIZE in *.
  assert (Hres : ∀ i, (cl_arr / 64 + i) mod sets ctx = i mod sets ctx).
  { intros i. apply Z.mod_divide in Halign as [q Hq]; [|lia].
    replace (cl_arr / 64) with (q * sets ctx)
      by (rewrite Hq, Z.mul_assoc, Z.div_mul; lia).
    rewrite Z.add_comm. apply Z_mod_plus_full. }
  unfold lines_of_set, block_lines, CACHELINE_SIZE.
  replace (nr_of_cachelines ctx) with (s + (nr_of_cachelines ctx - s)) by lia.
  assert (s < nr_of_cachelines ctx) by nia.
  rewrite seqZ_app by lia. rewrite Z.add_0_l.
  rewrite (seqZ_cons s) by lia. rewrite fmap_app, fmap_cons.
  apply head_filter_first.
  - intros p (i & -> & Hi%elem_of_seqZ)%list_elem_of_fmap.
    rewrite Htag, Hres by lia. rewrite Z.mod_small by lia.
    intros [= ->]. lia.
  - rewrite Htag, Hres by lia. by rewrite Z.mod_small by lia.
Qed.

Lemma block_lines_pos ctx cl_arr : 0 < cl_arr → NULL ∉ block_lines ctx cl_arr.
Proof.
  intros Hpos (i & Hi & Hin%elem_of_seqZ)%list_elem_of_fmap.
  unfold NULL, CACHELINE_SIZE in Hi. lia.
Qed.

(** The line that [prepare_cache_ds] returns for a block aligned to the
    size of one way is one of the first [sets] lines of the block, so
    clearing its set bits gives the base of the block. *)
Lemma remove_cache_set_first ctx (m cl_arr s : Z) :
  sets ctx = 2 ^ m → 0 ≤ m ≤ 16 → 0 < cl_arr →
  cl_arr mod (sets ctx * CACHELINE_SIZE) = 0 →
  cl_arr + sets ctx * CACHELINE_SIZE ≤ 2 ^ 64 → 0 ≤ s < sets ctx →
  remove_cache_set ctx (cl_arr + s * CACHELINE_SIZE) = cl_arr.
Proof.
  intros Hsets Hm Hpos Halign Hfit Hs. unfold CACHELINE_SIZE in *.
  rewrite (remove_cache_set_pow2 ctx m) by (first [done | lia]).
  unfold CACHELINE_SIZE. rewrite Z.div_add by lia. rewrite <- Hsets.
  apply Z.mod_divide in Halign as [q Hq]; [|lia].
  replace (cl_arr / 64) with (q * sets ctx)
    by (rewrite Hq, Z.mul_assoc, Z.div_mul; lia).
  replace (q * sets ctx + s) with (s + q * sets ctx) by lia.
  rewrite Z_mod_plus_full, Z.mod_small by lia. lia.
Qed.

(** ** cl_insert and cl_remove on rings *)

(** [cl_insert] behind a non-null line [a] whose successor is [n]. *)
Lemma cl_insert_links (h : heap) a new n :
  a ≠ NULL → new ≠ a → new ≠ n →
  is_Some (tag_of h new) → next_of h a = Some n → is_Some (tag_of h n) →
  ∃ h',
    cl_insert a new h = Ret h' ∧
    (∀ q, next_of h' q =
       if decide (q = a) then Some new
       else if decide (q = new) then Some n else next_of h q) ∧
    (∀ q, prev_of h' q =
       if decide (q = n) then Some new
       else if decide (q = new) then Some a else prev_of h q) ∧
    (∀ q, tag_of h' q = tag_of h q).
Proof.
  intros Ha Hna Hnn Hnew Hnext Hn. unfold cl_insert.
  rewrite decide_False by done.
  pose proof Hnext as (l & Hl & Hln)%next_of_Some.
  rewrite (load_Ret _ _ _ Hl). ret_step. rewrite Hln.
  destruct (store_next_run h new n Hnew) as (h1 & -> & Hn1 & Hp1 & Ht1 & _).
  ret_step.
  destruct (store_prev_run h1 new a) as (h2 & -> & Hn2 & Hp2 & Ht2 & _);
    [by rewrite Ht1|].
  ret_step.
  assert (Hna2 : next_of h2 a = Some n).
  { rewrite Hn2, Hn1. by rewrite decide_False by done. }
  apply next_of_Some in Hna2 as (l2 & Hl2 & Hln2).
  rewrite (load_Ret _ _ _ Hl2). ret_step. rewrite Hln2.
  destruct (store_prev_run h2 n new) as (h3 & -> & Hn3 & Hp3 & Ht3 & _);
    [by rewrite Ht2, Ht1|].
  ret_step.
  destruct (store_next_run h3 a new) as (h4 & -> & Hn4 & Hp4 & Ht4 & _).
  { rewrite Ht3, Ht2, Ht1. apply tag_of_is_Some. by exists l. }
  exists h4. split; [done|]. split; [|split]; intros q.
  - rewrite Hn4, Hn3, Hn2, Hn1. done.
  - rewrite Hp4, Hp3, Hp2, Hp1. done.
  - by rewrite Ht4, Ht3, Ht2, Ht1.
Qed.

(** [cl_remove] of a line between two non-null lines. *)
Lemma cl_remove_links (h : heap) cl p n :
  prev_of h cl = Some p → next_of h cl = Some n → p ≠ NULL → n ≠ NULL →
  is_Some (tag_of h p) → is_Some (tag_of h n) →
  ∃ h',
    cl_remove cl h = Ret h' ∧
    (∀ q, next_of h' q = if decide (q = p) then Some n else next_of h q) ∧
    (∀ q, prev_of h' q = if decide (q = n) then Some p else prev_of h q) ∧
    (∀ q, tag_of h' q = tag_of h q).
Proof.
  intros Hprev Hnext Hp Hn Htp Htn. unfold cl_remove.
  pose proof Hprev as (c & Hc & Hcp)%prev_of_Some.
  pose proof Hnext as (c' & Hc' & Hcn)%next_of_Some.
  assert (c' = c) as -> by congruence.
  rewrite (load_Ret _ _ _ Hc). ret_step. rewrite Hcp, Hcn.
  rewrite decide_True by done.
  destruct (store_next_run h p n Htp) as (h1 & -> & Hn1 & Hp1 & Ht1 & _).
  ret_step.
  assert (Hn1c : next_of h1 cl = Some n).
  { rewrite Hn1. by case_decide. }
  assert (Hp1c : prev_of h1 cl = Some p) by (by rewrite Hp1).
  apply next_of_Some in Hn1c as (c1 & Hc1 & Hc1n).
  apply prev_of_Some in Hp1c as (c1' & Hc1' & Hc1p).
  assert (c1' = c1) as -> by congruence.
  rewrite (load_Ret _ _ _ Hc1). ret_step. rewrite Hc1n, Hc1p.
  rewrite decide_True by done.
  destruct (store_prev_run h1 n p) as (h2 & -> & Hn2 & Hp2 & Ht2 & _);
    [by rewrite Ht1|].
  exists h2. split; [done|]. split; [|split]; intros q.
  - by rewrite Hn2, Hn1.
  - by rewrite Hp2, Hp1.
  - by rewrite Ht2, Ht1.
Qed.

Lemma ring_head_links (h : heap) e rest :
  ring h (e :: rest) →
  next_of h e = Some (hd e rest) ∧ prev_of h e = Some (hd e (reverse rest)) ∧
  chain (next_of h) rest e ∧ chain (prev_of h) (reverse rest) e.
Proof.
  intros Hring.
  pose proof (ring_next_cycle _ _ _ Hring) as [Hn Hcn].
  pose proof (ring_prev_cycle _ _ _ Hring) as [Hp Hcp]. done.
Qed.

(** [cl_insert] into a ring puts the new line behind the anchor. *)
Lemma cl_insert_ring (h : heap) a rest new :
  ring h (a :: rest) → a ≠ NULL → new ∉ a :: rest → is_Some (h !! new) →
  ∃ h',
    cl_insert a new h = Ret h' ∧ ring h' (a :: new :: rest) ∧
    (∀ q, tag_of h' q = tag_of h q) ∧
    (∀ q, q ∉ a :: new :: rest →
       next_of h' q = next_of h q ∧ prev_of h' q = prev_of h q).
Proof.
  intros Hring Ha Hnew Hin.
  destruct (ring_head_links _ _ _ Hring) as (Hn & Hp & Hcn & Hcp).
  pose proof Hring as (_ & Hnd & _).
  apply NoDup_cons in Hnd as [Harest Hndrest].
  assert (Hna : new ≠ a) by (intros ->; apply Hnew; left).
  assert (Hnrest : new ∉ rest) by (intros ?; apply Hnew; by right).
  assert (Hhd : hd a rest ∈ a :: rest).
  { destruct rest as [|x rest]; [left|right; left]. }
  assert (Hnn : new ≠ hd a rest) by (by intros ->).
  destruct (cl_insert_links h a new (hd a rest))
    as (h' & Hrun & Hn' & Hp' & Ht'); try done.
  { by apply tag_of_is_Some. }
  { apply tag_of_is_Some. by apply (ring_lookup h (a :: rest)). }
  exists h'. split; [done|]. split; [|split; [done|]].
  - apply ring_cons_iff. split; [|split].
    + apply NoDup_cons. split; [|by apply NoDup_cons].
      intros [->|?]%elem_of_cons; done.
    + cbn [chain hd]. rewrite !Hn'. rewrite decide_True by done.
      rewrite decide_False, decide_True by done.
      split; [done|]. split; [done|].
      eapply chain_ext; [|exact Hcn]. intros q Hq. rewrite Hn'.
      rewrite !decide_False; [done| |]; by intros ->.
    + rewrite reverse_cons. cbn [chain]. split.
      * rewrite Hp'. destruct rest as [|x rest].
        -- cbn [hd]. by rewrite decide_True.
        -- cbn [hd]. rewrite !decide_False.
           ++ rewrite Hp. f_equal.
              rewrite !hd_default, head_app. rewrite head_reverse.
              destruct (last (x :: rest)) eqn:Hl; [done|].
              by apply last_None in Hl.
           ++ done.
           ++ intros ->. apply Harest. left.
      * apply chain_app. cbn [hd chain]. split.
        -- eapply chain_redirect; [|exact Hcp| |].
           ++ by rewrite reverse_Permutation.
           ++ intros q Hq Hlast. rewrite last_reverse in Hlast.
              rewrite elem_of_reverse in Hq. rewrite Hp'.
              rewrite !decide_False; [done| |].
              ** by intros ->.
              ** intros ->. apply Hlast. destruct rest; [|done].
                 by apply elem_of_nil in Hq.
           ++ intros q Hlast. rewrite last_reverse in Hlast. rewrite Hp'.
              rewrite decide_True; [done|]. rewrite hd_default, Hlast. done.
        -- rewrite Hp'. rewrite decide_False, decide_True by done. done.
  - intros q Hq. rewrite Hn', Hp'.
    assert (q ≠ a) by (intros ->; apply Hq; left).
    assert (q ≠ new) by (intros ->; apply Hq; right; left).
    assert (q ≠ hd a rest).
    { intros ->. apply Hq. apply elem_of_cons in Hhd as [->|?]; [left|].
      by do 2 right. }
    by rewrite !decide_False.
Qed.

(** [cl_remove] takes a line out of a ring of at least two lines; the line
    itself keeps its links. *)
Lemma cl_remove_ring (h : heap) cl rest :
  ring h (cl :: rest) → rest ≠ [] → NULL ∉ cl :: rest →
  ∃ h',
    cl_remove cl h = Ret h' ∧ ring h' rest ∧
    next_of h' cl = next_of h cl ∧ prev_of h' cl = prev_of h cl ∧
    (∀ q, tag_of h' q = tag_of h q) ∧
    (∀ q, q ∉ rest → next_of h' q = next_of h q ∧ prev_of h' q = prev_of h q).
Proof.
  intros Hring Hne Hnull.
  destruct (ring_head_links _ _ _ Hring) as (Hn & Hp & Hcn & Hcp).
  pose proof Hring as (_ & Hnd & _).
  apply NoDup_cons in Hnd as [Hcl Hndrest].
  destruct rest as [|n rest']; [done|]. set (rest := n :: rest') in *.
  assert (is_Some (last rest)) as [p Hlast] by (by apply last_is_Some).
  assert (Hpin : p ∈ rest) by (by apply last_Some_elem_of).
  assert (Hnin : n ∈ rest) by left.
  rewrite hd_default, head_reverse, Hlast in Hp. cbn [default hd] in Hp, Hn.
  destruct (cl_remove_links h cl p n)
    as (h' & Hrun & Hn' & Hp' & Ht'); try done.
  { intros ->. apply Hnull. by right. }
  { intros ->. apply Hnull. by right. }
  { apply tag_of_is_Some, (ring_lookup h (cl :: rest)); [done|by right]. }
  { apply tag_of_is_Some, (ring_lookup h (cl :: rest)); [done|by right]. }
  exists h'. split; [done|]. split; [|split; [|split; [|split; [done|]]]].
  - split; [done|]. split; [done|]. split.
    + eapply chain_redirect; [exact Hndrest|exact Hcn| |].
      * intros q Hq Hl. rewrite Hn'. rewrite decide_False; [done|].
        intros ->. by apply Hl.
      * intros q Hl. assert (q = p) as -> by congruence.
        rewrite Hn'. by rewrite decide_True.
    + eapply chain_redirect; [|exact Hcp| |].
      * by rewrite reverse_Permutation.
      * intros q Hq Hl. rewrite last_reverse in Hl. rewrite Hp'.
        rewrite decide_False; [done|]. intros ->. by apply Hl.
      * intros q Hl. rewrite last_reverse in Hl. injection Hl as <-.
        rewrite Hp', decide_True by done.
        by rewrite hd_default, head_reverse, Hlast.
  - rewrite Hn'. rewrite decide_False; [done|]. by intros ->.
  - rewrite Hp'. rewrite decide_False; [done|]. by intros ->.
  - intros q Hq. rewrite Hn', Hp'.
    rewrite !decide_False; [done| |]; by intros ->.
Qed.

(** [cl_remove] of the only line of a ring changes no link. *)
Lemma cl_remove_single (h : heap) cl :
  ring h [cl] → cl ≠ NULL →
  ∃ h',
    cl_remove cl h = Ret h' ∧
    (∀ q, next_of h' q = next_of h q ∧ prev_of h' q = prev_of h q ∧
          tag_of h' q = tag_of h q).
Proof.
  intros Hring Hnull.
  destruct (ring_head_links _ _ _ Hring) as (Hn & Hp & _).
  cbn [hd reverse] in Hn, Hp.
  assert (Hin : is_Some (tag_of h cl)).
  { apply tag_of_is_Some, (ring_lookup h [cl]); [done|left]. }
  destruct (cl_remove_links h cl cl cl)
    as (h' & Hrun & Hn' & Hp' & Ht'); try done.
  exists h'. split; [done|]. intros q. rewrite Hn', Hp', Ht'.
  case_decide; [subst q|]; done.
Qed.

(** [cl_remove] undoes [cl_insert]. *)
Lemma cl_insert_remove (h : heap) a rest new :
  ring h (a :: rest) → NULL ∉ a :: rest → new ≠ NULL →
  new ∉ a :: rest → is_Some (h !! new) →
  ∃ h1 h2,
    cl_insert a new h = Ret h1 ∧ cl_remove new h1 = Ret h2 ∧
    ring h2 (a :: rest) ∧
    (∀ q, q ≠ new →
       next_of h2 q = next_of h q ∧ prev_of h2 q = prev_of h q) ∧
    (∀ q, tag_of h2 q = tag_of h q).
Proof.
  intros Hring Hnull Hnewnull Hnew Hin.
  assert (Ha : a ≠ NULL) by (intros ->; apply Hnull; left).
  destruct (ring_head_links _ _ _ Hring) as (Hn & Hp & _).
  assert (Hhd : hd a rest ∈ a :: rest).
  { destruct rest as [|x rest]; [left|right; left]. }
  assert (Hna : new ≠ a) by (intros ->; apply Hnew; left).
  assert (Hnn : new ≠ hd a rest) by (by intros ->).
  destruct (cl_insert_links h a new (hd a rest))
    as (h1 & Hrun1 & Hn1 & Hp1 & Ht1); try done.
  { by apply tag_of_is_Some. }
  { apply tag_of_is_Some. by apply (ring_lookup h (a :: rest)). }
  destruct (cl_remove_links h1 new a (hd a rest))
    as (h2 & Hrun2 & Hn2 & Hp2 & Ht2).
  { rewrite Hp1. by rewrite decide_False, decide_True. }
  { rewrite Hn1. by rewrite decide_False, decide_True. }
  { done. }
  { intros Heq. apply Hnull. by rewrite <- Heq. }
  { rewrite Ht1. apply tag_of_is_Some.
    apply (ring_lookup h (a :: rest)); [done|left]. }
  { rewrite Ht1. apply tag_of_is_Some.
    by apply (ring_lookup h (a :: rest)). }
  assert (Hlinks : ∀ q, q ≠ new →
    next_of h2 q = next_of h q ∧ prev_of h2 q = prev_of h q).
  { intros q Hq. rewrite Hn2, Hp2, Hn1, Hp1. split.
    - destruct (decide (q = a)) as [->|]; [done|]. by rewrite decide_False.
    - destruct (decide (q = hd a rest)) as [->|]; [|by rewrite decide_False].
      destruct (ring_head_links _ _ _ Hring) as (_ & _ & _ & Hcp).
      destruct rest as [|x rest]; [done|]. cbn [hd].
      symmetry. apply (chain_last _ _ _ _ Hcp).
      by rewrite last_reverse. }
  exists h1, h2. split; [done|]. split; [done|]. split; [|split; [done|]].
  - apply (ring_ext_links h); [|done]. intros q Hq. apply Hlinks.
    by intros ->.
  - intros q. by rewrite Ht2, Ht1.
Qed.

(** ** Measurements stored in the lines *)

Lemma store_time_msrmt_time (h : heap) p v :
  is_Some (h !! p) →
  ∃ h', store_time_msrmt h p v = Ret h' ∧
    (∀ q, time_of h' q = if decide (q = p) then Some v else time_of h q) ∧
    (∀ q, next_of h' q = next_of h q) ∧
    (∀ q, prev_of h' q = prev_of h q) ∧
    (∀ q, tag_of h' q = tag_of h q) ∧
    (∀ q, flags_of h' q = flags_of h q) ∧
    (∀ q, q ≠ p → h' !! q = h !! q).
Proof.
  intros [c Hc]. eexists. unfold store_time_msrmt.
  rewrite (load_Ret _ _ _ Hc), bind_Ret. split; [done|].
  unfold next_of, prev_of, tag_of, time_of, flags_of.
  split; [|split; [|split; [|split; [|split]]]]; intros q;
    try (destruct (decide (q = p)) as [->|Hq];
         rewrite ?lookup_insert_eq, ?Hc; rewrite ?lookup_insert_ne by done;
         done).
Qed.

(** [probe_all_cachelines] on a ring: it visits the lines against the
    direction of the ring, from the head on, stores in each the
    measurement taken at it, and returns the line after the head. *)
Lemma probe_all_cachelines_run fuel tsc (h : heap) e rest t :
  ring h (e :: rest) → (length rest < fuel)%nat →
  ∃ h',
    probe_all_cachelines fuel tsc h e t
      = Ret (hd e rest, (h', (t + S (length rest))%nat)) ∧
    (∀ j p, (e :: reverse rest) !! j = Some p →
       time_of h' p = Some (u32 (tsc (t + j)%nat))) ∧
    (∀ q, next_of h' q = next_of h q) ∧
    (∀ q, prev_of h' q = prev_of h q) ∧
    (∀ q, tag_of h' q = tag_of h q) ∧
    (∀ q, flags_of h' q = flags_of h q) ∧
    (∀ q, q ∉ e :: rest → h' !! q = h !! q).
Proof.
  intros Hring Hfuel.
  destruct (ring_head_links _ _ _ Hring) as (Hnext & _ & _ & _).
  pose proof (ring_prev_cycle _ _ _ Hring) as Hchain.
  rewrite chain_lookup in Hchain.
  assert (Hnd : NoDup (e :: reverse rest)).
  { destruct Hring as (_ & Hnd & _). apply NoDup_cons in Hnd as [Hnot Hnd].
    apply NoDup_cons. by rewrite elem_of_reverse, reverse_Permutation. }
  assert (HVin : ∀ p, p ∈ e :: reverse rest ↔ p ∈ e :: rest).
  { intros p. by rewrite !elem_of_cons, elem_of_reverse. }
  unfold probe_all_cachelines.
  match goal with |- context [do_while fuel ?body ?cond ?s0] =>
    destruct (do_while_along body cond
      (λ k '(curr, (hk, tk)),
         curr = default e ((e :: reverse rest) !! k) ∧ tk = (t + k)%nat ∧
         (∀ j p, (j < k)%nat → (e :: reverse rest) !! j = Some p →
            time_of hk p = Some (u32 (tsc (t + j)%nat))) ∧
         (∀ q, next_of hk q = next_of h q) ∧
         (∀ q, prev_of hk q = prev_of h q) ∧
         (∀ q, tag_of hk q = tag_of h q) ∧
         (∀ q, flags_of hk q = flags_of h q) ∧
         (∀ q, q ∉ e :: rest → hk !! q = h !! q))
      (S (length rest)) fuel s0)
      as ([curr [h' t']] & Hrun & Hcurr & Ht & Hdone & Hn & Hp & Htag & Hfl & Hfr)
  end.
  - lia.
  - lia.
  - split; [done|]. split; [lia|]. split; [intros; lia|done].
  - intros k [curr [hk tk]] Hk (Hcurr & -> & Hdone & Hn & Hp & Htag & Hfl & Hfr).
    destruct (lookup_lt_is_Some_2 (e :: reverse rest) k) as [p Hpk];
      [cbn [length]; rewrite length_reverse; lia|].
    rewrite Hpk in Hcurr. change (default e (Some p)) with p in Hcurr.
    subst curr.
    assert (Hpin : p ∈ e :: rest) by (apply HVin; by eapply list_elem_of_lookup_2).
    destruct (store_time_msrmt_time hk p (u32 (tsc (t + k)%nat)))
      as (h1 & Hstore & Ht1 & Hn1 & Hp1 & Htag1 & Hfl1 & Hfr1).
    { apply tag_of_is_Some. rewrite Htag. apply tag_of_is_Some.
      by apply (ring_lookup h (e :: rest)). }
    pose proof (Hchain k p Hpk) as Hprev.
    rewrite <- Hp, <- Hp1 in Hprev.
    apply prev_of_Some in Hprev as (c & Hc & Hcp).
    destruct (cycle_step e (reverse rest) k Hnd) as (_ & _ & Hcond);
      [rewrite length_reverse; lia|].
    rewrite length_reverse in Hcond.
    eexists. split.
    { rewrite Hstore. ret_step. rewrite (load_Ret _ _ _ Hc). ret_step.
      reflexivity. }
    cbv beta iota. split; [|by rewrite Hcp, Hcond].
    split; [done|]. split; [lia|]. split; [|split; [|split; [|split; [|split]]]].
    + intros j q Hj Hq. rewrite Ht1.
      destruct (decide (j = k)) as [->|Hne].
      * assert (q = p) as -> by congruence. by rewrite decide_True.
      * rewrite decide_False; [apply Hdone; [lia|done]|].
        intros ->. apply Hne. by eapply NoDup_lookup.
    + intros q. by rewrite Hn1.
    + intros q. by rewrite Hp1.
    + intros q. by rewrite Htag1.
    + intros q. by rewrite Hfl1.
    + intros q Hq. rewrite Hfr1; [by apply Hfr|]. by intros ->.
  - rewrite (lookup_ge_None_2 (e :: reverse rest)) in Hcurr
      by (cbn [length]; rewrite length_reverse; lia).
    change (default e None) with e in Hcurr. subst curr t'.
    rewrite <- Hn in Hnext. apply next_of_Some in Hnext as (c & Hc & Hcn).
    exists h'. split.
    { rewrite Hrun. ret_step. rewrite (load_Ret _ _ _ Hc). ret_step.
      by rewrite Hcn. }
    split; [|done]. intros j p Hj. apply Hdone; [|done].
    apply lookup_lt_Some in Hj. cbn [length] in Hj.
    rewrite length_reverse in Hj. lia.
Qed.

(** [get_all_msrmts_in_order] on a ring copies the measurements stored in
    the lines, in the order in which [probe_all_cachelines] took them. *)
Lemma get_all_msrmts_in_order_run fuel (h : heap) e rest (res : list Z) :
  ring h (e :: rest) → (length rest < fuel)%nat →
  (S (length rest) ≤ length res)%nat → Z.of_nat (S (length rest)) < 2 ^ 32 →
  ∃ res',
    get_all_msrmts_in_order fuel h e res = Ret res' ∧
    length res' = length res ∧
    (∀ j p, (e :: reverse rest) !! j = Some p → res' !! j = time_of h p) ∧
    (∀ j, (S (length rest) ≤ j)%nat → res' !! j = res !! j).
Proof.
  intros Hring Hfuel Hlen Hsmall.
  pose proof (ring_prev_cycle _ _ _ Hring) as Hchain.
  rewrite chain_lookup in Hchain.
  assert (Hnd : NoDup (e :: reverse rest)).
  { destruct Hring as (_ & Hnd & _). apply NoDup_cons in Hnd as [Hnot Hnd].
    apply NoDup_cons. by rewrite elem_of_reverse, reverse_Permutation. }
  unfold get_all_msrmts_in_order.
  match goal with |- context [do_while fuel ?body ?cond ?s0] =>
    destruct (do_while_along body cond
      (λ k '(curr, resk, idx),
         curr = default e ((e :: reverse rest) !! k) ∧ idx = Z.of_nat k ∧
         length resk = length res ∧
         (∀ j p, (j < k)%nat → (e :: reverse rest) !! j = Some p →
            resk !! j = time_of h p) ∧
         (∀ j, (k ≤ j)%nat → resk !! j = res !! j))
      (S (length rest)) fuel s0)
      as ([[curr res'] idx] & Hrun & Hcurr & Hidx & Hl & Hdone & Hrest)
  end.
  - lia.
  - lia.
  - split; [done|]. split; [done|]. split; [done|]. split; [intros; lia|done].
  - intros k [[curr resk] idx] Hk (Hcurr & -> & Hl & Hdone & Hrest).
    destruct (lookup_lt_is_Some_2 (e :: reverse rest) k) as [p Hpk];
      [cbn [length]; rewrite length_reverse; lia|].
    rewrite Hpk in Hcurr. change (default e (Some p)) with p in Hcurr.
    subst curr.
    pose proof (Hchain k p Hpk) as Hprev.
    apply prev_of_Some in Hprev as (c & Hc & Hcp).
    destruct (cycle_step e (reverse rest) k Hnd) as (_ & _ & Hcond);
      [rewrite length_reverse; lia|].
    rewrite length_reverse in Hcond.
    eexists. split.
    { rewrite (load_Ret _ _ _ Hc). ret_step.
      rewrite arr_set_Ret by lia. ret_step. reflexivity. }
    cbv beta iota. split; [|by rewrite Hcp, Hcond].
    rewrite length_insert, Nat2Z.id.
    split; [done|]. split; [unfold u32; rewrite Z.mod_small; lia|].
    split; [done|]. split.
    + intros j q Hj Hq. destruct (decide (j = k)) as [->|Hne].
      * assert (q = p) as -> by congruence.
        rewrite list_lookup_insert_eq by lia. unfold time_of. by rewrite Hc.
      * rewrite list_lookup_insert_ne by done. apply Hdone; [lia|done].
    + intros j Hj. rewrite list_lookup_insert_ne by lia. apply Hrest. lia.
  - exists res'. split; [by rewrite Hrun|]. split; [done|]. split; [|done].
    intros j p Hj. apply Hdone; [|done].
    apply lookup_lt_Some in Hj. cbn [length] in Hj.
    rewrite length_reverse in Hj. lia.
Qed.

Lemma foldr_add_snoc (l : list Z) (x : Z) :
  foldr Z.add 0 (l ++ [x]) = foldr Z.add 0 l + x.
Proof. induction l as [|a l IH]; cbn [app foldr]; lia. Qed.

(** [get_per_set_sum_of_msrmts] on a ring adds to the cell of every set the
    measurements stored in the lines of that set, in [uint32_t]. *)
Lemma get_per_set_sum_run fuel (h : heap) e rest (res : list Z) :
  ring h (e :: rest) → (length rest < fuel)%nat →
  (∀ p, p ∈ e :: rest →
     ∃ s, 0 ≤ s < Z.of_nat (length res) ∧ tag_of h p = Some s) →
  (∀ v, v ∈ res → 0 ≤ v < 2 ^ 32) →
  ∃ res',
    get_per_set_sum_of_msrmts fuel h e res = Ret res' ∧
    length res' = length res ∧
    ∀ s v, res !! s = Some v →
      res' !! s = Some (u32 (v + set_time_sum h (Z.of_nat s) (e :: rest))).
Proof.
  intros Hring Hfuel Htags Hu32.
  pose proof (ring_next_cycle _ _ _ Hring) as Hchain.
  rewrite chain_lookup in Hchain.
  pose proof Hring as (_ & Hnd & _).
  unfold get_per_set_sum_of_msrmts.
  match goal with |- context [do_while fuel ?body ?cond ?s0] =>
    destruct (do_while_along body cond
      (λ k '(curr, resk),
         curr = default e ((e :: rest) !! k) ∧ length resk = length res ∧
         ∀ s v, res !! s = Some v →
           resk !! s =
             Some (u32 (v + set_time_sum h (Z.of_nat s) (take k (e :: rest)))))
      (S (length rest)) fuel s0)
      as ([curr res'] & Hrun & Hcurr & Hl & Hsum)
  end.
  - lia.
  - lia.
  - split; [done|]. split; [done|]. intros s v Hv. rewrite Hv, take_0.
    unfold set_time_sum. cbn. rewrite Z.add_0_r. unfold u32.
    rewrite Z.mod_small; [done|]. apply Hu32. by eapply list_elem_of_lookup_2.
  - intros k [curr resk] Hk (Hcurr & Hl & Hsum).
    destruct (lookup_lt_is_Some_2 (e :: rest) k) as [p Hpk];
      [cbn [length]; lia|].
    rewrite Hpk in Hcurr. change (default e (Some p)) with p in Hcurr.
    subst curr.
    pose proof (Hchain k p Hpk) as Hnext.
    apply next_of_Some in Hnext as (c & Hc & Hcn).
    destruct (Htags p) as (t & Ht & Htag); [by eapply list_elem_of_lookup_2|].
    assert (Hct : cache_set c = t).
    { unfold tag_of in Htag. rewrite Hc in Htag. by injection Htag. }
    destruct (lookup_lt_is_Some_2 res (Z.to_nat t)) as [v Hv]; [lia|].
    pose proof (Hsum _ _ Hv) as Hcell. rewrite Z2Nat.id in Hcell by lia.
    destruct (cycle_step e rest k Hnd Hk) as (_ & _ & Hcond).
    eexists. split.
    { rewrite (load_Ret _ _ _ Hc). ret_step. rewrite Hct.
      rewrite (arr_get_Ret resk t _ ltac:(lia) Hcell). ret_step.
      rewrite arr_set_Ret by lia. ret_step. reflexivity. }
    cbv beta iota. split; [|by rewrite Hcn, Hcond].
    rewrite length_insert. split; [done|]. split; [done|].
    intros s w Hw. rewrite (take_S_r _ _ _ Hpk).
    destruct (decide (s = Z.to_nat t)) as [->|Hne].
    + assert (w = v) as -> by congruence.
      rewrite list_lookup_insert_eq by lia. f_equal.
      rewrite Z2Nat.id by lia. unfold set_time_sum.
      rewrite (lines_of_set_snoc_eq _ _ _ _ Htag), fmap_app.
      change ((λ p0, default 0 (time_of h p0)) <$> [p])
        with [default 0 (time_of h p)].
      rewrite foldr_add_snoc.
      assert (Htime : time_of h p = Some (time_msrmt c))
        by (unfold time_of; by rewrite Hc).
      rewrite Htime.
      change (default 0 (Some (time_msrmt c))) with (time_msrmt c).
      unfold u32. rewrite Zplus_mod_idemp_l. f_equal. lia.
    + rewrite list_lookup_insert_ne by done. unfold set_time_sum.
      rewrite lines_of_set_snoc_ne; [by apply Hsum|].
      rewrite Htag. intros [= ->]. lia.
  - exists res'. split; [by rewrite Hrun|]. split; [done|].
    intros s v Hv. rewrite (Hsum s v Hv).
    by rewrite take_ge by (cbn [length]; lia).
Qed.

(** * Further properties of the code *)

(** ** The example geometry *)

Lemma geometry_ok_small : geometry_ok ctx_small.
Proof. repeat split; cbn; lia. Qed.

Lemma small_cases (i : Z) (P : Z → Prop) :
  0 ≤ i < 8 → P 0 → P 1 → P 2 → P 3 → P 4 → P 5 → P 6 → P 7 → P i.
Proof.
  intros Hi. assert (i = 0 ∨ i = 1 ∨ i = 2 ∨ i = 3 ∨ i = 4 ∨ i = 5 ∨ i = 6 ∨ i = 7)
    as [->|[->|[->|[->|[->|[->|[->| ->]]]]]]] by lia; tauto.
Qed.

Lemma heap_block8_dom (i : Z) :
  0 ≤ i < nr_of_cachelines ctx_small →
  is_Some (heap_block8 !! (4096 + i * CACHELINE_SIZE)).
Proof.
  intros Hi. apply (small_cases i); [exact Hi|..]; vm_compute; eauto.
Qed.

Lemma heap_tagged8_tags (i : Z) :
  0 ≤ i < nr_of_cachelines ctx_small →
  tag_of heap_tagged8 (4096 + i * CACHELINE_SIZE) =
    Some ((4096 / CACHELINE_SIZE + i) mod sets ctx_small).
Proof.
  intros Hi. apply (small_cases i); [exact Hi|..]; by vm_compute.
Qed.

Lemma alloc_ok_small : alloc_ok ctx_small heap_tagged8 (block_lines ctx_small 4096).
Proof.
  apply (allocate_virtual_alloc_ok ctx_small 2 4096 heap_tagged8 heap_tagged8).
  - exact geometry_ok_small.
  - reflexivity.
  - exact heap_tagged8_tags.
Qed.

(** ** Allocation and building *)

(** X1. [allocate_cache_ds], virtual addressing, on a block of
    [nr_of_cachelines] lines at [cl_arr], for a cache whose number of sets
    is a power of two: the array holds the lines of the block in address
    order, line [i] is tagged with the set [(cl_arr / 64 + i) mod sets],
    no link and no other line changes, and every set gets exactly
    [associativity] lines.  A null block fails the assertion. *)
Theorem allocate_virtual_spec ctx (m : Z) cl_arr (h : heap) :
  geometry_ok ctx → sets ctx = 2 ^ m → 0 ≤ m ≤ 16 →
  0 < cl_arr → cl_arr + nr_of_cachelines ctx * CACHELINE_SIZE ≤ 2 ^ 64 →
  (∀ i, 0 ≤ i < nr_of_cachelines ctx →
     is_Some (h !! (cl_arr + i * CACHELINE_SIZE))) →
  allocate_cache_ds_virtual ctx NULL h = AssertFail ∧
  ∃ h',
    allocate_cache_ds_virtual ctx cl_arr h = Ret (h', block_lines ctx cl_arr) ∧
    (∀ i, 0 ≤ i < nr_of_cachelines ctx →
       tag_of h' (cl_arr + i * CACHELINE_SIZE) =
         Some ((cl_arr / CACHELINE_SIZE + i) mod sets ctx)) ∧
    (∀ q, q ∉ block_lines ctx cl_arr → tag_of h' q = tag_of h q) ∧
    (∀ q, next_of h' q = next_of h q ∧ prev_of h' q = prev_of h q) ∧
    alloc_ok ctx h' (block_lines ctx cl_arr).
Proof.
  intros Hgeo Hsets Hm Hpos Hfit Hdom. split; [done|].
  destruct (allocate_virtual_run ctx m cl_arr h)
    as (h' & Hrun & Htag & Hframe & Hn & Hp & _);
    [done|done|destruct Hgeo as (? & ? & ->); nia|done|done|done|].
  exists h'. split; [done|]. split; [done|]. split; [done|].
  split; [done|]. by apply (allocate_virtual_alloc_ok ctx m cl_arr h).
Qed.

Lemma allocate_virtual_spec_witness :
  allocate_cache_ds_virtual ctx_small NULL heap_block8 = AssertFail ∧
  ∃ h',
    allocate_cache_ds_virtual ctx_small 4096 heap_block8 =
      Ret (h', block_lines ctx_small 4096) ∧
    (∀ i, 0 ≤ i < nr_of_cachelines ctx_small →
       tag_of h' (4096 + i * CACHELINE_SIZE) =
         Some ((4096 / CACHELINE_SIZE + i) mod sets ctx_small)) ∧
    (∀ q, q ∉ block_lines ctx_small 4096 → tag_of h' q = tag_of heap_block8 q) ∧
    (∀ q, next_of h' q = next_of heap_block8 q ∧
          prev_of h' q = prev_of heap_block8 q) ∧
    alloc_ok ctx_small h' (block_lines ctx_small 4096).
Proof.
  apply (allocate_virtual_spec ctx_small 2 4096 heap_block8).
  - exact geometry_ok_small.
  - reflexivity.
  - lia.
  - lia.
  - vm_compute. discriminate.
  - exact heap_block8_dom.
Defined.

(** X2. [build_cache_ds] on [nr_of_cachelines] different lines of which
    every set owns [associativity]: it returns, for every random
    sequence, and leaves the lines as one doubly linked ring that holds
    each line of the array exactly once; no tag changes, and the line it
    returns is the first of the ring and, in the array, the first line of
    its set. *)
Theorem build_cache_ds_ring fuel rnd ctx (h : heap) arr k :
  geometry_ok ctx → alloc_ok ctx h arr →
  (Z.to_nat (nr_of_cachelines ctx) < fuel)%nat →
  ∃ cache_ds h' k' l,
    build_cache_ds fuel rnd ctx arr (h, k) = Ret (cache_ds, (h', k')) ∧
    ring h' l ∧ head l = Some cache_ds ∧ l ≡ₚ arr ∧
    (∀ q, tag_of h' q = tag_of h q) ∧
    ∃ s, 0 ≤ s < sets ctx ∧ head (lines_of_set h s arr) = Some cache_ds.
Proof. apply build_cache_ds_run. Qed.

Lemma build_cache_ds_ring_witness :
  ∃ cache_ds h' k' l,
    build_cache_ds 20 rnd_example ctx_small (block_lines ctx_small 4096)
      (heap_tagged8, O) = Ret (cache_ds, (h', k')) ∧
    ring h' l ∧ head l = Some cache_ds ∧ l ≡ₚ block_lines ctx_small 4096 ∧
    (∀ q, tag_of h' q = tag_of heap_tagged8 q) ∧
    ∃ s, 0 ≤ s < sets ctx_small ∧
         head (lines_of_set heap_tagged8 s (block_lines ctx_small 4096))
           = Some cache_ds.
Proof.
  apply (build_cache_ds_ring 20 rnd_example ctx_small heap_tagged8
           (block_lines ctx_small 4096) O).
  - exact geometry_ok_small.
  - exact alloc_ok_small.
  - vm_compute. lia.
Defined.

(** ** The sanity check and the length *)

(** X3. [cache_ds_sanity_check] on a ring whose lines are tagged with sets
    of the cache: it returns [0] when every set owns exactly
    [associativity] lines of the ring and [1] otherwise. *)
Theorem sanity_check_decides fuel ctx (h : heap) e rest :
  ring h (e :: rest) → (length rest < fuel)%nat →
  Z.of_nat (length (e :: rest)) < 2 ^ 32 →
  (∀ p, p ∈ e :: rest → ∃ s, 0 ≤ s < sets ctx ∧ tag_of h p = Some s) →
  ∃ r, cache_ds_sanity_check fuel ctx h e = Ret r ∧ (r = 0 ∨ r = 1) ∧
       (r = 0 ↔
        ∀ s, 0 ≤ s < sets ctx →
          Z.of_nat (length (lines_of_set h s (e :: rest))) = associativity ctx).
Proof.
  intros Hring Hfuel Hsmall Htags.
  rewrite (sanity_check_ring fuel ctx h e rest Hring Hfuel Hsmall Htags).
  case_decide as HF; rewrite Forall_forall in HF.
  - exists 0. split; [done|]. split; [by left|]. split; [|done].
    intros _ s Hs. apply HF, elem_of_seqZ. lia.
  - exists 1. split; [done|]. split; [by right|]. split; [done|].
    intros Hall. exfalso. apply HF. intros s Hs%elem_of_seqZ.
    apply Hall. lia.
Qed.

Lemma heap3_tags (p : Z) :
  p ∈ [4096; 4160; 4224] →
  ∃ s, 0 ≤ s < sets ctx_small ∧ tag_of heap3 p = Some s.
Proof.
  intros Hp. repeat (apply elem_of_cons in Hp as [->|Hp]);
    [exists 0|exists 1|exists 2|by apply elem_of_nil in Hp];
    (split; [cbn; lia|reflexivity]).
Qed.

Lemma sanity_check_decides_witness :
  ∃ r, cache_ds_sanity_check 5 ctx_small heap3 4096 = Ret r ∧ (r = 0 ∨ r = 1) ∧
       (r = 0 ↔
        ∀ s, 0 ≤ s < sets ctx_small →
          Z.of_nat (length (lines_of_set heap3 s [4096; 4160; 4224]))
            = associativity ctx_small).
Proof.
  apply (sanity_check_decides 5 ctx_small heap3 4096 [4160; 4224]).
  - exact ring_heap3.
  - cbn. lia.
  - cbn. lia.
  - exact heap3_tags.
Defined.

(** X4. [get_cache_ds_len] on a ring of lines, none of them at the null
    address: the number of lines of the ring; and [0] for the null
    pointer. *)
Theorem get_cache_ds_len_spec fuel (h : heap) e rest :
  ring h (e :: rest) → NULL ∉ e :: rest → (length rest < fuel)%nat →
  Z.of_nat (length (e :: rest)) < 2 ^ 32 →
  get_cache_ds_len fuel h e = Ret (Z.of_nat (length (e :: rest))) ∧
  get_cache_ds_len fuel h NULL = Ret 0.
Proof.
  intros Hring Hnull Hfuel Hsmall.
  split; [by apply get_cache_ds_len_ring|].
  destruct fuel as [|fuel]; [lia|]. reflexivity.
Qed.

Lemma get_cache_ds_len_spec_witness :
  get_cache_ds_len 5 heap3 4096 = Ret 3 ∧ get_cache_ds_len 5 heap3 NULL = Ret 0.
Proof.
  apply (get_cache_ds_len_spec 5 heap3 4096 [4160; 4224]).
  - exact ring_heap3.
  - unfold NULL. intros Hin.
    repeat (apply elem_of_cons in Hin as [Hin|Hin]; [discriminate|]).
    by apply elem_of_nil in Hin.
  - cbn. lia.
  - cbn. lia.
Defined.

(** ** prepare_cache_ds and release_cache_ds *)

(** X5. [prepare_cache_ds] when [allocate_cache_ds] has left
    [nr_of_cachelines] different non-null lines, [associativity] per set:
    for every random sequence it returns, having passed its assertion on
    [cache_ds_sanity_check], the first line of a ring that holds exactly the
    allocated lines, [associativity] of them per set; the ring has
    [nr_of_cachelines] lines and [get_cache_ds_len] counts as many. *)
Theorem prepare_cache_ds_total fuel rnd ctx (h : heap) arr k :
  geometry_ok ctx → alloc_ok ctx h arr → NULL ∉ arr →
  (Z.to_nat (nr_of_cachelines ctx) < fuel)%nat →
  ∃ cache_ds h' k' l,
    prepare_cache_ds fuel rnd ctx (h, arr) k = Ret (cache_ds, (h', k')) ∧
    cache_ds_sanity_check fuel ctx h' cache_ds = Ret 0 ∧
    ring h' l ∧ head l = Some cache_ds ∧ l ≡ₚ arr ∧
    (∀ s, 0 ≤ s < sets ctx →
       Z.of_nat (length (lines_of_set h' s l)) = associativity ctx) ∧
    Z.of_nat (length l) = nr_of_cachelines ctx ∧
    get_cache_ds_len fuel h' cache_ds = Ret (nr_of_cachelines ctx).
Proof.
  intros Hgeo Halloc Hnull Hfuel.
  destruct (prepare_cache_ds_run fuel rnd ctx h arr k Hgeo Halloc Hfuel)
    as (cache_ds & h' & k' & l & Hrun & Hsanity & Hring & Hhead & Hperm
        & _ & Hcount & _).
  destruct Hgeo as (Hsets & Hassoc & Hnr).
  destruct Halloc as (Hlen & _).
  assert (Hl : Z.of_nat (length l) = nr_of_cachelines ctx)
    by (by rewrite Hperm).
  exists cache_ds, h', k', l. do 6 (split; [done|]). split; [done|].
  apply head_Some in Hhead as [rest ->]. rewrite <- Hl.
  apply get_cache_ds_len_ring; [done|by rewrite Hperm| |].
  - cbn [length] in Hl. lia.
  - rewrite Hl, Hnr.
    assert (sets ctx * associativity ctx ≤ 65535 * 65535)
      by (apply Z.mul_le_mono_nonneg; lia).
    lia.
Qed.

Lemma prepare_cache_ds_total_witness :
  ∃ cache_ds h' k' l,
    prepare_cache_ds 20 rnd_example ctx_small
      (heap_tagged8, block_lines ctx_small 4096) O
      = Ret (cache_ds, (h', k')) ∧
    cache_ds_sanity_check 20 ctx_small h' cache_ds = Ret 0 ∧
    ring h' l ∧ head l = Some cache_ds ∧ l ≡ₚ block_lines ctx_small 4096 ∧
    (∀ s, 0 ≤ s < sets ctx_small →
       Z.of_nat (length (lines_of_set h' s l)) = associativity ctx_small) ∧
    Z.of_nat (length l) = nr_of_cachelines ctx_small ∧
    get_cache_ds_len 20 h' cache_ds = Ret (nr_of_cachelines ctx_small).
Proof.
  apply (prepare_cache_ds_total 20 rnd_example ctx_small heap_tagged8
           (block_lines ctx_small 4096) O).
  - exact geometry_ok_small.
  - exact alloc_ok_small.
  - apply block_lines_pos. lia.
  - vm_compute. lia.
Defined.




(** X6. Virtual addressing, from allocation to release: on a block of
    [nr_of_cachelines] lines at [cl_arr] that is aligned to the size of one
    way ([sets * 64] bytes), [prepare_cache_ds] returns one of the first
    [sets] lines of the block, so the address [release_cache_ds] hands to
    [free], the returned line with its set bits cleared, is the base
    [cl_arr] of the block: the block is freed and no other. *)
Theorem virtual_prepare_release fuel rnd ctx (m : Z) cl_arr (h : heap)
    (B : gmap Z Z) sz malloc_ok k :
  geometry_ok ctx → addressing ctx = VIRTUAL → sets ctx = 2 ^ m → 0 ≤ m ≤ 16 →
  0 < cl_arr → cl_arr mod (sets ctx * CACHELINE_SIZE) = 0 →
  cl_arr + nr_of_cachelines ctx * CACHELINE_SIZE ≤ 2 ^ 64 →
  (∀ i, 0 ≤ i < nr_of_cachelines ctx →
     is_Some (h !! (cl_arr + i * CACHELINE_SIZE))) →
  (Z.to_nat (nr_of_cachelines ctx) < fuel)%nat →
  B !! cl_arr = Some sz →
  ∃ h0 cache_ds h' k',
    allocate_cache_ds_virtual ctx cl_arr h = Ret (h0, block_lines ctx cl_arr) ∧
    prepare_cache_ds fuel rnd ctx (h0, block_lines ctx cl_arr) k
      = Ret (cache_ds, (h', k')) ∧
    (∃ s, 0 ≤ s < sets ctx ∧ cache_ds = cl_arr + s * CACHELINE_SIZE) ∧
    remove_cache_set ctx cache_ds = cl_arr ∧
    release_cache_ds fuel malloc_ok ctx cache_ds {| cells := h'; blocks := B |}
      = Ret {| cells := filter (λ kv, ¬ (cl_arr ≤ kv.1 < cl_arr + sz)) h';
               blocks := delete cl_arr B |}.
Proof.
  intros Hgeo Hvirt Hsets Hm Hpos Halign Hfit Hdom Hfuel HB.
  pose proof Hgeo as (Hs & Ha & Hnr).
  destruct (allocate_virtual_run ctx m cl_arr h)
    as (h0 & Halloc & Htag & _); [done|done|nia|done|done|done|].
  pose proof (allocate_virtual_alloc_ok ctx m cl_arr h h0 Hgeo Hsets Htag)
    as Hok.
  destruct (prepare_cache_ds_run fuel rnd ctx h0 _ k Hgeo Hok Hfuel)
    as (cache_ds & h' & k' & l & Hrun & _ & _ & _ & _ & _ & _ & s & Hsr & Hhd).
  rewrite (block_first_of_set ctx cl_arr h0 s) in Hhd
    by (first [done | lia]).
  injection Hhd as <-.
  assert (Hrm : remove_cache_set ctx (cl_arr + s * CACHELINE_SIZE) = cl_arr).
  { apply (remove_cache_set_first ctx m); try done.
    unfold CACHELINE_SIZE in *. nia. }
  exists h0, (cl_arr + s * CACHELINE_SIZE), h', k'.
  split; [done|]. split; [done|]. split; [by exists s|]. split; [done|].
  unfold release_cache_ds.
  rewrite decide_False by (unfold NULL, CACHELINE_SIZE; lia).
  rewrite decide_True by done. rewrite Hrm. unfold free.
  rewrite decide_False by (unfold NULL; lia). cbn [blocks cells].
  by rewrite HB.
Qed.

Lemma virtual_prepare_release_witness :
  ∃ h0 cache_ds h' k',
    allocate_cache_ds_virtual ctx_small 4096 heap_block8
      = Ret (h0, block_lines ctx_small 4096) ∧
    prepare_cache_ds 20 rnd_example ctx_small (h0, block_lines ctx_small 4096) O
      = Ret (cache_ds, (h', k')) ∧
    (∃ s, 0 ≤ s < sets ctx_small ∧ cache_ds = 4096 + s * CACHELINE_SIZE) ∧
    remove_cache_set ctx_small cache_ds = 4096 ∧
    release_cache_ds 20 true ctx_small cache_ds
        {| cells := h'; blocks := {[ 4096 := 512 ]} |}
      = Ret {| cells := filter (λ kv, ¬ (4096 ≤ kv.1 < 4096 + 512)) h';
               blocks := delete 4096 {[ 4096 := 512 ]} |}.
Proof.
  apply (virtual_prepare_release 20 rnd_example ctx_small 2 4096 heap_block8
           {[ 4096 := 512 ]} 512 true O).
  - exact geometry_ok_small.
  - reflexivity.
  - reflexivity.
  - lia.
  - lia.
  - reflexivity.
  - vm_compute. discriminate.
  - exact heap_block8_dom.
  - vm_compute. lia.
  - reflexivity.
Defined.

(** ** List operations on rings *)

Lemma heap3_not_in (p : Z) :
  p ≠ 4096 → p ≠ 4160 → p ≠ 4224 → p ∉ [4096; 4160; 4224].
Proof.
  intros H1 H2 H3 Hin.
  repeat (apply elem_of_cons in Hin as [Hin|Hin]; [done|]).
  by apply elem_of_nil in Hin.
Qed.

(** X7. [cl_insert(anchor, new)] on a ring: the line [new], which is not on
    the ring, is on it afterwards, right behind the anchor, and the ring
    is otherwise in the order it had; no tag changes and no line off the
    ring is touched. *)
Theorem cl_insert_ring_spec (h : heap) a rest new :
  ring h (a :: rest) → a ≠ NULL → new ∉ a :: rest → is_Some (h !! new) →
  ∃ h',
    cl_insert a new h = Ret h' ∧ ring h' (a :: new :: rest) ∧
    (∀ q, tag_of h' q = tag_of h q) ∧
    (∀ q, q ∉ a :: new :: rest →
       next_of h' q = next_of h q ∧ prev_of h' q = prev_of h q).
Proof. apply cl_insert_ring. Qed.

Lemma cl_insert_ring_spec_witness :
  ∃ h',
    cl_insert 4096 4288 heap3 = Ret h' ∧ ring h' [4096; 4288; 4160; 4224] ∧
    (∀ q, tag_of h' q = tag_of heap3 q) ∧
    (∀ q, q ∉ [4096; 4288; 4160; 4224] →
       next_of h' q = next_of heap3 q ∧ prev_of h' q = prev_of heap3 q).
Proof.
  apply (cl_insert_ring_spec heap3 4096 [4160; 4224] 4288).
  - exact ring_heap3.
  - discriminate.
  - apply heap3_not_in; discriminate.
  - vm_compute. eauto.
Defined.

(** X8. [cl_remove(cl)] on a ring of non-null lines: on a ring of two or
    more lines, the other lines form a ring afterwards, in the order they
    had; the only line of a ring stays a ring of its own.  In both cases
    the removed line keeps its links, no tag changes and no line off the
    ring is touched. *)
Theorem cl_remove_ring_spec (h : heap) cl rest :
  ring h (cl :: rest) → NULL ∉ cl :: rest →
  ∃ h',
    cl_remove cl h = Ret h' ∧
    (rest ≠ [] → ring h' rest) ∧ (rest = [] → ring h' [cl]) ∧
    next_of h' cl = next_of h cl ∧ prev_of h' cl = prev_of h cl ∧
    (∀ q, tag_of h' q = tag_of h q) ∧
    (∀ q, q ∉ rest → next_of h' q = next_of h q ∧ prev_of h' q = prev_of h q).
Proof.
  intros Hring Hnull. destruct rest as [|n rest].
  - destruct (cl_remove_single h cl Hring) as (h' & Hrun & Hsame).
    { intros ->. apply Hnull. left. }
    exists h'. split; [done|]. split; [done|]. split.
    { intros _. apply (ring_ext_links h); [|done]. intros q _.
      by destruct (Hsame q) as (? & ? & _). }
    split; [apply Hsame|]. split; [apply Hsame|]. split; [apply Hsame|].
    intros q _. by destruct (Hsame q) as (? & ? & _).
  - destruct (cl_remove_ring h cl (n :: rest) Hring)
      as (h' & Hrun & Hring' & Hn & Hp & Ht & Hframe); [done|done|].
    exists h'. split; [done|]. split; [done|]. split; [done|]. done.
Qed.

Lemma cl_remove_ring_spec_witness :
  ∃ h',
    cl_remove 4096 heap3 = Ret h' ∧
    ([4160; 4224] ≠ [] → ring h' [4160; 4224]) ∧
    ([4160; 4224] = [] → ring h' [4096]) ∧
    next_of h' 4096 = next_of heap3 4096 ∧
    prev_of h' 4096 = prev_of heap3 4096 ∧
    (∀ q, tag_of h' q = tag_of heap3 q) ∧
    (∀ q, q ∉ [4160; 4224] →
       next_of h' q = next_of heap3 q ∧ prev_of h' q = prev_of heap3 q).
Proof.
  apply (cl_remove_ring_spec heap3 4096 [4160; 4224]).
  - exact ring_heap3.
  - apply heap3_not_in; discriminate.
Defined.

(** X9. [cl_remove(new)] undoes [cl_insert(anchor, new)]: after both, the
    ring is the one before, and every line other than [new] has the links
    and the tag it had. *)
Theorem cl_insert_remove_round_trip (h : heap) a rest new :
  ring h (a :: rest) → NULL ∉ a :: rest → new ≠ NULL →
  new ∉ a :: rest → is_Some (h !! new) →
  ∃ h1 h2,
    cl_insert a new h = Ret h1 ∧ cl_remove new h1 = Ret h2 ∧
    ring h2 (a :: rest) ∧
    (∀ q, q ≠ new →
       next_of h2 q = next_of h q ∧ prev_of h2 q = prev_of h q) ∧
    (∀ q, tag_of h2 q = tag_of h q).
Proof. apply cl_insert_remove. Qed.

Lemma cl_insert_remove_round_trip_witness :
  ∃ h1 h2,
    cl_insert 4096 4288 heap3 = Ret h1 ∧ cl_remove 4288 h1 = Ret h2 ∧
    ring h2 [4096; 4160; 4224] ∧
    (∀ q, q ≠ 4288 →
       next_of h2 q = next_of heap3 q ∧ prev_of h2 q = prev_of heap3 q) ∧
    (∀ q, tag_of h2 q = tag_of heap3 q).
Proof.
  apply (cl_insert_remove_round_trip heap3 4096 [4160; 4224] 4288).
  - exact ring_heap3.
  - apply heap3_not_in; discriminate.
  - discriminate.
  - apply heap3_not_in; discriminate.
  - vm_compute. eauto.
Defined.

(** ** Addresses and sets *)

(** X10. For a cache whose number of sets is a power of two and any 64-bit
    address: [remove_cache_set] and [get_virt_cache_set] split the address,
    [ptr = remove_cache_set(ptr) + 64 * get_virt_cache_set(ptr)]; the set
    index is below [sets]; the address with its set bits removed lies in
    set [0], keeps the offset within the line, and removing the set bits
    again changes nothing. *)
Theorem set_bits_split ctx (m ptr : Z) :
  sets ctx = 2 ^ m → 0 ≤ m ≤ 16 → 0 ≤ ptr < 2 ^ 64 →
  remove_cache_set ctx ptr + CACHELINE_SIZE * get_virt_cache_set ctx ptr = ptr ∧
  0 ≤ get_virt_cache_set ctx ptr < sets ctx ∧
  get_virt_cache_set ctx (remove_cache_set ctx ptr) = 0 ∧
  remove_cache_set ctx ptr mod CACHELINE_SIZE = ptr mod CACHELINE_SIZE ∧
  remove_cache_set ctx (remove_cache_set ctx ptr) = remove_cache_set ctx ptr.
Proof.
  intros Hsets Hm Hptr.
  assert (Hpow : 0 < 2 ^ m) by (apply Z.pow_pos_nonneg; lia).
  assert (Hset : ∀ x, 0 ≤ x < 2 ^ 64 →
    get_virt_cache_set ctx x = (x / CACHELINE_SIZE) mod 2 ^ m).
  { intros x Hx. unfold get_virt_cache_set. rewrite Hsets.
    rewrite <- (Z.mod_small x (2 ^ 64)) at 1 by lia. fold (u64 x).
    by rewrite get_cache_set_helper_pow2 by lia. }
  pose proof (remove_cache_set_pow2 ctx m ptr Hsets Hm Hptr) as Hrm.
  pose proof (Z.mod_pos_bound (ptr / CACHELINE_SIZE) (2 ^ m) Hpow) as Hb.
  pose proof (Z.div_mod ptr CACHELINE_SIZE ltac:(done)) as Hdm.
  pose proof (Z.mod_pos_bound ptr CACHELINE_SIZE ltac:(done)) as Hlow.
  pose proof (Z.div_mod (ptr / CACHELINE_SIZE) (2 ^ m) ltac:(lia)) as Hdm2.
  set (s := (ptr / CACHELINE_SIZE) mod 2 ^ m) in *.
  set (q := ptr / CACHELINE_SIZE / 2 ^ m) in *.
  assert (Hq : 0 ≤ q).
  { unfold q. apply Z.div_pos; [|lia]. apply Z.div_pos; [lia|done]. }
  assert (Hform : remove_cache_set ctx ptr
                  = (2 ^ m * q) * CACHELINE_SIZE + ptr mod CACHELINE_SIZE)
    by (unfold CACHELINE_SIZE in *; lia).
  assert (Hrange : 0 ≤ remove_cache_set ctx ptr < 2 ^ 64)
    by (unfold CACHELINE_SIZE in *; nia).
  assert (Hdiv : remove_cache_set ctx ptr / CACHELINE_SIZE = 2 ^ m * q).
  { rewrite Hform. rewrite Z.add_comm, Z.div_add by done.
    rewrite Z.div_small by lia. lia. }
  assert (Hzero : (remove_cache_set ctx ptr / CACHELINE_SIZE) mod 2 ^ m = 0).
  { rewrite Hdiv, Z.mul_comm. apply Z_mod_mult. }
  split; [rewrite Hset by done; fold s; lia|].
  split; [rewrite Hset, Hsets by done; fold s; lia|].
  split; [by rewrite Hset|].
  split.
  { rewrite Hform, Z.add_comm, Z_mod_plus_full. apply Z.mod_mod. done. }
  rewrite (remove_cache_set_pow2 ctx m (remove_cache_set ctx ptr)) by done.
  rewrite Hzero. lia.
Qed.

Lemma set_bits_split_witness :
  remove_cache_set ctx_L1 8000 + CACHELINE_SIZE * get_virt_cache_set ctx_L1 8000
    = 8000 ∧
  0 ≤ get_virt_cache_set ctx_L1 8000 < sets ctx_L1 ∧
  get_virt_cache_set ctx_L1 (remove_cache_set ctx_L1 8000) = 0 ∧
  remove_cache_set ctx_L1 8000 mod CACHELINE_SIZE = 8000 mod CACHELINE_SIZE ∧
  remove_cache_set ctx_L1 (remove_cache_set ctx_L1 8000)
    = remove_cache_set ctx_L1 8000.
Proof.
  apply (set_bits_split ctx_L1 6 8000).
  - reflexivity.
  - lia.
  - lia.
Defined.

(** X11. [remove_cache_group_set] maps a 64-bit address to the base of its
    page plus its offset within its line; so it maps the address of a line
    to the base of the line's page, the same for all lines of one page. *)
Theorem remove_cache_group_set_spec (ptr : Z) :
  0 ≤ ptr < 2 ^ 64 →
  remove_cache_group_set ptr
    = PAGE_SIZE * (ptr / PAGE_SIZE) + ptr mod CACHELINE_SIZE ∧
  (ptr mod CACHELINE_SIZE = 0 →
   remove_cache_group_set ptr = PAGE_SIZE * (ptr / PAGE_SIZE) ∧
   ∀ i, 0 ≤ i < CACHE_GROUP_SIZE →
     remove_cache_group_set
       (PAGE_SIZE * (ptr / PAGE_SIZE) + i * CACHELINE_SIZE)
     = remove_cache_group_set ptr).
Proof.
  intros Hptr. pose proof (remove_cache_group_set_page ptr Hptr) as Hp.
  split; [done|]. intros Hal. rewrite Hp, Hal, Z.add_0_r. split; [done|].
  intros i Hi. unfold CACHE_GROUP_SIZE, PAGE_SIZE, CACHELINE_SIZE in *.
  change (4096 / 64) with 64 in Hi.
  pose proof (Z.div_mod ptr 4096 ltac:(lia)).
  pose proof (Z.mod_pos_bound ptr 4096 ltac:(lia)).
  rewrite remove_cache_group_set_page by lia.
  unfold PAGE_SIZE, CACHELINE_SIZE.
  rewrite (Z.mul_comm 4096 (ptr / 4096)), Z.div_add_l by lia.
  rewrite (Z.div_small (i * 64)) by lia.
  replace (ptr / 4096 * 4096 + i * 64) with ((ptr / 4096 * 64 + i) * 64) by lia.
  rewrite Z_mod_mult. lia.
Qed.

Lemma remove_cache_group_set_spec_witness :
  remove_cache_group_set 8320
    = PAGE_SIZE * (8320 / PAGE_SIZE) + 8320 mod CACHELINE_SIZE ∧
  (8320 mod CACHELINE_SIZE = 0 →
   remove_cache_group_set 8320 = PAGE_SIZE * (8320 / PAGE_SIZE) ∧
   ∀ i, 0 ≤ i < CACHE_GROUP_SIZE →
     remove_cache_group_set
       (PAGE_SIZE * (8320 / PAGE_SIZE) + i * CACHELINE_SIZE)
     = remove_cache_group_set 8320).
Proof.
  apply (remove_cache_group_set_spec 8320). lia.
Defined.

(** X12. [get_spanned_cache_lines] never returns more than
    [nr_of_cachelines]; for a size below [2 ^ 38 - 63] bytes it returns the
    number of lines that [size] bytes span, rounded up, capped at
    [nr_of_cachelines]; from [2 ^ 38 - 63] bytes on the quotient no longer
    fits the [uint32_t] it is stored in, and [2 ^ 38] bytes count as no
    line at all. *)
Theorem get_spanned_cache_lines_spec ctx (size : Z) :
  0 ≤ nr_of_cachelines ctx → 0 ≤ size < 2 ^ 38 - 63 →
  get_spanned_cache_lines ctx size
    = Z.min ((size + CACHELINE_SIZE - 1) / CACHELINE_SIZE)
            (nr_of_cachelines ctx) ∧
  (get_spanned_cache_lines ctx size < nr_of_cachelines ctx →
   size ≤ CACHELINE_SIZE * get_spanned_cache_lines ctx size < size + CACHELINE_SIZE) ∧
  (∀ size', get_spanned_cache_lines ctx size' ≤ nr_of_cachelines ctx) ∧
  get_spanned_cache_lines ctx (2 ^ 38) = 0.
Proof.
  intros Hnr Hsize.
  assert (Hcap : ∀ size', get_spanned_cache_lines ctx size'
                          ≤ nr_of_cachelines ctx).
  { intros size'. unfold get_spanned_cache_lines. cbv zeta.
    case_decide; lia. }
  assert (Hval : get_spanned_cache_lines ctx size
                 = Z.min ((size + CACHELINE_SIZE - 1) / CACHELINE_SIZE)
                         (nr_of_cachelines ctx)).
  { unfold get_spanned_cache_lines, CACHELINE_SIZE, u64, u32. cbv zeta.
    rewrite (Z.mod_small (size + 64)) by lia.
    rewrite (Z.mod_small (size + 64 - 1)) by lia.
    assert (0 ≤ (size + 64 - 1) / 64 < 2 ^ 32).
    { split; [apply Z.div_pos; lia|].
      apply Z.div_lt_upper_bound; lia. }
    rewrite Z.mod_small by done. case_decide; lia. }
  split; [done|]. split; [|split; [done|]].
  - rewrite Hval. unfold CACHELINE_SIZE. intros Hlt.
    rewrite Z.min_l by lia.
    pose proof (Z.div_mod (size + 64 - 1) 64 ltac:(lia)).
    pose proof (Z.mod_pos_bound (size + 64 - 1) 64 ltac:(lia)). lia.
  - unfold get_spanned_cache_lines. cbv zeta.
    replace (u32 (u64 (u64 (2 ^ 38 + CACHELINE_SIZE) - 1) / CACHELINE_SIZE))
      with 0 by (by vm_compute).
    case_decide; lia.
Qed.

Lemma get_spanned_cache_lines_spec_witness :
  get_spanned_cache_lines ctx_L1 100
    = Z.min ((100 + CACHELINE_SIZE - 1) / CACHELINE_SIZE)
            (nr_of_cachelines ctx_L1) ∧
  (get_spanned_cache_lines ctx_L1 100 < nr_of_cachelines ctx_L1 →
   100 ≤ CACHELINE_SIZE * get_spanned_cache_lines ctx_L1 100
       < 100 + CACHELINE_SIZE) ∧
  (∀ size', get_spanned_cache_lines ctx_L1 size' ≤ nr_of_cachelines ctx_L1) ∧
  get_spanned_cache_lines ctx_L1 (2 ^ 38) = 0.
Proof.
  apply (get_spanned_cache_lines_spec ctx_L1 100).
  - cbn. lia.
  - lia.
Defined.

(** ** util.c *)

Lemma is_in_arr_from_run (elem : Z) (pre mid post : list Z) :
  is_in_arr_from elem (pre ++ mid ++ post)
    (seqZ (Z.of_nat (length pre)) (Z.of_nat (length mid)))
  = Ret (bool_decide (elem ∈ mid)).
Proof.
  revert pre. induction mid as [|a mid IH]; intros pre.
  - cbn [length]. rewrite seqZ_nil by lia. cbn [is_in_arr_from].
    by rewrite bool_decide_eq_false_2 by apply not_elem_of_nil.
  - change ((a :: mid) ++ post) with (a :: mid ++ post). cbn [length].
    rewrite seqZ_cons by lia. cbn [is_in_arr_from].
    rewrite (arr_get_Ret _ _ a)
      by (first [lia | rewrite Nat2Z.id; by apply list_lookup_middle]).
    ret_step. destruct (decide (a = elem)) as [->|Ha].
    + by rewrite bool_decide_eq_true_2 by left.
    + specialize (IH (pre ++ [a])).
      rewrite <- (assoc_L (++)) in IH. cbn [app] in IH.
      rewrite length_app in IH. cbn [length] in IH.
      replace (Z.succ (Z.of_nat (length pre)))
        with (Z.of_nat (length pre + 1)) by lia.
      replace (Z.pred (Z.of_nat (S (length mid))))
        with (Z.of_nat (length mid)) by lia.
      rewrite IH. f_equal. apply bool_decide_ext.
      rewrite elem_of_cons. split; [by right|].
      intros [?|?]; [congruence|done].
Qed.

(** X13. [is_in_arr(elem, arr, arr_len)] with [arr_len] within the array
    tells whether [elem] is among the first [arr_len] elements; in
    particular it is [false] for [arr_len = 0].  When [arr_len] is more than
    the array holds and [elem] is not in the array, it reads past the
    end. *)
Theorem is_in_arr_spec (elem : Z) (arr : list Z) (arr_len : Z) :
  0 ≤ arr_len ≤ Z.of_nat (length arr) →
  is_in_arr elem arr arr_len
    = Ret (bool_decide (elem ∈ take (Z.to_nat arr_len) arr)) ∧
  is_in_arr elem arr 0 = Ret false ∧
  (elem ∉ arr → is_in_arr elem arr (Z.of_nat (length arr) + 1) = Fault).
Proof.
  intros Hlen. split; [|split; [done|]].
  - unfold is_in_arr.
    pose proof (is_in_arr_from_run elem [] (take (Z.to_nat arr_len) arr)
                  (drop (Z.to_nat arr_len) arr)) as Hrun.
    cbn [app length] in Hrun. rewrite take_drop in Hrun.
    rewrite length_take, Nat.min_l, Z2Nat.id in Hrun by lia. exact Hrun.
  - intros Hnot. unfold is_in_arr.
    rewrite seqZ_app, Z.add_0_l by lia.
    pose proof (is_in_arr_from_run elem [] arr []) as Hrun.
    cbn [app length] in Hrun. rewrite app_nil_r in Hrun.
    change (Z.of_nat 0) with 0 in Hrun.
    rewrite bool_decide_eq_false_2 in Hrun by done.
    assert (Happ : ∀ l1 l2, is_in_arr_from elem arr l1 = Ret false →
      is_in_arr_from elem arr (l1 ++ l2) = is_in_arr_from elem arr l2).
    { induction l1 as [|i l1 IH]; intros l2; [done|].
      cbn [app is_in_arr_from].
      destruct (arr_get arr i) as [a| | |]; cbn [mbind result_bind]; try done.
      case_decide; [done|]. apply IH. }
    rewrite Happ by done. rewrite seqZ_cons, seqZ_nil by lia.
    cbn [is_in_arr_from]. unfold arr_get.
    rewrite decide_True by lia.
    by rewrite Nat2Z.id, (lookup_ge_None_2 arr) by lia.
Qed.

Lemma is_in_arr_spec_witness :
  is_in_arr 7 [5; 7; 9] 2 = Ret (bool_decide (7 ∈ take (Z.to_nat 2) [5; 7; 9])) ∧
  is_in_arr 7 [5; 7; 9] 0 = Ret false ∧
  (7 ∉ [5; 7; 9] →
   is_in_arr 7 [5; 7; 9] (Z.of_nat (length [5; 7; 9]) + 1) = Fault).
Proof.
  apply (is_in_arr_spec 7 [5; 7; 9] 2). cbn. lia.
Defined.

Lemma scan_max_run (l : list Z) (i m0 : Z) :
  let r := scan (λ _ a max, if decide (a > max) then a else max) i m0 l in
  m0 ≤ r ∧ (∀ x, x ∈ l → x ≤ r) ∧ (r = m0 ∨ r ∈ l).
Proof.
  revert i m0. induction l as [|a l IH]; intros i m0; cbn [scan].
  - split; [lia|]. split; [|by left]. intros x Hx. by apply elem_of_nil in Hx.
  - destruct (IH (i + 1) (if decide (a > m0) then a else m0))
      as (Hge & Hall & Hin).
    split; [case_decide; lia|]. split.
    + intros x [->|Hx]%elem_of_cons; [case_decide; lia|by apply Hall].
    + destruct Hin as [Heq|Hin]; [|right; by right].
      rewrite Heq. case_decide; [right; left|by left].
Qed.

Lemma minimum_run (l : list Z) :
  (∀ x, x ∈ l → minimum l ≤ x) ∧ (minimum l = UINT32_MAX ∨ minimum l ∈ l).
Proof.
  unfold minimum. induction l as [|a l [IHall IHin]]; cbn [foldr].
  - split; [|by left]. intros x Hx. by apply elem_of_nil in Hx.
  - split.
    + intros x [->|Hx]%elem_of_cons; [lia|]. specialize (IHall x Hx). lia.
    + destruct (Z.min_spec a (foldr Z.min UINT32_MAX l)) as [[_ ->]|[_ ->]].
      * right. left.
      * destruct IHin as [?|?]; [by left|right; by right].
Qed.

(** X14. On an array of [uint32_t] values read in full, [get_min] returns
    a lower and [get_max] an upper bound of all elements, each of them an
    element of the array; on the empty array [get_min] returns
    [UINT32_MAX] and [get_max] returns [0]. *)
Theorem get_min_max_spec (l : list Z) :
  (∀ x, x ∈ l → 0 ≤ x ≤ UINT32_MAX) →
  ∃ lo hi,
    get_min l (Z.of_nat (length l)) = Ret lo ∧
    get_max l (Z.of_nat (length l)) = Ret hi ∧
    (∀ x, x ∈ l → lo ≤ x ≤ hi) ∧
    (l = [] → lo = UINT32_MAX ∧ hi = 0) ∧
    (l ≠ [] → lo ∈ l ∧ hi ∈ l).
Proof.
  intros Hu32.
  pose proof (scan_max_run l 0 0) as (Hge & Hall & Hin). cbv zeta in *.
  destruct (minimum_run l) as [Hmall Hmin].
  eexists (minimum l), _. split; [apply get_min_run|]. split.
  { unfold get_max.
    apply (for_range_scan (λ _ a max, if decide (a > max) then a else max)). }
  split; [|split].
  - intros x Hx. split; [by apply Hmall|by apply Hall].
  - intros ->. done.
  - intros Hne. destruct l as [|a l]; [done|]. split.
    + destruct Hmin as [Heq|?]; [|done].
      assert (a = minimum (a :: l)) as Ha.
      { specialize (Hmall a ltac:(left)). specialize (Hu32 a ltac:(left)). lia. }
      rewrite <- Ha. left.
    + destruct Hin as [Heq|?]; [|done].
      assert (a = scan (λ _ a max, if decide (a > max) then a else max)
                    0 0 (a :: l)) as Ha.
      { specialize (Hall a ltac:(left)). specialize (Hu32 a ltac:(left)). lia. }
      rewrite <- Ha. left.
Qed.

Lemma get_min_max_spec_witness :
  ∃ lo hi,
    get_min [8; 3; 5] (Z.of_nat (length [8; 3; 5])) = Ret lo ∧
    get_max [8; 3; 5] (Z.of_nat (length [8; 3; 5])) = Ret hi ∧
    (∀ x, x ∈ [8; 3; 5] → lo ≤ x ≤ hi) ∧
    ([8; 3; 5] = [] → lo = UINT32_MAX ∧ hi = 0) ∧
    ([8; 3; 5] ≠ [] → lo ∈ [8; 3; 5] ∧ hi ∈ [8; 3; 5]).
Proof.
  apply (get_min_max_spec [8; 3; 5]). intros x Hx.
  repeat (apply elem_of_cons in Hx as [->|Hx]; [vm_compute; split; discriminate|]).
  by apply elem_of_nil in Hx.
Defined.

(** X15. The ends of [random_perm]'s range: with [arr_len = 1] it leaves
    the array as it is and draws no random number; with [arr_len = 0] the
    counter starts at [arr_len - 1 = UINT32_MAX], so the first swap reads
    outside the array, and so does [gen_random_indices]. *)
Theorem random_perm_short rnd (arr : list Z) (k : nat) :
  Z.of_nat (length arr) ≤ UINT32_MAX →
  random_perm rnd arr 1 k = Ret (arr, k) ∧
  random_perm rnd arr 0 k = Fault ∧
  gen_random_indices rnd arr 0 k = Fault.
Proof.
  intros Hlen. unfold UINT32_MAX in Hlen.
  assert (Hzero : random_perm rnd arr 0 k = Fault).
  { unfold random_perm.
    replace (Z.to_nat (u32 (0 - 1))) with (S (Z.to_nat (2 ^ 32 - 2)))
      by (unfold u32; change ((0 - 1) mod 2 ^ 32) with (2 ^ 32 - 1); lia).
    cbn [for_down]. unfold rand. cbv zeta beta iota. unfold swap.
    assert (arr_get arr (Z.of_nat (S (Z.to_nat (2 ^ 32 - 2)))) = Fault) as ->.
    { unfold arr_get. rewrite decide_True by lia.
      by rewrite (lookup_ge_None_2 arr) by lia. }
    done. }
  split; [done|]. split; [done|].
  unfold gen_random_indices, for_range. rewrite seqZ_nil by lia.
  cbn [foldM]. by ret_step.
Qed.

Lemma random_perm_short_witness :
  random_perm rnd_example [4; 5] 1 O = Ret ([4; 5], O) ∧
  random_perm rnd_example [4; 5] 0 O = Fault ∧
  gen_random_indices rnd_example [4; 5] 0 O = Fault.
Proof.
  apply (random_perm_short rnd_example [4; 5] O). vm_compute. discriminate.
Defined.

(** X16. [gen_rand_bytes(arr, arr_len)] with [arr_len] within the array
    draws [arr_len] random numbers, writes the [i]-th of them modulo
    [256], a byte, to cell [i], and leaves the cells from [arr_len] on as
    they were. *)
Theorem gen_rand_bytes_spec rnd (arr : list Z) (arr_len : Z) (k : nat) :
  0 ≤ arr_len ≤ Z.of_nat (length arr) →
  ∃ arr',
    gen_rand_bytes rnd arr arr_len k = Ret (arr', (k + Z.to_nat arr_len)%nat) ∧
    length arr' = length arr ∧
    (∀ i, (i < Z.to_nat arr_len)%nat →
       ∃ b, arr' !! i = Some b ∧ 0 ≤ b < 256 ∧
            b = (rand rnd (k + i)).1 mod 256) ∧
    (∀ i, (Z.to_nat arr_len ≤ i)%nat → arr' !! i = arr !! i).
Proof.
  intros Hlen. unfold gen_rand_bytes, for_range.
  match goal with |- context [foldM ?body ?l ?s0] =>
    destruct (foldM_inv body l
      (λ n '(a, kn),
         kn = (k + n)%nat ∧ length a = length arr ∧
         (∀ i, (i < n)%nat →
            a !! i = Some ((rand rnd (k + i)).1 mod 256)) ∧
         (∀ i, (n ≤ i)%nat → a !! i = arr !! i)) s0)
      as ([arr' k'] & Hrun & Hk & Hl & Hdone & Hrest)
  end.
  - split; [lia|]. split; [done|]. split; [intros; lia|done].
  - intros n x [a kn] Hx (-> & Hl & Hdone & Hrest).
    apply lookup_seqZ in Hx as [-> Hn]. rewrite Z.add_0_l.
    unfold rand at 1. cbv beta iota zeta.
    rewrite arr_set_Ret by lia. ret_step. eexists. split; [reflexivity|].
    cbv beta iota. rewrite length_insert, Nat2Z.id.
    split; [lia|]. split; [done|]. split.
    + intros i Hi. destruct (decide (i = n)) as [->|Hne].
      * by rewrite list_lookup_insert_eq by lia.
      * rewrite list_lookup_insert_ne by lia. apply Hdone. lia.
    + intros i Hi. rewrite list_lookup_insert_ne by lia. apply Hrest. lia.
  - rewrite length_seqZ in Hk, Hdone, Hrest. subst k'.
    exists arr'. split; [exact Hrun|]. split; [done|]. split; [|done].
    intros i Hi. eexists. split; [by apply Hdone|]. split; [|done].
    apply Z.mod_pos_bound. lia.
Qed.

Lemma gen_rand_bytes_spec_witness :
  ∃ arr',
    gen_rand_bytes rnd_example [0; 0; 0] 2 O = Ret (arr', (0 + Z.to_nat 2)%nat) ∧
    length arr' = length [0; 0; 0] ∧
    (∀ i, (i < Z.to_nat 2)%nat →
       ∃ b, arr' !! i = Some b ∧ 0 ≤ b < 256 ∧
            b = (rand rnd_example (0 + i)).1 mod 256) ∧
    (∀ i, (Z.to_nat 2 ≤ i)%nat → arr' !! i = [0; 0; 0] !! i).
Proof.
  apply (gen_rand_bytes_spec rnd_example [0; 0; 0] 2 O). cbn. lia.
Defined.

(** ** Reading the measurements *)

(** X17. [probe_all_cachelines(head)] on a ring: it takes one measurement
    per line, walking against the direction of the ring from the head on,
    and stores the [j]-th measurement in the [j]-th line it visits; it
    returns [head->next]; links, tags and flags stay, and so does every
    line off the ring. *)
Theorem probe_all_cachelines_spec fuel tsc (h : heap) e rest t :
  ring h (e :: rest) → (length rest < fuel)%nat →
  ∃ h',
    probe_all_cachelines fuel tsc h e t
      = Ret (hd e rest, (h', (t + S (length rest))%nat)) ∧
    (∀ j p, (e :: reverse rest) !! j = Some p →
       time_of h' p = Some (u32 (tsc (t + j)%nat))) ∧
    (∀ q, next_of h' q = next_of h q ∧ prev_of h' q = prev_of h q ∧
          tag_of h' q = tag_of h q ∧ flags_of h' q = flags_of h q) ∧
    (∀ q, q ∉ e :: rest → h' !! q = h !! q).
Proof.
  intros Hring Hfuel.
  destruct (probe_all_cachelines_run fuel tsc h e rest t Hring Hfuel)
    as (h' & Hrun & Htime & Hn & Hp & Htag & Hfl & Hframe).
  exists h'. split; [done|]. split; [done|]. split; [|done].
  intros q. by rewrite Hn, Hp, Htag, Hfl.
Qed.

Lemma probe_all_cachelines_spec_witness :
  ∃ h',
    probe_all_cachelines 5 tsc_example heap3 4096 O
      = Ret (hd 4096 [4160; 4224], (h', (0 + S (length [4160; 4224]))%nat)) ∧
    (∀ j p, (4096 :: reverse [4160; 4224]) !! j = Some p →
       time_of h' p = Some (u32 (tsc_example (0 + j)%nat))) ∧
    (∀ q, next_of h' q = next_of heap3 q ∧ prev_of h' q = prev_of heap3 q ∧
          tag_of h' q = tag_of heap3 q ∧ flags_of h' q = flags_of heap3 q) ∧
    (∀ q, q ∉ [4096; 4160; 4224] → h' !! q = heap3 !! q).
Proof.
  apply (probe_all_cachelines_spec 5 tsc_example heap3 4096 [4160; 4224] O).
  - exact ring_heap3.
  - cbn. lia.
Defined.

(** X18. Measuring and reading back: after [probe_all_cachelines(head)] on
    a ring of [n] lines, [get_all_msrmts_in_order(head, res)] with room for
    [n] values puts the measurements into [res] in the order in which they
    were taken, and leaves the cells from [n] on as they were. *)
Theorem probe_all_then_read fuel tsc (h : heap) e rest t (res : list Z) :
  ring h (e :: rest) → (length rest < fuel)%nat →
  (S (length rest) ≤ length res)%nat → Z.of_nat (S (length rest)) < 2 ^ 32 →
  ∃ r h' t' res',
    probe_all_cachelines fuel tsc h e t = Ret (r, (h', t')) ∧
    get_all_msrmts_in_order fuel h' e res = Ret res' ∧
    length res' = length res ∧
    (∀ j, (j < S (length rest))%nat →
       res' !! j = Some (u32 (tsc (t + j)%nat))) ∧
    (∀ j, (S (length rest) ≤ j)%nat → res' !! j = res !! j).
Proof.
  intros Hring Hfuel Hlen Hsmall.
  destruct (probe_all_cachelines_run fuel tsc h e rest t Hring Hfuel)
    as (h' & Hrun & Htime & Hn & Hp & _).
  assert (Hring' : ring h' (e :: rest)).
  { apply (ring_ext_links h); [|done]. intros q _. by rewrite Hn, Hp. }
  destruct (get_all_msrmts_in_order_run fuel h' e rest res Hring' Hfuel
              Hlen Hsmall) as (res' & Hread & Hl & Hvals & Hrest).
  eexists _, h', _, res'. split; [exact Hrun|]. split; [done|].
  split; [done|]. split; [|done]. intros j Hj.
  destruct (lookup_lt_is_Some_2 (e :: reverse rest) j) as [p Hp'];
    [cbn [length]; rewrite length_reverse; lia|].
  rewrite (Hvals j p Hp'). by apply Htime.
Qed.

Lemma probe_all_then_read_witness :
  ∃ r h' t' res',
    probe_all_cachelines 5 tsc_example heap3 4096 O = Ret (r, (h', t')) ∧
    get_all_msrmts_in_order 5 h' 4096 [7; 7; 7; 7] = Ret res' ∧
    length res' = length [7; 7; 7; 7] ∧
    (∀ j, (j < S (length [4160; 4224]))%nat →
       res' !! j = Some (u32 (tsc_example (0 + j)%nat))) ∧
    (∀ j, (S (length [4160; 4224]) ≤ j)%nat → res' !! j = [7; 7; 7; 7] !! j).
Proof.
  apply (probe_all_then_read 5 tsc_example heap3 4096 [4160; 4224] O
           [7; 7; 7; 7]).
  - exact ring_heap3.
  - cbn. lia.
  - cbn. lia.
  - cbn. lia.
Defined.

(** X19. [get_per_set_sum_of_msrmts(head, res)] on a ring whose tags are
    indices of [res]: every cell of [res] grows by the sum of the
    measurements stored in the lines of its set, in [uint32_t]
    arithmetic. *)
Theorem get_per_set_sum_spec fuel (h : heap) e rest (res : list Z) :
  ring h (e :: rest) → (length rest < fuel)%nat →
  (∀ p, p ∈ e :: rest →
     ∃ s, 0 ≤ s < Z.of_nat (length res) ∧ tag_of h p = Some s) →
  (∀ v, v ∈ res → 0 ≤ v < 2 ^ 32) →
  ∃ res',
    get_per_set_sum_of_msrmts fuel h e res = Ret res' ∧
    length res' = length res ∧
    ∀ s v, res !! s = Some v →
      res' !! s = Some (u32 (v + set_time_sum h (Z.of_nat s) (e :: rest))).
Proof. apply get_per_set_sum_run. Qed.

(** ** Flags and the readers that follow them *)

(** The walk of [get_msrmts_for_all_set] and [get_msrmt_for_set]: along
    [prev], once around the ring. *)
Lemma prev_walk {St} fuel (h : heap) e rest
    (body : Z * St → result (Z * St)) (I : nat → St → Prop) (s0 : St) :
  ring h (e :: rest) → (length rest < fuel)%nat → I O s0 →
  (∀ k p c s, (e :: reverse rest) !! k = Some p → h !! p = Some c → I k s →
     ∃ s', body (p, s) = Ret (prev c, s') ∧ I (S k) s') →
  ∃ s',
    do_while fuel body (λ '(curr_cl, _), bool_decide (curr_cl ≠ e)) (e, s0)
      = Ret (e, s') ∧
    I (S (length rest)) s'.
Proof.
  intros Hring Hfuel H0 Hstep.
  pose proof (ring_prev_cycle _ _ _ Hring) as Hchain.
  rewrite chain_lookup in Hchain.
  assert (Hnd : NoDup (e :: reverse rest)).
  { destruct Hring as (_ & Hnd & _). apply NoDup_cons in Hnd as [Hnot Hnd].
    apply NoDup_cons. by rewrite elem_of_reverse, reverse_Permutation. }
  match goal with |- context [do_while fuel ?body ?cond ?s0] =>
    destruct (do_while_along body cond
      (λ k '(curr, s),
         curr = default e ((e :: reverse rest) !! k) ∧ I k s)
      (S (length rest)) fuel s0)
      as ([curr s'] & Hrun & Hcurr & HI)
  end.
  - lia.
  - lia.
  - done.
  - intros k [curr s] Hk [Hcurr HI].
    destruct (lookup_lt_is_Some_2 (e :: reverse rest) k) as [p Hpk];
      [cbn [length]; rewrite length_reverse; lia|].
    rewrite Hpk in Hcurr. change (default e (Some p)) with p in Hcurr.
    subst curr.
    pose proof (Hchain k p Hpk) as Hprev.
    apply prev_of_Some in Hprev as (c & Hc & Hcp).
    destruct (cycle_step e (reverse rest) k Hnd) as (_ & _ & Hcond);
      [rewrite length_reverse; lia|].
    rewrite length_reverse in Hcond.
    destruct (Hstep k p c s Hpk Hc HI) as (s' & Hupd & HI').
    exists (prev c, s'). split; [done|].
    split; [|by rewrite Hcp, Hcond]. by rewrite Hcp.
  - exists s'. split; [|done]. rewrite Hrun. f_equal. f_equal.
    rewrite Hcurr. cbn [lookup list_lookup].
    rewrite (lookup_ge_None_2 (reverse rest)); [done|].
    rewrite length_reverse. lia.
Qed.

Lemma elem_of_take_in {A} (l : list A) k x : x ∈ take k l → x ∈ l.
Proof. intros Hx. rewrite <- (take_drop k l). apply elem_of_app. by left. Qed.

Lemma first_flagged_load (h : heap) p c :
  h !! p = Some c → first_flagged h p ↔ IS_FIRST (flags c) ≠ 0.
Proof.
  intros Hc. unfold first_flagged, flags_of. rewrite Hc. cbn. split.
  - by intros (f & [= <-] & Hf).
  - intros Hf. by exists (flags c).
Qed.

(** [get_msrmts_for_all_set] on a ring in which no set has two lines
    flagged as first. *)
Lemma get_msrmts_for_all_set_run fuel (h : heap) e rest (res : list Z) :
  ring h (e :: rest) → (length rest < fuel)%nat →
  (∀ p, p ∈ e :: rest →
     ∃ s, 0 ≤ s < Z.of_nat (length res) ∧ tag_of h p = Some s) →
  (∀ p q, p ∈ e :: rest → q ∈ e :: rest →
     first_flagged h p → first_flagged h q → tag_of h p = tag_of h q → p = q) →
  ∃ res',
    get_msrmts_for_all_set fuel h e res = Ret res' ∧
    length res' = length res ∧
    (∀ p s, p ∈ e :: rest → first_flagged h p → tag_of h p = Some s →
       res' !! Z.to_nat s = time_of h p) ∧
    (∀ s, (∀ p, p ∈ e :: rest → first_flagged h p →
             tag_of h p ≠ Some (Z.of_nat s)) →
       res' !! s = res !! s).
Proof.
  intros Hring Hfuel Htags Huniq.
  set (V := e :: reverse rest).
  assert (HV : ∀ p, p ∈ V ↔ p ∈ e :: rest).
  { intros p. unfold V. by rewrite !elem_of_cons, elem_of_reverse. }
  unfold get_msrmts_for_all_set.
  match goal with |- context [do_while fuel ?body ?cond ?s0] =>
    destruct (prev_walk fuel h e rest body
      (λ k resk,
         length resk = length res ∧
         (∀ p s, p ∈ take k V → first_flagged h p → tag_of h p = Some s →
            resk !! Z.to_nat s = time_of h p) ∧
         (∀ s, (∀ p, p ∈ take k V → first_flagged h p →
                  tag_of h p ≠ Some (Z.of_nat s)) →
            resk !! s = res !! s)) res Hring Hfuel)
      as (res' & Hrun & Hl & Hdone & Hrest)
  end.
  - split; [done|]. split; [|done]. intros p s Hp. by apply elem_of_nil in Hp.
  - intros k p c resk Hpk Hc (Hl & Hdone & Hrest).
    assert (Hpin : p ∈ e :: rest).
    { apply HV. by eapply list_elem_of_lookup_2. }
    destruct (Htags p Hpin) as (sp & Hsp & Htp).
    assert (Hcs : cache_set c = sp).
    { unfold tag_of in Htp. rewrite Hc in Htp. by injection Htp. }
    assert (Htime : time_of h p = Some (time_msrmt c)).
    { unfold time_of. by rewrite Hc. }
    rewrite (load_Ret _ _ _ Hc). ret_step.
    fold V in Hpk. rewrite (take_S_r _ _ _ Hpk).
    destruct (decide (IS_FIRST (flags c) ≠ 0)) as [Hf|Hf].
    + rewrite arr_set_Ret by lia. ret_step. eexists. split; [done|].
      rewrite length_insert. split; [done|]. split.
      * intros q s [Hq|Hq%list_elem_of_singleton]%elem_of_app Hfq Htq.
        -- assert (Hqin : q ∈ e :: rest)
             by (apply HV; by eapply elem_of_take_in).
           destruct (Htags q Hqin) as (sq & Hsq & Htq').
           assert (s = sq) as -> by congruence.
           destruct (decide (sq = sp)) as [->|Hne].
           ++ assert (q = p) as ->.
              { apply Huniq; [done|done|done| |].
                - by apply (first_flagged_load h p c).
                - by rewrite Htq, Htp. }
              rewrite Hcs, list_lookup_insert_eq by lia. done.
           ++ rewrite list_lookup_insert_ne by (rewrite Hcs; lia).
              by apply Hdone.
        -- subst q. assert (s = sp) as -> by congruence.
           rewrite Hcs, list_lookup_insert_eq by lia. done.
      * intros s Hs. rewrite list_lookup_insert_ne.
        -- apply Hrest. intros q Hq. apply Hs. apply elem_of_app. by left.
        -- intros Heq. apply (Hs p).
           ++ apply elem_of_app. right. by apply list_elem_of_singleton.
           ++ by apply (first_flagged_load h p c).
           ++ rewrite Htp. f_equal. lia.
    + ret_step. eexists. split; [done|]. split; [done|]. split.
      * intros q s [Hq|Hq%list_elem_of_singleton]%elem_of_app Hfq Htq.
        -- by apply Hdone.
        -- subst q. by apply (first_flagged_load h p c) in Hfq.
      * intros s Hs. apply Hrest. intros q Hq. apply Hs.
        apply elem_of_app. by left.
  - exists res'. split; [by rewrite Hrun|]. split; [done|].
    assert (Hall : take (S (length rest)) V = V).
    { apply firstn_all2. unfold V. cbn [length]. rewrite length_reverse. lia. }
    rewrite Hall in Hdone, Hrest. split.
    + intros p s Hp. apply Hdone. by apply HV.
    + intros s Hs. apply Hrest. intros p Hp. apply Hs. by apply HV.
Qed.

(** [get_msrmt_for_set] on a ring in which the set of the head has at most
    one line flagged as first. *)
Lemma get_msrmt_for_set_run fuel (h : heap) e rest (res : Z) :
  ring h (e :: rest) → (length rest < fuel)%nat →
  (∀ p q, p ∈ e :: rest → q ∈ e :: rest →
     first_flagged h p → first_flagged h q →
     tag_of h p = tag_of h e → tag_of h q = tag_of h e → p = q) →
  ∃ res',
    get_msrmt_for_set fuel h e res = Ret res' ∧
    (∀ p, p ∈ e :: rest → first_flagged h p → tag_of h p = tag_of h e →
       time_of h p = Some res') ∧
    ((∀ p, p ∈ e :: rest → first_flagged h p → tag_of h p ≠ tag_of h e) →
     res' = res).
Proof.
  intros Hring Hfuel Huniq.
  set (V := e :: reverse rest).
  assert (HV : ∀ p, p ∈ V ↔ p ∈ e :: rest).
  { intros p. unfold V. by rewrite !elem_of_cons, elem_of_reverse. }
  destruct (ring_lookup h (e :: rest) e Hring) as [ce Hce]; [left|].
  unfold get_msrmt_for_set.
  match goal with |- context [do_while fuel ?body ?cond ?s0] =>
    destruct (prev_walk fuel h e rest body
      (λ k resk,
         (∀ p, p ∈ take k V → first_flagged h p → tag_of h p = tag_of h e →
            time_of h p = Some resk) ∧
         ((∀ p, p ∈ take k V → first_flagged h p → tag_of h p ≠ tag_of h e) →
          resk = res)) res Hring Hfuel)
      as (res' & Hrun & Hdone & Hrest)
  end.
  - split; [|done]. intros p Hp. by apply elem_of_nil in Hp.
  - intros k p c resk Hpk Hc (Hdone & Hrest).
    assert (Hpin : p ∈ e :: rest).
    { apply HV. by eapply list_elem_of_lookup_2. }
    assert (Htag : tag_of h p = tag_of h e ↔ cache_set c = cache_set ce).
    { unfold tag_of. rewrite Hc, Hce. cbn. split; [by intros [= ?]|by intros ->]. }
    assert (Htime : time_of h p = Some (time_msrmt c)).
    { unfold time_of. by rewrite Hc. }
    rewrite (load_Ret _ _ _ Hc). ret_step.
    rewrite (load_Ret _ _ _ Hce). ret_step. cbv zeta.
    fold V in Hpk. rewrite (take_S_r _ _ _ Hpk).
    eexists. split; [done|].
    destruct (decide (cache_set c = cache_set ce ∧ IS_FIRST (flags c) ≠ 0))
      as [[Hs Hf]|Hno].
    + split.
      * intros q [Hq|Hq%list_elem_of_singleton]%elem_of_app Hfq Htq.
        -- assert (q = p) as ->; [|done].
           apply Huniq; [apply HV; by eapply elem_of_take_in|done|done| |done|].
           ++ by apply (first_flagged_load h p c).
           ++ by apply Htag.
        -- by subst q.
      * intros Hnone. exfalso. apply (Hnone p).
        -- apply elem_of_app. right. by apply list_elem_of_singleton.
        -- by apply (first_flagged_load h p c).
        -- by apply Htag.
    + split.
      * intros q [Hq|Hq%list_elem_of_singleton]%elem_of_app Hfq Htq.
        -- by apply Hdone.
        -- subst q. exfalso. apply Hno. split; [by apply Htag|].
           by apply (first_flagged_load h p c).
      * intros Hnone. apply Hrest. intros q Hq. apply Hnone.
        apply elem_of_app. by left.
  - exists res'. split; [by rewrite Hrun|].
    assert (Hall : take (S (length rest)) V = V).
    { apply firstn_all2. unfold V. cbn [length]. rewrite length_reverse. lia. }
    rewrite Hall in Hdone, Hrest. split.
    + intros p Hp. apply Hdone. by apply HV.
    + intros Hnone. apply Hrest. intros p Hp. apply Hnone. by apply HV.
Qed.

Lemma ring_heap_flagged4 : ring heap_flagged4 [4096; 4160; 4224; 4288].
Proof.
  split; [done|]. split; [|by vm_compute].
  apply (bool_decide_unpack _). by vm_compute.
Qed.

Lemma heap_flagged4_first (p : Z) :
  p ∈ [4096; 4160; 4224; 4288] → first_flagged heap_flagged4 p →
  p = 4096 ∨ p = 4224.
Proof.
  intros Hp (f & Hf & Hfirst).
  repeat (apply elem_of_cons in Hp as [->|Hp]);
    [by left| |by right| |by apply elem_of_nil in Hp];
    vm_compute in Hf; injection Hf as <-; by vm_compute in Hfirst.
Qed.

Lemma heap_flagged4_tags (p : Z) :
  p ∈ [4096; 4160; 4224; 4288] →
  ∃ s, 0 ≤ s < Z.of_nat (length [5; 6]) ∧ tag_of heap_flagged4 p = Some s.
Proof.
  intros Hp. repeat (apply elem_of_cons in Hp as [->|Hp]);
    [exists 0|exists 0|exists 1|exists 1|by apply elem_of_nil in Hp];
    (split; [cbn; lia|reflexivity]).
Qed.

(** [get_per_set_sum_of_msrmts] at work on the ring of four lines whose
    times are 11, 12 (set 0) and 13, 14 (set 1): the cells 1 and 2 become
    1 + 23 and 2 + 27. *)
Lemma get_per_set_sum_spec_witness :
  get_per_set_sum_of_msrmts 5 heap_flagged4 4096 [1; 2] = Ret [24; 29] ∧
  set_time_sum heap_flagged4 0 [4096; 4160; 4224; 4288] = 23 ∧
  set_time_sum heap_flagged4 1 [4096; 4160; 4224; 4288] = 27 ∧
  ∃ res',
    get_per_set_sum_of_msrmts 5 heap_flagged4 4096 [1; 2] = Ret res' ∧
    length res' = length [1; 2] ∧
    ∀ s v, [1; 2] !! s = Some v →
      res' !! s
        = Some (u32 (v + set_time_sum heap_flagged4 (Z.of_nat s)
                           [4096; 4160; 4224; 4288])).
Proof.
  split; [by vm_compute|]. split; [by vm_compute|]. split; [by vm_compute|].
  apply (get_per_set_sum_spec 5 heap_flagged4 4096 [4160; 4224; 4288] [1; 2]).
  - exact ring_heap_flagged4.
  - cbn. lia.
  - exact heap_flagged4_tags.
  - intros v Hv.
    repeat (apply elem_of_cons in Hv as [->|Hv]; [lia|]).
    by apply elem_of_nil in Hv.
Defined.

Lemma heap_flagged4_uniq (p q : Z) :
  p ∈ [4096; 4160; 4224; 4288] → q ∈ [4096; 4160; 4224; 4288] →
  first_flagged heap_flagged4 p → first_flagged heap_flagged4 q →
  tag_of heap_flagged4 p = tag_of heap_flagged4 q → p = q.
Proof.
  intros Hp Hq Hfp Hfq.
  destruct (heap_flagged4_first p Hp Hfp) as [->| ->],
    (heap_flagged4_first q Hq Hfq) as [->| ->]; by vm_compute.
Qed.

Lemma heap_flagged4_rot (p : Z) :
  p ∈ [4160; 4224; 4288; 4096] → p ∈ [4096; 4160; 4224; 4288].
Proof.
  intros Hp.
  by rewrite (Permutation_app_comm [4096] [4160; 4224; 4288]).
Qed.

(** X20. [build_cache_ds] on [nr_of_cachelines] different lines of which
    every set owns [associativity]: the ring it leaves is made of one
    segment per set; a segment holds the lines of its set and starts with
    the line that comes first in the array; its last line gets the flags
    [2] (last), its first line the flags [1] (first) unless it is the last
    line too, and the flags of the lines between them stay what they were
    before the call. Every measurement is reset to [0]. *)
Theorem build_cache_ds_flags fuel rnd ctx (h : heap) arr k :
  geometry_ok ctx → alloc_ok ctx h arr →
  (Z.to_nat (nr_of_cachelines ctx) < fuel)%nat →
  ∃ cache_ds h' k' (T : list (list Z)),
    build_cache_ds fuel rnd ctx arr (h, k) = Ret (cache_ds, (h', k')) ∧
    ring h' (mjoin T) ∧ Z.of_nat (length T) = sets ctx ∧
    (∀ R, R ∈ T → ∃ s f l,
       0 ≤ s < sets ctx ∧ R ≡ₚ lines_of_set h s arr ∧
       head R = Some f ∧ head (lines_of_set h s arr) = Some f ∧
       last R = Some l ∧
       flags_of h' l = Some 2 ∧ (f ≠ l → flags_of h' f = Some 1) ∧
       ∀ q, q ∈ R → q ≠ f → q ≠ l → flags_of h' q = flags_of h q) ∧
    (∀ s, 0 ≤ s < sets ctx → ∃ R, R ∈ T ∧ R ≡ₚ lines_of_set h s arr) ∧
    (∀ q, q ∈ arr → time_of h' q = Some 0).
Proof.
  intros Hgeo Halloc Hfuel.
  destruct (build_cache_ds_full fuel rnd ctx h arr k Hgeo Halloc Hfuel)
    as (cache_ds & h' & k' & T & σ & Hrun & Hring & Hhead & Hperm & Htag &
        _ & Hσ & HTlen & HT & Hzero & _).
  destruct Halloc as (_ & _ & _ & Hcnt).
  destruct Hgeo as (Hsets & Hassoc & _).
  assert (Hσin : ∀ i s, σ !! i = Some s → 0 ≤ s < sets ctx).
  { intros i s Hs. apply list_elem_of_lookup_2 in Hs. rewrite Hσ in Hs.
    apply elem_of_seqZ in Hs. lia. }
  exists cache_ds, h', k', T. split; [done|]. split; [done|].
  split; [rewrite HTlen, Hσ, length_seqZ; lia|]. split; [|split; [|done]].
  - intros R [i Hi]%list_elem_of_lookup_1.
    destruct (HT i R Hi) as (s & Hs & HR & HhR & Hflags).
    pose proof (Hσin i s Hs) as Hsr.
    assert (Hlen : Z.of_nat (length R) = associativity ctx).
    { rewrite HR. by apply Hcnt. }
    destruct R as [|f R']; [cbn in Hlen; lia|].
    assert (is_Some (last (f :: R'))) as [l Hl] by (by apply last_is_Some).
    exists s, f, l. split; [done|]. split; [done|]. split; [done|].
    split; [by rewrite <- HhR|]. split; [done|].
    split; [|split].
    + rewrite Hflags by (by apply last_Some_elem_of).
      by rewrite decide_True.
    + intros Hne. rewrite Hflags by left.
      rewrite decide_False by (rewrite Hl; congruence).
      by rewrite decide_True.
    + intros q Hq Hqf Hql. rewrite Hflags by done.
      rewrite decide_False by (rewrite Hl; congruence).
      rewrite decide_False by (cbn; congruence). done.
  - intros s Hs.
    assert (Hin : s ∈ σ) by (rewrite Hσ; apply elem_of_seqZ; lia).
    apply list_elem_of_lookup_1 in Hin as [i Hi].
    destruct (lookup_lt_is_Some_2 T i) as [R HR].
    { rewrite HTlen. by eapply lookup_lt_Some. }
    destruct (HT i R HR) as (s' & Hs' & HRp & _).
    assert (s' = s) as -> by congruence.
    exists R. split; [by eapply list_elem_of_lookup_2|done].
Qed.

Lemma build_cache_ds_flags_witness :
  ∃ cache_ds h' k' (T : list (list Z)),
    build_cache_ds 20 rnd_example ctx_small (block_lines ctx_small 4096)
      (heap_tagged8, O) = Ret (cache_ds, (h', k')) ∧
    ring h' (mjoin T) ∧ Z.of_nat (length T) = sets ctx_small ∧
    (∀ R, R ∈ T → ∃ s f l,
       0 ≤ s < sets ctx_small ∧
       R ≡ₚ lines_of_set heap_tagged8 s (block_lines ctx_small 4096) ∧
       head R = Some f ∧
       head (lines_of_set heap_tagged8 s (block_lines ctx_small 4096))
         = Some f ∧
       last R = Some l ∧
       flags_of h' l = Some 2 ∧ (f ≠ l → flags_of h' f = Some 1) ∧
       ∀ q, q ∈ R → q ≠ f → q ≠ l →
         flags_of h' q = flags_of heap_tagged8 q) ∧
    (∀ s, 0 ≤ s < sets ctx_small →
       ∃ R, R ∈ T ∧
            R ≡ₚ lines_of_set heap_tagged8 s (block_lines ctx_small 4096)) ∧
    (∀ q, q ∈ block_lines ctx_small 4096 → time_of h' q = Some 0).
Proof.
  apply (build_cache_ds_flags 20 rnd_example ctx_small heap_tagged8
           (block_lines ctx_small 4096) O).
  - exact geometry_ok_small.
  - exact alloc_ok_small.
  - vm_compute. lia.
Defined.

(** X21. [get_msrmts_for_all_set(head, res)] on a ring whose tags are
    indices of [res] and in which no set has two lines flagged as first:
    the cell of every set with a line flagged as first receives the
    measurement stored in that line; the cells of the other sets keep
    their value. *)
Theorem get_msrmts_for_all_set_spec fuel (h : heap) e rest (res : list Z) :
  ring h (e :: rest) → (length rest < fuel)%nat →
  (∀ p, p ∈ e :: rest →
     ∃ s, 0 ≤ s < Z.of_nat (length res) ∧ tag_of h p = Some s) →
  (∀ p q, p ∈ e :: rest → q ∈ e :: rest →
     first_flagged h p → first_flagged h q → tag_of h p = tag_of h q → p = q) →
  ∃ res',
    get_msrmts_for_all_set fuel h e res = Ret res' ∧
    length res' = length res ∧
    (∀ p s, p ∈ e :: rest → first_flagged h p → tag_of h p = Some s →
       res' !! Z.to_nat s = time_of h p) ∧
    (∀ s, (∀ p, p ∈ e :: rest → first_flagged h p →
             tag_of h p ≠ Some (Z.of_nat s)) →
       res' !! s = res !! s).
Proof. apply get_msrmts_for_all_set_run. Qed.

Lemma get_msrmts_for_all_set_spec_witness :
  ∃ res',
    get_msrmts_for_all_set 5 heap_flagged4 4096 [5; 6] = Ret res' ∧
    length res' = length [5; 6] ∧
    (∀ p s, p ∈ [4096; 4160; 4224; 4288] → first_flagged heap_flagged4 p →
       tag_of heap_flagged4 p = Some s →
       res' !! Z.to_nat s = time_of heap_flagged4 p) ∧
    (∀ s, (∀ p, p ∈ [4096; 4160; 4224; 4288] →
             first_flagged heap_flagged4 p →
             tag_of heap_flagged4 p ≠ Some (Z.of_nat s)) →
       res' !! s = [5; 6] !! s).
Proof.
  apply (get_msrmts_for_all_set_spec 5 heap_flagged4 4096 [4160; 4224; 4288]
           [5; 6]).
  - exact ring_heap_flagged4.
  - cbn. lia.
  - exact heap_flagged4_tags.
  - exact heap_flagged4_uniq.
Defined.

(** X22. [get_msrmt_for_set(head, res)] on a ring in which the set of
    [head] has at most one line flagged as first: [*res] becomes the
    measurement stored in that line, and keeps its value when the set has
    no such line. *)
Theorem get_msrmt_for_set_spec fuel (h : heap) e rest (res : Z) :
  ring h (e :: rest) → (length rest < fuel)%nat →
  (∀ p q, p ∈ e :: rest → q ∈ e :: rest →
     first_flagged h p → first_flagged h q →
     tag_of h p = tag_of h e → tag_of h q = tag_of h e → p = q) →
  ∃ res',
    get_msrmt_for_set fuel h e res = Ret res' ∧
    (∀ p, p ∈ e :: rest → first_flagged h p → tag_of h p = tag_of h e →
       time_of h p = Some res') ∧
    ((∀ p, p ∈ e :: rest → first_flagged h p → tag_of h p ≠ tag_of h e) →
     res' = res).
Proof. apply get_msrmt_for_set_run. Qed.

Lemma get_msrmt_for_set_spec_witness :
  ∃ res',
    get_msrmt_for_set 5 heap_flagged4 4160 77 = Ret res' ∧
    (∀ p, p ∈ [4160; 4224; 4288; 4096] → first_flagged heap_flagged4 p →
       tag_of heap_flagged4 p = tag_of heap_flagged4 4160 →
       time_of heap_flagged4 p = Some res') ∧
    ((∀ p, p ∈ [4160; 4224; 4288; 4096] → first_flagged heap_flagged4 p →
        tag_of heap_flagged4 p ≠ tag_of heap_flagged4 4160) →
     res' = 77).
Proof.
  apply (get_msrmt_for_set_spec 5 heap_flagged4 4160 [4224; 4288; 4096] 77).
  - apply (ring_rotate heap_flagged4 [4096] [4160; 4224; 4288]).
    exact ring_heap_flagged4.
  - cbn. lia.
  - intros p q Hp Hq Hfp Hfq Htp Htq.
    apply heap_flagged4_uniq;
      [by apply heap_flagged4_rot|by apply heap_flagged4_rot|done|done|congruence].
Defined.


(** ** prepare_cache_set_ds *)

(** [prepare_cache_ds] with what [build_cache_ds] tells about segments and
    flags. *)
Lemma prepare_cache_ds_full fuel rnd ctx (h : heap) arr k :
  geometry_ok ctx → alloc_ok ctx h arr →
  (Z.to_nat (nr_of_cachelines ctx) < fuel)%nat →
  ∃ cache_ds h' k' (T : list (list Z)) (σ : list Z),
    prepare_cache_ds fuel rnd ctx (h, arr) k = Ret (cache_ds, (h', k')) ∧
    ring h' (mjoin T) ∧ head (mjoin T) = Some cache_ds ∧ mjoin T ≡ₚ arr ∧
    (∀ q, tag_of h' q = tag_of h q) ∧
    σ ≡ₚ seqZ 0 (sets ctx) ∧ length T = length σ ∧
    (∀ i R, T !! i = Some R →
       ∃ s, σ !! i = Some s ∧ R ≡ₚ lines_of_set h s arr ∧
            head R = head (lines_of_set h s arr) ∧
            ∀ q, q ∈ R → flags_of h' q =
              if decide (last R = Some q) then Some (SET_LAST DEFAULT_FLAGS)
              else if decide (head R = Some q)
                   then Some (SET_FIRST DEFAULT_FLAGS)
              else flags_of h q).
Proof.
  intros Hgeo Halloc Hfuel.
  destruct (build_cache_ds_full fuel rnd ctx h arr k Hgeo Halloc Hfuel)
    as (cache_ds & h' & k' & T & σ & Hbuild & Hring & Hhead & Hperm & Htag &
        _ & Hσ & HTlen & HT & _).
  destruct (prepare_cache_ds_run fuel rnd ctx h arr k Hgeo Halloc Hfuel)
    as (cache_ds2 & h2 & k2 & l & Hrun & Hsanity & _).
  assert (cache_ds2 = cache_ds ∧ h2 = h' ∧ k2 = k') as (-> & -> & ->).
  { unfold prepare_cache_ds in Hrun. rewrite Hbuild in Hrun.
    rewrite bind_Ret in Hrun. cbn [fst snd] in Hrun.
    destruct (cache_ds_sanity_check fuel ctx h' cache_ds) as [r| | |];
      [|done..].
    rewrite bind_Ret in Hrun.
    destruct (c_assert (bool_decide (r = 0))) as [[]| | |]; [|done..].
    rewrite bind_Ret in Hrun. by injection Hrun as <- <- <-. }
  by exists cache_ds, h', k', T, σ.
Qed.

Lemma NoDup_bounded_length (l : list Z) (n : Z) :
  0 ≤ n → NoDup l → (∀ x, x ∈ l → 0 ≤ x < n) → Z.of_nat (length l) ≤ n.
Proof.
  intros Hn Hnd Hin.
  assert (Hsub : l ⊆+ seqZ 0 n).
  { apply NoDup_submseteq; [done|]. intros x Hx. apply elem_of_seqZ.
    specialize (Hin x Hx). lia. }
  apply submseteq_length in Hsub. rewrite length_seqZ in Hsub. lia.
Qed.

(** The loop that collects the cache groups stays within [cache_groups]
    when that array has a cell for the group of every chosen set. *)
Lemma collect_cache_groups_run (sets_arr : list Z) (groups0 : list Z) :
  Z.of_nat (length groups0) < 2 ^ 32 →
  (∀ s, s ∈ sets_arr →
     0 ≤ s / CACHE_GROUP_SIZE < Z.of_nat (length groups0)) →
  ∃ cg len,
    collect_cache_groups sets_arr (Z.of_nat (length sets_arr)) groups0
      = Ret (cg, len) ∧
    length cg = length groups0 ∧ 0 ≤ len ≤ Z.of_nat (length cg) ∧
    ∀ g, g ∈ take (Z.to_nat len) cg ↔
         ∃ s, s ∈ sets_arr ∧ g = s / CACHE_GROUP_SIZE.
Proof.
  intros Hcap Hgroups. unfold collect_cache_groups, for_range.
  match goal with |- context [foldM ?body ?l ?s0] =>
    destruct (foldM_inv body l
      (λ i '(cg, len),
         length cg = length groups0 ∧ 0 ≤ len ≤ Z.of_nat (length cg) ∧
         NoDup (take (Z.to_nat len) cg) ∧
         ∀ g, g ∈ take (Z.to_nat len) cg ↔
              ∃ s, s ∈ take i sets_arr ∧ g = s / CACHE_GROUP_SIZE) s0)
      as ([cg len] & Hrun & Hl & Hlen & Hnd & Hin)
  end.
  - split; [done|]. split; [lia|]. split; [apply NoDup_nil_2|].
    intros g. cbn. split; [by intros ?%elem_of_nil|].
    by intros (s & ?%elem_of_nil & _).
  - intros i x [cg len] Hx (Hl & Hlen & Hnd & Hin).
    apply lookup_seqZ in Hx as [-> Hi]. rewrite Z.add_0_l.
    destruct (lookup_lt_is_Some_2 sets_arr i) as [s Hs]; [lia|].
    rewrite (arr_get_Ret sets_arr _ s) by (first [lia|by rewrite Nat2Z.id]).
    ret_step. unfold is_in_arr.
    pose proof (is_in_arr_from_run (s / CACHE_GROUP_SIZE) []
                  (take (Z.to_nat len) cg) (drop (Z.to_nat len) cg)) as Hfind.
    rewrite take_drop in Hfind. cbn [app length] in Hfind.
    rewrite length_take in Hfind.
    replace (Z.of_nat (Z.to_nat len `min` length cg)) with len in Hfind by lia.
    change (Z.of_nat 0) with 0 in Hfind. rewrite Hfind. ret_step.
    rewrite (take_S_r _ _ _ Hs).
    assert (Hsin : s ∈ sets_arr) by (by eapply list_elem_of_lookup_2).
    destruct (decide (s / CACHE_GROUP_SIZE ∈ take (Z.to_nat len) cg))
      as [Hfound|Hnew].
    + rewrite bool_decide_eq_true_2 by done.
      eexists. split; [done|]. split; [done|]. split; [done|].
      split; [done|]. intros g. rewrite Hin. split.
      * intros (s' & Hs' & ->). exists s'. split; [|done].
        apply elem_of_app. by left.
      * intros (s' & [Hs'|Hs'%list_elem_of_singleton]%elem_of_app & ->).
        -- by exists s'.
        -- subst s'. by apply Hin.
    + rewrite bool_decide_eq_false_2 by done. ret_step.
      assert (Hnd' : NoDup (take (Z.to_nat len) cg ++ [s / CACHE_GROUP_SIZE])).
      { apply NoDup_app. split; [done|]. split; [|apply NoDup_singleton].
        intros g Hg ->%list_elem_of_singleton. done. }
      assert (Hfit : len < Z.of_nat (length cg)).
      { pose proof (NoDup_bounded_length _ (Z.of_nat (length groups0))
                      (Nat2Z.is_nonneg _) Hnd') as Hb.
        rewrite length_app, length_take in Hb. cbn [length] in Hb.
        rewrite Hl. enough (Z.of_nat (Z.to_nat len `min` length cg + 1)
                            ≤ Z.of_nat (length groups0)) by lia.
        apply Hb. intros g [Hg| ->%list_elem_of_singleton]%elem_of_app.
        - apply Hin in Hg as (s' & Hs' & ->). apply Hgroups.
          by eapply elem_of_take_in.
        - by apply Hgroups. }
      rewrite arr_set_Ret by lia. ret_step.
      assert (Hu : u32 (len + 1) = len + 1)
        by (unfold u32; apply Z.mod_small; lia).
      rewrite Hu.
      assert (Htake : take (Z.to_nat (len + 1))
                        (<[Z.to_nat len := s / CACHE_GROUP_SIZE]> cg)
                      = take (Z.to_nat len) cg ++ [s / CACHE_GROUP_SIZE]).
      { replace (Z.to_nat (len + 1)) with (S (Z.to_nat len)) by lia.
        erewrite take_S_r; [|apply list_lookup_insert_eq; lia].
        by rewrite take_insert_ge by lia. }
      eexists. split; [done|]. cbv beta iota. rewrite length_insert, Htake.
      split; [done|]. split; [lia|]. split; [done|].
      intros g. rewrite elem_of_app, Hin, list_elem_of_singleton. split.
      * intros [(s' & Hs' & ->)| ->].
        -- exists s'. split; [|done]. apply elem_of_app. by left.
        -- exists s. split; [|done]. apply elem_of_app. right.
           by apply list_elem_of_singleton.
      * intros (s' & [Hs'|Hs'%list_elem_of_singleton]%elem_of_app & ->).
        -- left. by exists s'.
        -- subst s'. by right.
  - exists cg, len. rewrite length_seqZ, Nat2Z.id, firstn_all in Hin.
    rewrite Hrun. done.
Qed.

(** ** Segments of a ring *)

Lemma join_lookup_split (T : list (list Z)) i R :
  T !! i = Some R → mjoin T = mjoin (take i T) ++ R ++ mjoin (drop (S i) T).
Proof.
  intros Hi. rewrite <- (take_drop_middle T i R Hi) at 1.
  by rewrite join_app.
Qed.

Lemma segment_of_ring (h : heap) (T : list (list Z)) i R :
  ring h (mjoin T) → T !! i = Some R → R ≠ [] → segment h R.
Proof.
  intros (_ & Hnd & Hn & Hp) Hi HR.
  rewrite (join_lookup_split T i R Hi) in Hnd, Hn, Hp.
  split; [done|]. split; [|split].
  - apply NoDup_app in Hnd as (_ & _ & Hnd). by apply NoDup_app in Hnd as (? & _).
  - apply chain_app in Hn as [_ Hn]. apply chain_app in Hn as [Hn _]. eauto.
  - rewrite !reverse_app, <- (assoc_L (++)) in Hp.
    apply chain_app in Hp as [_ Hp]. apply chain_app in Hp as [Hp _]. eauto.
Qed.

(** Segments relinked so that the last line of each and the first line of
    the next one point to each other, cyclically, form a ring. *)
Lemma ring_join_segments (h2 h3 : heap) (T : list (list Z)) :
  T ≠ [] → NoDup (mjoin T) → (∀ i R, T !! i = Some R → segment h2 R) →
  (∀ i R q, T !! i = Some R → q ∈ R → last R ≠ Some q →
     next_of h3 q = next_of h2 q) →
  (∀ i R q, T !! i = Some R → q ∈ R → head R ≠ Some q →
     prev_of h3 q = prev_of h2 q) →
  (∀ i R R' l f, T !! i = Some R → T !! S i = Some R' →
     last R = Some l → head R' = Some f →
     next_of h3 l = Some f ∧ prev_of h3 f = Some l) →
  (∀ R R' l f, last T = Some R → head T = Some R' →
     last R = Some l → head R' = Some f →
     next_of h3 l = Some f ∧ prev_of h3 f = Some l) →
  ring h3 (mjoin T).
Proof.
  intros HT Hnd Hsegs Hnext Hprev Hmid Hwrap.
  assert (Hne : ∀ R, R ∈ T → R ≠ []).
  { intros R [i Hi]%list_elem_of_lookup_1. apply (Hsegs i R Hi). }
  destruct T as [|R0 T'] eqn:HTeq; [done|]. rewrite <- HTeq in *.
  assert (HR0 : T !! O = Some R0) by (by rewrite HTeq).
  assert (HR0ne : R0 ≠ []) by (apply Hne; rewrite HTeq; left).
  destruct R0 as [|f0 R0']; [done|].
  assert (Hhd : ∀ z, hd z (mjoin T) = f0) by (by rewrite HTeq).
  assert (HlastT : is_Some (last T)) by (by apply last_is_Some).
  destruct HlastT as [Rl HRl].
  assert (HRlne : Rl ≠ []) by (by apply Hne, last_Some_elem_of).
  apply last_is_Some in HRlne as [ll Hll].
  assert (Hlastj : last (mjoin T) = Some ll) by (by rewrite (last_join T Rl)).
  destruct (Hwrap Rl (f0 :: R0') ll f0) as [Hw1 Hw2];
    [done|by rewrite HTeq|done|done|].
  split; [|split; [done|split]].
  - rewrite HTeq. done.
  - rewrite Hhd. apply chain_join; [done|]. intros i R Hi.
    destruct (Hsegs i R Hi) as (HRne & HRnd & [z HRn] & _).
    eapply chain_redirect; [exact HRnd|exact HRn| |].
    + intros q Hq Hlast. by apply (Hnext i R q).
    + intros q Hlast. destruct (T !! S i) as [R'|] eqn:HSi.
      * assert (R' ≠ []) by (apply Hne; by eapply list_elem_of_lookup_2).
        destruct R' as [|f R']; [done|].
        by apply (Hmid i R (f :: R') q f).
      * apply lookup_ge_None in HSi. apply lookup_lt_Some in Hi as Hlt.
        assert (Rl = R) as ->.
        { rewrite last_lookup in HRl.
          replace (pred (length T)) with i in HRl by lia. congruence. }
        by assert (q = ll) as -> by congruence.
  - rewrite hd_default, head_reverse, Hlastj. cbn [default].
    apply chain_join_rev; [done|]. intros i R Hi.
    destruct (Hsegs i R Hi) as (HRne & HRnd & _ & [z HRp]).
    eapply chain_redirect; [|exact HRp| |].
    + by rewrite reverse_Permutation.
    + intros q Hq Hlast. rewrite last_reverse in Hlast.
      rewrite elem_of_reverse in Hq. by apply (Hprev i R q).
    + intros q Hlast. rewrite last_reverse in Hlast. destruct i as [|i'].
      * assert (R = f0 :: R0') as -> by congruence.
        by assert (q = f0) as -> by (by injection Hlast).
      * assert (Hi' : is_Some (T !! i')).
        { apply lookup_lt_is_Some. apply lookup_lt_Some in Hi. lia. }
        destruct Hi' as [Rp HRp']. rewrite HRp'.
        change (default [] (Some Rp)) with Rp.
        assert (Rp ≠ []) by (apply Hne; by eapply list_elem_of_lookup_2).
        destruct (last Rp) as [l|] eqn:Hl; [|by apply last_None in Hl].
        by apply (Hmid i' Rp R l q).
Qed.

(** ** The walk that notes the first and the last line of every set *)

Lemma last_flagged_load (h : heap) p c :
  h !! p = Some c → last_flagged h p ↔ IS_LAST (flags c) ≠ 0.
Proof.
  intros Hc. unfold last_flagged, flags_of. rewrite Hc. cbn. split.
  - by intros (f & [= <-] & Hf).
  - intros Hf. by exists (flags c).
Qed.

(** One visit of the walk, for one of the two arrays: [pick] is [head] or
    [last], and [b] tells whether the visited line [p] is the picked line
    of its segment. *)
Lemma mark_step (T : list (list Z)) (σ V : list Z) k p
    (pick : list Z → option Z) (arr : list Z) (b : bool) i R s :
  NoDup σ → NoDup (mjoin T) → (∀ s, s ∈ σ → 0 ≤ s) →
  (∀ R f, pick R = Some f → f ∈ R) →
  V !! k = Some p → T !! i = Some R → σ !! i = Some s → p ∈ R →
  (Z.to_nat s < length arr)%nat →
  (b = true ↔ pick R = Some p) →
  (∀ i R s f, T !! i = Some R → σ !! i = Some s → pick R = Some f →
     f ∈ take k V → arr !! Z.to_nat s = Some f) →
  ∀ i' R' s' f, T !! i' = Some R' → σ !! i' = Some s' → pick R' = Some f →
    f ∈ take (S k) V →
    (if b then <[Z.to_nat s := p]> arr else arr) !! Z.to_nat s' = Some f.
Proof.
  intros Hσ Hnd Hpos Hpick Hk Hi Hs Hp Hlen Hb Hinv i' R' s' f Hi' Hs' Hf Hin.
  rewrite (take_S_r _ _ _ Hk) in Hin.
  assert (Hsame : f = p → i' = i).
  { intros ->. apply (join_disjoint T i' i R' R p Hnd Hi' Hi); [|done].
    by apply Hpick. }
  destruct b.
  - destruct (decide (i' = i)) as [->|Hne].
    + assert (R' = R) as -> by congruence.
      assert (s' = s) as -> by congruence.
      rewrite list_lookup_insert_eq by done.
      destruct Hb as [Hb _]. rewrite Hb in Hf by done. done.
    + rewrite list_lookup_insert_ne.
      * apply (Hinv i' R' s' f Hi' Hs' Hf).
        apply elem_of_app in Hin as [Hin|Hin%list_elem_of_singleton]; [done|].
        by apply Hsame in Hin.
      * intros Heq. apply Hne.
        assert (s = s').
        { pose proof (Hpos s) as H1. pose proof (Hpos s') as H2.
          assert (0 ≤ s) by (apply H1; by eapply list_elem_of_lookup_2).
          assert (0 ≤ s') by (apply H2; by eapply list_elem_of_lookup_2).
          lia. }
        subst s'. by apply (NoDup_lookup σ i' i s).
  - apply (Hinv i' R' s' f Hi' Hs' Hf).
    apply elem_of_app in Hin as [Hin|Hin%list_elem_of_singleton]; [done|].
    subst f. pose proof (Hsame eq_refl) as ->.
    assert (R' = R) as -> by congruence.
    destruct Hb as [_ Hb]. by specialize (Hb Hf).
Qed.

(** [extract_sets] for an addressing that is not physical, on a ring made
    of one segment per set in which exactly the first line of a segment is
    flagged as first and exactly the last one as last: the memory stays,
    and the arrays hold the first and the last line of every segment. *)
Lemma extract_sets_run fuel ctx cg len (h : heap) (T : list (list Z))
    (σ : list Z) e rest :
  addressing ctx ≠ PHYSICAL → mjoin T = e :: rest → ring h (mjoin T) →
  (length rest < fuel)%nat → NoDup σ → (∀ s, s ∈ σ → 0 ≤ s < sets ctx) →
  (∀ i R, T !! i = Some R →
     ∃ s, σ !! i = Some s ∧
          ∀ p, p ∈ R → tag_of h p = Some s ∧
                       (first_flagged h p ↔ head R = Some p) ∧
                       (last_flagged h p ↔ last R = Some p)) →
  ∃ fa la,
    extract_sets fuel ctx cg len e h (replicate (Z.to_nat (sets ctx)) NULL)
      (replicate (Z.to_nat (sets ctx)) NULL) = Ret (e, h, fa, la, NULL) ∧
    length fa = Z.to_nat (sets ctx) ∧ length la = Z.to_nat (sets ctx) ∧
    ∀ i R s f, T !! i = Some R → σ !! i = Some s →
      (head R = Some f → fa !! Z.to_nat s = Some f) ∧
      (last R = Some f → la !! Z.to_nat s = Some f).
Proof.
  intros Hvirt HV Hring Hfuel Hσ Hσr HT.
  assert (Hndj : NoDup (mjoin T)) by apply Hring.
  rewrite HV in Hring.
  pose proof (ring_next_cycle _ _ _ Hring) as Hchain.
  pose proof Hring as (_ & Hnd & _).
  rewrite chain_lookup in Hchain.
  assert (Hσpos : ∀ s, s ∈ σ → 0 ≤ s) by (intros s Hs; apply Hσr in Hs; lia).
  assert (Hseg : ∀ p, p ∈ e :: rest → ∃ i R, T !! i = Some R ∧ p ∈ R).
  { intros p Hp. rewrite <- HV in Hp.
    apply list_elem_of_join in Hp as (R & Hp & [i Hi]%list_elem_of_lookup_1).
    eauto. }
  unfold extract_sets.
  match goal with |- context [do_while fuel ?body ?cond ?s0] =>
    destruct (do_while_along body cond
      (λ k '(curr, hk, fa, la, to_del),
         curr = default e ((e :: rest) !! k) ∧ hk = h ∧ to_del = NULL ∧
         length fa = Z.to_nat (sets ctx) ∧
         length la = Z.to_nat (sets ctx) ∧
         (∀ i R s f, T !! i = Some R → σ !! i = Some s → head R = Some f →
            f ∈ take k (e :: rest) → fa !! Z.to_nat s = Some f) ∧
         (∀ i R s f, T !! i = Some R → σ !! i = Some s → last R = Some f →
            f ∈ take k (e :: rest) → la !! Z.to_nat s = Some f))
      (S (length rest)) fuel s0)
      as ([[[[curr hk] fa] la] to_del] & Hrun & Hcurr & -> & -> & Hlf &
          Hll & Hfirst & Hlast)
  end.
  - lia.
  - lia.
  - split; [done|]. split; [done|]. split; [done|].
    rewrite length_replicate. split; [done|]. split; [done|].
    split; intros i R s f _ _ _ Hf; by apply elem_of_nil in Hf.
  - intros k [[[[curr hk] fa] la] to_del] Hk
      (Hcurr & -> & -> & Hlf & Hll & Hfirst & Hlast).
    destruct (lookup_lt_is_Some_2 (e :: rest) k) as [p Hp];
      [cbn [length]; lia|].
    rewrite Hp in Hcurr. change (default e (Some p)) with p in Hcurr.
    subst curr.
    pose proof (Hchain k p Hp) as Hnext.
    destruct (cycle_step e rest k Hnd Hk) as (_ & _ & Hcond).
    apply next_of_Some in Hnext as (c & Hc & Hnc).
    assert (Hpin : p ∈ e :: rest) by (by eapply list_elem_of_lookup_2).
    destruct (Hseg p Hpin) as (i & R & Hi & HpR).
    destruct (HT i R Hi) as (s & Hs & Hfacts).
    destruct (Hfacts p HpR) as (Htag & Hff & Hlf').
    assert (Hsr : 0 ≤ s < sets ctx).
    { apply Hσr. by eapply list_elem_of_lookup_2. }
    assert (Hcs : cache_set c = s).
    { unfold tag_of in Htag. rewrite Hc in Htag. by injection Htag. }
    rewrite (first_flagged_load h p c Hc) in Hff.
    rewrite (last_flagged_load h p c Hc) in Hlf'.
    set (bf := bool_decide (IS_FIRST (flags c) ≠ 0)).
    set (bl := bool_decide (IS_LAST (flags c) ≠ 0)).
    exists (next c, h, (if bf then <[Z.to_nat s := p]> fa else fa),
            (if bl then <[Z.to_nat s := p]> la else la), NULL).
    split.
    { rewrite (load_Ret _ _ _ Hc). ret_step. cbv zeta. rewrite Hcs.
      unfold bf, bl.
      destruct (decide (IS_FIRST (flags c) ≠ 0)) as [Hf|Hf]; cbv beta iota;
        [rewrite bool_decide_eq_true_2 by done;
         rewrite (arr_set_Ret fa) by lia
        |rewrite bool_decide_eq_false_2 by done]; ret_step;
      (destruct (decide (IS_LAST (flags c) ≠ 0)) as [Hl|Hl]; cbv beta iota;
        [rewrite bool_decide_eq_true_2 by done;
         rewrite (arr_set_Ret la) by lia
        |rewrite bool_decide_eq_false_2 by done]; ret_step;
       rewrite decide_False by done; by repeat ret_step). }
    split; [|by rewrite Hnc, Hcond].
    split; [by rewrite Hnc|]. split; [done|]. split; [done|].
    split; [by destruct bf; rewrite ?length_insert|].
    split; [by destruct bl; rewrite ?length_insert|].
    split.
    + apply (mark_step T σ (e :: rest) k p head fa bf i R s); try done.
      * intros R' f. apply head_Some_elem_of.
      * lia.
      * unfold bf. rewrite bool_decide_eq_true. by rewrite Hff.
    + apply (mark_step T σ (e :: rest) k p last la bl i R s); try done.
      * intros R' f. apply last_Some_elem_of.
      * lia.
      * unfold bl. rewrite bool_decide_eq_true. by rewrite Hlf'.
  - rewrite (lookup_ge_None_2 (e :: rest)) in Hcurr by (cbn [length]; lia).
    change (default e None) with e in Hcurr. subst curr.
    exists fa, la. split; [exact Hrun|]. split; [done|]. split; [done|].
    rewrite firstn_all2 in Hfirst, Hlast by (cbn [length]; lia).
    intros i R s f Hi Hs. split; intros Hf.
    + apply (Hfirst i R s f Hi Hs Hf). rewrite <- HV.
      apply list_elem_of_join. exists R.
      split; [by apply head_Some_elem_of|by eapply list_elem_of_lookup_2].
    + apply (Hlast i R s f Hi Hs Hf). rewrite <- HV.
      apply list_elem_of_join. exists R.
      split; [by apply last_Some_elem_of|by eapply list_elem_of_lookup_2].
Qed.

(** ** Linking the chosen sets *)

Lemma segment_in_heap (h : heap) R q : segment h R → q ∈ R → is_Some (tag_of h q).
Proof.
  intros (_ & _ & [z Hn] & _) Hq.
  destruct (chain_is_Some _ _ _ _ Hn Hq) as [x Hx].
  apply next_of_Some in Hx as (c & Hc & _).
  apply tag_of_is_Some. eauto.
Qed.

(** [fix_partial_ds] on the segments [T'] of the chosen sets, whose first
    and last lines the arrays hold: the segments become one ring, in the
    order of [sets]. *)
Lemma fix_partial_ds_run (h2 : heap) (sets_arr fa la : list Z)
    (T' : list (list Z)) :
  sets_arr ≠ [] → Z.of_nat (length sets_arr) < 2 ^ 32 →
  length T' = length sets_arr → NoDup (mjoin T') →
  (∀ i R, T' !! i = Some R → segment h2 R) →
  (∀ i s R, sets_arr !! i = Some s → T' !! i = Some R →
     0 ≤ s ∧ ∃ f l, head R = Some f ∧ last R = Some l ∧
                    fa !! Z.to_nat s = Some f ∧ la !! Z.to_nat s = Some l) →
  ∃ h3,
    fix_partial_ds sets_arr (Z.of_nat (length sets_arr)) fa la h2 = Ret h3 ∧
    ring h3 (mjoin T') ∧ (∀ q, tag_of h3 q = tag_of h2 q) ∧
    (∀ q, flags_of h3 q = flags_of h2 q) ∧ (∀ q, time_of h3 q = time_of h2 q).
Proof.
  intros Hne Hsmall HlenT Hnd Hsegs Harr.
  assert (Hm : 1 ≤ Z.of_nat (length sets_arr))
    by (destruct sets_arr; [done|cbn; lia]).
  set (m := Z.of_nat (length sets_arr)) in *.
  set (Fi := λ i : nat, hd 0 (default [] (T' !! i))).
  set (Li := λ i : nat, default 0 (last (default [] (T' !! i)))).
  set (nxt := λ i : nat, Z.to_nat ((Z.of_nat i + 1) mod m)).
  assert (HFi : ∀ i R f, T' !! i = Some R → head R = Some f → Fi i = f).
  { intros i R f Hi Hf. unfold Fi. rewrite Hi.
    change (default [] (Some R)) with R. by rewrite hd_default, Hf. }
  assert (HLi : ∀ i R l, T' !! i = Some R → last R = Some l → Li i = l).
  { intros i R l Hi Hl. unfold Li. rewrite Hi.
    change (default [] (Some R)) with R. by rewrite Hl. }
  assert (Hblk : ∀ i, (i < length T')%nat →
    ∃ R s, T' !! i = Some R ∧ sets_arr !! i = Some s ∧ 0 ≤ s ∧
           head R = Some (Fi i) ∧ last R = Some (Li i) ∧
           fa !! Z.to_nat s = Some (Fi i) ∧ la !! Z.to_nat s = Some (Li i)).
  { intros i Hi. destruct (lookup_lt_is_Some_2 T' i Hi) as [R HR].
    destruct (lookup_lt_is_Some_2 sets_arr i) as [s Hs]; [lia|].
    destruct (Harr i s R Hs HR) as (Hs0 & f & l & Hf & Hl & Hfa & Hla).
    exists R, s.
    rewrite (HFi i _ f HR Hf), (HLi i _ l HR Hl). done. }
  assert (HinjF : ∀ i1 i2, (i1 < length T')%nat → (i2 < length T')%nat →
    Fi i1 = Fi i2 → i1 = i2).
  { intros i1 i2 H1 H2 Heq.
    destruct (Hblk i1 H1) as (R1 & ? & HR1 & _ & _ & Hh1 & _).
    destruct (Hblk i2 H2) as (R2 & ? & HR2 & _ & _ & Hh2 & _).
    apply (join_disjoint T' i1 i2 R1 R2 (Fi i1) Hnd HR1 HR2).
    - by apply head_Some_elem_of.
    - rewrite Heq. by apply head_Some_elem_of. }
  assert (HinjL : ∀ i1 i2, (i1 < length T')%nat → (i2 < length T')%nat →
    Li i1 = Li i2 → i1 = i2).
  { intros i1 i2 H1 H2 Heq.
    destruct (Hblk i1 H1) as (R1 & ? & HR1 & _ & _ & _ & Hl1 & _).
    destruct (Hblk i2 H2) as (R2 & ? & HR2 & _ & _ & _ & Hl2 & _).
    apply (join_disjoint T' i1 i2 R1 R2 (Li i1) Hnd HR1 HR2).
    - by apply last_Some_elem_of.
    - rewrite Heq. by apply last_Some_elem_of. }
  assert (Hnxt : ∀ i, (i < length T')%nat →
    (S i < length T' ∧ nxt i = S i)%nat ∨ (S i = length T' ∧ nxt i = O)).
  { intros i Hi. unfold nxt. destruct (decide (S i < length T')%nat).
    - left. rewrite Z.mod_small by lia. lia.
    - right. replace (Z.of_nat i + 1) with m by lia.
      rewrite Z_mod_same_full. lia. }
  unfold fix_partial_ds, for_range. fold m.
  match goal with |- context [foldM ?body ?l ?s0] =>
    destruct (foldM_inv body l
      (λ i hi,
         (∀ i', (i' < i)%nat →
            next_of hi (Li i') = Some (Fi (nxt i')) ∧
            prev_of hi (Fi (nxt i')) = Some (Li i')) ∧
         (∀ q, (∀ i', (i' < i)%nat → q ≠ Li i') →
            next_of hi q = next_of h2 q) ∧
         (∀ q, (∀ i', (i' < i)%nat → q ≠ Fi (nxt i')) →
            prev_of hi q = prev_of h2 q) ∧
         (∀ q, tag_of hi q = tag_of h2 q) ∧
         (∀ q, flags_of hi q = flags_of h2 q) ∧
         (∀ q, time_of hi q = time_of h2 q)) s0)
      as (h3 & Hrun & HI)
  end.
  - split; [intros; lia|]. done.
  - intros i x hi Hx (Hdone & Hn & Hp & Htag & Hfl & Htm).
    apply lookup_seqZ in Hx as [-> Hi]. rewrite Z.add_0_l.
    assert (Hi' : (i < length T')%nat) by lia.
    assert (Hni : (nxt i < length T')%nat) by (destruct (Hnxt i Hi'); lia).
    destruct (Hblk i Hi') as (R & s & HR & Hs & Hs0 & Hh & Hl & _ & Hla).
    destruct (Hblk (nxt i) Hni) as (R' & s' & HR' & Hs' & Hs0' & Hh' & _ & Hfa' & _).
    assert (Hidx : Z.of_nat (nxt i) = u32 (Z.of_nat i + 1) mod m).
    { unfold nxt, u32. rewrite (Z.mod_small (Z.of_nat i + 1) (2 ^ 32)) by lia.
      rewrite Z2Nat.id; [done|]. apply Z.mod_pos_bound. lia. }
    rewrite (arr_get_Ret sets_arr (Z.of_nat i) s)
      by (first [lia|by rewrite Nat2Z.id]).
    ret_step.
    rewrite (arr_get_Ret la s (Li i)) by done. ret_step.
    rewrite <- Hidx.
    rewrite (arr_get_Ret sets_arr (Z.of_nat (nxt i)) s')
      by (first [lia|by rewrite Nat2Z.id]).
    ret_step.
    rewrite (arr_get_Ret fa s' (Fi (nxt i))) by done. ret_step.
    destruct (store_next_run hi (Li i) (Fi (nxt i)))
      as (h' & -> & Hn1 & Hp1 & Ht1 & Hf1 & Hm1).
    { rewrite Htag. apply (segment_in_heap h2 R); [by eapply Hsegs|].
      by apply last_Some_elem_of. }
    ret_step.
    destruct (store_prev_run h' (Fi (nxt i)) (Li i))
      as (h'' & -> & Hn2 & Hp2 & Ht2 & Hf2 & Hm2).
    { rewrite Ht1, Htag. apply (segment_in_heap h2 R'); [by eapply Hsegs|].
      by apply head_Some_elem_of. }
    assert (HneF : ∀ i', (i' < i)%nat → Fi (nxt i) ≠ Fi (nxt i')).
    { intros i' Hlt Heq. apply HinjF in Heq; [| done |].
      - destruct (Hnxt i Hi'), (Hnxt i'); lia.
      - destruct (Hnxt i'); lia. }
    assert (HneL : ∀ i', (i' < i)%nat → Li i ≠ Li i').
    { intros i' Hlt Heq. apply HinjL in Heq; lia. }
    exists h''. split; [done|].
    split; [|split; [|split; [|split; [|split]]]].
    + intros i' Hlt. rewrite Hn2, Hn1, Hp2, Hp1.
      destruct (decide (i' = i)) as [->|Hne'].
      * by rewrite !decide_True.
      * rewrite !decide_False; [apply Hdone; lia| |].
        -- intros Heq. symmetry in Heq. revert Heq. apply HneF. lia.
        -- intros Heq. symmetry in Heq. revert Heq. apply HneL. lia.
    + intros q Hq. rewrite Hn2, Hn1.
      rewrite decide_False by (apply Hq; lia). apply Hn.
      intros i' Hlt. apply Hq. lia.
    + intros q Hq. rewrite Hp2, Hp1.
      rewrite decide_False by (apply Hq; lia). apply Hp.
      intros i' Hlt. apply Hq. lia.
    + intros q. by rewrite Ht2, Ht1.
    + intros q. by rewrite Hf2, Hf1.
    + intros q. by rewrite Hm2, Hm1.
  - destruct HI as (Hdone & Hn & Hp & Htag & Hfl & Htm).
    rewrite length_seqZ in Hdone, Hn, Hp.
    replace (Z.to_nat m) with (length T') in Hdone, Hn, Hp by lia.
    exists h3. split; [exact Hrun|]. split; [|done].
    apply (ring_join_segments h2 h3 T').
    + intros ->. cbn in HlenT. lia.
    + done.
    + done.
    + intros i R q Hi Hq Hlast. apply Hn. intros i' Hlt ->.
      destruct (Hblk i') as (R1 & ? & HR1 & _ & _ & _ & Hl1 & _); [lia|].
      assert (i' = i) as ->.
      { apply (join_disjoint T' i' i R1 R (Li i') Hnd HR1 Hi); [|done].
        by apply last_Some_elem_of. }
      congruence.
    + intros i R q Hi Hq Hhead. apply Hp. intros i' Hlt ->.
      assert (Hni : (nxt i' < length T')%nat) by (destruct (Hnxt i'); lia).
      destruct (Hblk (nxt i') Hni) as (R1 & ? & HR1 & _ & _ & Hh1 & _).
      assert (nxt i' = i) as Heq.
      { apply (join_disjoint T' (nxt i') i R1 R (Fi (nxt i')) Hnd HR1 Hi);
          [|done].
        by apply head_Some_elem_of. }
      rewrite Heq in *. congruence.
    + intros i R R' l f Hi HSi Hl Hf.
      apply lookup_lt_Some in HSi as Hlt.
      destruct (Hdone i) as [Hd1 Hd2]; [lia|].
      destruct (Hnxt i) as [[_ Hnx]|[? _]]; [lia| |lia].
      rewrite Hnx in Hd1, Hd2.
      by rewrite (HFi _ _ _ HSi Hf), (HLi _ _ _ Hi Hl) in Hd1, Hd2.
    + intros R R' l f HlastT HheadT Hl Hf.
      rewrite last_lookup in HlastT. rewrite head_lookup in HheadT.
      destruct (Hdone (pred (length T'))) as [Hd1 Hd2]; [lia|].
      destruct (Hnxt (pred (length T'))) as [[? _]|[_ Hnx]]; [lia|lia|].
      rewrite Hnx in Hd1, Hd2.
      by rewrite (HFi _ _ _ HheadT Hf), (HLi _ _ _ HlastT Hl) in Hd1, Hd2.
Qed.

(** ** prepare_cache_set_ds, virtual addressing *)

Lemma head_last_distinct (R : list Z) p :
  NoDup R → (2 ≤ length R)%nat → head R = Some p → last R = Some p → False.
Proof.
  intros Hnd Hlen Hh Hl. destruct R as [|x [|y R]]; [done|cbn in Hlen; lia|].
  injection Hh as ->. rewrite last_cons_cons in Hl.
  apply NoDup_cons in Hnd as [Hnot _]. apply Hnot.
  by apply last_Some_elem_of.
Qed.

Lemma NoDup_lines_of_sets (h : heap) (ss : list Z) (arr : list Z) :
  NoDup ss → NoDup arr →
  NoDup (mjoin ((λ s, lines_of_set h s arr) <$> ss)).
Proof.
  intros Hss Harr. induction Hss as [|s ss Hs Hss IH]; [apply NoDup_nil_2|].
  cbn [fmap list_fmap mjoin list_join]. apply NoDup_app.
  split; [by apply NoDup_filter|]. split; [|done].
  intros q Hq (R & HqR & HR)%list_elem_of_join.
  apply list_elem_of_fmap in HR as (s' & -> & Hs').
  by rewrite (lines_of_set_disjoint _ _ _ _ _ Hq HqR) in Hs.
Qed.

Lemma Forall2_choice {A B} (P : A → B → Prop) (l : list A) :
  (∀ x, x ∈ l → ∃ y, P x y) → ∃ l', Forall2 P l l'.
Proof.
  induction l as [|x l IH]; intros H; [by exists []|].
  destruct (H x) as [y Hy]; [left|].
  destruct IH as [l' Hl']; [intros x' Hx'; apply H; by right|].
  exists (y :: l'). by constructor.
Qed.

(** [prepare_cache_set_ds] with virtual addressing, when each set has at
    least two lines, no line came with the first or the last mark set,
    the chosen sets are sets of the cache, all different, and
    [cache_groups] has a cell for the group of each of them: the lines of
    the chosen sets become one ring, set after set in the order of [sets],
    and the line returned is the first line of the first chosen set. *)
Lemma prepare_cache_set_ds_run fuel rnd malloc_ok (groups0 : list Z) ctx
    (h : heap) arr (B : gmap Z Z) (sets_arr : list Z) k :
  geometry_ok ctx → addressing ctx = VIRTUAL → alloc_ok ctx h arr →
  2 ≤ associativity ctx →
  (∀ p, p ∈ arr → ∃ f, flags_of h p = Some f ∧ IS_FIRST f = 0 ∧ IS_LAST f = 0) →
  (Z.to_nat (nr_of_cachelines ctx) < fuel)%nat →
  sets_arr ≠ [] → NoDup sets_arr → (∀ s, s ∈ sets_arr → 0 ≤ s < sets ctx) →
  Z.of_nat (length groups0) = sets ctx / CACHE_GROUP_SIZE →
  (∀ s, s ∈ sets_arr → s / CACHE_GROUP_SIZE < sets ctx / CACHE_GROUP_SIZE) →
  ∃ cache_set_ds h' k' (T' : list (list Z)),
    prepare_cache_set_ds fuel rnd true true true malloc_ok groups0 ctx
      (h, arr) B sets_arr (Z.of_nat (length sets_arr)) k
      = Ret (cache_set_ds, ({| cells := h'; blocks := B |}, k')) ∧
    ring h' (mjoin T') ∧ head (mjoin T') = Some cache_set_ds ∧
    Forall2 (λ s R, R ≡ₚ lines_of_set h s arr ∧
                    head R = head (lines_of_set h s arr)) sets_arr T' ∧
    (∀ q, tag_of h' q = tag_of h q).
Proof.
  intros Hgeo Hvirt Halloc Hassoc2 Hclean Hfuel Hne Hnd Hrange Hcap Hfit.
  destruct (prepare_cache_ds_full fuel rnd ctx h arr k Hgeo Halloc Hfuel)
    as (cache_ds & h2 & k2 & T & σ & Hprep & Hring & Hhead & Hperm & Htag &
        Hσ & HTlen & HT).
  pose proof Hgeo as (Hsets & Hassoc & Hnr).
  pose proof Halloc as (Hlen & Harrnd & Htags & Hcnt).
  assert (Hσnd : NoDup σ) by (rewrite Hσ; apply NoDup_seqZ).
  assert (Hσr : ∀ s, s ∈ σ → 0 ≤ s < sets ctx).
  { intros s Hs. rewrite Hσ in Hs. apply elem_of_seqZ in Hs. lia. }
  assert (HsetsZ : 0 ≤ sets ctx / CACHE_GROUP_SIZE ≤ 65535).
  { unfold CACHE_GROUP_SIZE, PAGE_SIZE, CACHELINE_SIZE.
    change (4096 / 64) with 64. split; [apply Z.div_pos; lia|].
    apply Z.div_le_upper_bound; lia. }
  destruct (collect_cache_groups_run sets_arr groups0)
    as (cg & len & Hcoll & _); [lia| |].
  { intros s Hs. rewrite Hcap. split; [|by apply Hfit].
    apply Z.div_pos; [apply Hrange in Hs; lia|done]. }
  (* the segments *)
  assert (HTfacts : ∀ i R, T !! i = Some R →
    ∃ s, σ !! i = Some s ∧ R ≡ₚ lines_of_set h s arr ∧
         head R = head (lines_of_set h s arr) ∧ NoDup R ∧
         Z.of_nat (length R) = associativity ctx ∧
         ∀ p, p ∈ R → tag_of h2 p = Some s ∧
                      (first_flagged h2 p ↔ head R = Some p) ∧
                      (last_flagged h2 p ↔ last R = Some p)).
  { intros i R Hi. destruct (HT i R Hi) as (s & Hs & HR & HhR & Hflags).
    assert (Hsr : 0 ≤ s < sets ctx)
      by (apply Hσr; by eapply list_elem_of_lookup_2).
    assert (HRnd : NoDup R) by (rewrite HR; by apply NoDup_filter).
    assert (HRlen : Z.of_nat (length R) = associativity ctx)
      by (rewrite HR; by apply Hcnt).
    exists s. split; [done|]. split; [done|]. split; [done|].
    split; [done|]. split; [done|].
    intros p Hp. pose proof Hp as Hp'. rewrite HR in Hp'.
    apply lines_of_set_elem in Hp' as [Htp Hparr].
    split; [by rewrite Htag|].
    destruct (Hclean p Hparr) as (f & Hf & Hf1 & Hf2).
    unfold first_flagged, last_flagged. rewrite (Hflags p Hp).
    destruct (decide (last R = Some p)) as [Hl|Hl].
    - split.
      + split; [by intros (? & [= <-] & ?)|].
        intros Hh. exfalso. apply (head_last_distinct R p); [done|lia|done|done].
      + split; [done|]. intros _. by eexists.
    - destruct (decide (head R = Some p)) as [Hh|Hh].
      + split; [split; [done|]; intros _; by eexists|].
        split; [by intros (? & [= <-] & ?)|done].
      + rewrite Hf. split; (split; [intros (? & [= <-] & ?); congruence|done]). }
  apply head_Some in Hhead as Hrest. destruct Hrest as [rest HV].
  assert (Hrestlen : Z.of_nat (length rest) < nr_of_cachelines ctx).
  { rewrite <- Hlen, <- Hperm, HV. cbn [length]. lia. }
  destruct (extract_sets_run fuel ctx cg len h2 T σ cache_ds rest)
    as (fa & la & Hext & Hfa & Hla & Harrs);
    [by rewrite Hvirt|done|done|lia|done|done| |].
  { intros i R Hi. destruct (HTfacts i R Hi) as (s & Hs & _ & _ & _ & _ & Hf).
    by exists s. }
  (* the segments of the chosen sets *)
  destruct (Forall2_choice
              (λ s R, ∃ i, σ !! i = Some s ∧ T !! i = Some R) sets_arr)
    as [T' HT'].
  { intros s Hs. assert (Hin : s ∈ σ).
    { rewrite Hσ. apply elem_of_seqZ. apply Hrange in Hs. lia. }
    apply list_elem_of_lookup_1 in Hin as [i Hi].
    destruct (lookup_lt_is_Some_2 T i) as [R HR].
    { rewrite HTlen. by eapply lookup_lt_Some. }
    eauto. }
  assert (HT'len : length T' = length sets_arr)
    by (symmetry; by eapply Forall2_length).
  assert (HT'at : ∀ i s R, sets_arr !! i = Some s → T' !! i = Some R →
    ∃ j, σ !! j = Some s ∧ T !! j = Some R).
  { intros i s R Hs HR. by eapply (Forall2_lookup_lr _ _ _ _ _ _ HT'). }
  assert (Hspec : Forall2 (λ s R, R ≡ₚ lines_of_set h s arr ∧
                    head R = head (lines_of_set h s arr)) sets_arr T').
  { eapply Forall2_impl; [exact HT'|]. intros s R (j & Hj & HR).
    destruct (HTfacts j R HR) as (s' & Hs' & Hp & Hh & _).
    assert (s' = s) as -> by congruence. done. }
  assert (HT'nd : NoDup (mjoin T')).
  { rewrite (join_Permutation_pointwise T'
               ((λ s, lines_of_set h s arr) <$> sets_arr)).
    - by apply NoDup_lines_of_sets.
    - apply Forall2_fmap_r, Forall2_flip.
      eapply Forall2_impl; [exact Hspec|]. by intros s R [? _]. }
  assert (Hsmall : Z.of_nat (length sets_arr) < 2 ^ 32).
  { pose proof (NoDup_bounded_length sets_arr (sets ctx)) as Hb.
    assert (Z.of_nat (length sets_arr) ≤ sets ctx) by (apply Hb; [lia|done..]).
    lia. }
  destruct (fix_partial_ds_run h2 sets_arr fa la T')
    as (h3 & Hfix & Hring3 & Htag3 & _); [done|done|done|done| | |].
  { intros i R Hi.
    destruct (lookup_lt_is_Some_2 sets_arr i) as [s Hs].
    { rewrite <- HT'len. by eapply lookup_lt_Some. }
    destruct (HT'at i s R Hs Hi) as (j & Hj & HR).
    apply (segment_of_ring h2 T j R); [done|done|].
    destruct (HTfacts j R HR) as (_ & _ & _ & _ & _ & HRlen & _).
    intros ->. cbn in HRlen. lia. }
  { intros i s R Hs Hi. destruct (HT'at i s R Hs Hi) as (j & Hj & HR).
    split; [apply Hrange; by eapply list_elem_of_lookup_2|].
    destruct (HTfacts j R HR) as (_ & _ & _ & _ & _ & HRlen & _).
    destruct R as [|f R']; [cbn in HRlen; lia|].
    assert (is_Some (last (f :: R'))) as [l Hl] by (by apply last_is_Some).
    exists f, l. split; [done|]. split; [done|].
    destruct (Harrs j (f :: R') s f HR Hj) as [Hf1 _].
    destruct (Harrs j (f :: R') s l HR Hj) as [_ Hl2].
    split; [by apply Hf1|by apply Hl2]. }
  (* the result *)
  destruct sets_arr as [|s0 sets_rest] eqn:Hsa; [done|]. rewrite <- Hsa in *.
  assert (Hs0 : sets_arr !! O = Some s0) by (by rewrite Hsa).
  destruct (lookup_lt_is_Some_2 T' O) as [R0 HR0].
  { rewrite HT'len, Hsa. cbn. lia. }
  destruct (HT'at O s0 R0 Hs0 HR0) as (j0 & Hj0 & HRj0).
  destruct (HTfacts j0 R0 HRj0) as (_ & _ & _ & _ & _ & HR0len & _).
  destruct R0 as [|f0 R0']; [cbn in HR0len; lia|].
  destruct (Harrs j0 (f0 :: R0') s0 f0 HRj0 Hj0) as [Hf0 _].
  specialize (Hf0 eq_refl).
  assert (Hs0r : 0 ≤ s0 < sets ctx).
  { apply Hrange. by eapply list_elem_of_lookup_2. }
  exists f0, h3, k2, T'.
  split; [|split; [done|split; [by eapply head_join|split; [done|]]]].
  - unfold prepare_cache_set_ds. rewrite Hprep. ret_step. cbv zeta.
    cbn [c_assert]. repeat ret_step. rewrite Hcoll. ret_step.
    rewrite Hext. ret_step. rewrite Hfix. ret_step.
    rewrite (arr_get_Ret sets_arr 0 s0) by done. ret_step.
    rewrite (arr_get_Ret fa s0 f0) by (first [lia|done]). ret_step.
    rewrite decide_False by (rewrite Hvirt; done). by ret_step.
  - intros q. by rewrite Htag3, Htag.
Qed.


Lemma foldM_preserves {A St} (body : A → St → result St) (P : St → Prop)
    (l : list A) (s s' : St) :
  (∀ x s s', body x s = Ret s' → P s → P s') →
  P s → foldM body l s = Ret s' → P s'.
Proof.
  intros Hbody. revert s. induction l as [|x l IH]; intros s Hs Hrun.
  - cbn in Hrun. by injection Hrun as <-.
  - cbn [foldM] in Hrun. destruct (body x s) as [s1| | |] eqn:Hx; [|done..].
    rewrite bind_Ret in Hrun. apply (IH s1); [|done]. by eapply Hbody.
Qed.

(** [allocate_cache_ds] with virtual addressing writes tags only. *)
Lemma allocate_virtual_flags ctx cl_arr (h h' : heap) arr :
  allocate_cache_ds_virtual ctx cl_arr h = Ret (h', arr) →
  ∀ q, flags_of h' q = flags_of h q.
Proof.
  unfold allocate_cache_ds_virtual. intros Hrun.
  destruct (c_assert (bool_decide (cl_arr ≠ NULL))) as [[]| | |]; [|done..].
  rewrite bind_Ret in Hrun. unfold for_range in Hrun.
  refine (foldM_preserves _ (λ st, ∀ q, flags_of st.1 q = flags_of h q)
            _ _ (h', arr) _ _ Hrun); [|done].
  intros i [hi ai] [hj aj] Hbody Hinv q. cbn [fst] in *. cbv zeta in Hbody.
  unfold store_cache_set in Hbody.
  destruct (load hi (cl_arr + i * CACHELINE_SIZE)) as [c| | |] eqn:Hc;
    [|done..].
  rewrite !bind_Ret in Hbody. injection Hbody as <- <-.
  apply load_inv in Hc. rewrite <- Hinv. unfold flags_of.
  destruct (decide (q = cl_arr + i * CACHELINE_SIZE)) as [->|Hne].
  - by rewrite lookup_insert_eq, Hc.
  - by rewrite lookup_insert_ne.
Qed.

Lemma geometry_ok_sets64 : geometry_ok ctx_sets64.
Proof. repeat split; cbn; lia. Qed.

Lemma heap_tagged128_tags (i : Z) :
  0 ≤ i < nr_of_cachelines ctx_sets64 →
  tag_of heap_tagged128 (4096 + i * CACHELINE_SIZE) =
    Some ((4096 / CACHELINE_SIZE + i) mod sets ctx_sets64).
Proof.
  intros Hi.
  assert (Hall : Forall (λ i, tag_of heap_tagged128 (4096 + i * 64)
                              = Some ((64 + i) mod 64)) (seqZ 0 128)).
  { apply (bool_decide_unpack _). by vm_compute. }
  rewrite Forall_forall in Hall. apply Hall, elem_of_seqZ. cbn in Hi. lia.
Qed.

Lemma alloc_ok_sets64 :
  alloc_ok ctx_sets64 heap_tagged128 (block_lines ctx_sets64 4096).
Proof.
  apply (allocate_virtual_alloc_ok ctx_sets64 6 4096 heap_tagged128
           heap_tagged128).
  - exact geometry_ok_sets64.
  - reflexivity.
  - exact heap_tagged128_tags.
Qed.

Lemma heap_tagged128_clean (p : Z) :
  p ∈ block_lines ctx_sets64 4096 →
  ∃ f, flags_of heap_tagged128 p = Some f ∧ IS_FIRST f = 0 ∧ IS_LAST f = 0.
Proof.
  intros Hp. exists 0.
  assert (Hall : Forall (λ p, flags_of heap_tagged128 p = Some 0)
                   (block_lines ctx_sets64 4096)).
  { apply (bool_decide_unpack _). by vm_compute. }
  rewrite Forall_forall in Hall. split; [by apply Hall|done].
Qed.

Lemma heap_block128_clean (i : Z) :
  0 ≤ i < nr_of_cachelines ctx_sets64 →
  ∃ c, heap_block128 !! (4096 + i * CACHELINE_SIZE) = Some c ∧
       IS_FIRST (flags c) = 0 ∧ IS_LAST (flags c) = 0.
Proof.
  intros Hi. exists (mk_line 7 9 99).
  assert (Hall : Forall (λ i, heap_block128 !! (4096 + i * 64)
                              = Some (mk_line 7 9 99)) (seqZ 0 128)).
  { apply Forall_forall. intros j Hj%elem_of_seqZ. unfold heap_block128.
    apply elem_of_list_to_map.
    - rewrite <- list_fmap_compose. apply NoDup_fmap_2_strong; [|apply NoDup_seqZ].
      cbn. intros x y _ _ Heq. lia.
    - apply list_elem_of_fmap. exists j. split; [done|]. apply elem_of_seqZ. lia. }
  rewrite Forall_forall in Hall. split; [|done].
  apply Hall, elem_of_seqZ. cbn in Hi. lia.
Qed.

(** X23. [prepare_cache_set_ds] with virtual addressing, when every set
    has at least two lines, no line came with the first or the last mark
    in its flags, the chosen sets are sets of the cache and all different,
    and [cache_groups] has a cell for the cache group of each of them: it
    returns, for every random sequence; the lines of the chosen sets form
    one ring, set after set in the order of [sets], each set starting with
    the line that comes first in the array; the line returned is the
    first line of that ring, and no tag changes. *)
Theorem prepare_cache_set_ds_virtual fuel rnd malloc_ok (groups0 : list Z) ctx
    (h : heap) arr (B : gmap Z Z) (sets_arr : list Z) k :
  geometry_ok ctx → addressing ctx = VIRTUAL → alloc_ok ctx h arr →
  2 ≤ associativity ctx →
  (∀ p, p ∈ arr → ∃ f, flags_of h p = Some f ∧ IS_FIRST f = 0 ∧ IS_LAST f = 0) →
  (Z.to_nat (nr_of_cachelines ctx) < fuel)%nat →
  sets_arr ≠ [] → NoDup sets_arr → (∀ s, s ∈ sets_arr → 0 ≤ s < sets ctx) →
  Z.of_nat (length groups0) = sets ctx / CACHE_GROUP_SIZE →
  (∀ s, s ∈ sets_arr → s / CACHE_GROUP_SIZE < sets ctx / CACHE_GROUP_SIZE) →
  ∃ cache_set_ds h' k' (T' : list (list Z)),
    prepare_cache_set_ds fuel rnd true true true malloc_ok groups0 ctx
      (h, arr) B sets_arr (Z.of_nat (length sets_arr)) k
      = Ret (cache_set_ds, ({| cells := h'; blocks := B |}, k')) ∧
    ring h' (mjoin T') ∧ head (mjoin T') = Some cache_set_ds ∧
    Forall2 (λ s R, R ≡ₚ lines_of_set h s arr ∧
                    head R = head (lines_of_set h s arr)) sets_arr T' ∧
    (∀ q, tag_of h' q = tag_of h q).
Proof. apply prepare_cache_set_ds_run. Qed.

Lemma prepare_cache_set_ds_virtual_witness :
  ∃ cache_set_ds h' k' (T' : list (list Z)),
    prepare_cache_set_ds 200 rnd_example true true true true [0] ctx_sets64
      (heap_tagged128, block_lines ctx_sets64 4096) ∅ [5; 3]
      (Z.of_nat (length [5; 3])) O
      = Ret (cache_set_ds, ({| cells := h'; blocks := ∅ |}, k')) ∧
    ring h' (mjoin T') ∧ head (mjoin T') = Some cache_set_ds ∧
    Forall2 (λ s R,
               R ≡ₚ lines_of_set heap_tagged128 s (block_lines ctx_sets64 4096) ∧
               head R = head (lines_of_set heap_tagged128 s
                                (block_lines ctx_sets64 4096))) [5; 3] T' ∧
    (∀ q, tag_of h' q = tag_of heap_tagged128 q).
Proof.
  apply (prepare_cache_set_ds_virtual 200 rnd_example true [0] ctx_sets64
           heap_tagged128 (block_lines ctx_sets64 4096) ∅ [5; 3] O).
  - exact geometry_ok_sets64.
  - reflexivity.
  - exact alloc_ok_sets64.
  - cbn. lia.
  - exact heap_tagged128_clean.
  - cbn. lia.
  - done.
  - apply (bool_decide_unpack _). by vm_compute.
  - intros s Hs.
    repeat (apply elem_of_cons in Hs as [->|Hs]; [cbn; lia|]).
    by apply elem_of_nil in Hs.
  - reflexivity.
  - intros s Hs.
    repeat (apply elem_of_cons in Hs as [->|Hs]; [by vm_compute|]).
    by apply elem_of_nil in Hs.
Defined.

(** X24. Virtual addressing, chosen sets, from allocation to release: on
    a block at [cl_arr] aligned to the size of one way whose lines come
    without the first or the last mark, [prepare_cache_set_ds] returns
    the line [cl_arr + sets[0] * 64], so the address
    [release_cache_set_ds] hands to [free], that line with its set bits
    cleared, is the base of the block: the whole block is freed, the
    lines of the sets not chosen included, and no other. *)
Theorem virtual_set_ds_prepare_release fuel rnd ctx (m : Z) cl_arr (h : heap)
    (B : gmap Z Z) sz malloc_ok (groups0 sets_arr : list Z) k :
  geometry_ok ctx → addressing ctx = VIRTUAL → sets ctx = 2 ^ m → 0 ≤ m ≤ 16 →
  2 ≤ associativity ctx →
  0 < cl_arr → cl_arr mod (sets ctx * CACHELINE_SIZE) = 0 →
  cl_arr + nr_of_cachelines ctx * CACHELINE_SIZE ≤ 2 ^ 64 →
  (∀ i, 0 ≤ i < nr_of_cachelines ctx →
     ∃ c, h !! (cl_arr + i * CACHELINE_SIZE) = Some c ∧
          IS_FIRST (flags c) = 0 ∧ IS_LAST (flags c) = 0) →
  (Z.to_nat (nr_of_cachelines ctx) < fuel)%nat →
  sets_arr ≠ [] → NoDup sets_arr → (∀ s, s ∈ sets_arr → 0 ≤ s < sets ctx) →
  Z.of_nat (length groups0) = sets ctx / CACHE_GROUP_SIZE →
  (∀ s, s ∈ sets_arr → s / CACHE_GROUP_SIZE < sets ctx / CACHE_GROUP_SIZE) →
  B !! cl_arr = Some sz →
  ∃ h0 cache_set_ds h' k' s0,
    allocate_cache_ds_virtual ctx cl_arr h = Ret (h0, block_lines ctx cl_arr) ∧
    prepare_cache_set_ds fuel rnd true true true malloc_ok groups0 ctx
      (h0, block_lines ctx cl_arr) B sets_arr (Z.of_nat (length sets_arr)) k
      = Ret (cache_set_ds, ({| cells := h'; blocks := B |}, k')) ∧
    head sets_arr = Some s0 ∧ cache_set_ds = cl_arr + s0 * CACHELINE_SIZE ∧
    release_cache_set_ds fuel malloc_ok ctx cache_set_ds
      {| cells := h'; blocks := B |}
      = Ret {| cells := filter (λ kv, ¬ (cl_arr ≤ kv.1 < cl_arr + sz)) h';
               blocks := delete cl_arr B |}.
Proof.
  intros Hgeo Hvirt Hsets Hm Hassoc2 Hpos Halign Hfit Hdom Hfuel Hne Hnd
    Hrange Hcap Hgroups HB.
  pose proof Hgeo as (Hs & Ha & Hnr).
  destruct (allocate_virtual_run ctx m cl_arr h)
    as (h0 & Halloc & Htag & _); [done|done|nia|done|done| |].
  { intros i Hi. destruct (Hdom i Hi) as (c & -> & _). eauto. }
  pose proof (allocate_virtual_flags _ _ _ _ _ Halloc) as Hflags.
  pose proof (allocate_virtual_alloc_ok ctx m cl_arr h h0 Hgeo Hsets Htag)
    as Hok.
  destruct (prepare_cache_set_ds_run fuel rnd malloc_ok groups0 ctx h0
              (block_lines ctx cl_arr) B sets_arr k)
    as (cache_set_ds & h' & k' & T' & Hrun & _ & Hhead & Hspec & _);
    try done.
  { intros p (i & -> & Hi%elem_of_seqZ)%list_elem_of_fmap. rewrite Hflags.
    destruct (Hdom i) as (c & Hc & Hf1 & Hf2); [lia|].
    exists (flags c). unfold flags_of. by rewrite Hc. }
  destruct sets_arr as [|s0 sets_rest]; [done|].
  apply Forall2_cons_inv_l in Hspec as (R0 & T'' & [HR0 Hh0] & _ & ->).
  assert (Hs0 : 0 ≤ s0 < sets ctx) by (apply Hrange; left).
  rewrite (block_first_of_set ctx cl_arr h0 s0) in Hh0
    by (first [done | lia]).
  assert (cache_set_ds = cl_arr + s0 * CACHELINE_SIZE) as ->.
  { destruct R0 as [|f R0']; [done|]. cbn in Hhead, Hh0. congruence. }
  assert (Hrm : remove_cache_set ctx (cl_arr + s0 * CACHELINE_SIZE) = cl_arr).
  { apply (remove_cache_set_first ctx m); try done.
    unfold CACHELINE_SIZE in *. nia. }
  exists h0, (cl_arr + s0 * CACHELINE_SIZE), h', k', s0.
  split; [done|]. split; [done|]. split; [done|]. split; [done|].
  unfold release_cache_set_ds. rewrite decide_True by done.
  rewrite Hrm. unfold free.
  rewrite decide_False by (unfold NULL; lia). cbn [blocks cells].
  by rewrite HB.
Qed.

Lemma virtual_set_ds_prepare_release_witness :
  ∃ h0 cache_set_ds h' k' s0,
    allocate_cache_ds_virtual ctx_sets64 4096 heap_block128
      = Ret (h0, block_lines ctx_sets64 4096) ∧
    prepare_cache_set_ds 200 rnd_example true true true true [0] ctx_sets64
      (h0, block_lines ctx_sets64 4096) {[ 4096 := 8192 ]} [5; 3]
      (Z.of_nat (length [5; 3])) O
      = Ret (cache_set_ds,
             ({| cells := h'; blocks := {[ 4096 := 8192 ]} |}, k')) ∧
    head [5; 3] = Some s0 ∧ cache_set_ds = 4096 + s0 * CACHELINE_SIZE ∧
    release_cache_set_ds 200 true ctx_sets64 cache_set_ds
      {| cells := h'; blocks := {[ 4096 := 8192 ]} |}
      = Ret {| cells := filter (λ kv, ¬ (4096 ≤ kv.1 < 4096 + 8192)) h';
               blocks := delete 4096 {[ 4096 := 8192 ]} |}.
Proof.
  apply (virtual_set_ds_prepare_release 200 rnd_example ctx_sets64 6 4096
           heap_block128 {[ 4096 := 8192 ]} 8192 true [0] [5; 3] O).
  - exact geometry_ok_sets64.
  - reflexivity.
  - reflexivity.
  - lia.
  - cbn. lia.
  - lia.
  - reflexivity.
  - by vm_compute.
  - exact heap_block128_clean.
  - cbn. lia.
  - done.
  - apply (bool_decide_unpack _). by vm_compute.
  - intros s Hs.
    repeat (apply elem_of_cons in Hs as [->|Hs]; [cbn; lia|]).
    by apply elem_of_nil in Hs.
  - reflexivity.
  - intros s Hs.
    repeat (apply elem_of_cons in Hs as [->|Hs]; [by vm_compute|]).
    by apply elem_of_nil in Hs.
  - apply lookup_singleton_eq.
Defined.

Lemma arr_get_cases {A} (arr : list A) i :
  (∃ x, arr_get arr i = Ret x) ∨ arr_get arr i = Fault.
Proof.
  unfold arr_get. destruct (decide (0 ≤ i)); [|by right].
  destruct (arr !! Z.to_nat i); [left; eauto|by right].
Qed.

(** X25. A cache with fewer sets than a page has lines: [cache_groups] is
    a block of [sets / 64 = 0] cells, and [prepare_cache_set_ds], asked
    for at least one set, stores the group of the first chosen set in
    [cache_groups[0]], outside that block; with an empty [sets] array it
    reads [sets[0]] outside of that.  The outcome [Fault] records the
    access outside the block, which C leaves undefined; what a run does
    after it is the allocator's matter (a [malloc(0)] that hands out a
    usable block takes the store) and is not modelled. *)
Theorem prepare_cache_set_ds_small_cache fuel rnd malloc_ok
    (groups0 : list Z) ctx (h : heap) arr (B : gmap Z Z) (sets_arr : list Z)
    sets_len k :
  geometry_ok ctx → alloc_ok ctx h arr →
  (Z.to_nat (nr_of_cachelines ctx) < fuel)%nat →
  sets ctx < CACHE_GROUP_SIZE →
  Z.of_nat (length groups0) = sets ctx / CACHE_GROUP_SIZE →
  1 ≤ sets_len →
  prepare_cache_set_ds fuel rnd true true true malloc_ok groups0 ctx
    (h, arr) B sets_arr sets_len k = Fault.
Proof.
  intros Hgeo Halloc Hfuel Hsmall Hcap Hlen.
  destruct (prepare_cache_ds_run fuel rnd ctx h arr k Hgeo Halloc Hfuel)
    as (cache_ds & h2 & k2 & l & Hprep & _).
  destruct Hgeo as (Hsets & _).
  rewrite Z.div_small in Hcap by lia.
  destruct groups0 as [|g groups0]; [|cbn in Hcap; lia].
  unfold prepare_cache_set_ds. rewrite Hprep. ret_step. cbv zeta.
  cbn [c_assert]. repeat ret_step.
  unfold collect_cache_groups, for_range.
  rewrite seqZ_cons by lia. cbn [foldM].
  destruct (arr_get_cases sets_arr 0) as [[s Hs]|Hs]; rewrite Hs; [|done].
  ret_step. done.
Qed.

Lemma prepare_cache_set_ds_small_cache_witness :
  prepare_cache_set_ds 20 rnd_example true true true true [] ctx_small
    (heap_tagged8, block_lines ctx_small 4096) ∅ [1] 1 O = Fault.
Proof.
  apply (prepare_cache_set_ds_small_cache 20 rnd_example true [] ctx_small
           heap_tagged8 (block_lines ctx_small 4096) ∅ [1] 1 O).
  - exact geometry_ok_small.
  - exact alloc_ok_small.
  - vm_compute. lia.
  - by vm_compute.
  - reflexivity.
  - lia.
Defined.


(** ** victim.c *)

(** X26. [prepare_victim] and [release_victim] with virtual addressing, on
    a block at [cl_arr] aligned to the size of one way whose lines come
    without the first or the last mark: the victim is the line
    [cl_arr + target_set * 64]; it heads a ring of its own made of the
    lines of [target_set], and [release_victim] frees the whole block at
    [cl_arr] and no other. *)
Theorem virtual_victim fuel rnd ctx (m : Z) cl_arr (h : heap)
    (B : gmap Z Z) sz malloc_ok (groups0 : list Z) target_set k :
  geometry_ok ctx → addressing ctx = VIRTUAL → sets ctx = 2 ^ m → 0 ≤ m ≤ 16 →
  2 ≤ associativity ctx →
  0 < cl_arr → cl_arr mod (sets ctx * CACHELINE_SIZE) = 0 →
  cl_arr + nr_of_cachelines ctx * CACHELINE_SIZE ≤ 2 ^ 64 →
  (∀ i, 0 ≤ i < nr_of_cachelines ctx →
     ∃ c, h !! (cl_arr + i * CACHELINE_SIZE) = Some c ∧
          IS_FIRST (flags c) = 0 ∧ IS_LAST (flags c) = 0) →
  (Z.to_nat (nr_of_cachelines ctx) < fuel)%nat →
  0 ≤ target_set < sets ctx →
  Z.of_nat (length groups0) = sets ctx / CACHE_GROUP_SIZE →
  CACHE_GROUP_SIZE ≤ sets ctx →
  B !! cl_arr = Some sz →
  ∃ h0 h' k' R,
    allocate_cache_ds_virtual ctx cl_arr h = Ret (h0, block_lines ctx cl_arr) ∧
    prepare_victim fuel rnd true true true malloc_ok groups0 ctx
      (h0, block_lines ctx cl_arr) B target_set k
      = Ret (cl_arr + target_set * CACHELINE_SIZE,
             ({| cells := h'; blocks := B |}, k')) ∧
    ring h' (cl_arr + target_set * CACHELINE_SIZE :: R) ∧
    cl_arr + target_set * CACHELINE_SIZE :: R
      ≡ₚ lines_of_set h0 target_set (block_lines ctx cl_arr) ∧
    release_victim ctx (cl_arr + target_set * CACHELINE_SIZE)
      {| cells := h'; blocks := B |}
      = Ret {| cells := filter (λ kv, ¬ (cl_arr ≤ kv.1 < cl_arr + sz)) h';
               blocks := delete cl_arr B |}.
Proof.
  intros Hgeo Hvirt Hsets Hm Hassoc2 Hpos Halign Hfit Hdom Hfuel Htarget
    Hcap Hbig HB.
  pose proof Hgeo as (Hs & Ha & Hnr).
  destruct (allocate_virtual_run ctx m cl_arr h)
    as (h0 & Halloc & Htag & _); [done|done|nia|done|done| |].
  { intros i Hi. destruct (Hdom i Hi) as (c & -> & _). eauto. }
  pose proof (allocate_virtual_flags _ _ _ _ _ Halloc) as Hflags.
  pose proof (allocate_virtual_alloc_ok ctx m cl_arr h h0 Hgeo Hsets Htag)
    as Hok.
  destruct (prepare_cache_set_ds_run fuel rnd malloc_ok groups0 ctx h0
              (block_lines ctx cl_arr) B [target_set] k)
    as (victim & h' & k' & T' & Hrun & Hring & Hhead & Hspec & _);
    try done.
  { intros p (i & -> & Hi%elem_of_seqZ)%list_elem_of_fmap. rewrite Hflags.
    destruct (Hdom i) as (c & Hc & Hf1 & Hf2); [lia|].
    exists (flags c). unfold flags_of. by rewrite Hc. }
  { apply NoDup_singleton. }
  { by intros s ->%list_elem_of_singleton. }
  { intros s ->%list_elem_of_singleton.
    unfold CACHE_GROUP_SIZE, PAGE_SIZE, CACHELINE_SIZE in *.
    change (4096 / 64) with 64 in *.
    assert (Hm6 : 6 ≤ m).
    { destruct (decide (6 ≤ m)) as [|Hlt]; [done|]. exfalso.
      assert (m = 0 ∨ m = 1 ∨ m = 2 ∨ m = 3 ∨ m = 4 ∨ m = 5)
        as [->|[->|[->|[->|[->| ->]]]]] by lia; cbn in Hsets; lia. }
    assert (Hq : sets ctx = 2 ^ (m - 6) * 64).
    { rewrite Hsets. change 64 with (2 ^ 6).
      rewrite <- Z.pow_add_r by lia. f_equal. lia. }
    rewrite Hq, Z.div_mul by lia.
    apply Z.div_lt_upper_bound; lia. }
  destruct T' as [|R0 T'']; [by apply Forall2_nil_inv_r in Hspec|].
  apply Forall2_cons_1 in Hspec as [[HR0 Hh0] Hnil].
  apply Forall2_nil_inv_l in Hnil as ->.
  cbn [mjoin list_join] in Hring, Hhead. rewrite app_nil_r in Hring, Hhead.
  rewrite (block_first_of_set ctx cl_arr h0 target_set) in Hh0
    by (first [done | lia]).
  assert (victim = cl_arr + target_set * CACHELINE_SIZE) as ->
    by congruence.
  destruct R0 as [|f R]; [done|]. injection Hhead as ->.
  assert (Hrm : remove_cache_set ctx (cl_arr + target_set * CACHELINE_SIZE)
                = cl_arr).
  { apply (remove_cache_set_first ctx m); try done.
    unfold CACHELINE_SIZE in *. nia. }
  exists h0, h', k', R.
  split; [done|]. split.
  { unfold prepare_victim. cbn [length] in Hrun.
    change (Z.of_nat 1) with 1 in Hrun. rewrite Hrun. ret_step. cbv zeta.
    rewrite decide_False by (rewrite Hvirt; done). by ret_step. }
  split; [done|]. split; [done|].
  unfold release_victim. rewrite decide_True by done.
  rewrite Hrm. unfold free.
  rewrite decide_False by (unfold NULL; lia). cbn [blocks cells].
  by rewrite HB.
Qed.

Lemma virtual_victim_witness :
  ∃ h0 h' k' R,
    allocate_cache_ds_virtual ctx_sets64 4096 heap_block128
      = Ret (h0, block_lines ctx_sets64 4096) ∧
    prepare_victim 200 rnd_example true true true true [0] ctx_sets64
      (h0, block_lines ctx_sets64 4096) {[ 4096 := 8192 ]} 5 O
      = Ret (4096 + 5 * CACHELINE_SIZE,
             ({| cells := h'; blocks := {[ 4096 := 8192 ]} |}, k')) ∧
    ring h' (4096 + 5 * CACHELINE_SIZE :: R) ∧
    4096 + 5 * CACHELINE_SIZE :: R
      ≡ₚ lines_of_set h0 5 (block_lines ctx_sets64 4096) ∧
    release_victim ctx_sets64 (4096 + 5 * CACHELINE_SIZE)
      {| cells := h'; blocks := {[ 4096 := 8192 ]} |}
      = Ret {| cells := filter (λ kv, ¬ (4096 ≤ kv.1 < 4096 + 8192)) h';
               blocks := delete 4096 {[ 4096 := 8192 ]} |}.
Proof.
  apply (virtual_victim 200 rnd_example ctx_sets64 6 4096 heap_block128
           {[ 4096 := 8192 ]} 8192 true [0] 5 O).
  - exact geometry_ok_sets64.
  - reflexivity.
  - reflexivity.
  - lia.
  - cbn. lia.
  - lia.
  - reflexivity.
  - by vm_compute.
  - exact heap_block128_clean.
  - cbn. lia.
  - cbn. lia.
  - reflexivity.
  - by vm_compute.
  - apply lookup_singleton_eq.
Defined.


(** ** release_cache_ds, physical addressing *)

(** The inner loop of [release_cache_ds]: whether [cl_base] is new. *)
Lemma scan_ptrs (ptrs : list (option Z)) (P : list Z) (cl_base : Z) :
  take (length P) ptrs = Some <$> P →
  for_range (Z.of_nat (length P))
    (λ i add_ptr,
       p ← arr_get_init ptrs i;
       Ret (add_ptr && bool_decide (cl_base ≠ p)))
    true = Ret (bool_decide (cl_base ∉ P)).
Proof.
  intros Htake. unfold for_range.
  match goal with |- context [foldM ?body ?l ?s0] =>
    destruct (foldM_inv body l
      (λ i add_ptr, add_ptr = bool_decide (cl_base ∉ take i P)) s0)
      as (b & Hrun & Hb)
  end.
  - rewrite take_0. by rewrite bool_decide_eq_true_2 by apply not_elem_of_nil.
  - intros i x b Hx ->. apply lookup_seqZ in Hx as [-> Hi].
    rewrite Z.add_0_l.
    destruct (lookup_lt_is_Some_2 P i) as [p Hp]; [lia|].
    assert (Hptr : ptrs !! i = Some (Some p)).
    { rewrite <- (lookup_take_lt ptrs (length P)) by lia.
      by rewrite Htake, list_lookup_fmap, Hp. }
    unfold arr_get_init.
    rewrite (arr_get_Ret ptrs _ (Some p)) by (first [lia|by rewrite Nat2Z.id]).
    ret_step. ret_step. eexists. split; [done|].
    rewrite (take_S_r _ _ _ Hp).
    destruct (decide (cl_base = p)) as [->|Hne].
    + rewrite (bool_decide_eq_false_2 (p ≠ p)) by (by intros ?).
      rewrite andb_false_r. symmetry. apply bool_decide_eq_false_2.
      intros Hnot. apply Hnot, elem_of_app. right. left.
    + rewrite (bool_decide_eq_true_2 (cl_base ≠ p)) by done.
      rewrite andb_true_r. apply bool_decide_ext.
      rewrite elem_of_app, list_elem_of_singleton. tauto.
  - rewrite Hrun, Hb, length_seqZ, Nat2Z.id, firstn_all. done.
Qed.

(** The loop of [release_cache_ds] that frees the collected pages. *)
Lemma free_pages_run (ptrs : list (option Z)) (P : list Z) (m : mem) :
  take (length P) ptrs = Some <$> P → NoDup P →
  (∀ b, b ∈ P → b ≠ NULL ∧ is_Some (blocks m !! b)) →
  ∃ m',
    for_range (Z.of_nat (length P))
      (λ i m, p ← arr_get_init ptrs i; free p m) m = Ret m' ∧
    (∀ b, blocks m' !! b = if decide (b ∈ P) then None else blocks m !! b) ∧
    (∀ q b sz, b ∈ P → blocks m !! b = Some sz → b ≤ q < b + sz →
       cells m' !! q = None) ∧
    (∀ q, (∀ b sz, b ∈ P → blocks m !! b = Some sz → ¬ (b ≤ q < b + sz)) →
       cells m' !! q = cells m !! q).
Proof.
  intros Htake Hnd Hlive. unfold for_range.
  match goal with |- context [foldM ?body ?l ?s0] =>
    destruct (foldM_inv body l
      (λ i mi,
         (∀ b, blocks mi !! b
               = if decide (b ∈ take i P) then None else blocks m !! b) ∧
         (∀ q b sz, b ∈ take i P → blocks m !! b = Some sz → b ≤ q < b + sz →
            cells mi !! q = None) ∧
         (∀ q, (∀ b sz, b ∈ take i P → blocks m !! b = Some sz →
                  ¬ (b ≤ q < b + sz)) →
            cells mi !! q = cells m !! q)) s0)
      as (m' & Hrun & HI)
  end.
  - rewrite take_0. split; [|split].
    + intros b. by rewrite decide_False by apply not_elem_of_nil.
    + intros q b sz Hb. by apply elem_of_nil in Hb.
    + done.
  - intros i x mi Hx (Hblocks & Hgone & Hkept).
    apply lookup_seqZ in Hx as [-> Hi]. rewrite Z.add_0_l.
    destruct (lookup_lt_is_Some_2 P i) as [p Hp]; [lia|].
    assert (Hptr : ptrs !! i = Some (Some p)).
    { rewrite <- (lookup_take_lt ptrs (length P)) by lia.
      by rewrite Htake, list_lookup_fmap, Hp. }
    assert (Hpin : p ∈ P) by (by eapply list_elem_of_lookup_2).
    destruct (Hlive p Hpin) as [Hnull [sz Hsz]].
    assert (Hfresh : p ∉ take i P).
    { intros [j [Hj Hlt]]%elem_of_take.
      pose proof (NoDup_lookup P i j p Hnd Hp Hj). lia. }
    unfold arr_get_init.
    rewrite (arr_get_Ret ptrs _ (Some p)) by (first [lia|by rewrite Nat2Z.id]).
    ret_step. ret_step. unfold free. rewrite decide_False by done.
    rewrite Hblocks. rewrite decide_False by done. rewrite Hsz.
    eexists. split; [done|]. cbn [blocks cells].
    rewrite (take_S_r _ _ _ Hp). split; [|split].
    + intros b. destruct (decide (b = p)) as [->|Hne].
      * rewrite lookup_delete_eq. rewrite decide_True; [done|].
        apply elem_of_app. right. left.
      * rewrite lookup_delete_ne by done. rewrite Hblocks.
        destruct (decide (b ∈ take i P)) as [Hin|Hin].
        -- rewrite decide_True; [done|]. apply elem_of_app. by left.
        -- rewrite decide_False; [done|].
           intros [?|?%list_elem_of_singleton]%elem_of_app; done.
    + intros q b sz' [Hb|Hb%list_elem_of_singleton]%elem_of_app Hb' Hq.
      * apply map_lookup_filter_None. left. by apply (Hgone q b sz').
      * subst b. assert (sz' = sz) as -> by congruence.
        apply map_lookup_filter_None. right. intros c _ Hno. by apply Hno.
    + intros q Hq.
      destruct (cells mi !! q) as [c|] eqn:Hc.
      * rewrite <- (Hkept q), Hc.
        -- apply map_lookup_filter_Some. split; [done|]. cbn.
           apply (Hq p sz); [|done]. apply elem_of_app. right. left.
        -- intros b sz' Hb. apply Hq. apply elem_of_app. by left.
      * rewrite <- (Hkept q), Hc.
        -- apply map_lookup_filter_None. by left.
        -- intros b sz' Hb. apply Hq. apply elem_of_app. by left.
  - exists m'. rewrite length_seqZ, Nat2Z.id, firstn_all in HI. done.
Qed.

(** [release_cache_ds] with physical addressing on a ring whose lines lie
    in the live blocks [pages]: every block is freed, once. *)
Lemma release_physical_run fuel ctx (m : mem) e rest (pages : list Z) :
  e ≠ NULL → addressing ctx ≠ VIRTUAL →
  ring (cells m) (e :: rest) → (length rest < fuel)%nat →
  NoDup pages →
  (∀ b, b ∈ pages ↔ ∃ p, p ∈ e :: rest ∧ remove_cache_group_set p = b) →
  Z.of_nat (length pages) ≤ cache_size ctx / PAGE_SIZE →
  cache_size ctx / PAGE_SIZE < 2 ^ 32 →
  (∀ b, b ∈ pages → b ≠ NULL ∧ is_Some (blocks m !! b)) →
  ∃ m',
    release_cache_ds fuel true ctx e m = Ret m' ∧
    (∀ b, blocks m' !! b = if decide (b ∈ pages) then None else blocks m !! b) ∧
    (∀ q b sz, b ∈ pages → blocks m !! b = Some sz → b ≤ q < b + sz →
       cells m' !! q = None) ∧
    (∀ q, (∀ b sz, b ∈ pages → blocks m !! b = Some sz → ¬ (b ≤ q < b + sz)) →
       cells m' !! q = cells m !! q).
Proof.
  intros Hnull Hphys Hring Hfuel Hpnd Hpages Hcap Hcap32 Hlive.
  pose proof (ring_next_cycle _ _ _ Hring) as Hchain.
  pose proof Hring as (_ & Hnd & _).
  rewrite chain_lookup in Hchain.
  set (cap := Z.to_nat (cache_size ctx / PAGE_SIZE)).
  unfold release_cache_ds. rewrite decide_False by done.
  rewrite decide_False by done. cbv zeta. cbn [c_assert]. ret_step.
  fold cap.
  match goal with |- context [do_while fuel ?body ?cond ?s0] =>
    destruct (do_while_along body cond
      (λ k '(curr, ptrs, idx),
         curr = default e ((e :: rest) !! k) ∧ length ptrs = cap ∧
         ∃ P, idx = Z.of_nat (length P) ∧ take (length P) ptrs = Some <$> P ∧
              NoDup P ∧
              ∀ b, b ∈ P ↔ ∃ p, p ∈ take k (e :: rest) ∧
                                remove_cache_group_set p = b)
      (S (length rest)) fuel s0)
      as ([[curr ptrs] idx] & Hrun & Hcurr & Hlen & P & -> & Htake & HPnd & HP)
  end.
  - lia.
  - lia.
  - split; [done|]. split; [by rewrite length_replicate|]. exists [].
    split; [done|]. split; [done|]. split; [apply NoDup_nil_2|].
    intros b. split; [by intros ?%elem_of_nil|].
    by intros (p & ?%elem_of_nil & _).
  - intros k [[curr ptrs] idx] Hk (Hcurr & Hlen & P & -> & Htake & HPnd & HP).
    destruct (lookup_lt_is_Some_2 (e :: rest) k) as [p Hp];
      [cbn [length]; lia|].
    rewrite Hp in Hcurr. change (default e (Some p)) with p in Hcurr.
    subst curr.
    pose proof (Hchain k p Hp) as Hnext.
    destruct (cycle_step e rest k Hnd Hk) as (_ & _ & Hcond).
    apply next_of_Some in Hnext as (c & Hc & Hnc).
    assert (Hpin : p ∈ e :: rest) by (by eapply list_elem_of_lookup_2).
    set (base := remove_cache_group_set p).
    assert (Hsub : ∀ b, b ∈ P → b ∈ pages).
    { intros b (q & Hq & <-)%HP. apply Hpages. exists q.
      split; [by eapply elem_of_take_in|done]. }
    rewrite (load_Ret _ _ _ Hc). ret_step. cbv zeta. fold base.
    rewrite (scan_ptrs ptrs P base Htake). ret_step.
    rewrite (take_S_r _ _ _ Hp).
    destruct (decide (base ∈ P)) as [Hold|Hnew].
    + rewrite bool_decide_eq_false_2 by (by intros ?).
      eexists. split; [done|]. split; [|by rewrite Hnc, Hcond].
      split; [by rewrite Hnc|]. split; [done|]. exists P.
      split; [done|]. split; [done|]. split; [done|].
      intros b. rewrite HP. split.
      * intros (q & Hq & <-). exists q. split; [|done].
        apply elem_of_app. by left.
      * intros (q & [Hq|Hq%list_elem_of_singleton]%elem_of_app & <-).
        -- by exists q.
        -- subst q. by apply HP.
    + rewrite bool_decide_eq_true_2 by done.
      assert (HPnd' : NoDup (P ++ [base])).
      { apply NoDup_app. split; [done|]. split; [|apply NoDup_singleton].
        intros b Hb ->%list_elem_of_singleton. done. }
      assert (Hfit : (length P < cap)%nat).
      { assert (Hsub' : P ++ [base] ⊆+ pages).
        { apply NoDup_submseteq; [done|].
          intros b [Hb| ->%list_elem_of_singleton]%elem_of_app;
            [by apply Hsub|].
          apply Hpages. by exists p. }
        apply submseteq_length in Hsub'. rewrite length_app in Hsub'.
        cbn [length] in Hsub'. unfold cap. lia. }
      rewrite arr_set_Ret by lia. ret_step.
      eexists. split; [done|]. split; [|by rewrite Hnc, Hcond].
      split; [by rewrite Hnc|]. rewrite length_insert. split; [done|].
      exists (P ++ [base]). rewrite length_app. cbn [length].
      split; [unfold u32; rewrite Z.mod_small; unfold cap in Hfit; lia|].
      split.
      { rewrite Nat2Z.id. replace (length P + 1)%nat with (S (length P)) by lia.
        erewrite take_S_r; [|apply list_lookup_insert_eq; lia].
        rewrite take_insert_ge by lia. by rewrite Htake, fmap_app. }
      split; [done|].
      intros b. rewrite elem_of_app, HP, list_elem_of_singleton. split.
      * intros [(q & Hq & <-)| ->].
        -- exists q. split; [|done]. apply elem_of_app. by left.
        -- exists p. split; [|done]. apply elem_of_app. right. left.
      * intros (q & [Hq|Hq%list_elem_of_singleton]%elem_of_app & <-).
        -- left. by exists q.
        -- subst q. by right.
  - rewrite Hrun. ret_step.
    rewrite firstn_all2 in HP by (cbn [length]; lia).
    assert (HPp : P ≡ₚ pages).
    { apply NoDup_Permutation; [done|done|]. intros b. by rewrite HP, Hpages. }
    destruct (free_pages_run ptrs P m Htake HPnd) as (m' & Hfree & Hb & Hg & Hk).
    { intros b Hb. apply Hlive. by rewrite <- HPp. }
    exists m'. split; [done|]. split; [|split].
    + intros b. rewrite Hb.
      destruct (decide (b ∈ P)) as [Hin|Hin].
      * by rewrite decide_True by (by rewrite <- HPp).
      * by rewrite decide_False by (by rewrite <- HPp).
    + intros q b sz Hin. apply Hg. by rewrite HPp.
    + intros q Hq. apply Hk. intros b sz Hin. apply Hq. by rewrite <- HPp.
Qed.

(** X27. [release_cache_ds] with physical addressing, on a ring whose
    lines lie in live blocks, when [ptrs_to_free] ([cache_size / 4096]
    cells) has a cell for each of these blocks: it returns; every block
    that holds a line of the ring is handed to [free] exactly once, so all
    of them are gone and none is freed twice; the other blocks and the
    cells outside the freed blocks are as before. *)
Theorem release_cache_ds_physical fuel ctx (m : mem) e rest (pages : list Z) :
  e ≠ NULL → addressing ctx ≠ VIRTUAL →
  ring (cells m) (e :: rest) → (length rest < fuel)%nat →
  NoDup pages →
  (∀ b, b ∈ pages ↔ ∃ p, p ∈ e :: rest ∧ remove_cache_group_set p = b) →
  Z.of_nat (length pages) ≤ cache_size ctx / PAGE_SIZE →
  cache_size ctx / PAGE_SIZE < 2 ^ 32 →
  (∀ b, b ∈ pages → b ≠ NULL ∧ is_Some (blocks m !! b)) →
  ∃ m',
    release_cache_ds fuel true ctx e m = Ret m' ∧
    (∀ b, blocks m' !! b = if decide (b ∈ pages) then None else blocks m !! b) ∧
    (∀ q b sz, b ∈ pages → blocks m !! b = Some sz → b ≤ q < b + sz →
       cells m' !! q = None) ∧
    (∀ q, (∀ b sz, b ∈ pages → blocks m !! b = Some sz → ¬ (b ≤ q < b + sz)) →
       cells m' !! q = cells m !! q).
Proof. apply release_physical_run. Qed.

Lemma release_cache_ds_physical_witness :
  ∃ m',
    release_cache_ds 5 true ctx_L2 4096 mem3 = Ret m' ∧
    (∀ b, blocks m' !! b
          = if decide (b ∈ [4096]) then None else blocks mem3 !! b) ∧
    (∀ q b sz, b ∈ [4096] → blocks mem3 !! b = Some sz → b ≤ q < b + sz →
       cells m' !! q = None) ∧
    (∀ q, (∀ b sz, b ∈ [4096] → blocks mem3 !! b = Some sz →
             ¬ (b ≤ q < b + sz)) →
       cells m' !! q = cells mem3 !! q).
Proof.
  apply (release_cache_ds_physical 5 ctx_L2 mem3 4096 [4160; 4224] [4096]).
  - done.
  - done.
  - exact ring_heap3.
  - cbn. lia.
  - apply NoDup_singleton.
  - intros b. rewrite list_elem_of_singleton. split.
    + intros ->. exists 4096. split; [left|reflexivity].
    + intros (p & Hp & <-).
      repeat (apply elem_of_cons in Hp as [->|Hp]; [reflexivity|]).
      by apply elem_of_nil in Hp.
  - by vm_compute.
  - by vm_compute.
  - intros b ->%list_elem_of_singleton. split; [done|].
    exists 4096. reflexivity.
Defined.


(** ** prepare_cache_set_ds on a direct-mapped cache *)

(** [extract_sets] on a ring without a line flagged as first leaves
    [first_cl_in_sets] as [calloc] returned it. *)
Lemma extract_sets_no_first fuel ctx cg len (h : heap) e rest :
  addressing ctx ≠ PHYSICAL → ring h (e :: rest) → (length rest < fuel)%nat →
  (∀ p, p ∈ e :: rest → ∃ s, 0 ≤ s < sets ctx ∧ tag_of h p = Some s) →
  (∀ p, p ∈ e :: rest → ¬ first_flagged h p) →
  ∃ la,
    extract_sets fuel ctx cg len e h (replicate (Z.to_nat (sets ctx)) NULL)
      (replicate (Z.to_nat (sets ctx)) NULL)
      = Ret (e, h, replicate (Z.to_nat (sets ctx)) NULL, la, NULL) ∧
    length la = Z.to_nat (sets ctx).
Proof.
  intros Hvirt Hring Hfuel Htags Hnone.
  pose proof (ring_next_cycle _ _ _ Hring) as Hchain.
  pose proof Hring as (_ & Hnd & _).
  rewrite chain_lookup in Hchain.
  unfold extract_sets.
  match goal with |- context [do_while fuel ?body ?cond ?s0] =>
    destruct (do_while_along body cond
      (λ k '(curr, hk, fa, la, to_del),
         curr = default e ((e :: rest) !! k) ∧ hk = h ∧ to_del = NULL ∧
         fa = replicate (Z.to_nat (sets ctx)) NULL ∧
         length la = Z.to_nat (sets ctx))
      (S (length rest)) fuel s0)
      as ([[[[curr hk] fa] la] to_del] & Hrun & Hcurr & -> & -> & -> & Hll)
  end.
  - lia.
  - lia.
  - by rewrite length_replicate.
  - intros k [[[[curr hk] fa] la] to_del] Hk (Hcurr & -> & -> & -> & Hll).
    destruct (lookup_lt_is_Some_2 (e :: rest) k) as [p Hp];
      [cbn [length]; lia|].
    rewrite Hp in Hcurr. change (default e (Some p)) with p in Hcurr.
    subst curr.
    pose proof (Hchain k p Hp) as Hnext.
    destruct (cycle_step e rest k Hnd Hk) as (_ & _ & Hcond).
    apply next_of_Some in Hnext as (c & Hc & Hnc).
    assert (Hpin : p ∈ e :: rest) by (by eapply list_elem_of_lookup_2).
    destruct (Htags p Hpin) as (s & Hs & Htag).
    assert (Hcs : cache_set c = s).
    { unfold tag_of in Htag. rewrite Hc in Htag. by injection Htag. }
    pose proof (Hnone p Hpin) as Hnf.
    rewrite (first_flagged_load h p c Hc) in Hnf.
    set (bl := bool_decide (IS_LAST (flags c) ≠ 0)).
    exists (next c, h, replicate (Z.to_nat (sets ctx)) NULL,
            (if bl then <[Z.to_nat s := p]> la else la), NULL).
    split.
    { rewrite (load_Ret _ _ _ Hc). ret_step. cbv zeta. rewrite Hcs.
      rewrite (decide_False (P := IS_FIRST (flags c) ≠ 0)) by done.
      ret_step. unfold bl.
      destruct (decide (IS_LAST (flags c) ≠ 0)) as [Hl|Hl]; cbv beta iota;
        [rewrite bool_decide_eq_true_2 by done;
         rewrite (arr_set_Ret la) by lia
        |rewrite bool_decide_eq_false_2 by done]; ret_step;
        rewrite decide_False by done; by repeat ret_step. }
    split; [|by rewrite Hnc, Hcond].
    split; [by rewrite Hnc|]. split; [done|]. split; [done|].
    split; [done|]. by destruct bl; rewrite ?length_insert.
  - rewrite (lookup_ge_None_2 (e :: rest)) in Hcurr by (cbn [length]; lia).
    change (default e None) with e in Hcurr. subst curr.
    by exists la.
Qed.

Lemma store_next_cases (h : heap) p v :
  (∃ c, h !! p = Some c ∧ store_next h p v = Ret (<[p := set_next c v]> h)) ∨
  store_next h p v = Fault.
Proof.
  unfold store_next, load. destruct (h !! p) as [c|]; [left|by right].
  exists c. by rewrite bind_Ret.
Qed.

Lemma store_prev_null (h : heap) v : h !! NULL = None → store_prev h NULL v = Fault.
Proof. intros Hnull. unfold store_prev, load. by rewrite Hnull. Qed.

(** [fix_partial_ds] with an empty [first_cl_in_sets] stores through the
    null pointer in its first round. *)
Lemma fix_partial_ds_null (h : heap) (sets_arr la : list Z) n :
  sets_arr ≠ [] → Z.of_nat (length sets_arr) < 2 ^ 32 →
  (∀ s, s ∈ sets_arr → 0 ≤ s < n) → length la = Z.to_nat n →
  h !! NULL = None →
  fix_partial_ds sets_arr (Z.of_nat (length sets_arr))
    (replicate (Z.to_nat n) NULL) la h = Fault.
Proof.
  intros Hne Hsmall Hrange Hla Hnull.
  destruct sets_arr as [|s0 sets_rest] eqn:Hsa; [done|]. rewrite <- Hsa in *.
  assert (Hlen : 1 ≤ Z.of_nat (length sets_arr)) by (rewrite Hsa; cbn; lia).
  assert (Hs0 : sets_arr !! O = Some s0) by (by rewrite Hsa).
  assert (Hs0r : 0 ≤ s0 < n) by (apply Hrange; by eapply list_elem_of_lookup_2).
  set (j := u32 (0 + 1) mod Z.of_nat (length sets_arr)).
  assert (Hj : 0 ≤ j < Z.of_nat (length sets_arr))
    by (apply Z.mod_pos_bound; lia).
  destruct (lookup_lt_is_Some_2 sets_arr (Z.to_nat j)) as [s1 Hs1]; [lia|].
  assert (Hs1r : 0 ≤ s1 < n) by (apply Hrange; by eapply list_elem_of_lookup_2).
  destruct (lookup_lt_is_Some_2 la (Z.to_nat s0)) as [l Hl]; [lia|].
  unfold fix_partial_ds, for_range. rewrite seqZ_cons by lia. cbn [foldM].
  fold j.
  rewrite (arr_get_Ret sets_arr 0 s0) by done. ret_step.
  rewrite (arr_get_Ret la s0 l) by (first [lia|done]). ret_step.
  rewrite (arr_get_Ret sets_arr j s1) by (first [lia|done]). ret_step.
  rewrite (arr_get_Ret (replicate (Z.to_nat n) NULL) s1 NULL)
    by (first [lia|apply lookup_replicate_2; lia]).
  ret_step.
  destruct (store_next_cases h l NULL) as [(c & Hc & ->)| ->]; [|done].
  ret_step. rewrite store_prev_null; [done|].
  assert (l ≠ NULL) by (intros ->; congruence).
  by rewrite lookup_insert_ne.
Qed.

(** X28. A direct-mapped cache ([associativity = 1]), virtual addressing:
    the one line of a set is its first and its last line, and
    [build_randomized_list_for_cache_set] overwrites the first mark with
    the last mark; so [prepare_cache_set_ds] finds no first line, leaves
    [first_cl_in_sets] null, and stores through the null pointer when it
    links the chosen sets. It never returns a data structure. *)
Theorem prepare_cache_set_ds_direct_mapped fuel rnd malloc_ok
    (groups0 : list Z) ctx (h : heap) arr (B : gmap Z Z) (sets_arr : list Z)
    k :
  geometry_ok ctx → addressing ctx = VIRTUAL → alloc_ok ctx h arr →
  associativity ctx = 1 → h !! NULL = None →
  (Z.to_nat (nr_of_cachelines ctx) < fuel)%nat →
  sets_arr ≠ [] → Z.of_nat (length sets_arr) < 2 ^ 32 →
  (∀ s, s ∈ sets_arr → 0 ≤ s < sets ctx) →
  Z.of_nat (length groups0) = sets ctx / CACHE_GROUP_SIZE →
  (∀ s, s ∈ sets_arr → s / CACHE_GROUP_SIZE < sets ctx / CACHE_GROUP_SIZE) →
  prepare_cache_set_ds fuel rnd true true true malloc_ok groups0 ctx
    (h, arr) B sets_arr (Z.of_nat (length sets_arr)) k = Fault.
Proof.
  intros Hgeo Hvirt Halloc Hassoc1 Hnull Hfuel Hne Hsmall Hrange Hcap Hfit.
  destruct (prepare_cache_ds_full fuel rnd ctx h arr k Hgeo Halloc Hfuel)
    as (cache_ds & h2 & k2 & T & σ & Hprep & Hring & Hhead & Hperm & Htag &
        Hσ & HTlen & HT).
  pose proof Hgeo as (Hsets & Hassoc & Hnr).
  pose proof Halloc as (Hlen & Harrnd & Htags & Hcnt).
  assert (HsetsZ : 0 ≤ sets ctx / CACHE_GROUP_SIZE ≤ 65535).
  { unfold CACHE_GROUP_SIZE, PAGE_SIZE, CACHELINE_SIZE.
    change (4096 / 64) with 64. split; [apply Z.div_pos; lia|].
    apply Z.div_le_upper_bound; lia. }
  destruct (collect_cache_groups_run sets_arr groups0)
    as (cg & len & Hcoll & _); [lia| |].
  { intros s Hs. rewrite Hcap. split; [|by apply Hfit].
    apply Z.div_pos; [apply Hrange in Hs; lia|done]. }
  apply head_Some in Hhead as Hrest. destruct Hrest as [rest HV].
  assert (Hrestlen : Z.of_nat (length rest) < nr_of_cachelines ctx).
  { rewrite <- Hlen, <- Hperm, HV. cbn [length]. lia. }
  rewrite HV in Hring.
  destruct (extract_sets_no_first fuel ctx cg len h2 cache_ds rest)
    as (la & Hext & Hla); [by rewrite Hvirt|done|lia| | |].
  { intros p Hp. rewrite Htag. apply Htags. by rewrite <- Hperm, HV. }
  { intros p Hp (f & Hf & Hfirst). rewrite <- HV in Hp.
    apply list_elem_of_join in Hp as (R & Hp & [i Hi]%list_elem_of_lookup_1).
    destruct (HT i R Hi) as (s & Hs & HR & _ & Hflags).
    assert (Hsr : 0 ≤ s < sets ctx).
    { apply list_elem_of_lookup_2 in Hs. rewrite Hσ in Hs.
      apply elem_of_seqZ in Hs. lia. }
    assert (HRlen : Z.of_nat (length R) = 1).
    { rewrite HR, <- Hassoc1. by apply Hcnt. }
    destruct R as [|p' [|? ?]]; [cbn in HRlen; lia| |cbn in HRlen; lia].
    apply list_elem_of_singleton in Hp as ->.
    rewrite (Hflags p') in Hf by left. cbn [last] in Hf.
    rewrite decide_True in Hf by done. injection Hf as <-.
    by apply Hfirst. }
  assert (Hnull2 : h2 !! NULL = None).
  { apply eq_None_not_Some. rewrite <- tag_of_is_Some, Htag, tag_of_is_Some.
    by rewrite Hnull; intros [? ?]. }
  unfold prepare_cache_set_ds. rewrite Hprep. ret_step. cbv zeta.
  cbn [c_assert]. repeat ret_step. rewrite Hcoll. ret_step.
  rewrite Hext. ret_step.
  rewrite (fix_partial_ds_null h2 sets_arr la (sets ctx)); try done.
Qed.

Lemma prepare_cache_set_ds_direct_mapped_witness :
  prepare_cache_set_ds 100 rnd_example true true true true [0] ctx_direct64
    (heap_tagged128, block_lines ctx_direct64 4096) ∅ [5; 3]
    (Z.of_nat (length [5; 3])) O = Fault.
Proof.
  apply (prepare_cache_set_ds_direct_mapped 100 rnd_example true [0]
           ctx_direct64 heap_tagged128 (block_lines ctx_direct64 4096) ∅
           [5; 3] O).
  - repeat split; cbn; lia.
  - reflexivity.
  - apply (allocate_virtual_alloc_ok ctx_direct64 6 4096 heap_tagged128
             heap_tagged128).
    + repeat split; cbn; lia.
    + reflexivity.
    + intros i Hi. apply heap_tagged128_tags. cbn in Hi |- *. lia.
  - reflexivity.
  - reflexivity.
  - cbn. lia.
  - done.
  - cbn. lia.
  - intros s Hs.
    repeat (apply elem_of_cons in Hs as [->|Hs]; [cbn; lia|]).
    by apply elem_of_nil in Hs.
  - reflexivity.
  - intros s Hs.
    repeat (apply elem_of_cons in Hs as [->|Hs]; [by vm_compute|]).
    by apply elem_of_nil in Hs.
Defined.


(** ** From the builder to the readers *)

(** X29. The structure [prepare_cache_ds] builds, when every set has at
    least two lines and no line came with the first mark in its flags,
    has exactly one line flagged as first per set, the line of the set
    that comes first in the array. So whatever measurements are stored in
    the lines afterwards, [get_msrmts_for_all_set] copies to [res[s]],
    for every set [s], the measurement held by that line. *)
Theorem prepared_ds_read_all fuel rnd ctx (h : heap) arr k :
  geometry_ok ctx → alloc_ok ctx h arr → 2 ≤ associativity ctx →
  (∀ p, p ∈ arr → ∃ f, flags_of h p = Some f ∧ IS_FIRST f = 0) →
  (Z.to_nat (nr_of_cachelines ctx) < fuel)%nat →
  ∃ cache_ds h' k',
    prepare_cache_ds fuel rnd ctx (h, arr) k = Ret (cache_ds, (h', k')) ∧
    ∀ (h'' : heap) (res : list Z),
      (∀ q, next_of h'' q = next_of h' q ∧ prev_of h'' q = prev_of h' q ∧
            tag_of h'' q = tag_of h' q ∧ flags_of h'' q = flags_of h' q) →
      length res = Z.to_nat (sets ctx) →
      ∃ res',
        get_msrmts_for_all_set fuel h'' cache_ds res = Ret res' ∧
        length res' = length res ∧
        ∀ s f, 0 ≤ s < sets ctx → head (lines_of_set h s arr) = Some f →
          res' !! Z.to_nat s = time_of h'' f.
Proof.
  intros Hgeo Halloc Hassoc2 Hclean Hfuel.
  destruct (prepare_cache_ds_full fuel rnd ctx h arr k Hgeo Halloc Hfuel)
    as (cache_ds & h' & k' & T & σ & Hprep & Hring & Hhead & Hperm & Htag &
        Hσ & HTlen & HT).
  pose proof Hgeo as (Hsets & Hassoc & Hnr).
  pose proof Halloc as (Hlen & Harrnd & Htags & Hcnt).
  assert (Hσnd : NoDup σ) by (rewrite Hσ; apply NoDup_seqZ).
  assert (Hσr : ∀ s, s ∈ σ → 0 ≤ s < sets ctx).
  { intros s Hs. rewrite Hσ in Hs. apply elem_of_seqZ in Hs. lia. }
  assert (HTfacts : ∀ i R, T !! i = Some R →
    ∃ s, σ !! i = Some s ∧ head R = head (lines_of_set h s arr) ∧ R ≠ [] ∧
         ∀ p, p ∈ R → tag_of h' p = Some s ∧
                      (first_flagged h' p ↔ head R = Some p)).
  { intros i R Hi. destruct (HT i R Hi) as (s & Hs & HR & HhR & Hflags).
    assert (Hsr : 0 ≤ s < sets ctx)
      by (apply Hσr; by eapply list_elem_of_lookup_2).
    assert (HRnd : NoDup R) by (rewrite HR; by apply NoDup_filter).
    assert (HRlen : Z.of_nat (length R) = associativity ctx)
      by (rewrite HR; by apply Hcnt).
    exists s. split; [done|]. split; [done|].
    split; [intros ->; cbn in HRlen; lia|].
    intros p Hp. pose proof Hp as Hp'. rewrite HR in Hp'.
    apply lines_of_set_elem in Hp' as [Htp Hparr].
    split; [by rewrite Htag|].
    destruct (Hclean p Hparr) as (f & Hf & Hf1).
    unfold first_flagged. rewrite (Hflags p Hp).
    destruct (decide (last R = Some p)) as [Hl|Hl].
    - split; [by intros (? & [= <-] & ?)|].
      intros Hh. exfalso. apply (head_last_distinct R p); [done|lia|done|done].
    - destruct (decide (head R = Some p)) as [Hh|Hh].
      + split; [done|]. intros _. by eexists.
      + rewrite Hf. split; [intros (? & [= <-] & ?); congruence|done]. }
  exists cache_ds, h', k'. split; [done|].
  intros h'' res Hsame Hres.
  apply head_Some in Hhead as Hrest. destruct Hrest as [rest HV].
  assert (Hseg : ∀ p, p ∈ cache_ds :: rest → ∃ i R, T !! i = Some R ∧ p ∈ R).
  { intros p Hp. rewrite <- HV in Hp.
    apply list_elem_of_join in Hp as (R & Hp & [i Hi]%list_elem_of_lookup_1).
    eauto. }
  assert (Hff : ∀ p, first_flagged h'' p ↔ first_flagged h' p).
  { intros p. unfold first_flagged. destruct (Hsame p) as (_ & _ & _ & ->).
    done. }
  assert (Hring'' : ring h'' (cache_ds :: rest)).
  { rewrite <- HV. apply (ring_ext_links h'); [|done].
    intros q _. destruct (Hsame q) as (-> & -> & _). done. }
  assert (Hrestlen : Z.of_nat (length rest) < nr_of_cachelines ctx).
  { rewrite <- Hlen, <- Hperm, HV. cbn [length]. lia. }
  destruct (get_msrmts_for_all_set_run fuel h'' cache_ds rest res)
    as (res' & Hrun & Hl & Hread & _); [done|lia| | |].
  { intros p Hp. destruct (Hseg p Hp) as (i & R & Hi & HpR).
    destruct (HTfacts i R Hi) as (s & Hs & _ & _ & Hfacts).
    destruct (Hfacts p HpR) as [Htp _]. exists s.
    destruct (Hsame p) as (_ & _ & -> & _). split; [|done].
    apply list_elem_of_lookup_2, Hσr in Hs. lia. }
  { intros p q Hp Hq Hfp Hfq Heq.
    destruct (Hseg p Hp) as (i & R & Hi & HpR).
    destruct (Hseg q Hq) as (j & R' & Hj & HqR).
    destruct (HTfacts i R Hi) as (s & Hs & _ & _ & Hfacts).
    destruct (HTfacts j R' Hj) as (s' & Hs' & _ & _ & Hfacts').
    destruct (Hfacts p HpR) as [Htp Hmp].
    destruct (Hfacts' q HqR) as [Htq Hmq].
    destruct (Hsame p) as (_ & _ & Hsp & _).
    destruct (Hsame q) as (_ & _ & Hsq & _).
    assert (s = s') as <- by congruence.
    assert (i = j) as <- by (by apply (NoDup_lookup σ i j s)).
    assert (R' = R) as -> by congruence.
    apply Hff, Hmp in Hfp. apply Hff, Hmq in Hfq. congruence. }
  exists res'. split; [done|]. split; [done|].
  intros s f Hs Hf.
  assert (Hin : s ∈ σ) by (rewrite Hσ; apply elem_of_seqZ; lia).
  apply list_elem_of_lookup_1 in Hin as [i Hi].
  destruct (lookup_lt_is_Some_2 T i) as [R HR].
  { rewrite HTlen. by eapply lookup_lt_Some. }
  destruct (HTfacts i R HR) as (s' & Hs' & HhR & _ & Hfacts).
  assert (s' = s) as -> by congruence.
  rewrite Hf in HhR.
  assert (HfR : f ∈ R) by (by apply head_Some_elem_of).
  destruct (Hfacts f HfR) as [Htf Hmf].
  apply (Hread f s).
  - rewrite <- HV. apply list_elem_of_join. exists R.
    split; [done|by eapply list_elem_of_lookup_2].
  - apply Hff, Hmf. done.
  - destruct (Hsame f) as (_ & _ & -> & _). done.
Qed.

Lemma heap_tagged8_clean (p : Z) :
  p ∈ block_lines ctx_small 4096 →
  ∃ f, flags_of heap_tagged8 p = Some f ∧ IS_FIRST f = 0.
Proof.
  intros Hp. exists 0.
  assert (Hall : Forall (λ p, flags_of heap_tagged8 p = Some 0)
                   (block_lines ctx_small 4096)).
  { apply (bool_decide_unpack _). by vm_compute. }
  rewrite Forall_forall in Hall. split; [by apply Hall|done].
Qed.

Lemma prepared_ds_read_all_witness :
  ∃ cache_ds h' k',
    prepare_cache_ds 20 rnd_example ctx_small
      (heap_tagged8, block_lines ctx_small 4096) O
      = Ret (cache_ds, (h', k')) ∧
    ∀ (h'' : heap) (res : list Z),
      (∀ q, next_of h'' q = next_of h' q ∧ prev_of h'' q = prev_of h' q ∧
            tag_of h'' q = tag_of h' q ∧ flags_of h'' q = flags_of h' q) →
      length res = Z.to_nat (sets ctx_small) →
      ∃ res',
        get_msrmts_for_all_set 20 h'' cache_ds res = Ret res' ∧
        length res' = length res ∧
        ∀ s f, 0 ≤ s < sets ctx_small →
          head (lines_of_set heap_tagged8 s (block_lines ctx_small 4096))
            = Some f →
          res' !! Z.to_nat s = time_of h'' f.
Proof.
  apply (prepared_ds_read_all 20 rnd_example ctx_small heap_tagged8
           (block_lines ctx_small 4096) O).
  - exact geometry_ok_small.
  - exact alloc_ok_small.
  - cbn. lia.
  - exact heap_tagged8_clean.
  - vm_compute. lia.
Defined.
